(** * Hunter orchestration core: a shallow embedding of the native C++ sources

    The development follows the layout of [native/android/app/src/main/cpp]:
    - [Utils]        core/utils.cpp      (strings, base64, tiers, file lines, prioritizer)
    - [Json]         the part of nlohmann::json the sources rely on
    - [UriParser]    parsers/uri_parser.cpp
    - [Cache]        cache/cache.cpp
    - [Scraper]      telegram/scraper.cpp
    - [Obfuscation]  security/obfuscation.cpp
    - [Balancer]     proxy/load_balancer.cpp

    Conventions.  A C++ [int] is a [Z]; conversions that narrow wrap around
    ([to_int]).  A [std::string] is a [string] of bytes.  A C++ exception is a
    [Throws] outcome; [try_catch] is [try { ... } catch (...) { ... }].
    A [double] is a finite rational, an infinity or a NaN, with the IEEE
    comparisons.  [std::set<std::string>] is a [gset string] when only
    membership is observed and a list when the iteration order is. *)

From stdpp Require Import gmap strings list fin_maps sorting.
From Stdlib Require Import ZArith QArith Lia Ascii.

#[global] Set Warnings "-register-all,-clear-no-such-hyp".
#[global] Open Scope string_scope.
#[global] Open Scope list_scope.
#[global] Open Scope stdpp_scope.

(** ** Exceptions *)

Inductive exn :=
  | out_of_range
  | invalid_argument
  | json_parse_error
  | json_type_error
  | other_exception.

Inductive outcome (A : Type) :=
  | Returns (a : A)
  | Throws (e : exn).
Arguments Returns {A} a.
Arguments Throws {A} e.

Definition obind {A B} (m : outcome A) (k : A → outcome B) : outcome B :=
  match m with
  | Returns a => k a
  | Throws e => Throws e
  end.

(** [try { body } catch (...) { handler }] *)
Definition try_catch {A} (body : outcome A) (handler : outcome A) : outcome A :=
  match body with
  | Returns a => Returns a
  | Throws _ => handler
  end.

#[global] Instance outcome_ret : MRet outcome := fun _ a => Returns a.
#[global] Instance outcome_bind : MBind outcome := fun _ _ k m => obind m k.

(** ** Machine integers *)

Definition wrap (w : Z) (z : Z) : Z :=
  ((z + 2 ^ (w - 1)) mod 2 ^ w - 2 ^ (w - 1))%Z.

(** [static_cast<int>] of a wider integer *)
Definition to_int (z : Z) : Z := wrap 32 z.

Definition INT_MAX : Z := 2147483647.
Definition INT_MIN : Z := (-2147483648)%Z.

(** ** Doubles *)

Inductive double :=
  | DFinite (q : Q)
  | DInfinity (negative : bool)
  | DNaN.

Definition Qltb (a b : Q) : bool :=
  (Qnum a * Zpos (Qden b) <? Qnum b * Zpos (Qden a))%Z.

(** [a < b] on doubles: false as soon as one side is a NaN *)
Definition dlt (a b : double) : bool :=
  match a, b with
  | DNaN, _ | _, DNaN => false
  | DFinite x, DFinite y => Qltb x y
  | DFinite _, DInfinity neg => negb neg
  | DInfinity neg, DFinite _ => neg
  | DInfinity n1, DInfinity n2 => n1 && negb n2
  end.

(** [a > b] *)
Definition dgt (a b : double) : bool := dlt b a.

Definition dconst (z : Z) : double := DFinite (inject_Z z).

(** ** The C++ standard library behind the sources

    What the sources take from the standard library without spelling it
    out: formatted hexadecimal extraction from a stream, [std::hash] on
    strings and [std::shuffle] driven by the function-local generator.
    [std::shuffle] permutes its range; that is all the sources rely on. *)

Class StdLib := {
  (** [std::istringstream iss(s); iss >> std::hex >> hex], [None] when the
      extraction fails *)
  istream_hex : string → option Z;
  (** [std::hash<std::string>{}(s)], a [size_t] *)
  std_hash : string → Z;
  (** state of the [static std::mt19937 rng] *)
  rng : Type;
  std_shuffle : rng → list string → list string * rng;
  std_shuffle_perm : ∀ g v, (std_shuffle g v).1 ≡ₚ v;
}.

Module Utils.

(** *** String utilities *)

Definition byte_of (c : ascii) : Z := Z.of_nat (nat_of_ascii c).

(** [::tolower] in the "C" locale *)
Definition tolower (c : ascii) : ascii :=
  let n := nat_of_ascii c in
  if (65 <=? n)%nat && (n <=? 90)%nat then ascii_of_nat (n + 32) else c.

Fixpoint to_lower (s : string) : string :=
  match s with
  | EmptyString => EmptyString
  | String c s' => String (tolower c) (to_lower s')
  end.

Fixpoint str_drop (n : nat) (s : string) : string :=
  match n, s with
  | O, _ => s
  | S n', String _ s' => str_drop n' s'
  | S _, EmptyString => EmptyString
  end.

Fixpoint str_take (n : nat) (s : string) : string :=
  match n, s with
  | S n', String c s' => String c (str_take n' s')
  | _, _ => EmptyString
  end.

(** [s.substr(pos, len)] for a position known to be within the string *)
Definition substr (s : string) (pos len : nat) : string :=
  str_take len (str_drop pos s).

(** [s.substr(pos)], which throws [std::out_of_range] when [pos > s.size()] *)
Definition substr_from (s : string) (pos : nat) : outcome string :=
  if (pos <=? String.length s)%nat then Returns (str_drop pos s)
  else Throws out_of_range.

(** [s.find(pat)]; [None] is [std::string::npos] *)
Fixpoint find (pat s : string) : option nat :=
  if String.prefix pat s then Some O
  else match s with
       | EmptyString => None
       | String _ s' => S <$> find pat s'
       end.

Definition ascii_eqb (a b : ascii) : bool := Ascii.eqb a b.

(** [s.find(c)] *)
Fixpoint find_char (c : ascii) (s : string) : option nat :=
  match s with
  | EmptyString => None
  | String d s' => if ascii_eqb c d then Some O else S <$> find_char c s'
  end.

(** [s.rfind(c)] *)
Fixpoint rfind_char (c : ascii) (s : string) : option nat :=
  match s with
  | EmptyString => None
  | String d s' =>
      match rfind_char c s' with
      | Some i => Some (S i)
      | None => if ascii_eqb c d then Some O else None
      end
  end.

(** [s.find(pat) != std::string::npos] *)
Definition contains (pat s : string) : bool :=
  match find pat s with Some _ => true | None => false end.

Definition contains_char (c : ascii) (s : string) : bool :=
  match find_char c s with Some _ => true | None => false end.

Definition str_empty (s : string) : bool :=
  match s with EmptyString => true | _ => false end.

Definition TAB : ascii := ascii_of_nat 9.
Definition LF : ascii := ascii_of_nat 10.
Definition CR : ascii := ascii_of_nat 13.

(** membership in the set [" \t\r\n"] used by [trim] *)
Definition is_trim_ws (c : ascii) : bool :=
  ascii_eqb c " " || ascii_eqb c TAB || ascii_eqb c CR || ascii_eqb c LF.

(** [s.find_first_not_of(" \t\r\n")] *)
Fixpoint find_first_not_of_ws (s : string) : option nat :=
  match s with
  | EmptyString => None
  | String c s' => if is_trim_ws c then S <$> find_first_not_of_ws s' else Some O
  end.

(** [s.find_last_not_of(" \t\r\n")] *)
Fixpoint find_last_not_of_ws (s : string) : option nat :=
  match s with
  | EmptyString => None
  | String c s' =>
      match find_last_not_of_ws s' with
      | Some i => Some (S i)
      | None => if is_trim_ws c then None else Some O
      end
  end.

Definition trim (s : string) : string :=
  match find_first_not_of_ws s with
  | None => ""
  | Some start =>
      match find_last_not_of_ws s with
      | None => ""
      | Some last => substr s start (last - start + 1)
      end
  end.

(** *** Constant tables *)

Definition CDN_WHITELIST_DOMAINS : list string := [
  "cloudflare.com"; "cdn.cloudflare.com"; "cloudflare-dns.com";
  "fastly.net"; "fastly.com"; "global.fastly.net";
  "akamai.net"; "akamaiedge.net"; "akamaihd.net";
  "azureedge.net"; "azure.com"; "microsoft.com";
  "amazonaws.com"; "cloudfront.net"; "awsglobalaccelerator.com";
  "googleusercontent.com"; "googleapis.com"; "gstatic.com";
  "edgecastcdn.net"; "stackpathdns.com";
  "cdn77.org"; "cdnjs.cloudflare.com";
  "jsdelivr.net"; "unpkg.com";
  "workers.dev"; "pages.dev";
  "vercel.app"; "netlify.app";
  "arvancloud.ir"; "arvancloud.com"; "r2.dev";
  "arvan.run"; "arvanstorage.ir"; "arvancdn.ir";
  "arvancdn.com"; "cdn.arvancloud.ir" ].

Definition IRAN_BLOCKED_PATTERNS : list string := [
  "ir."; ".ir"; "iran";
  "0.0.0.0"; "127.0.0.1"; "localhost";
  "10.10.34."; "192.168." ].

(** *** Base64 *)

(** the decoding table [T] of [safe_b64decode] *)
Definition b64_T (c : ascii) : Z :=
  let n := byte_of c in
  (if (65 <=? n) && (n <=? 90) then n - 65
   else if (97 <=? n) && (n <=? 122) then n - 97 + 26
   else if (48 <=? n) && (n <=? 57) then n - 48 + 52
   else if n =? 43 then 62
   else if n =? 47 then 63
   else -1)%Z.

(** [while (input.size() % 4 != 0) input += '='] *)
Definition b64_pad (data : string) : string :=
  data +:+ String.concat "" (replicate ((4 - String.length data mod 4) mod 4) "=").

Fixpoint b64_urlsafe (s : string) : string :=
  match s with
  | EmptyString => EmptyString
  | String c s' =>
      String (if ascii_eqb c "-" then "+"%char
              else if ascii_eqb c "_" then "/"%char else c) (b64_urlsafe s')
  end.

Definition char_of_Z (z : Z) : ascii := ascii_of_nat (Z.to_nat (z mod 256)).

(** the decoding loop, with the locals [val] and [valb] *)
Fixpoint b64_loop (input : string) (val valb : Z) : string :=
  match input with
  | EmptyString => EmptyString
  | String c rest =>
      if ascii_eqb c "=" || ascii_eqb c LF || ascii_eqb c CR then EmptyString
      else
        let d := b64_T c in
        if (d =? -1)%Z then b64_loop rest val valb
        else
          let val := to_int (Z.shiftl val 6 + d) in
          let valb := (valb + 6)%Z in
          if (0 <=? valb)%Z
          then String (char_of_Z (Z.land (Z.shiftr val valb) 255))
                      (b64_loop rest val (valb - 8))
          else b64_loop rest val valb
  end.

Definition safe_b64decode (data : string) : string :=
  b64_loop (b64_urlsafe (b64_pad data)) 0 (-8).

(** *** More string utilities *)

Fixpoint str_filter (p : ascii → bool) (s : string) : string :=
  match s with
  | EmptyString => EmptyString
  | String c s' => if p c then String c (str_filter p s') else str_filter p s'
  end.

Definition clean_ps_string (ps : string) : string :=
  let result :=
    str_filter (fun c => (byte_of c <=? 127)%Z && (32 <=? byte_of c)%Z) ps in
  let result := trim result in
  if str_empty result then "Unknown" else result.

(** the loop of [url_decode]; [encoded[i] == '%' && i + 2 < encoded.size()]
    holds exactly when two more characters follow the ['%'] *)
Fixpoint url_decode_loop `{StdLib} (fuel : nat) (encoded : string) : string :=
  match fuel with
  | O => EmptyString
  | S fuel =>
      match encoded with
      | EmptyString => EmptyString
      | String c rest =>
          if ascii_eqb c "%" && (2 <=? String.length rest)%nat then
            match istream_hex (substr rest 0 2) with
            | Some hex => String (char_of_Z hex) (url_decode_loop fuel (str_drop 2 rest))
            | None => String c (url_decode_loop fuel rest)
            end
          else if ascii_eqb c "+" then String " " (url_decode_loop fuel rest)
          else String c (url_decode_loop fuel rest)
      end
  end.

Definition url_decode `{StdLib} (encoded : string) : string :=
  url_decode_loop (String.length encoded) encoded.

(** *** File I/O *)

(** The files the cache works on: the contents of the files that exist,
    and which paths can be opened for appending. *)
Record filesystem := {
  fs_files : gmap string string;
  fs_appendable : string → bool;
}.

(** the pieces [std::getline(stream, piece, delim)] yields in turn: up to
    each delimiter, and a last unterminated one when characters remain *)
Fixpoint getline_pieces (delim : ascii) (data : string) : list string :=
  match data with
  | EmptyString => []
  | String c rest =>
      if ascii_eqb c delim then "" :: getline_pieces delim rest
      else match getline_pieces delim rest with
           | [] => [String c ""]
           | piece :: pieces => String c piece :: pieces
           end
  end.

(** [std::getline(file, line)] *)
Definition getlines (data : string) : list string := getline_pieces LF data.

(** [!line.empty()] *)
Definition nonempty (line : string) : Prop := str_empty line = false.

#[global] Instance nonempty_dec line : Decision (nonempty line).
Proof. unfold nonempty. apply _. Defined.

Definition read_lines (fs : filesystem) (path : string) : list string :=
  match fs_files fs !! path with
  | None => []
  | Some data => filter nonempty (trim <$> getlines data)
  end.

(** the second loop of [append_unique_lines], over [(new_lines, existing)] *)
Definition collect_new (lines : list string) (existing : gset string)
    : list string * gset string :=
  foldl (fun '(new_lines, existing) line =>
           if negb (str_empty line) && bool_decide (line ∉ existing)
           then (new_lines ++ [line], {[ line ]} ∪ existing)
           else (new_lines, existing))
        ([], existing) lines.

(** [file << line << "\n"] for each line in turn *)
Fixpoint write_out (lines : list string) : string :=
  match lines with
  | [] => ""
  | line :: lines' => line +:+ String LF (write_out lines')
  end.

(** the file at [path] after [text] is written to it in append mode *)
Definition append_to (fs : filesystem) (path : string) (text : string) : filesystem :=
  {| fs_files := <[path := default "" (fs_files fs !! path) +:+ text]> (fs_files fs);
     fs_appendable := fs_appendable fs |}.

Definition append_unique_lines (fs : filesystem) (path : string)
    (lines : list string) : Z * filesystem :=
  let existing : gset string := list_to_set (read_lines fs path) in
  let new_lines := (collect_new lines existing).1 in
  match new_lines with
  | [] => (0%Z, fs)
  | _ =>
      if fs_appendable fs path
      then (to_int (Z.of_nat (length new_lines)), append_to fs path (write_out new_lines))
      else (0%Z, fs)
  end.

(** no file yet, every path can be created *)
Definition empty_fs : filesystem :=
  {| fs_files := ∅; fs_appendable := fun _ => true |}.

(** Vocabulary for statements about files and lists of lines. *)

(** the elements of [l] not in [seen], each at its first occurrence *)
Fixpoint first_seen (seen : gset string) (l : list string) : list string :=
  match l with
  | [] => []
  | x :: l' =>
      if bool_decide (x ∈ seen) then first_seen seen l'
      else x :: first_seen ({[ x ]} ∪ seen) l'
  end.

(** a file is empty or ends with a line feed *)
Fixpoint lf_terminated (data : string) : bool :=
  match data with
  | EmptyString => true
  | String c EmptyString => ascii_eqb c LF
  | String _ rest => lf_terminated rest
  end.

(** a line survives a write and a read-back unchanged: it holds no line
    feed and [trim] leaves it as it is *)
Definition clean_line (line : string) : bool :=
  String.eqb (trim line) line && negb (contains_char LF line).

(** *** Config analysis *)

Definition is_cdn_based (uri : string) : bool :=
  let lower := to_lower uri in
  existsb (fun domain => contains (to_lower domain) lower) CDN_WHITELIST_DOMAINS.

Definition is_likely_blocked (uri : string) : bool :=
  let lower := to_lower uri in
  existsb (fun pattern => contains pattern lower) IRAN_BLOCKED_PATTERNS.

Definition is_ipv4_preferred (uri : string) : bool :=
  negb (contains_char "[" uri && contains_char "]" uri).

(** *** Config prioritization *)

Inductive tier := T1 | T2 | T3 | T4 | T5 | T6 | T7 | T8.

#[global] Instance tier_eq_dec : EqDecision tier.
Proof. solve_decision. Defined.

Definition all_tiers : list tier := [T1; T2; T3; T4; T5; T6; T7; T8].


(** the eight vectors [tier1] ... [tier8] *)
Definition tiers := tier → list string.

Definition push_back (t : tier) (uri : string) (v : tiers) : tiers :=
  fun t' => if decide (t' = t) then v t' ++ [uri] else v t'.

(** [try { body } catch (...) { fallback }] for a handler that cannot throw *)
Definition catch_with {A} (body : outcome A) (fallback : A) : A :=
  match body with
  | Returns a => a
  | Throws _ => fallback
  end.

Definition DQ : string := String (ascii_of_nat 34) "".

(** the text ["key":] followed by [rest] *)
Definition json_member_text (key rest : string) : string :=
  DQ +:+ key +:+ DQ +:+ ":" +:+ rest.

Definition json_quoted (s : string) : string := DQ +:+ s +:+ DQ.

Definition vless_tier (uri lower : string) (cdn : bool) : tier :=
  let reality := contains "reality" lower || contains "pbk=" lower in
  let grpc := contains "grpc" lower || contains "gun" lower in
  let h2 := contains "h2" lower || contains "http/2" lower in
  let ws := contains "ws" lower || contains "websocket" lower in
  let tls443 := contains ":443" uri &&
                (contains "security=tls" lower || contains "tls" lower) in
  if reality && cdn then T1
  else if reality then T2
  else if grpc || h2 then T3
  else if ws && tls443 then T4
  else if tls443 then T6
  else T8.

Definition trojan_tier (uri lower : string) : tier :=
  let grpc := contains "grpc" lower || contains "gun" lower in
  let ws := contains "ws" lower || contains "websocket" lower in
  let port443 := contains ":443" uri in
  if grpc then T3
  else if ws && port443 then T4
  else if port443 then T6
  else T8.

Definition vmess_tier (uri : string) (cdn : bool) : tier :=
  catch_with
    (payload ← substr_from uri 8;
     let decoded := safe_b64decode payload in
     let dl := to_lower decoded in
     let ws_net := contains (json_member_text "net" (json_quoted "ws")) dl in
     let tls_on := contains (json_member_text "tls" (json_quoted "tls")) dl in
     let grpc_net := contains (json_member_text "net" (json_quoted "grpc")) dl ||
                     contains (json_member_text "net" (json_quoted "gun")) dl in
     let p443 := contains (json_member_text "port" (json_quoted "443")) dl ||
                 contains (json_member_text "port" "443") dl in
     Returns (if grpc_net && tls_on then T3
              else if ws_net && tls_on && cdn then T5
              else if ws_net && tls_on && p443 then T4
              else if tls_on && p443 then T6
              else T8))
    T8.

(** the vector an unblocked URI is pushed to *)
Definition tier_of_uri (uri : string) : tier :=
  let lower := to_lower uri in
  let ipv4 := is_ipv4_preferred uri in
  let cdn := is_cdn_based uri in
  if negb ipv4 then T7
  else if String.eqb (substr lower 0 8) "vless://" then vless_tier uri lower cdn
  else if String.eqb (substr lower 0 9) "trojan://" then trojan_tier uri lower
  else if String.eqb (substr lower 0 8) "vmess://" then vmess_tier uri cdn
  else T8.

(** the classification loop *)
Definition sort_into_tiers (uris : list string) : tiers :=
  foldl (fun v uri =>
           if is_likely_blocked uri then v
           else push_back (tier_of_uri uri) uri v)
        (fun _ => []) uris.

(** [shuffle_vec] on the vectors named in [ts], in that order *)
Fixpoint shuffle_tiers `{StdLib} (g : rng) (v : tiers) (ts : list tier)
    : list (list string) * rng :=
  match ts with
  | [] => ([], g)
  | t :: ts' =>
      let '(shuffled, g) := std_shuffle g (v t) in
      let '(rest, g) := shuffle_tiers g v ts' in
      (shuffled :: rest, g)
  end.

Definition prioritize_configs `{StdLib} (g : rng) (uris : list string)
    : list string * rng :=
  let v := sort_into_tiers uris in
  let '(shuffled, g) := shuffle_tiers g v all_tiers in
  (concat shuffled, g).

(** Vocabulary for statements about the prioritizer. *)

Definition unblocked (uri : string) : Prop := is_likely_blocked uri = false.

(** the URIs the loop pushes to the vector [t] *)
Definition in_tier (t : tier) (uri : string) : Prop :=
  unblocked uri ∧ tier_of_uri uri = t.

#[global] Instance unblocked_dec uri : Decision (unblocked uri).
Proof. unfold unblocked. apply _. Defined.

#[global] Instance in_tier_dec t uri : Decision (in_tier t uri).
Proof. unfold in_tier. apply _. Defined.


(** *** Tier classification *)

Definition tier_for_latency (latency_ms : double) : string :=
  if dlt latency_ms (dconst 200) then "gold"
  else if dlt latency_ms (dconst 800) then "silver"
  else if dgt latency_ms (dconst 2000) then "dead"
  else "silver".

(** *** Base64 encoding *)

Definition B64_CHARS : string :=
  "ABCDEFGHIJKLMNOPQRSTUVWXYZabcdefghijklmnopqrstuvwxyz0123456789+/".

(** [B64_CHARS[i]] *)
Definition b64_char (i : Z) : ascii :=
  default Ascii.zero (String.get (Z.to_nat i) B64_CHARS).

(** [while (valb >= 0) { out.push_back(...); valb -= 6; }]: the characters
    pushed and [valb] afterwards *)
Fixpoint b64_emit (fuel : nat) (val valb : Z) : string * Z :=
  match fuel with
  | O => ("", valb)
  | S fuel =>
      if (0 <=? valb)%Z then
        let '(out, valb') := b64_emit fuel val (valb - 6) in
        (String (b64_char (Z.land (Z.shiftr val valb) 63)) out, valb')
      else ("", valb)
  end.

(** the loop over the bytes of [data], with the locals [val] and [valb],
    and the flush of the last bits after it *)
Fixpoint b64_encode_loop (data : string) (val valb : Z) : string :=
  match data with
  | EmptyString =>
      if (-6 <? valb)%Z
      then String (b64_char (Z.land (Z.shiftr (to_int (Z.shiftl val 8)) (valb + 8)) 63)) ""
      else ""
  | String c rest =>
      let val := to_int (Z.shiftl val 8 + byte_of c) in
      let valb := (valb + 8)%Z in
      let '(out, valb) := b64_emit (Z.to_nat (valb / 6 + 1)) val valb in
      out +:+ b64_encode_loop rest val valb
  end.

(** [while (out.size() % 4) out.push_back('=')] is the padding of
    [safe_b64decode] *)
Definition base64_encode (data : string) : string :=
  b64_pad (b64_encode_loop data 0 (-6)).

(** Vocabulary for statements about strings. *)

(** every character of [s] satisfies [p] *)
Fixpoint str_all (p : ascii → bool) (s : string) : bool :=
  match s with
  | EmptyString => true
  | String c s' => p c && str_all p s'
  end.

(** [s] without its leading blanks *)
Fixpoint lstrip (s : string) : string :=
  match s with
  | EmptyString => EmptyString
  | String c s' => if is_trim_ws c then lstrip s' else s
  end.

(** [s] without its trailing blanks *)
Fixpoint rstrip (s : string) : string :=
  match s with
  | EmptyString => EmptyString
  | String c s' =>
      match rstrip s' with
      | EmptyString => if is_trim_ws c then EmptyString else String c EmptyString
      | kept => String c kept
      end
  end.

(** the characters [safe_b64decode] replaces before it decodes *)
Definition urlsafe_free (c : ascii) : bool :=
  negb (ascii_eqb c "-") && negb (ascii_eqb c "_").

(** *** Region *)

Definition european : list string := [
  "AL";"AD";"AT";"BY";"BE";"BA";"BG";"HR";"CY";"CZ";"DK";"EE";
  "FO";"FI";"FR";"DE";"GI";"GR";"HU";"IS";"IE";"IT";"XK";"LV";
  "LI";"LT";"LU";"MK";"MT";"MD";"MC";"ME";"NL";"NO";"PL";"PT";
  "RO";"RU";"SM";"RS";"SK";"SI";"ES";"SE";"CH";"UA";"GB";"VA" ].

Definition asian : list string := [
  "AF";"AM";"AZ";"BH";"BD";"BT";"BN";"KH";"CN";"GE";"HK";"IN";
  "ID";"IR";"IQ";"IL";"JP";"JO";"KZ";"KW";"KG";"LA";"LB";"MO";
  "MY";"MV";"MN";"MM";"NP";"KP";"OM";"PK";"PS";"PH";"QA";"SA";
  "SG";"KR";"LK";"SY";"TW";"TJ";"TH";"TL";"TR";"TM";"AE";"UZ";
  "VN";"YE" ].

Definition african : list string := [
  "DZ";"AO";"BJ";"BW";"BF";"BI";"CV";"CM";"CF";"TD";"KM";"CD";
  "CG";"DJ";"EG";"GQ";"ER";"SZ";"ET";"GA";"GM";"GH";"GN";"GW";
  "CI";"KE";"LS";"LR";"LY";"MG";"MW";"ML";"MR";"MU";"YT";"MA";
  "MZ";"NA";"NE";"NG";"RE";"RW";"SH";"ST";"SN";"SC";"SL";"SO";
  "ZA";"SS";"SD";"TZ";"TG";"TN";"UG";"EH";"ZM";"ZW" ].

(** [set.count(code)] *)
Definition count (set : list string) (code : string) : bool :=
  existsb (String.eqb code) set.

Definition get_region (country_code : string) : string :=
  if String.eqb country_code "US" then "USA"
  else if String.eqb country_code "CA" then "Canada"
  else if count european country_code then "Europe"
  else if count asian country_code then "Asia"
  else if count african country_code then "Africa"
  else "Other".

(** *** Writing a file *)

(** [write_lines(filepath, lines)]: [std::ofstream file(filepath)] replaces
    the content; a path opens for writing when it opens for appending *)
Definition write_lines (fs : filesystem) (filepath : string) (lines : list string)
    : Z * filesystem :=
  if fs_appendable fs filepath then
    let written := filter nonempty lines in
    (to_int (Z.of_nat (length written)),
     {| fs_files := <[filepath := write_out written]> (fs_files fs);
        fs_appendable := fs_appendable fs |})
  else (0%Z, fs).

(** *** Vocabulary of the properties of this file *)

(** whether every character of [s] satisfies [p] is [str_all]; the first and
    the last character of a string *)
Definition str_head (s : string) : option ascii :=
  match s with String c _ => Some c | EmptyString => None end.

Fixpoint str_last (s : string) : option ascii :=
  match s with
  | EmptyString => None
  | String c EmptyString => Some c
  | String _ s' => str_last s'
  end.

(** a character of the base64 alphabet decodes to its index and is none of
    the characters the decoder stops at or replaces *)
Definition b64_plain (i : Z) : bool :=
  let c := b64_char i in
  (b64_T c =? i)%Z
  && negb (ascii_eqb c "=" || ascii_eqb c LF || ascii_eqb c CR)
  && negb (ascii_eqb c "-") && negb (ascii_eqb c "_").

(** the bits the encoder and the decoder hold between two bytes: nothing,
    or a byte of which the decoder has the high bits and the encoder the
    low ones *)
Definition b64_rel (ve be vd bd : Z) (partial : string) : Prop :=
  (be = (-6)%Z ∧ bd = (-8)%Z ∧ partial = "")
  ∨ (∃ c, partial = String c "" ∧ be = (-4)%Z ∧ bd = (-2)%Z
          ∧ (ve mod 4 = byte_of c mod 4)%Z ∧ (vd mod 64 = byte_of c / 4)%Z)
  ∨ (∃ c, partial = String c "" ∧ be = (-2)%Z ∧ bd = (-4)%Z
          ∧ (ve mod 16 = byte_of c mod 16)%Z ∧ (vd mod 16 = byte_of c / 16)%Z).

(** the characters [clean_ps_string] keeps *)
Definition printable (c : ascii) : bool :=
  ((byte_of c <=? 127) && (32 <=? byte_of c))%Z.

(** every [+] replaced by a space *)
Fixpoint plus_to_space (s : string) : string :=
  match s with
  | EmptyString => EmptyString
  | String c s' => String (if ascii_eqb c "+" then " "%char else c) (plus_to_space s')
  end.

(** the whitelisted CDN domains under the Iranian top-level domain *)
Definition iranian_cdn_domains : list string :=
  filter (fun d => contains ".ir" d = true) CDN_WHITELIST_DOMAINS.

Definition is_upper (c : ascii) : bool :=
  ((65 <=? byte_of c) && (byte_of c <=? 90))%Z.

(** a code of two upper-case letters *)
Definition two_upper (code : string) : bool :=
  (String.length code =? 2)%nat && str_all is_upper code.

(** the answers of [get_region] *)
Definition regions : list string := ["USA"; "Canada"; "Europe"; "Asia"; "Africa"; "Other"].

End Utils.

(** ** nlohmann::json, as far as the sources use it *)

Module Json.

Inductive json :=
  | JNull
  | JBool (b : bool)
  (** [number_integer] and [number_unsigned] *)
  | JInt (z : Z)
  | JFloat (d : double)
  | JString (s : string)
  | JArray (l : list json)
  (** an object is a [std::map] from keys to values *)
  | JObject (m : gmap string json).

(** an object written as an initializer list of members *)
Definition obj (members : list (string * json)) : json :=
  JObject (list_to_map members).

Definition is_object (j : json) : bool :=
  match j with JObject _ => true | _ => false end.

Definition is_number (j : json) : bool :=
  match j with JInt _ | JFloat _ => true | _ => false end.

Definition is_string (j : json) : bool :=
  match j with JString _ => true | _ => false end.

(** [j.contains(key)]: false on anything that is not an object *)
Definition contains (j : json) (key : string) : bool :=
  match j with
  | JObject m => bool_decide (is_Some (m !! key))
  | _ => false
  end.

(** [static_cast<int>] of a double: the fraction is dropped; out of the
    range of [int] the conversion saturates and a NaN gives 0, as the
    AArch64 conversion does *)
Definition double_to_int (d : double) : Z :=
  match d with
  | DFinite q =>
      let t := Z.quot (Qnum q) (Zpos (Qden q)) in
      Z.max INT_MIN (Z.min INT_MAX t)
  | DInfinity true => INT_MIN
  | DInfinity false => INT_MAX
  | DNaN => 0%Z
  end.

(** [j.get<int>()] *)
Definition get_int (j : json) : outcome Z :=
  match j with
  | JInt z => Returns (to_int z)
  | JFloat d => Returns (double_to_int d)
  | JBool b => Returns (if b then 1 else 0)%Z
  | _ => Throws json_type_error
  end.

(** [j.get<std::string>()] *)
Definition get_string (j : json) : outcome string :=
  match j with
  | JString s => Returns s
  | _ => Throws json_type_error
  end.

(** [j.value(key, default_value)] with a string default: the member
    converted to a string when present, the default when absent; a type
    error on a non-object and on a member that is not a string *)
Definition value (j : json) (key default_value : string) : outcome string :=
  match j with
  | JObject m =>
      match m !! key with
      | Some v => get_string v
      | None => Returns default_value
      end
  | _ => Throws json_type_error
  end.

(** reading [j[key]] on a non-const value: a missing member reads as null
    (it is inserted as null, which no later read tells from absent), a
    null [j] becomes an object first, anything else is a type error *)
Definition index (j : json) (key : string) : outcome json :=
  match j with
  | JObject m => Returns (default JNull (m !! key))
  | JNull => Returns JNull
  | _ => Throws json_type_error
  end.

(** [f] applied to the reference [j[key]] *)
Definition update_member (j : json) (key : string) (f : json → outcome json)
    : outcome json :=
  match j with
  | JObject m => v ← f (default JNull (m !! key)); Returns (JObject (<[key := v]> m))
  | JNull => v ← f JNull; Returns (JObject {[ key := v ]})
  | _ => Throws json_type_error
  end.

(** [j[key] = v] *)
Definition set_member (j : json) (key : string) (v : json) : outcome json :=
  update_member j key (fun _ => Returns v).

(** the member at the end of a path of keys, when every step is an object *)
Fixpoint at_path (path : list string) (j : json) : option json :=
  match path with
  | [] => Some j
  | key :: path' =>
      match j with
      | JObject m => m !! key ≫= at_path path'
      | _ => None
      end
  end.

End Json.

(** [nlohmann::json::parse] and [dump] *)
Class JsonLib := {
  (** throws [json_parse_error] on malformed text *)
  json_parse : string → outcome Json.json;
  (** [dump(indent)]; [None] is the compact form; throws on a string that
      is not valid UTF-8 *)
  json_dump : option nat → Json.json → outcome string;
}.

(** ** parsers/uri_parser.cpp *)

Module UriParser.
Import Utils Json.

(** core/models.h *)
Record HunterParsedConfig := {
  uri : string;
  outbound : json;
  host : string;
  port : Z;
  identity : string;
  ps : string;
}.

Record ParsedURL := {
  scheme : string;
  username : string;
  hostname : string;
  url_port : Z;
  path : string;
  query : string;
  fragment : string;
}.

(** *** [std::stoi] *)

(** [isspace] in the "C" locale *)
Definition isspace (c : ascii) : bool :=
  let n := byte_of c in ((n =? 32) || ((9 <=? n) && (n <=? 13)))%Z.

Definition isdigit (c : ascii) : bool :=
  let n := byte_of c in ((48 <=? n) && (n <=? 57))%Z.

Fixpoint skip_spaces (s : string) : string :=
  match s with
  | String c s' => if isspace c then skip_spaces s' else s
  | EmptyString => s
  end.

Fixpoint read_digits (s : string) (acc : Z) : Z :=
  match s with
  | String c s' => if isdigit c then read_digits s' (acc * 10 + (byte_of c - 48))%Z else acc
  | EmptyString => acc
  end.

Definition starts_with_digit (s : string) : bool :=
  match s with String c _ => isdigit c | EmptyString => false end.

(** [std::stoi(s)]: leading spaces, an optional sign, decimal digits;
    [std::invalid_argument] without a digit, [std::out_of_range] when the
    value does not fit an [int] *)
Definition stoi (s : string) : outcome Z :=
  let s := skip_spaces s in
  let '(negative, s) :=
    match s with
    | String c s' =>
        if ascii_eqb c "-" then (true, s')
        else if ascii_eqb c "+" then (false, s')
        else (false, s)
    | EmptyString => (false, s)
    end in
  if starts_with_digit s then
    let v := read_digits s 0 in
    let v := if negative then (- v)%Z else v in
    if ((INT_MIN <=? v) && (v <=? INT_MAX))%Z then Returns v
    else Throws out_of_range
  else Throws invalid_argument.

(** *** URL parsing helpers *)

Definition nonempty_first (c : ascii) (s : string) : bool :=
  match s with String d _ => ascii_eqb c d | EmptyString => false end.

Definition parse_url `{StdLib} (url : string) : ParsedURL :=
  let remaining := url in
  (* scheme *)
  let '(r_scheme, remaining) :=
    match find "://" remaining with
    | Some scheme_end => (substr remaining 0 scheme_end, str_drop (scheme_end + 3) remaining)
    | None => ("", remaining)
    end in
  (* fragment *)
  let '(r_fragment, remaining) :=
    match find_char "#" remaining with
    | Some frag_pos => (url_decode (str_drop (frag_pos + 1) remaining), substr remaining 0 frag_pos)
    | None => ("", remaining)
    end in
  (* query *)
  let '(r_query, remaining) :=
    match find_char "?" remaining with
    | Some query_pos => (str_drop (query_pos + 1) remaining, substr remaining 0 query_pos)
    | None => ("", remaining)
    end in
  (* path *)
  let '(r_path, remaining) :=
    match find_char "/" remaining with
    | Some path_pos => (str_drop path_pos remaining, substr remaining 0 path_pos)
    | None => ("", remaining)
    end in
  (* userinfo *)
  let '(r_username, remaining) :=
    match find_char "@" remaining with
    | Some at_pos => (url_decode (substr remaining 0 at_pos), str_drop (at_pos + 1) remaining)
    | None => ("", remaining)
    end in
  let '(r_hostname, r_port) :=
    if nonempty_first "[" remaining then
      (* IPv6 bracket notation *)
      match find_char "]" remaining with
      | Some bracket_end =>
          let hostname := substr remaining 1 (bracket_end - 1) in
          let remaining := str_drop (bracket_end + 1) remaining in
          if nonempty_first ":" remaining
          then (hostname, catch_with (p ← substr_from remaining 1; stoi p) 0%Z)
          else (hostname, 0%Z)
      | None => ("", 0%Z)
      end
    else
      (* regular host:port *)
      match rfind_char ":" remaining with
      | Some colon_pos =>
          match stoi (str_drop (colon_pos + 1) remaining) with
          | Returns p => (substr remaining 0 colon_pos, p)
          | Throws _ => (remaining, 0%Z)
          end
      | None => (remaining, 0%Z)
      end in
  {| scheme := r_scheme; username := r_username; hostname := r_hostname;
     url_port := r_port; path := r_path; query := r_query; fragment := r_fragment |}.

Definition parse_query_string `{StdLib} (query : string) : gmap string string :=
  foldl (fun params pair =>
           match find_char "=" pair with
           | Some eq =>
               let key := url_decode (substr pair 0 eq) in
               let value := url_decode (str_drop (eq + 1) pair) in
               <[key := value]> params
           | None => params
           end)
        ∅ (getline_pieces "&" query).

Definition get_param (params : gmap string string) (key default_val : string) : string :=
  default default_val (params !! key).

(** what the sources check before they return a config, with the range of
    an [int] *)
Definition config_ok (cfg : HunterParsedConfig) : Prop :=
  host cfg ≠ "" ∧ host cfg ≠ "0.0.0.0" ∧ port cfg ≠ 0%Z
  ∧ (INT_MIN ≤ port cfg ≤ INT_MAX)%Z ∧ identity cfg ≠ "".

(** *** VMess *)

Definition reject_host (host : string) : bool :=
  str_empty host || String.eqb host "0.0.0.0".

(** the numeric member [key] read as the sources read [port] and [aid] *)
Definition int_member (j : json) (key : string) : outcome Z :=
  v ← index j key;
  if is_number v then get_int v
  else if is_string v then
    try_catch (text ← get_string v; stoi text) (Returns 0%Z)
  else Returns 0%Z.

(** the body of the [try] block of [VMessParser::parse] *)
Definition VMess_body `{JsonLib} (uri_ : string) : outcome (option HunterParsedConfig) :=
  if (String.length uri_ <? 9)%nat then Returns None else
  payload ← substr_from uri_ 8;
  let decoded := safe_b64decode payload in
  j ← json_parse decoded;
  host_ ← value j "add" "";
  port_ ← int_member j "port";
  uuid ← value j "id" "";
  ps_raw ← value j "ps" "Unknown";
  let ps_ := clean_ps_string ps_raw in
  if str_empty host_ || (port_ =? 0)%Z || str_empty uuid || String.eqb host_ "0.0.0.0"
  then Returns None else
  alter_id ← (if contains j "aid" then int_member j "aid" else Returns 0%Z);
  scy ← value j "scy" "auto";
  net ← value j "net" "tcp";
  tls ← value j "tls" "none";
  let outbound_ :=
    obj [("protocol", JString "vmess");
         ("settings", obj [
            ("vnext", JArray [obj [
               ("address", JString host_);
               ("port", JInt port_);
               ("users", JArray [obj [
                  ("id", JString uuid);
                  ("alterId", JInt alter_id);
                  ("security", JString scy)]])]])]);
         ("streamSettings", obj [
            ("network", JString net);
            ("security", JString tls)])] in
  net' ← value j "net" "";
  outbound_ ←
    (if String.eqb net' "ws" then
       ws_path ← value j "path" "/";
       ws_host ← value j "host" "";
       update_member outbound_ "streamSettings" (fun settings =>
         set_member settings "wsSettings"
           (obj [("path", JString ws_path);
                 ("headers", obj [("Host", JString ws_host)])]))
     else Returns outbound_);
  tls' ← value j "tls" "";
  outbound_ ←
    (if String.eqb tls' "tls" then
       sni ← value j "sni" host_;
       update_member outbound_ "streamSettings" (fun settings =>
         set_member settings "tlsSettings"
           (obj [("serverName", JString sni);
                 ("allowInsecure", JBool false)]))
     else Returns outbound_);
  Returns (Some {| uri := uri_; outbound := outbound_; host := host_;
                   port := port_; identity := uuid; ps := ps_ |}).

Definition VMessParser_parse `{JsonLib} (uri_ : string)
    : outcome (option HunterParsedConfig) :=
  try_catch (VMess_body uri_) (Returns None).

(** *** VLESS *)

Definition VLESS_body `{StdLib} (uri_ : string) : outcome (option HunterParsedConfig) :=
  let parsed := parse_url uri_ in
  let params := parse_query_string (query parsed) in
  let uuid := username parsed in
  let host_ := hostname parsed in
  let port_ := if (0 <? url_port parsed)%Z then url_port parsed else 443%Z in
  let ps_ := clean_ps_string
               (if str_empty (fragment parsed) then "Unknown" else fragment parsed) in
  if str_empty host_ || str_empty uuid || String.eqb host_ "0.0.0.0"
  then Returns None else
  let security := get_param params "security" "none" in
  let transport := get_param params "type" "tcp" in
  let encryption := get_param params "encryption" "none" in
  let outbound_ :=
    obj [("protocol", JString "vless");
         ("settings", obj [
            ("vnext", JArray [obj [
               ("address", JString host_);
               ("port", JInt port_);
               ("users", JArray [obj [
                  ("id", JString uuid);
                  ("encryption", JString encryption)]])]])]);
         ("streamSettings", obj [
            ("network", JString transport);
            ("security", JString security)])] in
  outbound_ ←
    (if String.eqb security "tls" || String.eqb security "reality" then
       let base_settings :=
         obj [("serverName", JString (get_param params "sni" host_));
              ("allowInsecure", JBool false)] in
       if String.eqb security "reality" then
         base_settings ← set_member base_settings "fingerprint"
                           (JString (get_param params "fp" "chrome"));
         base_settings ← set_member base_settings "publicKey"
                           (JString (get_param params "pbk" ""));
         base_settings ← set_member base_settings "shortId"
                           (JString (get_param params "sid" ""));
         update_member outbound_ "streamSettings" (fun settings =>
           set_member settings "realitySettings" base_settings)
       else
         update_member outbound_ "streamSettings" (fun settings =>
           set_member settings "tlsSettings" base_settings)
     else Returns outbound_);
  outbound_ ←
    (if String.eqb transport "ws" then
       update_member outbound_ "streamSettings" (fun settings =>
         set_member settings "wsSettings"
           (obj [("path", JString (get_param params "path" "/"));
                 ("headers", obj [("Host", JString (get_param params "host" ""))])]))
     else if String.eqb transport "grpc" then
       update_member outbound_ "streamSettings" (fun settings =>
         set_member settings "grpcSettings"
           (obj [("serviceName", JString (get_param params "serviceName" ""))]))
     else Returns outbound_);
  Returns (Some {| uri := uri_; outbound := outbound_; host := host_;
                   port := port_; identity := uuid; ps := ps_ |}).

Definition VLESSParser_parse `{StdLib} (uri_ : string)
    : outcome (option HunterParsedConfig) :=
  try_catch (VLESS_body uri_) (Returns None).

(** *** Trojan *)

Definition Trojan_body `{StdLib} (uri_ : string) : outcome (option HunterParsedConfig) :=
  let parsed := parse_url uri_ in
  let params := parse_query_string (query parsed) in
  let password := username parsed in
  let host_ := hostname parsed in
  let port_ := if (0 <? url_port parsed)%Z then url_port parsed else 443%Z in
  let ps_ := clean_ps_string
               (if str_empty (fragment parsed) then "Unknown" else fragment parsed) in
  if str_empty host_ || str_empty password || String.eqb host_ "0.0.0.0"
  then Returns None else
  let transport := get_param params "type" "tcp" in
  let allow_insecure := String.eqb (get_param params "allowInsecure" "0") "1" in
  let outbound_ :=
    obj [("protocol", JString "trojan");
         ("settings", obj [
            ("servers", JArray [obj [
               ("address", JString host_);
               ("port", JInt port_);
               ("password", JString password)]])]);
         ("streamSettings", obj [
            ("network", JString transport);
            ("security", JString "tls");
            ("tlsSettings", obj [
               ("serverName", JString (get_param params "sni" host_));
               ("allowInsecure", JBool allow_insecure)])])] in
  Returns (Some {| uri := uri_; outbound := outbound_; host := host_;
                   port := port_; identity := password; ps := ps_ |}).

Definition TrojanParser_parse `{StdLib} (uri_ : string)
    : outcome (option HunterParsedConfig) :=
  try_catch (Trojan_body uri_) (Returns None).

(** *** Shadowsocks *)

Fixpoint leading_digits (s : string) : string :=
  match s with
  | String c s' => if isdigit c then String c (leading_digits s') else EmptyString
  | EmptyString => EmptyString
  end.

Definition split_at_colon (s : string) : option (string * string) :=
  match find_char ":" s with
  | Some colon => Some (substr s 0 colon, str_drop (colon + 1) s)
  | None => None
  end.

Definition Shadowsocks_body `{StdLib} (uri_ : string)
    : outcome (option HunterParsedConfig) :=
  let '(ps_, parsed_uri) :=
    match find_char "#" uri_ with
    | Some hash_pos =>
        (clean_ps_string (url_decode (str_drop (hash_pos + 1) uri_)),
         substr uri_ 0 hash_pos)
    | None => ("Unknown", uri_)
    end in
  core ← substr_from parsed_uri 5;
  (* the query string is dropped before decoding *)
  let core :=
    match find_char "?" core with
    | Some q_pos => substr core 0 q_pos
    | None => core
    end in
  let core := if contains_char "@" core then core else safe_b64decode core in
  match find_char "@" core with
  | None => Returns None
  | Some at_pos =>
      let userinfo := substr core 0 at_pos in
      let hostport := str_drop (at_pos + 1) core in
      if negb (contains_char ":" hostport) then Returns None else
      (* the decoded userinfo first *)
      let '(method, password) :=
        catch_with
          (Returns (default ("", "") (split_at_colon (safe_b64decode userinfo))))
          ("", "") in
      let credentials :=
        if str_empty method || str_empty password
        then split_at_colon userinfo
        else Some (method, password) in
      match credentials with
      | None => Returns None
      | Some (method, password) =>
          let '(host_, port_str) :=
            match rfind_char ":" hostport with
            | Some last_colon =>
                (substr hostport 0 last_colon, str_drop (last_colon + 1) hostport)
            | None => (hostport, hostport)
            end in
          let port_digits := leading_digits port_str in
          match stoi port_digits with
          | Throws _ => Returns None
          | Returns port_ =>
              if str_empty host_ || (port_ =? 0)%Z || String.eqb host_ "0.0.0.0"
              then Returns None else
              let outbound_ :=
                obj [("protocol", JString "shadowsocks");
                     ("settings", obj [
                        ("servers", JArray [obj [
                           ("address", JString host_);
                           ("port", JInt port_);
                           ("method", JString method);
                           ("password", JString password)]])])] in
              Returns (Some {| uri := uri_; outbound := outbound_; host := host_;
                               port := port_;
                               identity := method +:+ ":" +:+ password;
                               ps := ps_ |})
          end
      end
  end.

Definition ShadowsocksParser_parse `{StdLib} (uri_ : string)
    : outcome (option HunterParsedConfig) :=
  try_catch (Shadowsocks_body uri_) (Returns None).

(** *** Universal parser *)

Definition UniversalParser_parse `{StdLib} `{JsonLib} (uri_ : string)
    : outcome (option HunterParsedConfig) :=
  if str_empty uri_ then Returns None else
  match find "://" uri_ with
  | None => Returns None
  | Some scheme_end =>
      let proto := to_lower (substr uri_ 0 scheme_end) in
      if String.eqb proto "vmess" then VMessParser_parse uri_
      else if String.eqb proto "vless" then VLESSParser_parse uri_
      else if String.eqb proto "trojan" then TrojanParser_parse uri_
      else if String.eqb proto "ss" || String.eqb proto "shadowsocks"
      then ShadowsocksParser_parse uri_
      else Returns None
  end.

(** a key and a value that need no escaping in a query string: no [&], [%]
    or [+], and no [=] in a key *)
Definition query_value_ok (v : string) : bool :=
  negb (contains_char "&" v) && negb (contains_char "%" v) && negb (contains_char "+" v).

Definition query_key_ok (k : string) : bool :=
  query_value_ok k && negb (contains_char "=" k).

(** the query string [k1=v1&k2=v2&...] *)
Definition query_of (pairs : list (string * string)) : string :=
  String.concat "&" ((fun kv => kv.1 +:+ "=" +:+ kv.2) <$> pairs).

End UriParser.

(** ** cache/cache.cpp *)

Module Cache.
Import Utils.

Record SmartCache := {
  cache_file_ : string;
  working_cache_file_ : string;
  base_dir_ : string;
  last_successful_fetch_ : Z;
  consecutive_failures_ : Z;
}.

(** the constructor, with the member initialisers of cache.h *)
Definition new (cache_file working_cache_file : string) : SmartCache :=
  {| cache_file_ := cache_file;
     working_cache_file_ := working_cache_file;
     base_dir_ := "";
     last_successful_fetch_ := 0;
     consecutive_failures_ := 0 |}.

Definition default_cache : SmartCache :=
  new "subscriptions_cache.txt" "working_configs_cache.txt".

Definition set_base_dir (c : SmartCache) (dir : string) : SmartCache :=
  {| cache_file_ := cache_file_ c;
     working_cache_file_ := working_cache_file_ c;
     base_dir_ := dir;
     last_successful_fetch_ := last_successful_fetch_ c;
     consecutive_failures_ := consecutive_failures_ c |}.

Definition resolve_path (c : SmartCache) (filename : string) : string :=
  if str_empty (base_dir_ c) then filename
  else base_dir_ c +:+ "/" +:+ filename.

Definition target_path (c : SmartCache) (working : bool) : string :=
  if working then resolve_path c (working_cache_file_ c)
  else resolve_path c (cache_file_ c).

(** [save_configs(configs, working)] at clock reading [now]: the number
    appended, the cache object and the files afterwards *)
Definition save_configs (c : SmartCache) (fs : filesystem) (now : Z)
    (configs : list string) (working : bool) : Z * SmartCache * filesystem :=
  let target := target_path c working in
  let '(appended, fs) := append_unique_lines fs target configs in
  let c :=
    if (0 <? appended)%Z then
      {| cache_file_ := cache_file_ c;
         working_cache_file_ := working_cache_file_ c;
         base_dir_ := base_dir_ c;
         last_successful_fetch_ := now;
         consecutive_failures_ := 0 |}
    else c in
  (appended, c, fs).

(** [consecutive_failures_++] *)
Definition record_failure (c : SmartCache) : SmartCache :=
  {| cache_file_ := cache_file_ c;
     working_cache_file_ := working_cache_file_ c;
     base_dir_ := base_dir_ c;
     last_successful_fetch_ := last_successful_fetch_ c;
     consecutive_failures_ := to_int (consecutive_failures_ c + 1) |}.

Definition should_use_cache (c : SmartCache) : bool :=
  (2 <=? consecutive_failures_ c)%Z.

Definition get_failure_count (c : SmartCache) : Z := consecutive_failures_ c.

(** [load_cached_configs(max_count, working_only)] *)
Definition load_cached_configs (c : SmartCache) (fs : filesystem)
    (max_count : Z) (working_only : bool) : gset string :=
  let sources :=
    if working_only then [resolve_path c (working_cache_file_ c)]
    else [resolve_path c (cache_file_ c); resolve_path c (working_cache_file_ c)] in
  foldl (fun configs path =>
           let lines := read_lines fs path in
           (* [static_cast<size_t>(max_count)] is modulo 2^64 *)
           let cap := Z.to_nat (max_count mod 2 ^ 64) in
           let start := if (cap <? length lines)%nat then (length lines - cap)%nat else O in
           foldl (fun configs line =>
                    if negb (str_empty line) && Utils.contains "://" line
                    then {[ line ]} ∪ configs else configs)
                 configs (drop start lines))
        ∅ sources.

(** the files [load_cached_configs] reads, in order *)
Definition cache_sources (c : SmartCache) (working_only : bool) : list string :=
  if working_only then [resolve_path c (working_cache_file_ c)]
  else [resolve_path c (cache_file_ c); resolve_path c (working_cache_file_ c)].

(** *** [ResilientHeartbeat] *)

Record ResilientHeartbeat := {
  last_heartbeat_ : Z;
  is_connected_ : bool;
  reconnect_attempts_ : Z;
  max_reconnect_attempts_ : Z;
}.

(** the constructor at clock reading [now], with the member initialisers
    of cache.h *)
Definition heartbeat_new (now : Z) : ResilientHeartbeat :=
  {| last_heartbeat_ := now; is_connected_ := false;
     reconnect_attempts_ := 0; max_reconnect_attempts_ := 5 |}.

Definition is_connected (h : ResilientHeartbeat) : bool := is_connected_ h.

Definition time_since_heartbeat (h : ResilientHeartbeat) (now : Z) : Z :=
  wrap 64 (now - last_heartbeat_ h).

Definition mark_connected (h : ResilientHeartbeat) (now : Z) : ResilientHeartbeat :=
  {| last_heartbeat_ := now; is_connected_ := true;
     reconnect_attempts_ := 0;
     max_reconnect_attempts_ := max_reconnect_attempts_ h |}.

Definition mark_disconnected (h : ResilientHeartbeat) : ResilientHeartbeat :=
  {| last_heartbeat_ := last_heartbeat_ h; is_connected_ := false;
     reconnect_attempts_ := reconnect_attempts_ h;
     max_reconnect_attempts_ := max_reconnect_attempts_ h |}.

(** the answer and the heartbeat afterwards *)
Definition should_attempt_reconnect (h : ResilientHeartbeat)
    : bool * ResilientHeartbeat :=
  if (max_reconnect_attempts_ h <=? reconnect_attempts_ h)%Z then (false, h)
  else (true,
        {| last_heartbeat_ := last_heartbeat_ h; is_connected_ := is_connected_ h;
           reconnect_attempts_ := to_int (reconnect_attempts_ h + 1);
           max_reconnect_attempts_ := max_reconnect_attempts_ h |}).

Definition reset (h : ResilientHeartbeat) (now : Z) : ResilientHeartbeat :=
  {| last_heartbeat_ := now; is_connected_ := false;
     reconnect_attempts_ := 0;
     max_reconnect_attempts_ := max_reconnect_attempts_ h |}.

(** the calls on a heartbeat, each at its clock reading *)
Inductive heartbeat_call :=
  | MarkConnected (now : Z)
  | MarkDisconnected
  | ShouldAttemptReconnect
  | Reset (now : Z).

(** one call: the heartbeat afterwards and whether it granted a reconnect *)
Definition heartbeat_step (h : ResilientHeartbeat) (call : heartbeat_call)
    : ResilientHeartbeat * bool :=
  match call with
  | MarkConnected now => (mark_connected h now, false)
  | MarkDisconnected => (mark_disconnected h, false)
  | ShouldAttemptReconnect =>
      let '(granted, h') := should_attempt_reconnect h in (h', granted)
  | Reset now => (reset h now, false)
  end.

(** one call on a heartbeat with its count of granted reconnects *)
Definition counted_step : ResilientHeartbeat * Z → heartbeat_call → ResilientHeartbeat * Z :=
  fun '(h, granted) call =>
    let '(h', g) := heartbeat_step h call in
    (h', match call with
         | MarkConnected _ | Reset _ => 0
         | _ => if g then granted + 1 else granted
         end)%Z.

(** the heartbeat after the calls, and the number of reconnects granted
    since the last [mark_connected] or [reset] *)
Definition heartbeat_run (calls : list heartbeat_call) (h : ResilientHeartbeat)
    : ResilientHeartbeat * Z :=
  foldl counted_step (h, reconnect_attempts_ h) calls.

(** what the calls keep true of a heartbeat and its count *)
Definition heartbeat_inv (r : ResilientHeartbeat * Z) : Prop :=
  max_reconnect_attempts_ r.1 = 5%Z
  ∧ (0 ≤ reconnect_attempts_ r.1 ≤ 5)%Z
  ∧ r.2 = reconnect_attempts_ r.1.

(** the lines of one file that [load_cached_configs] takes *)
Definition taken_lines (fs : filesystem) (max_count : Z) (path : string) : list string :=
  let lines := read_lines fs path in
  let cap := Z.to_nat (max_count mod 2 ^ 64) in
  filter (fun line => Utils.contains "://" line = true)
         (drop (if (cap <? length lines)%nat then (length lines - cap)%nat else O) lines).

End Cache.

(** ** URI extraction (core/utils.cpp) *)

(** [std::regex] and [std::sregex_iterator] on the two patterns of
    [extract_raw_uris_from_text]: the successive matches in the text, or the
    exception the iteration throws *)
Class RegexLib := {
  (** the pattern [uri_re]: one of the five schemes, [://], then characters
      other than spaces, quotes, angle and square brackets; case ignored *)
  uri_re_matches : string → outcome (list string);
  (** the pattern [b64_re]: at least 100 base64 characters *)
  b64_re_matches : string → outcome (list string);
}.

Module Extract.
Import Utils.

(** a [std::set<std::string>] in iteration order: increasing, no repeats *)
Fixpoint sset_insert (x : string) (s : list string) : list string :=
  match s with
  | [] => [x]
  | y :: s' =>
      if String.eqb x y then s
      else if String.ltb x y then x :: s
      else y :: sset_insert x s'
  end.

Definition sset_insert_all (xs : list string) (s : list string) : list string :=
  foldl (fun s x => sset_insert x s) s xs.

Definition is_trailing_punct (c : ascii) : bool :=
  existsb (ascii_eqb c) [")"; "]"; ","; "."; ";"; ":"; "!"; "?"]%char.

(** [while (!uri.empty() && punct(uri.back())) uri.pop_back()] *)
Fixpoint strip_trailing (uri : string) : string :=
  match uri with
  | EmptyString => EmptyString
  | String c rest =>
      match strip_trailing rest with
      | EmptyString => if is_trailing_punct c then EmptyString else String c EmptyString
      | kept => String c kept
      end
  end.

(** [extract_raw_uris_from_text]; the recursion on decoded blocks is
    bounded by [fuel], and a decoded block is shorter than the text it was
    found in *)
Fixpoint extract_fuel `{RegexLib} (fuel : nat) (text : string) : outcome (list string) :=
  match fuel with
  | O => Returns []
  | S fuel =>
      if str_empty text then Returns [] else
      found ← uri_re_matches text;
      let uris :=
        foldl (fun uris m =>
                 let uri := strip_trailing m in
                 if (10 <? String.length uri)%nat then sset_insert uri uris else uris)
              [] found in
      match uris with
      | [] =>
          blocks ← b64_re_matches text;
          Returns (foldl (fun uris block =>
                     catch_with
                       (let decoded := safe_b64decode block in
                        if contains "://" decoded then
                          sub ← extract_fuel fuel decoded;
                          Returns (sset_insert_all sub uris)
                        else Returns uris)
                       uris)
                   uris (take 20 blocks))
      | _ => Returns uris
      end
  end.

Definition extract_raw_uris_from_text `{RegexLib} (text : string) : outcome (list string) :=
  extract_fuel (S (String.length text)) text.

(** what [extract_raw_uris_from_text] keeps: more than ten characters, the
    last of which is no trailing punctuation *)
Definition kept_uri (uri : string) : Prop :=
  (10 < String.length uri)%nat
  ∧ ∀ c, str_last uri = Some c → is_trailing_punct c = false.

End Extract.

(** ** telegram/scraper.cpp *)

Module Scraper.
Import Utils Extract.

Section Scrape.
(** what the fetch callback acts on *)
Context {World : Type}.
Context `{RegexLib}.

(** [TelegramFetchCallback]: the messages of a channel, or an exception *)
Definition TelegramFetchCallback : Type :=
  string → Z → World → outcome (list string) * World.

Definition max_consecutive_errors : Z := 3.

(** the loop over [found] for one message *)
Fixpoint keep_found (limit : Z) (found : list string)
    (channel_configs : gset string) (channel_configs_ordered : list string)
    : gset string * list string :=
  match found with
  | [] => (channel_configs, channel_configs_ordered)
  | uri :: found' =>
      if (limit <=? to_int (Z.of_nat (size channel_configs)))%Z
      then (channel_configs, channel_configs_ordered)
      else if bool_decide (uri ∉ channel_configs)
      then keep_found limit found' ({[ uri ]} ∪ channel_configs)
                      (channel_configs_ordered ++ [uri])
      else keep_found limit found' channel_configs channel_configs_ordered
  end.

(** the loop over the messages of one channel *)
Fixpoint keep_messages (limit : Z) (messages : list string)
    (channel_configs : gset string) (channel_configs_ordered : list string)
    : outcome (list string) :=
  match messages with
  | [] => Returns channel_configs_ordered
  | message :: messages' =>
      if (limit <=? to_int (Z.of_nat (size channel_configs)))%Z
      then Returns channel_configs_ordered
      else
        found ← extract_raw_uris_from_text message;
        let '(channel_configs, channel_configs_ordered) :=
          keep_found limit found channel_configs channel_configs_ordered in
        keep_messages limit messages' channel_configs channel_configs_ordered
  end.

Record scrape_state := {
  configs : gset string;
  consecutive_errors : Z;
  world : World;
  (** the channels the fetch callback has been called on, in order *)
  fetched : list string;
}.

(** the [try] block for one channel: the URIs kept for it, in order *)
Definition scrape_channel (fetch_cb : TelegramFetchCallback) (limit : Z)
    (channel : string) (w : World) : outcome (list string) * World :=
  let fetch_limit := Z.max 1 (Z.min 200 (to_int (limit * 4))) in
  let '(messages, w) := fetch_cb channel fetch_limit w in
  (messages ← messages; keep_messages limit messages ∅ [], w).

(** one turn of the loop over the channels, past the error check *)
Definition scrape_step (fetch_cb : TelegramFetchCallback) (limit : Z)
    (st : scrape_state) (channel : string) : scrape_state :=
  let '(kept, w) := scrape_channel fetch_cb limit channel (world st) in
  match kept with
  | Returns channel_configs_ordered =>
      {| configs := list_to_set channel_configs_ordered ∪ configs st;
         consecutive_errors := 0;
         world := w;
         fetched := fetched st ++ [channel] |}
  | Throws _ =>
      {| configs := configs st;
         consecutive_errors := consecutive_errors st + 1;
         world := w;
         fetched := fetched st ++ [channel] |}
  end.

Fixpoint scrape_loop (fetch_cb : TelegramFetchCallback) (limit : Z)
    (channels : list string) (st : scrape_state) : scrape_state :=
  match channels with
  | [] => st
  | channel :: channels' =>
      if (max_consecutive_errors <=? consecutive_errors st)%Z then st
      else scrape_loop fetch_cb limit channels' (scrape_step fetch_cb limit st channel)
  end.

Definition scrape_start (w : World) : scrape_state :=
  {| configs := ∅; consecutive_errors := 0; world := w; fetched := [] |}.

(** [scrape_configs(channels, limit)] with the callback [fetch_cb_] *)
Definition scrape_configs (fetch_cb_ : option TelegramFetchCallback)
    (channels : list string) (limit : Z) (w : World) : scrape_state :=
  match fetch_cb_ with
  | None => scrape_start w
  | Some fetch_cb => scrape_loop fetch_cb limit channels (scrape_start w)
  end.

(** what the two inner loops keep true of [channel_configs] and
    [channel_configs_ordered] *)
Definition kept_inv (limit : Z) (channel_configs : gset string)
    (ordered : list string) : Prop :=
  channel_configs = list_to_set ordered ∧ NoDup ordered
  ∧ (length ordered ≤ Z.to_nat limit)%nat.

(** a channel on which the [try] block throws whatever the host's state *)
Definition always_fails (fetch_cb : TelegramFetchCallback) (limit : Z)
    (channel : string) : Prop :=
  ∀ w, ∃ e, (scrape_channel fetch_cb limit channel w).1 = Throws e.

End Scrape.
End Scraper.

(** ** security/obfuscation.cpp *)

Module Obfuscation.
Import Json.

Definition OBF_CDN_WHITELIST_DOMAINS : list string := [
  "cloudflare.com"; "cdn.cloudflare.com"; "cloudflare-dns.com";
  "fastly.net"; "fastly.com"; "global.fastly.net";
  "akamai.net"; "akamaiedge.net"; "akamaihd.net";
  "azureedge.net"; "azure.com"; "microsoft.com";
  "amazonaws.com"; "cloudfront.net"; "awsglobalaccelerator.com";
  "googleusercontent.com"; "googleapis.com"; "gstatic.com";
  "workers.dev"; "pages.dev"; "vercel.app"; "r2.dev"; "arvan.run";
  "arvancdn.com" ].

Record StealthObfuscationEngine := {
  enabled : bool;
  current_sni_index_ : nat;
  cdn_whitelist_ : list string;
  stats_ : gmap string Z;
}.

(** the constructor: the first 8 CDN domains are the rotation *)
Definition new (enabled_ : bool) : StealthObfuscationEngine :=
  {| enabled := enabled_;
     current_sni_index_ := 0;
     cdn_whitelist_ := take (min 8 (length OBF_CDN_WHITELIST_DOMAINS))
                            OBF_CDN_WHITELIST_DOMAINS;
     stats_ := list_to_map [("configs_obfuscated", 0%Z); ("sni_rotations", 0%Z)] |}.

Definition get_current_sni (e : StealthObfuscationEngine) : string :=
  match cdn_whitelist_ e with
  | [] => "cdn.cloudflare.com"
  | _ => default "" (cdn_whitelist_ e !! (current_sni_index_ e mod length (cdn_whitelist_ e)))
  end.

(** [stats_[key]++] on the [int64_t] counters *)
Definition bump (key : string) (stats : gmap string Z) : gmap string Z :=
  <[key := wrap 64 (default 0%Z (stats !! key) + 1)]> stats.

(** the rewrite of [conf["streamSettings"]], through the reference [settings] *)
Definition rewrite_settings (sni : string) (settings : json) : outcome json :=
  settings ←
    (if contains settings "tlsSettings" then
       update_member settings "tlsSettings" (fun tls =>
         set_member tls "serverName" (JString sni))
     else Returns settings);
  settings ←
    (if contains settings "grpcSettings" then
       update_member settings "grpcSettings" (fun grpc =>
         set_member grpc "authority" (JString sni))
     else Returns settings);
  if contains settings "wsSettings" then
    update_member settings "wsSettings" (fun ws =>
      ws ← (if negb (contains ws "headers")
            then set_member ws "headers" (obj [])
            else Returns ws);
      update_member ws "headers" (fun headers =>
        set_member headers "Host" (JString sni)))
  else Returns settings.

(** [StealthObfuscationEngine::apply_obfuscation_to_config]: the outbound
    returned and the engine with its [mutable] counters *)
Definition apply_obfuscation_to_config (e : StealthObfuscationEngine)
    (outbound : json) : outcome (json * StealthObfuscationEngine) :=
  if negb (enabled e) || negb (contains outbound "streamSettings")
  then Returns (outbound, e)
  else
    let sni := get_current_sni e in
    conf ← update_member outbound "streamSettings" (rewrite_settings sni);
    Returns (conf,
             {| enabled := enabled e;
                current_sni_index_ := current_sni_index_ e;
                cdn_whitelist_ := cdn_whitelist_ e;
                stats_ := bump "configs_obfuscated" (stats_ e) |}).

(** the three members the rewrite may set *)
Definition sni_paths : list (list string) := [
  ["streamSettings"; "tlsSettings"; "serverName"];
  ["streamSettings"; "grpcSettings"; "authority"];
  ["streamSettings"; "wsSettings"; "headers"; "Host"] ].

(** two paths part ways: neither leads to, nor through, the other *)
Fixpoint diverges (path target : list string) : bool :=
  match path, target with
  | k :: path', t :: target' =>
      if String.eqb k t then diverges path' target' else true
  | _, _ => false
  end.

(** [new] has the same member as [old] at the end of every path that
    parts ways with all of [targets] *)
Definition agree_off (targets : list (list string)) (old new : json) : Prop :=
  ∀ path, Forall (fun target => diverges path target = true) targets →
          at_path path new = at_path path old.

(** a value [operator[]] accepts a key on: an object, or null *)
Definition settable (j : json) : bool :=
  match j with JObject _ | JNull => true | _ => false end.

(** the members the rewrite indexes into are objects or null *)
Definition indexable (settings : json) : Prop :=
  (∀ v, at_path ["tlsSettings"] settings = Some v → settable v = true)
  ∧ (∀ v, at_path ["grpcSettings"] settings = Some v → settable v = true)
  ∧ (∀ v, at_path ["wsSettings"] settings = Some v → settable v = true)
  ∧ (∀ v, at_path ["wsSettings"; "headers"] settings = Some v → settable v = true).

(** [StealthObfuscationEngine::rotate_sni]: the SNI returned and the engine
    afterwards; on an empty whitelist the modulo divides by zero and nothing
    is returned *)
Definition rotate_sni (e : StealthObfuscationEngine)
    : option (string * StealthObfuscationEngine) :=
  match cdn_whitelist_ e with
  | [] => None
  | _ =>
      let e' :=
        {| enabled := enabled e;
           current_sni_index_ := (current_sni_index_ e + 1) mod length (cdn_whitelist_ e);
           cdn_whitelist_ := cdn_whitelist_ e;
           stats_ := bump "sni_rotations" (stats_ e) |} in
      Some (get_current_sni e', e')
  end.

(** [n] rotations in a row: the last SNI returned, if any, and the engine *)
Fixpoint rotate_n (n : nat) (e : StealthObfuscationEngine)
    : option (option string * StealthObfuscationEngine) :=
  match n with
  | O => Some (None, e)
  | S n =>
      match rotate_n n e with
      | Some (_, e') =>
          match rotate_sni e' with
          | Some (sni, e'') => Some (Some sni, e'')
          | None => None
          end
      | None => None
      end
  end.

End Obfuscation.

(** ** From the parsers to the obfuscation engine *)

Module Pipeline.
Import Utils Json UriParser.

(** the first server of an outbound: [settings.vnext[0]] or
    [settings.servers[0]] *)
Definition first_server (outbound_ : json) : option json :=
  match at_path ["settings"] outbound_ with
  | Some (JObject m) =>
      match m !! "vnext", m !! "servers" with
      | Some (JArray (srv :: _)), _ => Some srv
      | None, Some (JArray (srv :: _)) => Some srv
      | _, _ => None
      end
  | _ => None
  end.

Definition protocols : list string := ["vmess"; "vless"; "trojan"; "shadowsocks"].

(** the stream settings of an outbound are an object without [sockopt], and
    those of its members that the SNI rewrite indexes into are objects *)
Definition stream_ok (o : json) : Prop :=
  ∀ settings, at_path ["streamSettings"] o = Some settings →
    is_object settings = true
    ∧ Obfuscation.indexable settings
    ∧ at_path ["sockopt"] settings = None.

(** an outbound is an object that names one of the four protocols, its first
    server is [host_] and [port_], and its stream settings, if any, are an
    object as above *)
Definition outbound_shape (o : json) (host_ : string) (port_ : Z) : Prop :=
  is_object o = true
  ∧ (∃ proto, at_path ["protocol"] o = Some (JString proto) ∧ proto ∈ protocols)
  ∧ (∃ srv, first_server o = Some srv
            ∧ at_path ["address"] srv = Some (JString host_)
            ∧ at_path ["port"] srv = Some (JInt port_))
  ∧ stream_ok o.
End Pipeline.

(** ** proxy/load_balancer.cpp *)

Module Balancer.
Import Utils Json UriParser.

(** [std::to_string] of a non-negative index *)
Fixpoint to_string_fuel (fuel n : nat) (acc : string) : string :=
  match fuel with
  | O => acc
  | S fuel =>
      let acc := String (ascii_of_nat (48 + n mod 10)) acc in
      if (n <? 10)%nat then acc else to_string_fuel fuel (n / 10) acc
  end.

Definition to_string (n : nat) : string := to_string_fuel (S n) n "".

(** calls on the engine collaborator, as the host sees them *)
Inductive event :=
  | EvStart (config : string) (listen_port : Z) (handle : Z)
  | EvStop (handle : Z)
  | EvTest (url : string) (listen_port timeout : Z) (status_code : Z) (latency : double).

Record BackendInfo := {
  b_uri : string;
  b_latency : double;
  healthy : bool;
  added_at : Z;
}.

Record balancer_stats := {
  restarts : Z;
  health_checks : Z;
  backend_swaps : Z;
  last_restart : option Z;
}.

Section Server.
(** what the host callbacks act on; [now_ts] reads its clock *)
Context {World : Type}.
Context (now_ts : World → Z).
Context `{StdLib} `{JsonLib}.
(** [std::sort] by stored latency: a rearrangement of the vector *)
Context (std_sort : list (string * double) → list (string * double)).

Definition StartProxyCallback : Type := string → Z → World → Z * World.
Definition StopProxyCallback : Type := Z → World → World.
Definition TestUrlCallback : Type := string → Z → Z → World → (Z * double) * World.

Record MultiProxyServer := {
  port_ : Z;
  num_backends_ : Z;
  health_check_interval_ : Z;
  iran_fragment_enabled_ : bool;
  obfuscation_engine_ : option Obfuscation.StealthObfuscationEngine;
  running_ : bool;
  current_proxy_handle_ : Z;
  backends_ : list BackendInfo;
  available_configs_ : list (string * double);
  failed_uris_ : gset string;
  stats_ : balancer_stats;
  start_proxy_cb_ : option StartProxyCallback;
  stop_proxy_cb_ : option StopProxyCallback;
  test_url_cb_ : option TestUrlCallback;
}.

(** the constructor and the three callback setters *)
Definition new (port num_backends health_check_interval : Z)
    (obfuscation_engine : option Obfuscation.StealthObfuscationEngine)
    (iran_fragment_enabled : bool)
    (start_cb : option StartProxyCallback) (stop_cb : option StopProxyCallback)
    (test_cb : option TestUrlCallback) : MultiProxyServer :=
  {| port_ := port; num_backends_ := num_backends;
     health_check_interval_ := health_check_interval;
     iran_fragment_enabled_ := iran_fragment_enabled;
     obfuscation_engine_ := obfuscation_engine;
     running_ := false; current_proxy_handle_ := -1;
     backends_ := []; available_configs_ := []; failed_uris_ := ∅;
     stats_ := {| restarts := 0; health_checks := 0; backend_swaps := 0;
                  last_restart := None |};
     start_proxy_cb_ := start_cb; stop_proxy_cb_ := stop_cb;
     test_url_cb_ := test_cb |}.

Definition with_engine (e : option Obfuscation.StealthObfuscationEngine)
    (s : MultiProxyServer) : MultiProxyServer :=
  {| port_ := port_ s; num_backends_ := num_backends_ s;
     health_check_interval_ := health_check_interval_ s;
     iran_fragment_enabled_ := iran_fragment_enabled_ s;
     obfuscation_engine_ := e;
     running_ := running_ s; current_proxy_handle_ := current_proxy_handle_ s;
     backends_ := backends_ s; available_configs_ := available_configs_ s;
     failed_uris_ := failed_uris_ s; stats_ := stats_ s;
     start_proxy_cb_ := start_proxy_cb_ s; stop_proxy_cb_ := stop_proxy_cb_ s;
     test_url_cb_ := test_url_cb_ s |}.

Definition with_running (b : bool) (s : MultiProxyServer) : MultiProxyServer :=
  {| port_ := port_ s; num_backends_ := num_backends_ s;
     health_check_interval_ := health_check_interval_ s;
     iran_fragment_enabled_ := iran_fragment_enabled_ s;
     obfuscation_engine_ := obfuscation_engine_ s;
     running_ := b; current_proxy_handle_ := current_proxy_handle_ s;
     backends_ := backends_ s; available_configs_ := available_configs_ s;
     failed_uris_ := failed_uris_ s; stats_ := stats_ s;
     start_proxy_cb_ := start_proxy_cb_ s; stop_proxy_cb_ := stop_proxy_cb_ s;
     test_url_cb_ := test_url_cb_ s |}.

Definition with_handle (h : Z) (s : MultiProxyServer) : MultiProxyServer :=
  {| port_ := port_ s; num_backends_ := num_backends_ s;
     health_check_interval_ := health_check_interval_ s;
     iran_fragment_enabled_ := iran_fragment_enabled_ s;
     obfuscation_engine_ := obfuscation_engine_ s;
     running_ := running_ s; current_proxy_handle_ := h;
     backends_ := backends_ s; available_configs_ := available_configs_ s;
     failed_uris_ := failed_uris_ s; stats_ := stats_ s;
     start_proxy_cb_ := start_proxy_cb_ s; stop_proxy_cb_ := stop_proxy_cb_ s;
     test_url_cb_ := test_url_cb_ s |}.

Definition with_backends (bs : list BackendInfo) (s : MultiProxyServer)
    : MultiProxyServer :=
  {| port_ := port_ s; num_backends_ := num_backends_ s;
     health_check_interval_ := health_check_interval_ s;
     iran_fragment_enabled_ := iran_fragment_enabled_ s;
     obfuscation_engine_ := obfuscation_engine_ s;
     running_ := running_ s; current_proxy_handle_ := current_proxy_handle_ s;
     backends_ := bs; available_configs_ := available_configs_ s;
     failed_uris_ := failed_uris_ s; stats_ := stats_ s;
     start_proxy_cb_ := start_proxy_cb_ s; stop_proxy_cb_ := stop_proxy_cb_ s;
     test_url_cb_ := test_url_cb_ s |}.

Definition with_available (cs : list (string * double)) (s : MultiProxyServer)
    : MultiProxyServer :=
  {| port_ := port_ s; num_backends_ := num_backends_ s;
     health_check_interval_ := health_check_interval_ s;
     iran_fragment_enabled_ := iran_fragment_enabled_ s;
     obfuscation_engine_ := obfuscation_engine_ s;
     running_ := running_ s; current_proxy_handle_ := current_proxy_handle_ s;
     backends_ := backends_ s; available_configs_ := cs;
     failed_uris_ := failed_uris_ s; stats_ := stats_ s;
     start_proxy_cb_ := start_proxy_cb_ s; stop_proxy_cb_ := stop_proxy_cb_ s;
     test_url_cb_ := test_url_cb_ s |}.

Definition with_failed (f : gset string) (s : MultiProxyServer) : MultiProxyServer :=
  {| port_ := port_ s; num_backends_ := num_backends_ s;
     health_check_interval_ := health_check_interval_ s;
     iran_fragment_enabled_ := iran_fragment_enabled_ s;
     obfuscation_engine_ := obfuscation_engine_ s;
     running_ := running_ s; current_proxy_handle_ := current_proxy_handle_ s;
     backends_ := backends_ s; available_configs_ := available_configs_ s;
     failed_uris_ := f; stats_ := stats_ s;
     start_proxy_cb_ := start_proxy_cb_ s; stop_proxy_cb_ := stop_proxy_cb_ s;
     test_url_cb_ := test_url_cb_ s |}.

Definition with_stats (st : balancer_stats) (s : MultiProxyServer) : MultiProxyServer :=
  {| port_ := port_ s; num_backends_ := num_backends_ s;
     health_check_interval_ := health_check_interval_ s;
     iran_fragment_enabled_ := iran_fragment_enabled_ s;
     obfuscation_engine_ := obfuscation_engine_ s;
     running_ := running_ s; current_proxy_handle_ := current_proxy_handle_ s;
     backends_ := backends_ s; available_configs_ := available_configs_ s;
     failed_uris_ := failed_uris_ s; stats_ := st;
     start_proxy_cb_ := start_proxy_cb_ s; stop_proxy_cb_ := stop_proxy_cb_ s;
     test_url_cb_ := test_url_cb_ s |}.

(** *** The monad of the member functions

    A member function runs on the object, the host's world and the record
    of the engine calls made so far (oldest first); it returns or throws. *)

Record state := {
  server : MultiProxyServer;
  world : World;
  trace : list event;
}.

Definition M (A : Type) : Type := state → outcome A * state.

#[local] Instance M_ret : MRet M := fun _ a st => (Returns a, st).
#[local] Instance M_bind : MBind M := fun _ _ k m st =>
  match m st with
  | (Returns a, st') => k a st'
  | (Throws e, st') => (Throws e, st')
  end.

Definition this : M MultiProxyServer := fun st => (Returns (server st), st).

Definition assign (f : MultiProxyServer → MultiProxyServer) : M unit :=
  fun st => (Returns tt,
             {| server := f (server st); world := world st; trace := trace st |}).

Definition lift {A} (o : outcome A) : M A := fun st => (o, st).

Definition clock : M Z := fun st => (Returns (now_ts (world st)), st).

Definition call_start (cb : StartProxyCallback) (config : string) (listen_port : Z)
    : M Z :=
  fun st =>
    let '(handle, w) := cb config listen_port (world st) in
    (Returns handle,
     {| server := server st; world := w;
        trace := trace st ++ [EvStart config listen_port handle] |}).

Definition call_stop (cb : StopProxyCallback) (handle : Z) : M unit :=
  fun st =>
    (Returns tt,
     {| server := server st; world := cb handle (world st);
        trace := trace st ++ [EvStop handle] |}).

Definition call_test (cb : TestUrlCallback) (url : string) (listen_port timeout : Z)
    : M (Z * double) :=
  fun st =>
    let '((status_code, latency), w) := cb url listen_port timeout (world st) in
    (Returns (status_code, latency),
     {| server := server st; world := w;
        trace := trace st ++ [EvTest url listen_port timeout status_code latency] |}).

(** *** [create_balanced_config] *)

Definition fragment_outbound : json :=
  obj [("tag", JString "fragment");
       ("protocol", JString "freedom");
       ("settings", obj [
          ("domainStrategy", JString "AsIs");
          ("fragment", obj [
             ("packets", JString "tlshello");
             ("length", JString "10-20");
             ("interval", JString "10-20")])])].

(** the fragment-mode edit of one outbound *)
Definition dial_through_fragment (outbound_ : json) : outcome json :=
  outbound_ ←
    (if negb (contains outbound_ "streamSettings")
     then set_member outbound_ "streamSettings" (obj [])
     else Returns outbound_);
  update_member outbound_ "streamSettings" (fun settings =>
    settings ←
      (if negb (contains settings "sockopt")
       then set_member settings "sockopt" (obj [])
       else Returns settings);
    update_member settings "sockopt" (fun sockopt =>
      set_member sockopt "dialerProxy" (JString "fragment"))).

(** one turn of the loop over the backends, on [(outbounds, selectors, idx)] *)
Definition add_backend (backend : BackendInfo) (acc : list json * list json * nat)
    : M (list json * list json * nat) :=
  let '(outbounds, selectors, idx) := acc in
  if negb (healthy backend) then mret acc else
  parsed ← lift (UniversalParser_parse (b_uri backend));
  match parsed with
  | None => mret acc
  | Some parsed =>
      let tag := "proxy-" +:+ to_string idx in
      outbound_ ← lift (set_member (outbound parsed) "tag" (JString tag));
      s ← this;
      outbound_ ←
        match obfuscation_engine_ s with
        | Some e =>
            if Obfuscation.enabled e then
              r ← lift (Obfuscation.apply_obfuscation_to_config e outbound_);
              assign (with_engine (Some r.2));;
              mret r.1
            else mret outbound_
        | None => mret outbound_
        end;
      outbound_ ←
        (if iran_fragment_enabled_ s then lift (dial_through_fragment outbound_)
         else mret outbound_);
      mret (outbounds ++ [outbound_], selectors ++ [JString tag], S idx)
  end.

Fixpoint add_backends (backends : list BackendInfo) (acc : list json * list json * nat)
    : M (list json * list json * nat) :=
  match backends with
  | [] => mret acc
  | backend :: backends' =>
      acc ← add_backend backend acc;
      add_backends backends' acc
  end.

Definition create_balanced_config (backends : list BackendInfo) : M json :=
  s ← this;
  let outbounds := if iran_fragment_enabled_ s then [fragment_outbound] else [] in
  acc ← add_backends backends (outbounds, [], O);
  let '(outbounds, selectors, _) := acc in
  let '(outbounds, selectors) :=
    match selectors with
    | [] =>
        (outbounds ++ [obj [("tag", JString "direct");
                            ("protocol", JString "freedom");
                            ("settings", obj [("domainStrategy", JString "AsIs")])]],
         [JString "direct"])
    | _ => (outbounds, selectors)
    end in
  let outbounds :=
    outbounds ++ [obj [("protocol", JString "blackhole");
                       ("tag", JString "block");
                       ("settings", obj [])]] in
  mret (obj [
    ("log", obj [("loglevel", JString "warning")]);
    ("inbounds", JArray [obj [
       ("port", JInt (port_ s));
       ("listen", JString "0.0.0.0");
       ("protocol", JString "socks");
       ("settings", obj [("auth", JString "noauth"); ("udp", JBool true)]);
       ("sniffing", obj [
          ("enabled", JBool true);
          ("destOverride", JArray [JString "http"; JString "tls"; JString "quic"]);
          ("routeOnly", JBool false)])]]);
    ("outbounds", JArray outbounds);
    ("routing", obj [
       ("domainStrategy", JString "AsIs");
       ("balancers", JArray [obj [
          ("tag", JString "balancer");
          ("selector", JArray selectors);
          ("strategy", obj [("type", JString "random")])]]);
       ("rules", JArray [obj [
          ("type", JString "field");
          ("inboundTag", JArray [JString "socks"]);
          ("balancerTag", JString "balancer")]])]);
    ("dns", obj [
       ("servers", JArray [
          JString "https://cloudflare-dns.com/dns-query";
          JString "https://dns.google/dns-query";
          JString "1.1.1.1";
          JString "8.8.8.8"])])]).

(** *** [write_and_start] *)

Definition bump_restarts (now : Z) (st : balancer_stats) : balancer_stats :=
  {| restarts := to_int (restarts st + 1); health_checks := health_checks st;
     backend_swaps := backend_swaps st; last_restart := Some now |}.

(** the block "Stop existing proxy", which [stop] ends with as well *)
Definition stop_existing : M unit :=
  s ← this;
  match stop_proxy_cb_ s with
  | Some stop_cb =>
      if (0 <=? current_proxy_handle_ s)%Z then
        call_stop stop_cb (current_proxy_handle_ s);;
        assign (with_handle (-1))
      else mret tt
  | None => mret tt
  end.

(** the block "Start new proxy via JNI" *)
Definition start_new (config_str : string) : M bool :=
  s ← this;
  match start_proxy_cb_ s with
  | Some start_cb =>
      handle ← call_start start_cb config_str (port_ s);
      assign (with_handle handle);;
      if (handle <? 0)%Z then mret false
      else
        now ← clock;
        s ← this;
        assign (with_stats (bump_restarts now (stats_ s)));;
        mret true
  | None => mret false
  end.

Definition write_and_start (backends : list BackendInfo) : M bool :=
  config ← create_balanced_config backends;
  config_str ← lift (json_dump (Some 2%nat) config);
  stop_existing;;
  start_new config_str.

(** *** [test_backend] *)

(** the acceptance test on the status code of the test hook *)
Definition status_accepted (status_code : Z) : bool :=
  ((0 <? status_code) && ((status_code <? 400) || (status_code =? 204)))%Z.

Definition probe_port (port : Z) (uri_ : string) : Z :=
  let test_port := to_int (port + 100 + Z.rem (to_int (std_hash uri_)) 50) in
  if (test_port <? 0)%Z then to_int (port + 100) else test_port.

Definition probe_config (test_port : Z) (outbound_ : json) : json :=
  obj [("log", obj [("loglevel", JString "warning")]);
       ("inbounds", JArray [obj [
          ("port", JInt test_port);
          ("listen", JString "127.0.0.1");
          ("protocol", JString "socks");
          ("settings", obj [("auth", JString "noauth"); ("udp", JBool false)])]]);
       ("outbounds", JArray [outbound_])].

Definition test_backend (uri_ : string) (timeout : Z) : M (option double) :=
  parsed ← lift (UniversalParser_parse uri_);
  match parsed with
  | None => mret None
  | Some parsed =>
      s ← this;
      let test_port := probe_port (port_ s) uri_ in
      let config := probe_config test_port (outbound parsed) in
      handle ←
        match start_proxy_cb_ s with
        | Some start_cb =>
            config_str ← lift (json_dump None config);
            call_start start_cb config_str test_port
        | None => mret (-1)%Z
        end;
      if (handle <? 0)%Z then mret None else
      result ←
        match test_url_cb_ s with
        | Some test_cb =>
            r ← call_test test_cb "https://cp.cloudflare.com/" test_port timeout;
            mret (if status_accepted r.1 then Some r.2 else None)
        | None => mret None
        end;
      match stop_proxy_cb_ s with
      | Some stop_cb =>
          if (0 <=? handle)%Z then call_stop stop_cb handle else mret tt
      | None => mret tt
      end;;
      mret result
  end.

(** *** [find_working_backends] *)

Fixpoint probe_in_turn (count : Z) (configs : list (string * double))
    (working : list BackendInfo) : M (list BackendInfo) :=
  match configs with
  | [] => mret working
  | (uri_, _) :: configs' =>
      if (count <=? to_int (Z.of_nat (length working)))%Z then mret working else
      s ← this;
      if bool_decide (uri_ ∈ failed_uris_ s) then probe_in_turn count configs' working else
      test_result ← test_backend uri_ 8;
      match test_result with
      | Some latency =>
          now ← clock;
          probe_in_turn count configs'
            (working ++ [{| b_uri := uri_; b_latency := latency;
                            healthy := true; added_at := now |}])
      | None =>
          s ← this;
          assign (with_failed ({[ uri_ ]} ∪ failed_uris_ s));;
          probe_in_turn count configs' working
      end
  end.

Definition find_working_backends (count : Z) : M (list BackendInfo) :=
  s ← this;
  let configs := std_sort (available_configs_ s) in
  probe_in_turn count configs [].

(** *** The public operations *)

(** [start(initial_configs)]; launching the health thread leaves the object
    as it is *)
Definition start (initial_configs : option (list (string * double))) : M unit :=
  s ← this;
  if running_ s then mret tt else
  assign (with_running true);;
  match initial_configs with
  | Some configs => assign (with_available configs)
  | None => mret tt
  end;;
  s ← this;
  backends ← find_working_backends (num_backends_ s);
  match backends with
  | [] => mret tt
  | _ =>
      assign (with_backends backends);;
      write_and_start backends;;
      mret tt
  end.

Definition bump_health_checks (st : balancer_stats) : balancer_stats :=
  {| restarts := restarts st; health_checks := to_int (health_checks st + 1);
     backend_swaps := backend_swaps st; last_restart := last_restart st |}.

Definition bump_backend_swaps (st : balancer_stats) : balancer_stats :=
  {| restarts := restarts st; health_checks := health_checks st;
     backend_swaps := to_int (backend_swaps st + 1); last_restart := last_restart st |}.

(** one turn of [health_check_loop], after the sleep *)
Definition health_check_tick : M unit :=
  s ← this;
  if negb (running_ s) then mret tt else
  let current_backends := backends_ s in
  let healthy_count := length (filter (fun b => healthy b = true) current_backends) in
  assign (with_stats (bump_health_checks (stats_ s)));;
  match healthy_count, available_configs_ s with
  | O, _ :: _ =>
      new_backends ← find_working_backends (num_backends_ s);
      match new_backends with
      | [] => mret tt
      | _ =>
          assign (with_backends new_backends);;
          write_and_start new_backends;;
          s ← this;
          assign (with_stats (bump_backend_swaps (stats_ s)))
      end
  | _, _ => mret tt
  end.

Definition update_available_configs (configs : list (string * double)) : M unit :=
  assign (with_available configs);;
  s ← this;
  if negb (running_ s) then mret tt else
  match backends_ s with
  | [] =>
      new_backends ← find_working_backends (num_backends_ s);
      match new_backends with
      | [] => mret tt
      | _ =>
          assign (with_backends new_backends);;
          write_and_start new_backends;;
          mret tt
      end
  | _ => mret tt
  end.

(** [stop()]; the health thread has been joined when the engine is stopped *)
Definition stop : M unit :=
  assign (with_running false);;
  stop_existing.

(** *** Runs of a balancer *)

Inductive operation :=
  | OpStart (initial_configs : option (list (string * double)))
  | OpUpdateAvailable (configs : list (string * double))
  | OpHealthTick
  | OpStop.

Definition run_operation (op : operation) : M unit :=
  match op with
  | OpStart initial_configs => start initial_configs
  | OpUpdateAvailable configs => update_available_configs configs
  | OpHealthTick => health_check_tick
  | OpStop => stop
  end.

(** the operations in turn; one that throws leaves the object as it was at
    the throw, and the caller goes on *)
Definition run (ops : list operation) (st : state) : state :=
  foldl (fun st op => (run_operation op st).2) st ops.

(** *** Live engine handles *)

Fixpoint remove_first (h : Z) (live : list Z) : list Z :=
  match live with
  | [] => []
  | h' :: live' => if (h =? h')%Z then live' else h' :: remove_first h live'
  end.

(** the handles started and not yet stopped *)
Definition step_live (live : list Z) (e : event) : list Z :=
  match e with
  | EvStart _ _ handle => if (0 <=? handle)%Z then handle :: live else live
  | EvStop handle => remove_first handle live
  | EvTest _ _ _ _ _ => live
  end.

Definition live_after (tr : list event) : list Z := foldl step_live [] tr.

(** at every instant of the trace at most one handle is live *)
Definition at_most_one_live (tr : list event) : Prop :=
  ∀ pre, pre `prefix_of` tr → (length (live_after pre) ≤ 1)%nat.

Definition handle_list (h : Z) : list Z := if (0 <=? h)%Z then [h] else [].

(** the engine handle of the object is the one live handle of the trace *)
Definition engine_ok (st : state) : Prop :=
  at_most_one_live (trace st)
  ∧ live_after (trace st) = handle_list (current_proxy_handle_ (server st)).

(** *** The engine calls of a probe and of a rebuild *)

(** what one probe may emit, and what it then answers *)
Inductive probe_run (s : MultiProxyServer)
    : list event → outcome (option double) → Prop :=
  | probe_not_started r :
      (r = Returns None ∨ ∃ e, r = Throws e) → probe_run s [] r
  | probe_start_failed c p h :
      (h < 0)%Z → probe_run s [EvStart c p h] (Returns None)
  | probe_tested c p h url t sc lat :
      (0 ≤ h)%Z →
      probe_run s
        ([EvStart c p h; EvTest url p t sc lat]
           ++ (if stop_proxy_cb_ s is Some _ then [EvStop h] else []))
        (Returns (if status_accepted sc then Some lat else None))
  | probe_not_tested c p h :
      (0 ≤ h)%Z → test_url_cb_ s = None →
      probe_run s
        ([EvStart c p h] ++ (if stop_proxy_cb_ s is Some _ then [EvStop h] else []))
        (Returns None).

(** the stop of the engine in place, when there is one and it can be stopped *)
Definition stop_old (s : MultiProxyServer) : list event :=
  if stop_proxy_cb_ s is Some _
  then (if (0 <=? current_proxy_handle_ s)%Z then [EvStop (current_proxy_handle_ s)] else [])
  else [].

(** what one rebuild may emit, and the handle the object holds afterwards *)
Inductive rebuild_run (s : MultiProxyServer) : list event → Z → Prop :=
  | rebuild_threw : rebuild_run s [] (current_proxy_handle_ s)
  | rebuild_started c p h :
      rebuild_run s (stop_old s ++ [EvStart c p h]) h
  | rebuild_not_started :
      start_proxy_cb_ s = None →
      rebuild_run s (stop_old s)
        (match stop_old s with [] => current_proxy_handle_ s | _ => -1 end)%Z.

(** the fields the engine bookkeeping depends on *)
Definition frame (s s' : MultiProxyServer) : Prop :=
  running_ s' = running_ s ∧ backends_ s' = backends_ s
  ∧ stop_proxy_cb_ s' = stop_proxy_cb_ s
  ∧ start_proxy_cb_ s' = start_proxy_cb_ s.

(** a step that calls nothing on the engine *)
Definition quiet (st st' : state) : Prop :=
  trace st' = trace st ∧ frame (server st) (server st')
  ∧ current_proxy_handle_ (server st') = current_proxy_handle_ (server st).

(** what every run of the operations keeps true of a balancer whose stop
    hook is installed *)
Definition balancer_inv (st : state) : Prop :=
  stop_proxy_cb_ (server st) ≠ None
  ∧ engine_ok st
  ∧ ((0 ≤ current_proxy_handle_ (server st))%Z →
     backends_ (server st) ≠ [] ∧ running_ (server st) = true)
  ∧ Forall (fun b => healthy b = true) (backends_ (server st)).

(** the step [start], [update_available_configs] and the health loop
    share: probe, and rebuild when a backend answered *)
Definition probe_and_rebuild (after : M unit) : M unit :=
  s ← this;
  new_backends ← find_working_backends (num_backends_ s);
  match new_backends with
  | [] => mret tt
  | _ =>
      assign (with_backends new_backends);;
      write_and_start new_backends;;
      after
  end.

(** *** Two probes at once

    [test_backend] takes no lock, and [find_working_backends] holds
    [mutex_] only while it copies [available_configs_]: the health thread
    and a caller of [update_available_configs] can both be inside a probe.
    A probe makes up to three engine calls; between two of them the other
    thread may run. *)

(** where a probe stands: before the start of its engine, before the test,
    before the stop, or done with its answer *)
Inductive probe_pc :=
  | AtStart (uri_ : string) (timeout : Z)
  | AtTest (test_port timeout handle : Z)
  | AtStop (handle : Z) (result : option double)
  | Done (result : option double).

(** a probe up to and including its next engine call *)
Definition probe_step (pc : probe_pc) : M probe_pc :=
  match pc with
  | AtStart uri_ timeout =>
      parsed ← lift (UniversalParser_parse uri_);
      match parsed with
      | None => mret (Done None)
      | Some parsed =>
          s ← this;
          let test_port := probe_port (port_ s) uri_ in
          let config := probe_config test_port (outbound parsed) in
          handle ←
            match start_proxy_cb_ s with
            | Some start_cb =>
                config_str ← lift (json_dump None config);
                call_start start_cb config_str test_port
            | None => mret (-1)%Z
            end;
          if (handle <? 0)%Z then mret (Done None)
          else mret (AtTest test_port timeout handle)
      end
  | AtTest test_port timeout handle =>
      s ← this;
      result ←
        match test_url_cb_ s with
        | Some test_cb =>
            r ← call_test test_cb "https://cp.cloudflare.com/" test_port timeout;
            mret (if status_accepted r.1 then Some r.2 else None)
        | None => mret None
        end;
      mret (AtStop handle result)
  | AtStop handle result =>
      s ← this;
      match stop_proxy_cb_ s with
      | Some stop_cb =>
          if (0 <=? handle)%Z then call_stop stop_cb handle else mret tt
      | None => mret tt
      end;;
      mret (Done result)
  | Done result => mret (Done result)
  end.

(** the steps of a probe that no other thread interrupts *)
Definition probe_alone (uri_ : string) (timeout : Z) : M probe_pc :=
  pc ← probe_step (AtStart uri_ timeout);
  pc ← probe_step pc;
  probe_step pc.

(** two probes under a schedule: at [true] the first takes its next step,
    at [false] the second; a probe that threw takes no further step *)
Fixpoint interleave (schedule : list bool) (a b : outcome probe_pc)
    (st : state) : outcome probe_pc * outcome probe_pc * state :=
  match schedule with
  | [] => (a, b, st)
  | true :: schedule' =>
      match a with
      | Returns pc => let '(a, st) := probe_step pc st in interleave schedule' a b st
      | Throws _ => interleave schedule' a b st
      end
  | false :: schedule' =>
      match b with
      | Returns pc => let '(b, st) := probe_step pc st in interleave schedule' a b st
      | Throws _ => interleave schedule' a b st
      end
  end.

End Server.

Arguments MultiProxyServer : clear implicits.
Arguments state : clear implicits.

(** *** Vocabulary of the properties of the balancer *)

Section Vocabulary.
Context {World : Type} `{StdLib} `{JsonLib}.

(** nothing happened to the engine, the host, the backends or the failed
    URIs between two states *)
Definition steady (st st' : state World) : Prop :=
  trace st' = trace st ∧ world st' = world st
  ∧ backends_ (server st') = backends_ (server st)
  ∧ current_proxy_handle_ (server st') = current_proxy_handle_ (server st)
  ∧ running_ (server st') = running_ (server st)
  ∧ failed_uris_ (server st') = failed_uris_ (server st).

(** the tag of the outbound of the backend at place [idx] *)
Definition proxy_tag (idx : nat) : string := "proxy-" +:+ to_string idx.

(** a backend that gets an outbound: healthy, with a URI that parses *)
Definition routable (b : BackendInfo) : bool :=
  healthy b && match UniversalParser_parse (b_uri b) with
               | Returns (Some _) => true
               | _ => false
               end.

(** the outbound with tag [proxy-idx] is the one parsed from the URI of the
    backend, and dials through the fragment outbound in fragment mode *)
Definition proxy_for (fragment : bool) (idx : nat) (b : BackendInfo) (o : json) : Prop :=
  at_path ["tag"] o = Some (JString (proxy_tag idx))
  ∧ (∃ cfg, UniversalParser_parse (b_uri b) = Returns (Some cfg)
            ∧ at_path ["protocol"] o = at_path ["protocol"] (outbound cfg)
            ∧ at_path ["settings"] o = at_path ["settings"] (outbound cfg))
  ∧ (fragment = true →
     at_path ["streamSettings"; "sockopt"; "dialerProxy"] o = Some (JString "fragment")).

Definition config_outbounds (config : json) : list json :=
  match at_path ["outbounds"] config with
  | Some (JArray outbounds) => outbounds
  | _ => []
  end.

(** [routing.balancers[0].selector] *)
Definition config_selectors (config : json) : list json :=
  match at_path ["routing"; "balancers"] config with
  | Some (JArray (balancer :: _)) =>
      match at_path ["selector"] balancer with
      | Some (JArray selectors) => selectors
      | _ => []
      end
  | _ => []
  end.

End Vocabulary.

End Balancer.

(** ** URIs as the parsers read them *)

Module Format.
Import Utils UriParser.

(** none of the characters [chars] is in [s] *)
Definition free_of (chars : list ascii) (s : string) : bool :=
  forallb (fun c => negb (contains_char c s)) chars.

(** the URI [scheme://user@host:port?k1=v1&...#name] *)
Definition authority_uri (scheme user host : string) (port : nat)
    (pairs : list (string * string)) (name : string) : string :=
  scheme +:+ "://" +:+
  (((user +:+ String "@" (host +:+ String ":" (Balancer.to_string port)))
    +:+ String "?" (query_of pairs))
   +:+ String "#" name).

(** what a user, a host and the parameters have to be for the URI to be
    read back *)
Definition uri_parts_ok (user host : string) (port : nat)
    (pairs : list (string * string)) : Prop :=
  free_of ["#"; "?"; "/"; "@"; "%"; "+"]%char user = true
  ∧ free_of ["#"; "?"; "/"; "@"]%char host = true
  ∧ nonempty_first "[" host = false
  ∧ (Z.of_nat port ≤ INT_MAX)%Z
  ∧ Forall (fun kv => query_key_ok kv.1 = true ∧ query_value_ok kv.2 = true
                      ∧ contains_char "#" kv.1 = false
                      ∧ contains_char "#" kv.2 = false) pairs.
End Format.

(** ** core/config.cpp *)

Module Config.
Import Utils.

(** [ConfigValue], the variant of the five value types *)
Inductive ConfigValue :=
  | CInt (v : Z)
  | CDouble (v : double)
  | CBool (v : bool)
  | CString (v : string)
  | CList (v : list string).

Record HunterConfig := {
  secrets_file_ : string;
  files_dir_ : string;
  config_ : gmap string ConfigValue;
  env_ : gmap string string;
}.

Definition with_config (m : gmap string ConfigValue) (c : HunterConfig) : HunterConfig :=
  {| secrets_file_ := secrets_file_ c; files_dir_ := files_dir_ c;
     config_ := m; env_ := env_ c |}.

(** [config_[key] = value] for each pair, in order *)
Definition assign_all (values : list (string * ConfigValue))
    (m : gmap string ConfigValue) : gmap string ConfigValue :=
  foldl (fun m kv => <[kv.1 := kv.2]> m) m values.

(** the six path entries under [runtime_dir] *)
Definition path_entries (runtime_dir : string) : list (string * ConfigValue) :=
  [("state_file", CString (runtime_dir +:+ "/HUNTER_state.json"));
   ("raw_file", CString (runtime_dir +:+ "/HUNTER_raw.txt"));
   ("gold_file", CString (runtime_dir +:+ "/HUNTER_gold.txt"));
   ("silver_file", CString (runtime_dir +:+ "/HUNTER_silver.txt"));
   ("bridge_pool_file", CString (runtime_dir +:+ "/HUNTER_bridge_pool.txt"));
   ("validated_jsonl", CString (runtime_dir +:+ "/HUNTER_validated.jsonl"))].

(** the assignments of [load_default_config], in order *)
Definition config_defaults (files_dir : string) : list (string * ConfigValue) :=
  let runtime_dir :=
    if str_empty files_dir then "runtime" else files_dir +:+ "/runtime" in
  [("api_id", CInt 0);
   ("api_hash", CString "");
   ("phone", CString "");
   ("bot_token", CString "");
   ("report_channel", CInt 0);
   ("chat_id", CString "");
   ("session_name", CString "session");
   ("telegram_limit", CInt 50);
   ("bot_username", CString "");
   ("targets", CList [
      "v2rayngvpn"; "mitivpn"; "proxymtprotoir"; "Porteqal3";
      "v2ray_configs_pool"; "vmessorg"; "V2rayNGn"; "v2ray_swhil";
      "VmessProtocol"; "PrivateVPNs"; "DirectVPN"; "v2rayNG_Matsuri";
      "FalconPolV2rayNG"; "ShadowSocks_s"; "napsternetv_config";
      "VlessConfig"; "iP_CF"; "ConfigsHUB"]);
   ("xray_path", CString "")]
  ++ path_entries runtime_dir ++
  [("test_url", CString "https://www.cloudflare.com/cdn-cgi/trace");
   ("google_test_url", CString "https://www.google.com/generate_204");
   ("scan_limit", CInt 50);
   ("latest_total", CInt 500);
   ("max_total", CInt 3000);
   ("npvt_scan_limit", CInt 50);
   ("max_workers", CInt 50);
   ("timeout_seconds", CInt 10);
   ("sleep_seconds", CInt 300);
   ("cleanup_interval", CInt (24 * 3600));
   ("recursive_ratio", CDouble (DFinite (15 # 100)));
   ("max_bridges", CInt 8);
   ("bridge_base", CInt 11808);
   ("bench_base", CInt 12808);
   ("multiproxy_port", CInt 10808);
   ("multiproxy_backends", CInt 5);
   ("multiproxy_health_interval", CInt 60);
   ("gemini_balancer_enabled", CBool false);
   ("gemini_port", CInt 10809);
   ("connect_tries", CInt 4);
   ("adee_enabled", CBool true);
   ("iran_fragment_enabled", CBool false);
   ("gateway_enabled", CBool false);
   ("web_server_enabled", CBool true);
   ("web_server_port", CInt 8080);
   ("gateway_socks_port", CInt 10808);
   ("gateway_http_port", CInt 10809);
   ("gateway_dns_port", CInt 53)].

Definition load_default_config (c : HunterConfig) : HunterConfig :=
  with_config (assign_all (config_defaults (files_dir_ c)) (config_ c)) c.

(** a config with no entry yet *)
Definition blank (secrets_file : string) : HunterConfig :=
  {| secrets_file_ := secrets_file; files_dir_ := ""; config_ := ∅; env_ := ∅ |}.

Definition get_int (c : HunterConfig) (key : string) (default_val : Z) : Z :=
  match config_ c !! key with
  | Some (CInt p) => p
  | _ => default_val
  end.

Definition get_bool (c : HunterConfig) (key : string) (default_val : bool) : bool :=
  match config_ c !! key with
  | Some (CBool p) => p
  | _ => default_val
  end.

Definition get_string (c : HunterConfig) (key default_val : string) : string :=
  match config_ c !! key with
  | Some (CString p) => p
  | _ => default_val
  end.

Definition get_string_list (c : HunterConfig) (key : string) : list string :=
  match config_ c !! key with
  | Some (CList p) => p
  | _ => []
  end.

Definition set_int (c : HunterConfig) (key : string) (value : Z) : HunterConfig :=
  with_config (<[key := CInt value]> (config_ c)) c.

Definition set_double (c : HunterConfig) (key : string) (value : double) : HunterConfig :=
  with_config (<[key := CDouble value]> (config_ c)) c.

Definition set_bool (c : HunterConfig) (key : string) (value : bool) : HunterConfig :=
  with_config (<[key := CBool value]> (config_ c)) c.

Definition set_string (c : HunterConfig) (key value : string) : HunterConfig :=
  with_config (<[key := CString value]> (config_ c)) c.

Definition set_string_list (c : HunterConfig) (key : string) (value : list string)
    : HunterConfig :=
  with_config (<[key := CList value]> (config_ c)) c.

Definition set_files_dir (c : HunterConfig) (dir : string) : HunterConfig :=
  {| secrets_file_ := secrets_file_ c; files_dir_ := dir;
     config_ := assign_all (path_entries (dir +:+ "/runtime")) (config_ c);
     env_ := env_ c |}.

Definition get_files_dir (c : HunterConfig) : string := files_dir_ c.

(** the table [checks] of [validate] *)
Definition checks : list (string * Z * Z) :=
  [("scan_limit", 1, 1000); ("max_total", 1, 10000); ("max_workers", 1, 200);
   ("timeout_seconds", 1, 60); ("telegram_limit", 1, 500);
   ("sleep_seconds", 10, 3600)]%Z.

Definition validate (c : HunterConfig) : list string :=
  let errors := [] in
  let errors :=
    if (get_int c "api_id" 0 =? 0)%Z then errors ++ ["HUNTER_API_ID is required"]
    else errors in
  let errors :=
    if str_empty (get_string c "api_hash" "")
    then errors ++ ["HUNTER_API_HASH is required"] else errors in
  let errors :=
    if str_empty (get_string c "phone" "")
    then errors ++ ["HUNTER_PHONE is required"] else errors in
  foldl (fun errors '(field, min_val, max_val) =>
           let val := get_int c field 0 in
           if ((val <? min_val) || (max_val <? val))%Z
           then errors ++ [field +:+ " must be between "
                           +:+ Balancer.to_string (Z.to_nat min_val) +:+ " and "
                           +:+ Balancer.to_string (Z.to_nat max_val)]
           else errors)
        errors checks.

(** the fields of [checks] hold an integer in their range *)
Definition in_range (c : HunterConfig) : Prop :=
  Forall (fun '(field, min_val, max_val) =>
            (min_val ≤ get_int c field 0 ≤ max_val)%Z) checks.
End Config.

(** ** orchestrator.cpp *)

Module Orchestrator.
Import Utils Json Config.

Record HunterBenchResult := {
  br_uri : string;
  br_outbound : json;
  br_host : string;
  br_port : Z;
  br_identity : string;
  br_ps : string;
  br_latency_ms : double;
  br_ip : option string;
  br_country_code : option string;
  br_region : string;
  br_tier : string;
}.

(** the loop "Deduplicate" of [validate_configs], on [seen] and [deduped] *)
Fixpoint dedupe_loop (max_total : Z) (configs : list string) (seen : gset string)
    (deduped : list string) : list string :=
  match configs with
  | [] => deduped
  | c :: configs' =>
      if bool_decide (c ∈ seen) then dedupe_loop max_total configs' seen deduped
      else
        let deduped := deduped ++ [c] in
        if (max_total <=? to_int (Z.of_nat (length deduped)))%Z then deduped
        else dedupe_loop max_total configs' ({[ c ]} ∪ seen) deduped
  end.

(** the URIs [validate_configs] goes on to benchmark: [limited] *)
Definition validation_candidates `{StdLib} (cfg : HunterConfig) (g : rng)
    (configs : list string) : list string * rng :=
  let max_total := to_int (get_int cfg "max_total" 3000) in
  let deduped := dedupe_loop max_total configs ∅ [] in
  prioritize_configs g deduped.

(** [tier_configs]: the vectors under the keys [gold] and [silver] *)
Definition tier_configs (results : list HunterBenchResult)
    : gmap string (list HunterBenchResult) :=
  let '(gold, silver) :=
    foldl (fun '(gold, silver) r =>
             if String.eqb (br_tier r) "gold" then (gold ++ [r], silver)
             else if String.eqb (br_tier r) "silver" then (gold, silver ++ [r])
             else (gold, silver))
          ([], []) results in
  let gold := if (100 <? length gold)%nat then take 100 gold else gold in
  let silver := if (200 <? length silver)%nat then take 200 silver else silver in
  <["silver" := silver]> (<["gold" := gold]> ∅).

(** [tiered[key]] *)
Definition tiered_at (tiered : gmap string (list HunterBenchResult)) (key : string)
    : list HunterBenchResult :=
  default [] (tiered !! key).

(** the list [all_configs] that [run_cycle] hands to the balancer *)
Definition balancer_feed (validated : list HunterBenchResult) : list (string * double) :=
  let tiered := tier_configs validated in
  ((fun r => (br_uri r, br_latency_ms r)) <$> tiered_at tiered "gold")
  ++ ((fun r => (br_uri r, br_latency_ms r)) <$> tiered_at tiered "silver").

(** [save_to_files]; [write_lines] does not throw *)
Definition save_to_files (cfg : HunterConfig) (fs : filesystem)
    (gold silver : list HunterBenchResult) : filesystem :=
  let gold_file := get_string cfg "gold_file" "" in
  let silver_file := get_string cfg "silver_file" "" in
  let fs :=
    if negb (str_empty gold_file)
    then (write_lines fs gold_file (br_uri <$> gold)).2 else fs in
  if negb (str_empty silver_file)
  then (write_lines fs silver_file (br_uri <$> silver)).2 else fs.

End Orchestrator.

(** ** network/http_client.cpp *)

Module Http.
Import Utils Extract.

(** [std::to_string] of an [int] *)
Definition int_to_string (z : Z) : string :=
  if (z <? 0)%Z then "-" +:+ Balancer.to_string (Z.to_nat (- z))
  else Balancer.to_string (Z.to_nat z).

Section Fetch.
(** what the HTTP callback acts on; the generator of [random_user_agent] is
    part of it *)
Context {World : Type}.
Context `{RegexLib}.
Context (random_user_agent : World → string * World).

(** [HttpCallback]: the body of the response, or an exception *)
Definition HttpCallback : Type :=
  string → string → Z → string → World → outcome string * World.

(** a call of the HTTP callback and what it answered *)
Record http_call := {
  c_url : string;
  c_user_agent : string;
  c_timeout : Z;
  c_proxy : string;
  c_response : outcome string;
}.

Record fetch_state := {
  f_world : World;
  (** the calls made so far, oldest first *)
  calls : list http_call;
}.

(** [HTTPClientManager::fetch_url] *)
Definition fetch_url (http_callback_ : option HttpCallback) (url : string)
    (timeout : Z) (proxy : string) (st : fetch_state) : string * fetch_state :=
  match http_callback_ with
  | None => ("", st)
  | Some cb =>
      let '(user_agent, w) := random_user_agent (f_world st) in
      let '(response, w) := cb url user_agent timeout proxy w in
      (match response with Returns body => body | Throws _ => "" end,
       {| f_world := w;
          calls := calls st ++ [{| c_url := url; c_user_agent := user_agent;
                                   c_timeout := timeout; c_proxy := proxy;
                                   c_response := response |}] |})
  end.

(** the block "Try base64 decoding" *)
Definition decode_response (response : string) : string :=
  if negb (contains "://" response) then
    let decoded := safe_b64decode (trim response) in
    if contains "://" decoded then decoded else response
  else response.

(** what one response gives: the URIs found, if any *)
Definition try_response (response : string) : outcome (option (list string)) :=
  if str_empty response then Returns None else
  found ← extract_raw_uris_from_text (decode_response response);
  Returns (match found with [] => None | _ => Some found end).

(** the loop "Try with SOCKS proxies" *)
Fixpoint via_proxies (http_callback_ : option HttpCallback) (url : string)
    (timeout : Z) (proxy_ports : list Z) (st : fetch_state)
    : outcome (list string) * fetch_state :=
  match proxy_ports with
  | [] => (Returns [], st)
  | port :: proxy_ports' =>
      let proxy := "socks5://127.0.0.1:" +:+ int_to_string port in
      let '(response, st) := fetch_url http_callback_ url timeout proxy st in
      match try_response response with
      | Throws e => (Throws e, st)
      | Returns (Some found) => (Returns found, st)
      | Returns None => via_proxies http_callback_ url timeout proxy_ports' st
      end
  end.

(** [ConfigFetcher::fetch_single_url] *)
Definition fetch_single_url (http_callback_ : option HttpCallback) (url : string)
    (proxy_ports : list Z) (timeout : Z) (st : fetch_state)
    : outcome (list string) * fetch_state :=
  let '(response, st) := fetch_url http_callback_ url (Z.min timeout 8) "" st in
  match try_response response with
  | Throws e => (Throws e, st)
  | Returns (Some found) => (Returns found, st)
  | Returns None => via_proxies http_callback_ url timeout (take 3 proxy_ports) st
  end.

(** the requests [fetch_single_url] may make, in order: URL, timeout and
    proxy *)
Definition planned (url : string) (proxy_ports : list Z) (timeout : Z)
    : list (string * Z * string) :=
  (url, Z.min timeout 8, "")
  :: ((fun port => (url, timeout, "socks5://127.0.0.1:" +:+ int_to_string port))
        <$> take 3 proxy_ports).

Definition request (c : http_call) : string * Z * string :=
  (c_url c, c_timeout c, c_proxy c).

(** the body [fetch_url] makes of an answer *)
Definition body_of (c : http_call) : string :=
  match c_response c with Returns body => body | Throws _ => "" end.

End Fetch.
End Http.

(** ** A sample platform

    Simple stand-ins for the library functions and host callbacks, used to
    run the definitions on concrete inputs. *)

Module Sample.
Import Utils Json.

Definition hex_digit (c : ascii) : option Z :=
  let n := byte_of c in
  (if (48 <=? n) && (n <=? 57) then Some (n - 48)
   else if (97 <=? n) && (n <=? 102) then Some (n - 87)
   else if (65 <=? n) && (n <=? 70) then Some (n - 55)
   else None)%Z.

(** two hexadecimal digits, nothing else *)
Definition hex2 (s : string) : option Z :=
  match s with
  | String a (String b EmptyString) =>
      hi ← hex_digit a; lo ← hex_digit b; Some (16 * hi + lo)%Z
  | _ => None
  end.

Fixpoint poly_hash (s : string) (h : Z) : Z :=
  match s with
  | EmptyString => h
  | String c s' => poly_hash s' ((h * 31 + byte_of c) mod 2 ^ 64)%Z
  end.

(** a shuffle that reverses and counts its calls *)
Definition stdlib : StdLib :=
  {| istream_hex := hex2;
     std_hash := fun s => poly_hash s 0;
     rng := nat;
     std_shuffle := fun g v => (reverse v, S g);
     std_shuffle_perm := fun g v => reverse_Permutation v |}.

(** the VMess payload of the first end-to-end scenario and its JSON value *)
Definition vmess_payload : string :=
  "eyJhZGQiOiIxLjEuMS4xIiwicG9ydCI6NDQzLCJpZCI6IjU1NTUtNTU1NS01NTU1LTU1NTUiLCJwcyI6Ik5vZGUiLCJuZXQiOiJ3cyIsInRscyI6InRscyIsInBhdGgiOiIvYWJjIiwiaG9zdCI6ImV4LmNvbSJ9".

Definition vmess_json : json :=
  obj [("add", JString "1.1.1.1"); ("port", JInt 443);
       ("id", JString "5555-5555-5555-5555"); ("ps", JString "Node");
       ("net", JString "ws"); ("tls", JString "tls");
       ("path", JString "/abc"); ("host", JString "ex.com")].

(** a parser that knows one text, and a printer that prints nothing *)
Definition jsonlib : JsonLib :=
  {| json_parse := fun text =>
       if String.eqb text (safe_b64decode vmess_payload) then Returns vmess_json
       else Throws json_parse_error;
     json_dump := fun _ _ => Returns "" |}.

(** the outbound of a VLESS URI over WebSocket and TLS *)
Definition vless_outbound : json :=
  match UriParser.VLESSParser_parse (H := stdlib) "vless://u@h:443?security=tls&type=ws" with
  | Returns (Some cfg) => UriParser.outbound cfg
  | _ => JNull
  end.

(** a matcher that takes a whole message starting with [vless://] as one
    match *)
Definition regexlib : RegexLib :=
  {| uri_re_matches := fun text =>
       Returns (if String.prefix "vless://" text then [text] else []);
     b64_re_matches := fun _ => Returns [] |}.

(** a channel that is down, and channels that carry three messages *)
Definition fetch_cb : string → Z → unit → outcome (list string) * unit :=
  fun channel _ w =>
    if String.eqb channel "down" then (Throws other_exception, w)
    else (Returns ["vless://a@h:1"; "vless://b@h:2"; "vless://a@h:1"], w).

(** a cache file in which the line [a] already stands twice *)
Definition twice_a : filesystem :=
  {| fs_files := {[ "subscriptions_cache.txt" := write_out ["a"; "a"] ]};
     fs_appendable := fun _ => true |}.

(** an engine whose world is the status the network answers with and the
    next handle to hand out *)
Definition start_cb : string → Z → Z * Z → Z * (Z * Z) :=
  fun _ _ w => (w.2, (w.1, w.2 + 1)%Z).

Definition stop_cb : Z → Z * Z → Z * Z := fun _ w => w.

Definition test_cb : string → Z → Z → Z * Z → (Z * double) * (Z * Z) :=
  fun _ _ _ w => ((w.1, dconst 123), w).

Definition balancer (status_code : Z) : Balancer.state (Z * Z) :=
  {| Balancer.server :=
       Balancer.new 10808 5 60 None false (Some start_cb) (Some stop_cb) (Some test_cb);
     Balancer.world := (status_code, 0%Z);
     Balancer.trace := [] |}.

(** the same balancer on a host that installed no stop hook *)
Definition balancer_without_stop_hook : Balancer.state (Z * Z) :=
  {| Balancer.server :=
       Balancer.new 10808 5 60 None false (Some start_cb) None (Some test_cb);
     Balancer.world := (204%Z, 0%Z);
     Balancer.trace := [] |}.

End Sample.

(** * Properties *)

(** ** Tiers *)

Section TierProperties.
Import Utils.

Lemma Qltb_lt (a b : Q) : Qltb a b = true ↔ (a < b)%Q.
Proof. unfold Qltb, Qlt. apply Z.ltb_lt. Qed.

Lemma Qltb_ge (a b : Q) : Qltb a b = false ↔ (b <= a)%Q.
Proof. unfold Qltb, Qle. apply Z.ltb_ge. Qed.

(** C1, as stated, fails at the boundary: a latency of exactly 2000 ms is
    not classified as dead. *)
Lemma tier_2000_not_dead : Utils.tier_for_latency (dconst 2000) ≠ "dead".
Proof. vm_compute. discriminate. Qed.

(** C1 (amended): [tier_for_latency] is gold below 200, silver from 200 up
    to 800 (excluded), dead strictly above 2000 and silver otherwise, that
    is from 800 up to 2000 included and on a NaN; so 200, 800 and 2000 are
    all silver. *)
Theorem tier_for_latency_cases :
  (∀ q, (q < inject_Z 200)%Q → tier_for_latency (DFinite q) = "gold") ∧
  (∀ q, (inject_Z 200 <= q)%Q → (q < inject_Z 800)%Q →
        tier_for_latency (DFinite q) = "silver") ∧
  (∀ q, (inject_Z 2000 < q)%Q → tier_for_latency (DFinite q) = "dead") ∧
  (∀ q, (inject_Z 800 <= q)%Q → (q <= inject_Z 2000)%Q →
        tier_for_latency (DFinite q) = "silver") ∧
  tier_for_latency (DInfinity true) = "gold" ∧
  tier_for_latency (DInfinity false) = "dead" ∧
  tier_for_latency DNaN = "silver" ∧
  tier_for_latency (dconst 200) = "silver" ∧
  tier_for_latency (dconst 800) = "silver" ∧
  tier_for_latency (dconst 2000) = "silver".
Proof.
  repeat split; try reflexivity.
  - intros q Hq. unfold tier_for_latency, dconst, dlt.
    apply Qltb_lt in Hq. by rewrite Hq.
  - intros q Hlo Hhi. unfold tier_for_latency, dconst, dlt.
    apply Qltb_ge in Hlo. apply Qltb_lt in Hhi. by rewrite Hlo, Hhi.
  - intros q Hq. unfold tier_for_latency, dconst, dgt, dlt.
    assert (Qltb q (inject_Z 200) = false) as ->.
    { apply Qltb_ge. apply Qlt_le_weak. eapply Qle_lt_trans; [|exact Hq].
      by apply Qle_bool_iff. }
    assert (Qltb q (inject_Z 800) = false) as ->.
    { apply Qltb_ge. apply Qlt_le_weak. eapply Qle_lt_trans; [|exact Hq].
      by apply Qle_bool_iff. }
    apply Qltb_lt in Hq. by rewrite Hq.
  - intros q Hlo Hhi. unfold tier_for_latency, dconst, dgt, dlt.
    assert (Qltb q (inject_Z 200) = false) as ->.
    { apply Qltb_ge. eapply Qle_trans; [|exact Hlo]. by apply Qle_bool_iff. }
    apply Qltb_ge in Hlo. apply Qltb_ge in Hhi. by rewrite Hlo, Hhi.
Qed.

Lemma tier_for_latency_cases_witness :
  tier_for_latency (DFinite (inject_Z 150)) = "gold" ∧
  tier_for_latency (DFinite (inject_Z 500)) = "silver" ∧
  tier_for_latency (DFinite (inject_Z 2001)) = "dead" ∧
  tier_for_latency (DFinite (inject_Z 1200)) = "silver".
Proof.
  destruct tier_for_latency_cases as (Hgold & Hsilver & Hdead & Hslow & _).
  split; [apply Hgold; reflexivity|].
  split; [apply Hsilver; [discriminate | reflexivity]|].
  split; [apply Hdead; reflexivity|].
  apply Hslow; discriminate.
Defined.

End TierProperties.

(** ** The cache files *)

Section CacheProperties.
Import Utils Cache.

Lemma ascii_eqb_sym a b : ascii_eqb a b = ascii_eqb b a.
Proof. apply Ascii.eqb_sym. Qed.

Lemma str_app_cons (x : ascii) (a b : string) : String x a +:+ b = String x (a +:+ b).
Proof. reflexivity. Qed.

Lemma str_app_nil (b : string) : "" +:+ b = b.
Proof. reflexivity. Qed.

Lemma str_app_assoc (a b c : string) : (a +:+ b) +:+ c = a +:+ (b +:+ c).
Proof.
  induction a as [|x a IH]; [done|].
  by rewrite !str_app_cons, IH.
Qed.

Lemma getline_pieces_nonempty delim c rest :
  getline_pieces delim (String c rest) ≠ [].
Proof.
  simpl. destruct (ascii_eqb c delim); [done|].
  by destruct (getline_pieces delim rest).
Qed.

Lemma getlines_app (data tail : string) :
  lf_terminated data = true →
  getlines (data +:+ tail) = getlines data ++ getlines tail.
Proof.
  unfold getlines. induction data as [|c rest IH]; intros Hterm; [done|].
  destruct rest as [|c' rest'].
  - simpl in Hterm. rewrite str_app_cons, str_app_nil. simpl. by rewrite Hterm.
  - assert (lf_terminated (String c' rest') = true) as Hrest by exact Hterm.
    specialize (IH Hrest).
    pose proof (getline_pieces_nonempty LF c' rest') as Hne.
    rewrite str_app_cons.
    remember (String c' rest') as r eqn:Hr.
    cbn [getline_pieces]. rewrite IH.
    destruct (ascii_eqb c LF); [done|].
    by destruct (getline_pieces LF r).
Qed.

Lemma getlines_line (x tail : string) :
  contains_char LF x = false →
  getlines (x +:+ String LF tail) = x :: getlines tail.
Proof.
  unfold getlines, contains_char. induction x as [|c x IH]; intros Hno.
  - by rewrite str_app_nil.
  - rewrite str_app_cons. cbn [find_char] in Hno. rewrite ascii_eqb_sym in Hno.
    cbn [getline_pieces].
    destruct (ascii_eqb c LF) eqn:Hc; [done|].
    rewrite IH; [done|].
    by destruct (find_char LF x).
Qed.

Lemma getlines_write_out (lines : list string) :
  Forall (fun x => contains_char LF x = false) lines →
  getlines (write_out lines) = lines.
Proof.
  induction 1 as [|x lines Hx _ IH]; [done|].
  simpl. by rewrite getlines_line, IH.
Qed.

Lemma first_seen_spec (seen : gset string) (l : list string) (x : string) :
  x ∈ first_seen seen l ↔ x ∈ l ∧ x ∉ seen.
Proof.
  revert seen. induction l as [|y l IH]; intros seen; cbn [first_seen].
  - set_solver.
  - case_bool_decide as Hy.
    + rewrite IH. set_solver.
    + rewrite elem_of_cons, IH. 
      destruct (decide (x = y)) as [->|Hne]; set_solver.
Qed.

Lemma first_seen_NoDup (seen : gset string) (l : list string) :
  NoDup (first_seen seen l).
Proof.
  revert seen. induction l as [|y l IH]; intros seen; cbn [first_seen].
  - constructor.
  - case_bool_decide as Hy; [apply IH|].
    constructor; [|apply IH].
    rewrite first_seen_spec. set_solver.
Qed.

Lemma first_seen_all_seen (seen : gset string) (l : list string) :
  (∀ x, x ∈ l → x ∈ seen) → first_seen seen l = [].
Proof.
  revert seen. induction l as [|y l IH]; intros seen Hall; cbn [first_seen]; [done|].
  rewrite bool_decide_eq_true_2 by (apply Hall; left).
  apply IH. intros x Hx. apply Hall. by right.
Qed.


Lemma collect_new_acc (lines acc : list string) (existing : gset string) :
  foldl (fun '(new_lines, existing) line =>
           if negb (str_empty line) && bool_decide (line ∉ existing)
           then (new_lines ++ [line], {[ line ]} ∪ existing)
           else (new_lines, existing))
        (acc, existing) lines
  = (acc ++ first_seen existing (filter nonempty lines),
     list_to_set (first_seen existing (filter nonempty lines)) ∪ existing).
Proof.
  revert acc existing. induction lines as [|line lines IH]; intros acc existing.
  - cbn. rewrite app_nil_r. f_equal. set_solver.
  - cbn [foldl]. rewrite filter_cons.
    destruct (decide (nonempty line)) as [Hne|Hne].
    + rewrite Hne. cbn [negb andb first_seen]. rewrite bool_decide_not.
      destruct (bool_decide (line ∈ existing)) eqn:Hin; cbn [negb].
      * by rewrite IH.
      * rewrite IH, <- app_assoc. cbn [app list_to_set]. f_equal.
        set_solver.
    + apply not_false_is_true in Hne. rewrite Hne. cbn [negb andb]. by rewrite IH.
Qed.

Lemma collect_new_spec (lines : list string) (existing : gset string) :
  (collect_new lines existing).1 = first_seen existing (filter nonempty lines).
Proof. unfold collect_new. by rewrite collect_new_acc. Qed.


Lemma str_empty_false (s : string) : str_empty s = false ↔ s ≠ "".
Proof. by destruct s. Qed.

Lemma clean_line_trim (u : string) : clean_line u = true → trim u = u.
Proof.
  unfold clean_line. intros [Ht _]%andb_true_iff. by apply String.eqb_eq.
Qed.

Lemma clean_line_no_lf (u : string) : clean_line u = true → contains_char LF u = false.
Proof.
  unfold clean_line. intros [_ Hn]%andb_true_iff. by apply negb_true_iff.
Qed.

Lemma read_back (lines : list string) :
  Forall (fun u => clean_line u = true) lines →
  Forall nonempty lines →
  filter nonempty (trim <$> lines) = lines.
Proof.
  induction 1 as [|u lines Hu _ IH]; intros Hne; [done|].
  apply Forall_cons in Hne as [Hu' Hne].
  rewrite fmap_cons, (clean_line_trim u Hu), filter_cons_True by done.
  by rewrite IH.
Qed.

Lemma read_lines_append (fs : filesystem) (path : string) (lines : list string) :
  lf_terminated (default "" (fs_files fs !! path)) = true →
  Forall (fun u => clean_line u = true) lines →
  Forall nonempty lines →
  read_lines (append_to fs path (write_out lines)) path = read_lines fs path ++ lines.
Proof.
  intros Hterm Hclean Hne. unfold read_lines, append_to. cbn [fs_files].
  rewrite lookup_insert_eq, getlines_app by done.
  rewrite getlines_write_out
    by (eapply Forall_impl; [exact Hclean | apply clean_line_no_lf]).
  rewrite fmap_app, filter_app, (read_back lines) by done.
  by destruct (fs_files fs !! path).
Qed.

Lemma Forall_first_seen (P : string → Prop) seen l :
  Forall P l → Forall P (first_seen seen l).
Proof.
  rewrite !Forall_forall. intros HP x Hx%first_seen_spec. apply HP, Hx.
Qed.

Lemma to_int_small (z : Z) : (INT_MIN ≤ z ≤ INT_MAX)%Z → to_int z = z.
Proof.
  unfold to_int, wrap, INT_MIN, INT_MAX. intros Hz.
  change (2 ^ (32 - 1))%Z with 2147483648%Z. change (2 ^ 32)%Z with 4294967296%Z.
  rewrite Z.mod_small by lia. lia.
Qed.

Lemma length_first_seen seen l : (length (first_seen seen l) ≤ length l)%nat.
Proof.
  revert seen. induction l as [|x l IH]; intros seen; cbn [first_seen]; [done|].
  case_bool_decide; cbn [length]; [specialize (IH seen) | specialize (IH ({[x]} ∪ seen))]; lia.
Qed.

Lemma append_unique_lines_spec (fs : filesystem) (path : string) (lines : list string) :
  let new_lines :=
    first_seen (list_to_set (read_lines fs path)) (filter nonempty lines) in
  fs_appendable fs path = true →
  (Z.of_nat (length lines) ≤ INT_MAX)%Z →
  append_unique_lines fs path lines =
    (Z.of_nat (length new_lines),
     match new_lines with
     | [] => fs
     | _ => append_to fs path (write_out new_lines)
     end).
Proof.
  intros new_lines Happ Hlen. unfold append_unique_lines.
  rewrite collect_new_spec. fold new_lines.
  destruct new_lines as [|x new_lines'] eqn:Hnew; [done|].
  rewrite Happ. f_equal. apply to_int_small.
  pose proof (length_first_seen (list_to_set (read_lines fs path)) (filter nonempty lines)) as H1.
  pose proof (length_filter nonempty lines) as H2.
  fold new_lines in H1. rewrite Hnew in H1.
  unfold INT_MIN. lia.
Qed.

Lemma target_path_save c fs now uris working :
  target_path (save_configs c fs now uris working).1.2 working = target_path c working.
Proof.
  unfold save_configs. destruct (append_unique_lines _ _ _) as [appended fs'].
  cbn. by destruct (0 <? appended)%Z.
Qed.

(** C4 (amended): for URIs that hold no line feed and that [trim] leaves
    as they are, a target file that is absent, empty or ends with a line
    feed and can be opened for appending, and fewer than 2^31 URIs: Save
    appends exactly the non-empty input URIs that are not yet a line of the
    file, each once at its first occurrence and in input order, and
    returns their number; afterwards every non-empty input URI is a line of
    the file, the file has no duplicate line if it had none before, and an
    immediate second Save of the same list returns 0 and changes nothing. *)
Theorem save_appends_new_lines (c : SmartCache) (fs : filesystem) (now : Z)
    (uris : list string) (working : bool) :
  let target := target_path c working in
  let before := read_lines fs target in
  let new_lines := first_seen (list_to_set before) (filter nonempty uris) in
  Forall (fun u => clean_line u = true) uris →
  lf_terminated (default "" (fs_files fs !! target)) = true →
  fs_appendable fs target = true →
  (Z.of_nat (length uris) ≤ INT_MAX)%Z →
  ∃ c' fs',
    save_configs c fs now uris working = (Z.of_nat (length new_lines), c', fs')
    ∧ fs' = match new_lines with
            | [] => fs
            | _ => append_to fs target (write_out new_lines)
            end
    ∧ read_lines fs' target = before ++ new_lines
    ∧ (∀ u, u ∈ uris → u ≠ "" → u ∈ read_lines fs' target)
    ∧ (NoDup before → NoDup (read_lines fs' target))
    ∧ (∀ now', save_configs c' fs' now' uris working = (0%Z, c', fs')).
Proof.
  intros target before new_lines Hclean Hterm Happ Hlen.
  pose proof (append_unique_lines_spec fs target uris Happ Hlen) as Hspec.
  cbn zeta in Hspec. fold before new_lines in Hspec.
  set (fs' := match new_lines with
              | [] => fs
              | _ => append_to fs target (write_out new_lines)
              end) in *.
  assert (read_lines fs' target = before ++ new_lines) as Hread.
  { subst fs'. destruct new_lines as [|x rest] eqn:Hnew.
    - by rewrite app_nil_r.
    - rewrite <- Hnew. apply read_lines_append; [done| |].
      + apply Forall_first_seen. apply Forall_forall.
        intros u [_ Hu]%list_elem_of_filter. revert u Hu. by apply Forall_forall.
      + apply Forall_first_seen. apply Forall_forall. by intros u [Hu _]%list_elem_of_filter. }
  assert (∀ u, u ∈ uris → u ≠ "" → u ∈ read_lines fs' target) as Hall.
  { intros u Hu Hne. rewrite Hread, elem_of_app.
    destruct (decide (u ∈ before)) as [Hin|Hnin]; [by left|right].
    apply first_seen_spec. split.
    - apply list_elem_of_filter. split; [by apply str_empty_false | done].
    - by rewrite elem_of_list_to_set. }
  eexists _, fs'. split; [|split; [reflexivity|split; [exact Hread|split; [exact Hall|split]]]].
  - unfold save_configs. fold target. rewrite Hspec. reflexivity.
  - intros Hnd. rewrite Hread. apply NoDup_app. split; [done|]. split.
    + intros x Hx Hx'%first_seen_spec. destruct Hx' as [_ Hx']. apply Hx'.
      by rewrite elem_of_list_to_set.
    + apply first_seen_NoDup.
  - intros now'. unfold save_configs at 1.
    assert (target_path
              (if (0 <? Z.of_nat (length new_lines))%Z
               then {| cache_file_ := cache_file_ c;
                       working_cache_file_ := working_cache_file_ c;
                       base_dir_ := base_dir_ c;
                       last_successful_fetch_ := now;
                       consecutive_failures_ := 0 |}
               else c) working = target) as ->.
    { by destruct (0 <? Z.of_nat (length new_lines))%Z. }
    unfold append_unique_lines. rewrite collect_new_spec.
    rewrite first_seen_all_seen; [done|].
    intros u [Hne Hu]%list_elem_of_filter. rewrite elem_of_list_to_set.
    apply Hall; [done|]. by apply str_empty_false.
Qed.

(** C4, as stated, fails for some prior file contents: a file that
    already repeats a line still repeats it after a Save. *)
Lemma save_keeps_old_duplicates :
  ¬ NoDup (read_lines (save_configs default_cache Sample.twice_a 0 ["b"] false).2
                      "subscriptions_cache.txt").
Proof.
  assert (read_lines (save_configs default_cache Sample.twice_a 0 ["b"] false).2
                     "subscriptions_cache.txt" = ["a"; "a"; "b"]) as ->
    by (vm_compute; reflexivity).
  intros Hnd. apply NoDup_cons in Hnd as [Hnin _]. apply Hnin. left.
Qed.

Lemma save_appends_new_lines_witness :
  ∃ c' fs',
    save_configs default_cache empty_fs 0 ["a"; "b"; "a"] false = (2%Z, c', fs')
    ∧ read_lines fs' "subscriptions_cache.txt" = ["a"; "b"]
    ∧ save_configs c' fs' 1 ["a"; "b"; "a"] false = (0%Z, c', fs').
Proof.
  destruct (save_appends_new_lines default_cache empty_fs 0 ["a"; "b"; "a"] false)
    as (c' & fs' & Hsave & _ & Hread & _ & _ & Hagain).
  - by repeat constructor.
  - reflexivity.
  - reflexivity.
  - by vm_compute.
  - exists c', fs'. split; [exact Hsave|]. split; [exact Hread|]. apply Hagain.
Defined.

(** C7: [record_failure] adds one to the failure counter, [should_use_cache]
    holds exactly from two failures on, and a Save that appended something
    (the successful Save of the source) sets the counter to zero, so that
    the cache is not used again before two further failures. *)
Theorem failure_counter (c : SmartCache) :
  (INT_MIN ≤ consecutive_failures_ c < INT_MAX)%Z →
  consecutive_failures_ (record_failure c) = (consecutive_failures_ c + 1)%Z
  ∧ (should_use_cache c = true ↔ (2 ≤ consecutive_failures_ c)%Z)
  ∧ ∀ fs now configs working appended c' fs',
      save_configs c fs now configs working = (appended, c', fs') →
      (0 < appended)%Z →
      consecutive_failures_ c' = 0%Z
      ∧ should_use_cache c' = false
      ∧ should_use_cache (record_failure c') = false
      ∧ should_use_cache (record_failure (record_failure c')) = true.
Proof.
  intros Hrange. split; [|split].
  - cbn. apply to_int_small. lia.
  - unfold should_use_cache. apply Z.leb_le.
  - intros fs now configs working appended c' fs' Hsave Hpos.
    unfold save_configs in Hsave.
    destruct (append_unique_lines fs (target_path c working) configs) as [n fs1].
    injection Hsave as Hn Hc Hf. subst appended c' fs'.
    apply Z.ltb_lt in Hpos. rewrite Hpos. by vm_compute.
Qed.

Lemma failure_counter_witness :
  let c := record_failure (record_failure default_cache) in
  should_use_cache c = true
  ∧ should_use_cache (save_configs c empty_fs 7 ["vless://u@h:443"] true).1.2 = false.
Proof.
  intros c.
  destruct (failure_counter c) as (_ & Huse & Hsave).
  - by vm_compute.
  - split; [by apply Huse; vm_compute|].
    destruct (save_configs c empty_fs 7 ["vless://u@h:443"] true)
      as [[appended c'] fs'] eqn:Hrun.
    apply (Hsave empty_fs 7%Z ["vless://u@h:443"] true appended c' fs' Hrun).
    vm_compute in Hrun. injection Hrun as <- _ _. reflexivity.
Defined.

End CacheProperties.

(** ** The prioritizer *)

Section PrioritizerProperties.
Import Utils.
Context `{StdLib}.

Lemma sort_into_tiers_acc (uris : list string) (v : tiers) (t : tier) :
  foldl (fun v uri =>
           if is_likely_blocked uri then v
           else push_back (tier_of_uri uri) uri v) v uris t
  = v t ++ filter (in_tier t) uris.
Proof.
  revert v. induction uris as [|uri uris IH]; intros v; cbn [foldl].
  - by rewrite app_nil_r.
  - rewrite IH. destruct (is_likely_blocked uri) eqn:Hb.
    + rewrite filter_cons_False; [done|].
      intros [Hu _]. unfold unblocked in Hu. congruence.
    + unfold push_back. case_decide as Ht.
      * rewrite filter_cons_True by (by split). by rewrite <- app_assoc.
      * rewrite filter_cons_False; [done|]. intros [_ Hu]. congruence.
Qed.

Lemma sort_into_tiers_filter (uris : list string) (t : tier) :
  sort_into_tiers uris t = filter (in_tier t) uris.
Proof. unfold sort_into_tiers. by rewrite sort_into_tiers_acc. Qed.

Lemma shuffle_tiers_perm (g : rng) (v : tiers) (ts : list tier) :
  Forall2 (fun t l => l ≡ₚ v t) ts (shuffle_tiers g v ts).1.
Proof.
  revert g. induction ts as [|t ts IH]; intros g; cbn [shuffle_tiers]; [constructor|].
  pose proof (std_shuffle_perm g (v t)) as Hperm.
  destruct (std_shuffle g (v t)) as [shuffled g1].
  specialize (IH g1). destruct (shuffle_tiers g1 v ts) as [rest g2].
  by constructor.
Qed.

(** the tiers partition the unblocked URIs *)
Lemma tiers_partition (uris : list string) (ts : list tier) :
  NoDup ts →
  concat ((fun t => filter (in_tier t) uris) <$> ts)
  ≡ₚ filter (fun uri => unblocked uri ∧ tier_of_uri uri ∈ ts) uris.
Proof.
  induction 1 as [|t ts Hnin Hnd IH]; cbn [fmap list_fmap concat].
  - induction uris as [|u uris IHu]; [done|].
    rewrite filter_cons_False; [done|]. set_solver.
  - rewrite IH. clear IH. induction uris as [|u uris IHu]; [done|].
    rewrite !filter_cons. unfold in_tier at 1.
    destruct (decide (unblocked u)) as [Hu|Hu].
    + destruct (decide (tier_of_uri u = t)) as [Ht|Ht].
      * rewrite decide_True by done.
        rewrite decide_False by (intros [_ Hin]; by rewrite Ht in Hin).
        rewrite decide_True by (split; [done|]; rewrite Ht; left).
        cbn. by rewrite IHu.
      * rewrite decide_False by (intros [_ ?]; done).
        destruct (decide (tier_of_uri u ∈ ts)) as [Hin|Hin].
        -- rewrite !decide_True by (split; [done|]; set_solver).
           rewrite <- Permutation_middle. by rewrite IHu.
        -- rewrite !decide_False by (intros [_ ?]; set_solver). done.
    + rewrite !decide_False by (intros [? _]; done). done.
Qed.

Lemma all_tiers_NoDup : NoDup all_tiers.
Proof. unfold all_tiers. repeat (constructor; [set_solver|]). constructor. Qed.

Lemma all_tiers_complete (t : tier) : t ∈ all_tiers.
Proof. unfold all_tiers. destruct t; set_solver. Qed.

Lemma concat_perm (ls ks : list (list string)) :
  Forall2 (≡ₚ) ls ks → concat ls ≡ₚ concat ks.
Proof. induction 1 as [|l k ls ks Hlk _ IH]; [done|]. cbn. by rewrite Hlk, IH. Qed.









End PrioritizerProperties.


(** ** The URI parsers *)

Section ParserProperties.
Import Utils Json UriParser.

Lemma bind_returns {A B} (m : outcome A) (k : A → outcome B) (r : B) :
  m ≫= k = Returns r → ∃ a, m = Returns a ∧ k a = Returns r.
Proof. destruct m as [a|e]; [by exists a | discriminate]. Qed.

Lemma try_catch_some {A} (body : outcome (option A)) (a : A) :
  try_catch body (Returns None) = Returns (Some a) → body = Returns (Some a).
Proof. by destruct body. Qed.

Lemma try_catch_total {A} (body : outcome A) (fallback : A) :
  ∃ r, try_catch body (Returns fallback) = Returns r.
Proof. destruct body; eauto. Qed.

Ltac bind_inv H :=
  let a := fresh "a" in
  let E := fresh "E" in
  apply bind_returns in H as (a & E & H).

Lemma to_int_range (z : Z) : (INT_MIN ≤ to_int z ≤ INT_MAX)%Z.
Proof.
  unfold to_int, wrap, INT_MIN, INT_MAX.
  change (2 ^ (32 - 1))%Z with 2147483648%Z. change (2 ^ 32)%Z with 4294967296%Z.
  pose proof (Z.mod_pos_bound (z + 2147483648) 4294967296). lia.
Qed.

Lemma stoi_range (s : string) (v : Z) :
  stoi s = Returns v → (INT_MIN ≤ v ≤ INT_MAX)%Z.
Proof.
  unfold stoi. destruct (skip_spaces s) as [|c s'].
  - cbn. discriminate.
  - destruct (if ascii_eqb c "-" then _ else _) as [negative rest].
    destruct (starts_with_digit rest); [|discriminate].
    destruct (_ && _) eqn:Hr; [|discriminate].
    intros [= <-]. apply andb_true_iff in Hr as [?%Z.leb_le ?%Z.leb_le]. lia.
Qed.

Lemma double_to_int_range (d : double) : (INT_MIN ≤ double_to_int d ≤ INT_MAX)%Z.
Proof.
  destruct d as [q|[]|]; cbn; unfold INT_MIN, INT_MAX; lia.
Qed.

Lemma get_int_range (j : json) (v : Z) :
  get_int j = Returns v → (INT_MIN ≤ v ≤ INT_MAX)%Z.
Proof.
  destruct j; cbn; try discriminate; intros [= <-].
  - destruct b; unfold INT_MIN, INT_MAX; lia.
  - apply to_int_range.
  - apply double_to_int_range.
Qed.

Lemma int_member_range (j : json) (key : string) (v : Z) :
  int_member j key = Returns v → (INT_MIN ≤ v ≤ INT_MAX)%Z.
Proof.
  unfold int_member. intros H. bind_inv H.
  destruct (is_number a); [by eapply get_int_range|].
  destruct (is_string a); [|injection H as <-; unfold INT_MIN, INT_MAX; lia].
  destruct (get_string a) as [text|] eqn:Ht; cbn in H.
  - destruct (stoi text) eqn:Hs; cbn in H; injection H as <-.
    + by eapply stoi_range.
    + unfold INT_MIN, INT_MAX; lia.
  - injection H as <-. unfold INT_MIN, INT_MAX; lia.
Qed.

Lemma eqb_false_ne (a b : string) : String.eqb a b = false → a ≠ b.
Proof. by intros ?%String.eqb_neq. Qed.

Context `{StdLib} `{JsonLib}.

Lemma VMess_ok (uri_ : string) (cfg : HunterParsedConfig) :
  VMessParser_parse uri_ = Returns (Some cfg) → config_ok cfg ∧ uri cfg = uri_.
Proof.
  intros Hp%try_catch_some. unfold VMess_body in Hp.
  destruct (String.length uri_ <? 9)%nat; [discriminate|].
  bind_inv Hp. rename a into payload.
  bind_inv Hp. rename a into j.
  bind_inv Hp. rename a into host_.
  bind_inv Hp. rename a into port_.
  bind_inv Hp. rename a into uuid.
  bind_inv Hp. rename a into ps_raw.
  destruct (_ || _) eqn:Hguard; [discriminate|].
  apply orb_false_iff in Hguard as [Hguard Hzero].
  apply orb_false_iff in Hguard as [Hguard Huuid].
  apply orb_false_iff in Hguard as [Hhost Hport].
  do 8 bind_inv Hp.
  injection Hp as <-. unfold config_ok. cbn [host port identity uri].
  split; [|done]. repeat split.
  - by apply str_empty_false.
  - by apply eqb_false_ne.
  - by apply Z.eqb_neq.
  - by eapply int_member_range.
  - by eapply int_member_range.
  - by apply str_empty_false.
Qed.

Lemma parse_url_port_range (url : string) :
  (INT_MIN ≤ url_port (parse_url url) ≤ INT_MAX)%Z.
Proof.
  assert (INT_MIN ≤ 0 ≤ INT_MAX)%Z as Hz by (unfold INT_MIN, INT_MAX; lia).
  unfold parse_url.
  repeat match goal with
         | |- context [let '(_, _) := ?x in _] => destruct x as [? ?] eqn:?
         end.
  cbn [url_port].
  match goal with
  | Hhp : (if nonempty_first _ ?r then _ else _) = (?h, ?p) |- _ =>
      destruct (nonempty_first "[" r)
  end.
  - destruct (find_char "]" _); [|by simplify_eq].
    destruct (nonempty_first ":" _); [|by simplify_eq].
    simplify_eq. unfold catch_with.
    destruct (_ ≫= _) as [v|] eqn:Hs; [|done].
    bind_inv Hs. by eapply stoi_range.
  - destruct (rfind_char ":" _); [|by simplify_eq].
    destruct (stoi _) eqn:Hs; simplify_eq; [by eapply stoi_range|done].
Qed.

Lemma url_port_or_443 (p : Z) :
  (INT_MIN ≤ p ≤ INT_MAX)%Z →
  (1 ≤ (if (0 <? p)%Z then p else 443) ≤ INT_MAX)%Z.
Proof. unfold INT_MAX. destruct (0 <? p)%Z eqn:Hp; [apply Z.ltb_lt in Hp|]; lia. Qed.

Lemma VLESS_ok (uri_ : string) (cfg : HunterParsedConfig) :
  VLESSParser_parse uri_ = Returns (Some cfg) →
  config_ok cfg ∧ uri cfg = uri_ ∧ (1 ≤ port cfg)%Z.
Proof.
  intros Hp%try_catch_some. unfold VLESS_body in Hp. cbn zeta in Hp.
  destruct (_ || _) eqn:Hguard; [discriminate|].
  apply orb_false_iff in Hguard as [Hguard Hzero].
  apply orb_false_iff in Hguard as [Hhost Huuid].
  do 2 bind_inv Hp.
  injection Hp as <-. unfold config_ok. cbn [host port identity uri].
  pose proof (url_port_or_443 _ (parse_url_port_range uri_)) as Hport.
  destruct Hport as [Hlo Hhi].
  split; [|split; [done|exact Hlo]].
  repeat split; try (by apply str_empty_false); try (by apply eqb_false_ne);
    unfold INT_MIN in *; lia.
Qed.

Lemma Trojan_ok (uri_ : string) (cfg : HunterParsedConfig) :
  TrojanParser_parse uri_ = Returns (Some cfg) →
  config_ok cfg ∧ uri cfg = uri_ ∧ (1 ≤ port cfg)%Z.
Proof.
  intros Hp%try_catch_some. unfold Trojan_body in Hp. cbn zeta in Hp.
  destruct (_ || _) eqn:Hguard; [discriminate|].
  apply orb_false_iff in Hguard as [Hguard Hzero].
  apply orb_false_iff in Hguard as [Hhost Huuid].
  injection Hp as <-. unfold config_ok. cbn [host port identity uri].
  pose proof (url_port_or_443 _ (parse_url_port_range uri_)) as Hport.
  destruct Hport as [Hlo Hhi].
  split; [|split; [done|exact Hlo]].
  repeat split; try (by apply str_empty_false); try (by apply eqb_false_ne);
    unfold INT_MIN in *; lia.
Qed.

Lemma read_digits_nonneg (s : string) (acc : Z) :
  (0 ≤ acc)%Z → (0 ≤ read_digits s acc)%Z.
Proof.
  revert acc. induction s as [|c s IH]; intros acc Hacc; cbn [read_digits]; [done|].
  destruct (isdigit c) eqn:Hd; [|done].
  apply IH. unfold isdigit in Hd.
  apply andb_true_iff in Hd as [?%Z.leb_le _]. lia.
Qed.

Lemma isdigit_not_space (c : ascii) : isdigit c = true → isspace c = false.
Proof.
  unfold isdigit, isspace. intros [?%Z.leb_le ?%Z.leb_le]%andb_true_iff.
  apply orb_false_iff. split; [apply Z.eqb_neq; lia|].
  apply andb_false_iff. right. apply Z.leb_gt. lia.
Qed.

Lemma isdigit_not_sign (c : ascii) :
  isdigit c = true → ascii_eqb c "-" = false ∧ ascii_eqb c "+" = false.
Proof.
  unfold isdigit, ascii_eqb. intros [Hlo%Z.leb_le Hhi%Z.leb_le]%andb_true_iff.
  split; apply Ascii.eqb_neq; intros ->; vm_compute in Hlo, Hhi; by (apply Hlo || apply Hhi).
Qed.

Lemma stoi_leading_digits_nonneg (s : string) (v : Z) :
  stoi (leading_digits s) = Returns v → (0 ≤ v)%Z.
Proof.
  destruct s as [|c s]; [discriminate|]. cbn [leading_digits].
  destruct (isdigit c) eqn:Hd; [|discriminate].
  unfold stoi. cbn [skip_spaces]. rewrite (isdigit_not_space c Hd).
  destruct (isdigit_not_sign c Hd) as [-> ->].
  cbn [starts_with_digit]. rewrite Hd.
  destruct (_ && _); [|discriminate]. intros Hv. injection Hv as <-.
  by apply (read_digits_nonneg (String c (leading_digits s))).
Qed.

Lemma identity_nonempty (method password : string) :
  method +:+ ":" +:+ password ≠ "".
Proof. by destruct method. Qed.

Ltac shadowsocks_steps Hp :=
  let Hstoi := fresh "Hstoi" in
  let Hguard := fresh "Hguard" in
  let Hzero := fresh "Hzero" in
  let Hhost := fresh "Hhost" in
  let Hport := fresh "Hport" in
  bind_inv Hp; cbn zeta in Hp;
  destruct (find_char "@" _) as [?|]; [|discriminate];
  destruct (negb _); [discriminate|];
  destruct (catch_with _ _) as [? ?];
  (destruct (str_empty _ || str_empty _);
     [destruct (split_at_colon _) as [[? ?]|]; [|discriminate]|]);
  destruct (rfind_char ":" _) as [?|];
  (destruct (stoi _) as [?|] eqn:Hstoi; [|discriminate]);
  (destruct (_ || _) eqn:Hguard; [discriminate|]);
  apply orb_false_iff in Hguard as [Hguard Hzero];
  apply orb_false_iff in Hguard as [Hhost Hport];
  injection Hp as <-; unfold config_ok; cbn [host port identity uri];
  pose proof (stoi_range _ _ Hstoi);
  pose proof (stoi_leading_digits_nonneg _ _ Hstoi);
  apply Z.eqb_neq in Hport;
  (split; [|split; [done|lia]]);
  repeat split; try (by apply str_empty_false); try (by apply eqb_false_ne);
    try apply identity_nonempty; lia.

Lemma Shadowsocks_ok (uri_ : string) (cfg : HunterParsedConfig) :
  ShadowsocksParser_parse uri_ = Returns (Some cfg) →
  config_ok cfg ∧ uri cfg = uri_ ∧ (1 ≤ port cfg)%Z.
Proof.
  intros Hp%try_catch_some. unfold Shadowsocks_body in Hp.
  destruct (find_char "#" uri_) as [hash_pos|]; shadowsocks_steps Hp.
Qed.

(** C2 (amended): whenever the universal parser or one of the four
    variant parsers returns a ParsedConfig for a URI, its host is non-empty
    and is not 0.0.0.0, its port is a non-zero [int] (at least 1 for VLESS,
    Trojan and Shadowsocks; no upper bound of 65535 is enforced), its
    identity is non-empty and it carries the URI parsed. *)
Theorem parsed_config_invariant (uri_ : string) (cfg : HunterParsedConfig) :
  (UniversalParser_parse uri_ = Returns (Some cfg)
   ∨ VMessParser_parse uri_ = Returns (Some cfg)
   ∨ VLESSParser_parse uri_ = Returns (Some cfg)
   ∨ TrojanParser_parse uri_ = Returns (Some cfg)
   ∨ ShadowsocksParser_parse uri_ = Returns (Some cfg)) →
  host cfg ≠ "" ∧ host cfg ≠ "0.0.0.0"
  ∧ port cfg ≠ 0%Z ∧ (INT_MIN ≤ port cfg ≤ INT_MAX)%Z
  ∧ identity cfg ≠ ""
  ∧ uri cfg = uri_
  ∧ (VMessParser_parse uri_ ≠ Returns (Some cfg) → (1 ≤ port cfg)%Z).
Proof.
  intros Hparse.
  assert ((config_ok cfg ∧ uri cfg = uri_)
          ∧ (VMessParser_parse uri_ ≠ Returns (Some cfg) → (1 ≤ port cfg)%Z))
    as [[(? & ? & ? & ? & ?) ?] ?]; [|done].
  assert (VMessParser_parse uri_ = Returns (Some cfg)
          ∨ (config_ok cfg ∧ uri cfg = uri_ ∧ (1 ≤ port cfg)%Z)) as Hcases.
  { destruct Hparse as [Hu|[Hv|[Hv|[Hv|Hv]]]].
    - unfold UniversalParser_parse in Hu.
      destruct (str_empty uri_); [discriminate|].
      destruct (find "://" uri_) as [scheme_end|]; [|discriminate].
      destruct (String.eqb _ "vmess"); [by left|].
      destruct (String.eqb _ "vless"); [right; by apply VLESS_ok|].
      destruct (String.eqb _ "trojan"); [right; by apply Trojan_ok|].
      destruct (_ || _); [right; by apply Shadowsocks_ok|discriminate].
    - by left.
    - right. by apply VLESS_ok.
    - right. by apply Trojan_ok.
    - right. by apply Shadowsocks_ok. }
  destruct Hcases as [Hv|(? & ? & ?)]; [|done].
  split; [by apply VMess_ok|]. done.
Qed.

(** C9: the universal parser returns on every input, a ParsedConfig or the
    not-parseable signal, and never throws; it answers not-parseable on the
    empty string and on a string without [://]; whatever a variant parser
    throws inside its [try] block, malformed JSON included, comes out as
    not-parseable. *)
Theorem universal_parser_total (uri_ : string) :
  (∃ r, UniversalParser_parse uri_ = Returns r)
  ∧ UniversalParser_parse "" = Returns None
  ∧ (find "://" uri_ = None → UniversalParser_parse uri_ = Returns None)
  ∧ (∀ e, VMess_body uri_ = Throws e → VMessParser_parse uri_ = Returns None)
  ∧ (∀ e, VLESS_body uri_ = Throws e → VLESSParser_parse uri_ = Returns None)
  ∧ (∀ e, Trojan_body uri_ = Throws e → TrojanParser_parse uri_ = Returns None)
  ∧ (∀ e, Shadowsocks_body uri_ = Throws e →
          ShadowsocksParser_parse uri_ = Returns None)
  ∧ (∀ payload e,
        (9 ≤ String.length uri_)%nat →
        substr_from uri_ 8 = Returns payload →
        json_parse (safe_b64decode payload) = Throws e →
        VMessParser_parse uri_ = Returns None).
Proof.
  split; [|split; [|split; [|split; [|split; [|split; [|split]]]]]].
  - unfold UniversalParser_parse.
    destruct (str_empty uri_); [by eexists|].
    destruct (find "://" uri_); [|by eexists].
    repeat (destruct (_ : bool); [apply try_catch_total|]).
    by eexists.
  - reflexivity.
  - intros Hnone. unfold UniversalParser_parse. rewrite Hnone. by destruct (str_empty uri_).
  - intros e He. unfold VMessParser_parse. by rewrite He.
  - intros e He. unfold VLESSParser_parse. by rewrite He.
  - intros e He. unfold TrojanParser_parse. by rewrite He.
  - intros e He. unfold ShadowsocksParser_parse. by rewrite He.
  - intros payload e Hlen Hpay Hjson. unfold VMessParser_parse, VMess_body.
    apply Nat.ltb_ge in Hlen. rewrite Hlen, Hpay. cbn. by rewrite Hjson.
Qed.

End ParserProperties.

(** C2, as stated, fails on the port: a VLESS URI with port 70000 parses,
    and the port of the result is above 65535. *)
Lemma parsed_port_out_of_range :
  ∃ cfg, UriParser.UniversalParser_parse (H := Sample.stdlib) (H0 := Sample.jsonlib)
           "vless://u@h:70000" = Returns (Some cfg)
         ∧ ¬ (1 ≤ UriParser.port cfg ≤ 65535)%Z.
Proof. eexists. split; [vm_compute; reflexivity|]. cbn. lia. Qed.

Lemma parsed_config_invariant_witness :
  match UriParser.UniversalParser_parse (H := Sample.stdlib) (H0 := Sample.jsonlib)
          ("vmess://" +:+ Sample.vmess_payload) with
  | Returns (Some cfg) =>
      UriParser.host cfg ≠ "" ∧ UriParser.host cfg ≠ "0.0.0.0"
      ∧ UriParser.port cfg ≠ 0%Z ∧ UriParser.identity cfg ≠ ""
  | _ => False
  end.
Proof.
  destruct (UriParser.UniversalParser_parse (H := Sample.stdlib) (H0 := Sample.jsonlib)
              ("vmess://" +:+ Sample.vmess_payload)) as [[cfg|]|e] eqn:Hparse.
  - destruct (parsed_config_invariant (H := Sample.stdlib) (H0 := Sample.jsonlib)
                ("vmess://" +:+ Sample.vmess_payload) cfg (or_introl Hparse))
      as (Hhost & Hzero & Hport & _ & Hid & _).
    split; [exact Hhost|]. split; [exact Hzero|]. split; [exact Hport|exact Hid].
  - vm_compute in Hparse. discriminate Hparse.
  - vm_compute in Hparse. discriminate Hparse.
Defined.

Lemma universal_parser_total_witness :
  UriParser.ShadowsocksParser_parse (H := Sample.stdlib) "ab" = Returns None
  ∧ UriParser.VMessParser_parse (H := Sample.jsonlib) "vmess://bm90IGpzb24=" = Returns None.
Proof.
  destruct (universal_parser_total (H := Sample.stdlib) (H0 := Sample.jsonlib) "ab")
    as (_ & _ & _ & _ & _ & _ & Hss & _).
  destruct (universal_parser_total (H := Sample.stdlib) (H0 := Sample.jsonlib)
              "vmess://bm90IGpzb24=") as (_ & _ & _ & _ & _ & _ & _ & Hjson).
  split.
  - apply (Hss out_of_range). reflexivity.
  - apply (Hjson "bm90IGpzb24=" json_parse_error); [cbn; lia | reflexivity | reflexivity].
Defined.

(** ** The SNI rewrite *)

Section ObfuscationProperties.
Import Json Obfuscation.

Lemma agree_off_refl targets j : agree_off targets j j.
Proof. by intros path _. Qed.

Lemma agree_off_trans targets a b c :
  agree_off targets a b → agree_off targets b c → agree_off targets a c.
Proof. intros Hab Hbc path Hp. by rewrite (Hbc path Hp), (Hab path Hp). Qed.

Lemma agree_off_weaken targets targets' a b :
  targets ⊆ targets' → agree_off targets a b → agree_off targets' a b.
Proof.
  intros Hsub Hab path Hp. apply Hab.
  rewrite Forall_forall in *. intros t Ht. apply Hp. by apply Hsub.
Qed.

Lemma diverges_cons_ne k t path target :
  k ≠ t → diverges (k :: path) (t :: target) = true.
Proof. intros Hne. cbn. by apply String.eqb_neq in Hne as ->. Qed.

Lemma diverges_cons_eq k path target :
  diverges (k :: path) (k :: target) = diverges path target.
Proof. cbn. by rewrite String.eqb_refl. Qed.

Lemma diverges_inv path t target :
  diverges path (t :: target) = true →
  ∃ k path', path = k :: path' ∧ (k ≠ t ∨ (k = t ∧ diverges path' target = true)).
Proof.
  destruct path as [|k path']; [discriminate|]. cbn.
  destruct (String.eqb k t) eqn:Hk; intros Hd; exists k, path'; (split; [done|]).
  - right. by apply String.eqb_eq in Hk.
  - left. by apply String.eqb_neq in Hk.
Qed.

Lemma at_path_member m key : at_path [key] (JObject m) = m !! key.
Proof. cbn. by destruct (m !! key). Qed.

(** [operator[]] with a frame on what it is applied to *)
Lemma update_member_frame (v v' : json) (key : string) (f : json → outcome json)
    (rests : list (list string)) :
  rests ≠ [] →
  update_member v key f = Returns v' →
  (∀ new, f (default JNull (at_path [key] v)) = Returns new →
          agree_off rests (default JNull (at_path [key] v)) new) →
  agree_off ((key ::.) <$> rests) v v'.
Proof.
  intros Hne Hupd Hf path Hpath.
  destruct rests as [|rest rests]; [done|].
  assert (∃ k path', path = k :: path') as (k & path' & ->).
  { apply Forall_cons in Hpath as [Hd _].
    apply diverges_inv in Hd as (k & path' & -> & _). eauto. }
  assert (k = key → Forall (fun target => diverges path' target = true) (rest :: rests))
    as Hinner.
  { intros ->. rewrite Forall_fmap in Hpath.
    eapply Forall_impl; [exact Hpath|]. intros t. cbn -[diverges].
    by rewrite diverges_cons_eq. }
  assert (∀ p, Forall (fun target => diverges p target = true) (rest :: rests) →
               at_path p JNull = None) as Hnull.
  { intros p Hp. apply Forall_cons in Hp as [Hd _]. by destruct p. }
  destruct v as [| | | | | |m]; try discriminate.
  - (* null becomes an object *)
    cbn in Hupd, Hf. destruct (f JNull) as [new|] eqn:Hnew; [|discriminate].
    injection Hupd as <-. cbn [at_path].
    destruct (decide (k = key)) as [->|Hk].
    + rewrite lookup_singleton_eq. cbn.
      rewrite (Hf new eq_refl path' (Hinner eq_refl)). by apply Hnull, Hinner.
    + by rewrite lookup_singleton_ne.
  - rewrite at_path_member in Hf. cbn in Hupd.
    destruct (f (default JNull (m !! key))) as [new|] eqn:Hnew; [|discriminate].
    injection Hupd as <-. cbn [at_path].
    destruct (decide (k = key)) as [->|Hk].
    + rewrite lookup_insert_eq. cbn.
      rewrite (Hf new eq_refl path' (Hinner eq_refl)).
      destruct (m !! key) as [old|]; [done|]. cbn. by apply Hnull, Hinner.
    + by rewrite lookup_insert_ne.
Qed.

Lemma bind_returns_inv {A B} (m : outcome A) (k : A → outcome B) (r : B) :
  m ≫= k = Returns r → ∃ a, m = Returns a ∧ k a = Returns r.
Proof. destruct m as [a|e]; [by exists a | discriminate]. Qed.

Lemma contains_at_path (v : json) (key : string) :
  contains v key = true ↔ at_path [key] v ≠ None.
Proof.
  destruct v as [| | | | | |m]; cbn; try (split; [discriminate|done]).
  rewrite bool_decide_eq_true. destruct (m !! key); cbn; split; try done;
    try (by intros [? ?]); by eexists.
Qed.

Lemma contains_false_at_path (v : json) (key : string) :
  contains v key = false ↔ at_path [key] v = None.
Proof.
  pose proof (contains_at_path v key) as Hc.
  destruct (contains v key); destruct (at_path [key] v); split; try done.
  - intros _. exfalso. by apply Hc.
  - intros _. destruct Hc as [_ Hc]. by discriminate Hc.
Qed.

Lemma set_member_value (v v' x : json) (field : string) :
  set_member v field x = Returns v' → at_path [field] v' = Some x.
Proof.
  destruct v as [| | | | | |m]; try discriminate; cbn; intros [= <-];
    cbn; [by rewrite lookup_singleton_eq | by rewrite lookup_insert_eq].
Qed.

Lemma set_member_frame (v v' x : json) (field : string) :
  set_member v field x = Returns v' → agree_off [[field]] v v'.
Proof.
  intros Hset path Hpath. apply Forall_cons in Hpath as [Hd _].
  apply diverges_inv in Hd as (k & path' & -> & [Hk|[_ Hd]]); [|by destruct path'].
  destruct v as [| | | | | |m]; try discriminate; cbn in Hset; injection Hset as <-;
    cbn [at_path]; [by rewrite lookup_singleton_ne | by rewrite lookup_insert_ne].
Qed.

Lemma set_empty_frame (v v' : json) (key : string) (rest : list string) :
  rest ≠ [] →
  contains v key = false →
  set_member v key (obj []) = Returns v' →
  agree_off [key :: rest] v v'.
Proof.
  intros Hrest Habsent Hset path Hpath. apply Forall_cons in Hpath as [Hd _].
  apply diverges_inv in Hd as (k & path' & -> & [Hk|[-> Hd]]).
  - destruct v as [| | | | | |m]; try discriminate; cbn in Hset; injection Hset as <-;
      cbn [at_path]; [by rewrite lookup_singleton_ne | by rewrite lookup_insert_ne].
  - assert (∃ k' p, path' = k' :: p) as (k' & p & ->) by (destruct path'; [done|eauto]).
    apply contains_false_at_path in Habsent.
    destruct v as [| | | | | |m]; try discriminate; cbn in Hset; injection Hset as <-.
    + cbn. by rewrite lookup_singleton_eq.
    + rewrite at_path_member in Habsent. cbn. rewrite lookup_insert_eq, Habsent. cbn.
      done.
Qed.

Lemma update_member_value (v v' : json) (key : string) (f : json → outcome json) :
  update_member v key f = Returns v' →
  ∃ new, f (default JNull (at_path [key] v)) = Returns new
         ∧ ∀ path, at_path (key :: path) v' = at_path path new.
Proof.
  destruct v as [| | | | | |m]; try discriminate; intros Hupd.
  - cbn in Hupd. destruct (f JNull) as [new|] eqn:Hnew; [|discriminate].
    injection Hupd as <-. exists new. split; [done|]. intros path. cbn.
    by rewrite lookup_singleton_eq.
  - rewrite at_path_member. cbn in Hupd.
    destruct (f (default JNull (m !! key))) as [new|] eqn:Hnew; [|discriminate].
    injection Hupd as <-. exists new. split; [done|]. intros path. cbn.
    by rewrite lookup_insert_eq.
Qed.

(** one of the two plain steps of the rewrite *)
Lemma set_step (key field sni : string) (s s1 : json) :
  (if contains s key
   then update_member s key (fun t => set_member t field (JString sni))
   else Returns s) = Returns s1 →
  agree_off [[key; field]] s s1
  ∧ (at_path [key] s = None → s1 = s)
  ∧ (at_path [key] s ≠ None → at_path [key; field] s1 = Some (JString sni)).
Proof.
  destruct (contains s key) eqn:Hc; intros Hstep.
  - split; [|split].
    + eapply (update_member_frame s s1 key _ [[field]]); [done|exact Hstep|].
      intros new Hnew. cbn beta in Hnew. exact (set_member_frame _ _ _ _ Hnew).
    + apply contains_at_path in Hc. done.
    + intros _. apply update_member_value in Hstep as (new & Hnew & Hat).
      rewrite Hat. by eapply set_member_value.
  - injection Hstep as <-. split; [apply agree_off_refl|]. split; [done|].
    apply contains_false_at_path in Hc. done.
Qed.

(** the step on [wsSettings] *)
Lemma ws_step (sni : string) (s s1 : json) :
  (if contains s "wsSettings"
   then update_member s "wsSettings" (fun ws =>
          ws ← (if negb (contains ws "headers")
                then set_member ws "headers" (obj [])
                else Returns ws);
          update_member ws "headers" (fun headers =>
            set_member headers "Host" (JString sni)))
   else Returns s) = Returns s1 →
  agree_off [["wsSettings"; "headers"; "Host"]] s s1
  ∧ (at_path ["wsSettings"] s = None → s1 = s)
  ∧ (at_path ["wsSettings"] s ≠ None →
     at_path ["wsSettings"; "headers"; "Host"] s1 = Some (JString sni)).
Proof.
  destruct (contains s "wsSettings") eqn:Hc; intros Hstep.
  - split; [|split].
    + eapply (update_member_frame s s1 "wsSettings" _ [["headers"; "Host"]]);
        [done|exact Hstep|].
      intros new Hnew. apply bind_returns_inv in Hnew as (ws1 & Hws1 & Hnew).
      eapply agree_off_trans.
      * destruct (negb (contains _ "headers")) eqn:Hh.
        -- apply negb_true_iff in Hh. by eapply (set_empty_frame _ _ _ ["Host"]).
        -- injection Hws1 as <-. apply agree_off_refl.
      * eapply (update_member_frame ws1 new "headers" _ [["Host"]]); [done|exact Hnew|].
        intros h Hh. cbn beta in Hh. exact (set_member_frame _ _ _ _ Hh).
    + apply contains_at_path in Hc. done.
    + intros _. apply update_member_value in Hstep as (new & Hnew & Hat).
      rewrite Hat. apply bind_returns_inv in Hnew as (ws1 & _ & Hnew).
      apply update_member_value in Hnew as (h & Hh & Hat').
      rewrite Hat'. by eapply set_member_value.
  - injection Hstep as <-. split; [apply agree_off_refl|]. split; [done|].
    apply contains_false_at_path in Hc. done.
Qed.

Lemma rewrite_settings_spec (sni : string) (s s' : json) :
  rewrite_settings sni s = Returns s' →
  agree_off (tail <$> sni_paths) s s'
  ∧ (∀ key, key ∈ ["tlsSettings"; "grpcSettings"; "wsSettings"] →
            at_path [key] s = None → at_path [key] s' = None)
  ∧ (∀ target, target ∈ tail <$> sni_paths →
               at_path (take 1 target) s ≠ None →
               at_path target s' = Some (JString sni)).
Proof.
  unfold rewrite_settings. intros Hr.
  apply bind_returns_inv in Hr as (s1 & H1 & Hr).
  apply bind_returns_inv in Hr as (s2 & H2 & H3).
  apply set_step in H1 as (F1 & A1 & V1).
  apply set_step in H2 as (F2 & A2 & V2).
  apply ws_step in H3 as (F3 & A3 & V3).
  assert (∀ path, diverges path ["tlsSettings"; "serverName"] = true →
                  at_path path s1 = at_path path s) as F1'
    by (intros path Hd; apply F1; by constructor).
  assert (∀ path, diverges path ["grpcSettings"; "authority"] = true →
                  at_path path s2 = at_path path s1) as F2'
    by (intros path Hd; apply F2; by constructor).
  assert (∀ path, diverges path ["wsSettings"; "headers"; "Host"] = true →
                  at_path path s' = at_path path s2) as F3'
    by (intros path Hd; apply F3; by constructor).
  split; [|split].
  - intros path Hpath. cbn in Hpath.
    apply Forall_cons in Hpath as [D1 Hpath].
    apply Forall_cons in Hpath as [D2 Hpath].
    apply Forall_cons in Hpath as [D3 _].
    by rewrite F3', F2', F1'.
  - intros key Hkey Habs.
    apply elem_of_cons in Hkey as [->|Hkey];
      [|apply elem_of_cons in Hkey as [->|Hkey];
        [|apply elem_of_cons in Hkey as [->|Hkey]; [|by apply elem_of_nil in Hkey]]].
    + rewrite F3', F2' by done. by rewrite (A1 Habs).
    + rewrite F3' by done. rewrite <- F1' in Habs by done. by rewrite (A2 Habs).
    + rewrite <- F1', <- F2' in Habs by done. by rewrite (A3 Habs).
  - intros target Htarget Hpres. cbn in Htarget.
    apply elem_of_cons in Htarget as [->|Htarget];
      [|apply elem_of_cons in Htarget as [->|Htarget];
        [|apply elem_of_cons in Htarget as [->|Htarget]; [|by apply elem_of_nil in Htarget]]];
      cbn [take] in Hpres.
    + rewrite F3', F2' by done. by apply V1.
    + rewrite F3' by done. apply V2. by rewrite F1'.
    + apply V3. by rewrite F2', F1'.
Qed.


Lemma set_member_returns (v x : json) (field : string) :
  settable v = true → ∃ v', set_member v field x = Returns v'.
Proof. destruct v; try discriminate; intros _; cbn; eauto. Qed.

Lemma update_member_returns (v : json) (key : string) (f : json → outcome json) :
  settable v = true →
  (∃ new, f (default JNull (at_path [key] v)) = Returns new) →
  ∃ v', update_member v key f = Returns v'.
Proof.
  destruct v as [| | | | | |m]; try discriminate; intros _ [new Hnew].
  - cbn in *. rewrite Hnew. cbn. eauto.
  - rewrite at_path_member in Hnew. cbn. rewrite Hnew. cbn. eauto.
Qed.

Lemma contains_settable (v : json) (key : string) :
  contains v key = true → settable v = true.
Proof. by destruct v. Qed.

Lemma set_step_returns (key field sni : string) (s : json) :
  (∀ v, at_path [key] s = Some v → settable v = true) →
  ∃ s1, (if contains s key
         then update_member s key (fun t => set_member t field (JString sni))
         else Returns s) = Returns s1.
Proof.
  intros Hv. destruct (contains s key) eqn:Hc; [|eauto].
  apply update_member_returns; [by eapply contains_settable|].
  apply set_member_returns.
  apply contains_at_path in Hc. destruct (at_path [key] s) as [v|]; [|done].
  by apply Hv.
Qed.

Lemma rewrite_settings_returns (sni : string) (s : json) :
  indexable s → ∃ s', rewrite_settings sni s = Returns s'.
Proof.
  intros (Htls & Hgrpc & Hws & Hheaders). unfold rewrite_settings.
  destruct (set_step_returns "tlsSettings" "serverName" sni s Htls) as [s1 H1].
  rewrite H1. cbn [mbind outcome_bind obind].
  apply set_step in H1 as (F1 & _ & _).
  assert (∀ path, diverges path ["tlsSettings"; "serverName"] = true →
                  at_path path s1 = at_path path s) as F1'
    by (intros path Hd; apply F1; by constructor).
  destruct (set_step_returns "grpcSettings" "authority" sni s1) as [s2 H2].
  { intros v. rewrite F1' by done. apply Hgrpc. }
  rewrite H2. cbn [mbind outcome_bind obind].
  apply set_step in H2 as (F2 & _ & _).
  assert (∀ path, diverges path ["grpcSettings"; "authority"] = true →
                  at_path path s2 = at_path path s1) as F2'
    by (intros path Hd; apply F2; by constructor).
  destruct (contains s2 "wsSettings") eqn:Hc; [|eauto].
  apply update_member_returns; [by eapply contains_settable|].
  assert (at_path ["wsSettings"] s2 = at_path ["wsSettings"] s) as Hsame
    by (by rewrite F2', F1').
  assert (at_path ["wsSettings"; "headers"] s2 = at_path ["wsSettings"; "headers"] s)
    as Hsame' by (by rewrite F2', F1').
  apply contains_at_path in Hc.
  destruct (at_path ["wsSettings"] s2) as [ws|] eqn:Hws2; [|done]. cbn [default].
  assert (settable ws = true) as Hset by (apply Hws; by rewrite <- Hsame).
  assert (at_path ["wsSettings"; "headers"] s2 = at_path ["headers"] ws) as Hh.
  { destruct s2 as [| | | | | |m]; try discriminate.
    rewrite at_path_member in Hws2. cbn. by rewrite Hws2. }
  change (∃ new,
            (ws ← (if negb (contains ws "headers")
                   then set_member ws "headers" (obj [])
                   else Returns ws);
             update_member ws "headers" (fun headers =>
               set_member headers "Host" (JString sni))) = Returns new).
  destruct (contains ws "headers") eqn:Hch; cbn [negb].
  - cbn [mbind outcome_bind obind mret outcome_ret].
    apply update_member_returns; [done|]. apply set_member_returns.
    apply contains_at_path in Hch.
    destruct (at_path ["headers"] ws) as [h|] eqn:Hhw; [|done]. cbn [default].
    apply Hheaders. by rewrite <- Hsame', Hh.
  - destruct (set_member_returns ws (obj []) "headers" Hset) as [ws1 Hws1].
    rewrite Hws1. cbn [mbind outcome_bind obind].
    apply update_member_returns.
    + destruct ws; try discriminate; cbn in Hws1; by injection Hws1 as <-.
    + apply set_member_returns.
      rewrite (set_member_value _ _ _ _ Hws1). done.
Qed.

Lemma at_path_prefix_none (k : string) (path : list string) (v : json) :
  at_path [k] v = None → at_path (k :: path) v = None.
Proof.
  destruct v as [| | | | | |m]; try done. rewrite at_path_member. cbn. by intros ->.
Qed.

(** C10 (amended): the SNI rewrite returns the outbound as it is when the
    engine is disabled or the outbound has no streamSettings.  Otherwise,
    whenever it returns, the result agrees with the outbound at every path
    that parts ways with streamSettings.tlsSettings.serverName,
    streamSettings.grpcSettings.authority and
    streamSettings.wsSettings.headers.Host; tlsSettings, grpcSettings and
    wsSettings stay absent where they were absent; where one of them is
    present, be it null or without [headers], its member is the current
    SNI; the rotation state of the engine is unchanged.  It returns on
    every outbound whose three settings members and [headers], where
    present, are objects or null. *)
Theorem sni_rewrite_frame (e : StealthObfuscationEngine) (outbound : json) :
  (enabled e = false ∨ contains outbound "streamSettings" = false →
   apply_obfuscation_to_config e outbound = Returns (outbound, e))
  ∧ (∀ conf e',
       apply_obfuscation_to_config e outbound = Returns (conf, e') →
       agree_off sni_paths outbound conf
       ∧ (∀ key, key ∈ ["tlsSettings"; "grpcSettings"; "wsSettings"] →
                 at_path ["streamSettings"; key] outbound = None →
                 at_path ["streamSettings"; key] conf = None)
       ∧ (enabled e = true →
          ∀ target, target ∈ sni_paths →
                    at_path (take 2 target) outbound ≠ None →
                    at_path target conf = Some (JString (get_current_sni e)))
       ∧ enabled e' = enabled e
       ∧ current_sni_index_ e' = current_sni_index_ e
       ∧ cdn_whitelist_ e' = cdn_whitelist_ e)
  ∧ ((∀ settings, at_path ["streamSettings"] outbound = Some settings →
                  indexable settings) →
     ∃ r, apply_obfuscation_to_config e outbound = Returns r).
Proof.
  unfold apply_obfuscation_to_config. split; [|split].
  - intros [-> | ->]; [done|]. by rewrite orb_true_r.
  - intros conf e' Hrun.
    destruct (negb (enabled e) || negb (contains outbound "streamSettings")) eqn:Hskip.
    + injection Hrun as <- <-. split; [apply agree_off_refl|]. split; [done|].
      split; [|done]. intros Hen target Htarget Hpres. exfalso.
      rewrite Hen in Hskip. cbn in Hskip. apply negb_true_iff in Hskip.
      apply contains_false_at_path in Hskip.
      cbn in Htarget.
      repeat (apply elem_of_cons in Htarget as [->|Htarget];
              [apply Hpres; cbn [take]; by apply at_path_prefix_none|]).
      by apply elem_of_nil in Htarget.
    + apply orb_false_iff in Hskip as [Hen Hss].
      apply negb_false_iff in Hen. apply negb_false_iff in Hss.
      apply bind_returns_inv in Hrun as (conf' & Hupd & Hrun).
      injection Hrun as <- <-. cbn [enabled current_sni_index_ cdn_whitelist_].
      pose proof (update_member_value _ _ _ _ Hupd) as (settings' & Hrw & Hat).
      pose proof (rewrite_settings_spec _ _ _ Hrw) as (Hframe & Habsent & Hvalue).
      apply contains_at_path in Hss as Hpresent.
      destruct (at_path ["streamSettings"] outbound) as [settings|] eqn:Hsettings; [|done].
      cbn [default] in *.
      assert (∀ path, at_path ("streamSettings" :: path) outbound = at_path path settings)
        as Hat0.
      { intros path. destruct outbound as [| | | | | |m]; try discriminate.
        rewrite at_path_member in Hsettings. cbn. by rewrite Hsettings. }
      split; [|split; [|split; [|done]]].
      * assert (agree_off ((cons "streamSettings") <$> (tail <$> sni_paths))
                          outbound conf') as Hfr; [|exact Hfr].
        eapply (update_member_frame outbound conf' "streamSettings" _ (tail <$> sni_paths));
          [done|exact Hupd|].
        intros new Hnew. rewrite Hsettings in Hnew |- *. cbn [default] in *.
        by apply rewrite_settings_spec in Hnew as [? _].
      * intros key Hkey. rewrite Hat0, Hat. by apply Habsent.
      * intros _ target Htarget Hpres. cbn in Htarget.
        repeat (apply elem_of_cons in Htarget as [->|Htarget];
                [cbn [take] in Hpres; rewrite Hat0 in Hpres; rewrite Hat;
                 apply Hvalue; [cbn; set_solver | exact Hpres]|]).
        by apply elem_of_nil in Htarget.
  - intros Hshape.
    destruct (negb (enabled e) || negb (contains outbound "streamSettings")) eqn:Hskip;
      [eauto|].
    apply orb_false_iff in Hskip as [_ Hss]. apply negb_false_iff in Hss.
    assert (∃ conf, update_member outbound "streamSettings"
                      (rewrite_settings (get_current_sni e)) = Returns conf)
      as [conf ->]; [|cbn; eauto].
    apply update_member_returns; [by eapply contains_settable|].
    apply rewrite_settings_returns.
    apply contains_at_path in Hss.
    destruct (at_path ["streamSettings"] outbound) as [settings|]; [|done].
    by apply Hshape.
Qed.

End ObfuscationProperties.

Lemma sni_rewrite_frame_witness :
  let sni := Obfuscation.get_current_sni (Obfuscation.new true) in
  sni = "cloudflare.com"
  ∧ ∃ conf e',
    Obfuscation.apply_obfuscation_to_config (Obfuscation.new true) Sample.vless_outbound
      = Returns (conf, e')
    ∧ Json.at_path ["streamSettings"; "tlsSettings"; "serverName"] conf
      = Some (Json.JString sni)
    ∧ Json.at_path ["streamSettings"; "wsSettings"; "headers"; "Host"] conf
      = Some (Json.JString sni)
    ∧ Json.at_path ["streamSettings"; "grpcSettings"] conf = None
    ∧ Json.at_path ["settings"] conf = Json.at_path ["settings"] Sample.vless_outbound
    ∧ Json.at_path ["streamSettings"; "network"] conf
      = Json.at_path ["streamSettings"; "network"] Sample.vless_outbound.
Proof.
  intros sni. split; [reflexivity|].
  destruct (sni_rewrite_frame (Obfuscation.new true) Sample.vless_outbound)
    as (_ & Hframe & Hreturns).
  destruct Hreturns as [[conf e'] Hrun].
  { intros settings Hsettings. vm_compute in Hsettings. injection Hsettings as <-.
    repeat split; intros v Hv; vm_compute in Hv; try discriminate;
      injection Hv as <-; reflexivity. }
  exists conf, e'. split; [exact Hrun|].
  destruct (Hframe conf e' Hrun) as (Hagree & Habsent & Hvalue & _).
  specialize (Hvalue eq_refl).
  split; [|split; [|split; [|split]]].
  - apply Hvalue; [apply list_elem_of_here|]. vm_compute. discriminate.
  - apply Hvalue; [do 2 apply list_elem_of_further; apply list_elem_of_here|].
    vm_compute. discriminate.
  - apply Habsent; [apply list_elem_of_further, list_elem_of_here|]. vm_compute. reflexivity.
  - apply Hagree. repeat constructor.
  - apply Hagree. repeat constructor.
Defined.

(** C10, as stated, fails on stream settings whose [wsSettings] has no
    [headers] and whose [tlsSettings] is null: the rewrite creates
    [headers] to set [Host] in it, and makes the null an object to set
    [serverName] in it, though neither enclosing object existed. *)
Lemma sni_set_in_new_object :
  let outbound :=
    Json.obj [("protocol", Json.JString "vless");
              ("streamSettings",
               Json.obj [("wsSettings", Json.obj [("path", Json.JString "/")]);
                         ("tlsSettings", Json.JNull)])] in
  Json.at_path ["streamSettings"; "wsSettings"; "headers"] outbound = None
  ∧ Json.at_path ["streamSettings"; "tlsSettings"] outbound = Some Json.JNull
  ∧ ∃ conf e',
      Obfuscation.apply_obfuscation_to_config (Obfuscation.new true) outbound
        = Returns (conf, e')
      ∧ Json.at_path ["streamSettings"; "wsSettings"; "headers"] conf
        = Some (Json.obj [("Host", Json.JString "cloudflare.com")])
      ∧ Json.at_path ["streamSettings"; "wsSettings"; "headers"; "Host"] conf
        = Some (Json.JString "cloudflare.com")
      ∧ Json.at_path ["streamSettings"; "tlsSettings"] conf
        = Some (Json.obj [("serverName", Json.JString "cloudflare.com")])
      ∧ Json.at_path ["streamSettings"; "tlsSettings"; "serverName"] conf
        = Some (Json.JString "cloudflare.com").
Proof.
  intros outbound. split; [by vm_compute|]. split; [by vm_compute|].
  destruct (Obfuscation.apply_obfuscation_to_config (Obfuscation.new true) outbound)
    as [[conf e']|e] eqn:Hrun; [|by vm_compute in Hrun].
  exists conf, e'. split; [done|].
  vm_compute in Hrun. injection Hrun as <- <-.
  repeat split; by vm_compute.
Qed.

(** ** The channel scraper *)

Section ScraperProperties.
Import Utils Extract Scraper.
Lemma first_seen_app seen a b :
  first_seen seen (a ++ b)
  = first_seen seen a ++ first_seen (list_to_set (first_seen seen a) ∪ seen) b.
Proof.
  revert seen. induction a as [|x a IH]; intros seen; cbn [app first_seen].
  - cbn. f_equal. set_solver.
  - case_bool_decide as Hx; [apply IH|].
    cbn [app list_to_set]. rewrite IH. do 3 f_equal. clear IH. set_solver.
Qed.

Lemma first_seen_fresh seen l x : x ∈ first_seen seen l → x ∉ seen.
Proof.
  revert seen. induction l as [|y l IH]; intros seen; cbn [first_seen]; [by intros ?%elem_of_nil|].
  case_bool_decide as Hy; [apply IH|].
  intros [->|Hx]%elem_of_cons; [done|]. apply IH in Hx. set_solver.
Qed.

Context {World : Type} `{RegexLib}.
Context (fetch_cb : @TelegramFetchCallback World) (limit : Z).

#[local] Abbreviation kept_inv := (Scraper.kept_inv limit).
#[local] Abbreviation always_fails := (Scraper.always_fails fetch_cb limit).

Lemma kept_inv_size cc ord :
  kept_inv cc ord → (limit ≤ INT_MAX)%Z →
  to_int (Z.of_nat (size cc)) = Z.of_nat (length ord).
Proof.
  intros (-> & Hnd & Hlen) Hlim.
  rewrite size_list_to_set by done.
  apply to_int_small. unfold INT_MIN, INT_MAX in *. lia.
Qed.

Lemma keep_found_spec (found : list string) cc ord :
  (limit ≤ INT_MAX)%Z →
  kept_inv cc ord →
  keep_found limit found cc ord
  = (list_to_set (take (Z.to_nat limit) (ord ++ first_seen cc found)),
     take (Z.to_nat limit) (ord ++ first_seen cc found)).
Proof.
  intros Hlim. revert cc ord. induction found as [|uri found IH]; intros cc ord Hinv.
  - cbn [keep_found first_seen]. rewrite app_nil_r.
    destruct Hinv as (-> & _ & Hlen). by rewrite take_ge by lia.
  - cbn [keep_found]. rewrite (kept_inv_size cc ord Hinv Hlim).
    destruct Hinv as (Hcc & Hnd & Hlen).
    destruct (limit <=? Z.of_nat (length ord))%Z eqn:Hfull.
    + apply Z.leb_le in Hfull.
      rewrite take_app_le by lia. rewrite take_ge by lia. by rewrite Hcc.
    + apply Z.leb_gt in Hfull. cbn [first_seen]. rewrite bool_decide_not.
      destruct (bool_decide (uri ∈ cc)) eqn:Hin; cbn [negb].
      * by apply IH.
      * apply bool_decide_eq_false in Hin.
        rewrite IH.
        -- by rewrite <- app_assoc.
        -- split; [|split].
           ++ rewrite Hcc, list_to_set_app_L. cbn [list_to_set].
              by rewrite (right_id_L ∅ (∪)), (comm_L (∪)).
           ++ apply NoDup_app. split; [done|]. split; [|apply NoDup_singleton].
              intros x Hx ->%list_elem_of_singleton. apply Hin. rewrite Hcc.
              by apply elem_of_list_to_set.
           ++ rewrite length_app. cbn. lia.
Qed.

Lemma kept_inv_take cc ord l :
  kept_inv cc ord →
  kept_inv (list_to_set (take (Z.to_nat limit) (ord ++ first_seen cc l)))
           (take (Z.to_nat limit) (ord ++ first_seen cc l)).
Proof.
  intros (-> & Hnd & Hlen). split; [done|]. split.
  - eapply sublist_NoDup; [|apply sublist_take]. apply NoDup_app. split; [done|]. split; [|apply first_seen_NoDup].
    intros x Hx Hx'%first_seen_fresh. apply Hx'. by apply elem_of_list_to_set.
  - rewrite length_take. lia.
Qed.

Lemma keep_messages_inv (messages : list string) cc ord kept :
  (limit ≤ INT_MAX)%Z →
  kept_inv cc ord →
  keep_messages limit messages cc ord = Returns kept →
  kept_inv (list_to_set kept) kept.
Proof.
  intros Hlim. revert cc ord. induction messages as [|message messages IH];
    intros cc ord Hinv; cbn [keep_messages].
  - intros [= <-]. by destruct Hinv as (-> & ? & ?).
  - destruct (limit <=? _)%Z.
    + intros [= <-]. by destruct Hinv as (-> & ? & ?).
    + destruct (extract_raw_uris_from_text message) as [found|]; [|discriminate].
      cbn [mbind outcome_bind obind].
      rewrite (keep_found_spec found cc ord Hlim Hinv).
      apply IH. by apply kept_inv_take.
Qed.

Lemma keep_messages_spec (messages : list string) (founds : list (list string)) cc ord :
  (limit ≤ INT_MAX)%Z →
  kept_inv cc ord →
  Forall2 (fun message found => extract_raw_uris_from_text message = Returns found)
          messages founds →
  keep_messages limit messages cc ord
  = Returns (take (Z.to_nat limit) (ord ++ first_seen cc (concat founds))).
Proof.
  intros Hlim Hinv Hall. revert cc ord Hinv.
  induction Hall as [|message found messages founds Hfound _ IH]; intros cc ord Hinv.
  - cbn [keep_messages concat first_seen]. rewrite app_nil_r.
    destruct Hinv as (_ & _ & Hlen). by rewrite take_ge by lia.
  - cbn [keep_messages concat]. rewrite (kept_inv_size cc ord Hinv Hlim).
    destruct (limit <=? Z.of_nat (length ord))%Z eqn:Hfull.
    + apply Z.leb_le in Hfull. destruct Hinv as (_ & _ & Hlen).
      rewrite take_app_le by lia. by rewrite take_ge by lia.
    + apply Z.leb_gt in Hfull. rewrite Hfound. cbn [mbind outcome_bind obind].
      rewrite (keep_found_spec found cc ord Hlim Hinv).
      rewrite IH by (by apply kept_inv_take).
      f_equal. rewrite first_seen_app, app_assoc.
      set (n := Z.to_nat limit). set (l1 := ord ++ first_seen cc found).
      destruct (decide (n ≤ length l1)%nat) as [Hle|Hgt].
      * rewrite (take_app_le l1) by done.
        rewrite take_app_le by (rewrite length_take; lia).
        by rewrite take_take, Nat.min_id.
      * rewrite (take_ge l1) by lia. do 3 f_equal. subst l1.
        destruct Hinv as (-> & _ & _).
        by rewrite list_to_set_app_L, (comm_L (∪)).
Qed.

Lemma scrape_loop_stopped (channels : list string) (st : scrape_state) :
  (max_consecutive_errors ≤ consecutive_errors st)%Z →
  scrape_loop fetch_cb limit channels st = st.
Proof.
  intros Hstop%Z.leb_le. destruct channels as [|channel channels]; [done|].
  cbn [scrape_loop]. by rewrite Hstop.
Qed.

Lemma scrape_loop_app (pre post : list string) (st : scrape_state) :
  scrape_loop fetch_cb limit (pre ++ post) st
  = scrape_loop fetch_cb limit post (scrape_loop fetch_cb limit pre st).
Proof.
  revert st. induction pre as [|channel pre IH]; intros st; [done|].
  cbn [app scrape_loop].
  destruct (max_consecutive_errors <=? consecutive_errors st)%Z eqn:Hstop; [|apply IH].
  apply Z.leb_le in Hstop. by rewrite scrape_loop_stopped.
Qed.

Lemma scrape_step_spec (st : scrape_state) (channel : string) :
  let st' := scrape_step fetch_cb limit st channel in
  fetched st' = fetched st ++ [channel]
  ∧ world st' = (scrape_channel fetch_cb limit channel (world st)).2
  ∧ match (scrape_channel fetch_cb limit channel (world st)).1 with
    | Returns kept =>
        consecutive_errors st' = 0%Z
        ∧ configs st' = list_to_set kept ∪ configs st
    | Throws _ =>
        consecutive_errors st' = (consecutive_errors st + 1)%Z
        ∧ configs st' = configs st
    end.
Proof.
  unfold scrape_step.
  destruct (scrape_channel fetch_cb limit channel (world st)) as [[kept|e] w]; by cbn.
Qed.

Lemma scrape_step_nonneg (st : scrape_state) (channel : string) :
  (0 ≤ consecutive_errors st)%Z →
  (0 ≤ consecutive_errors (scrape_step fetch_cb limit st channel))%Z.
Proof.
  intros Hst. destruct (scrape_step_spec st channel) as (_ & _ & Hstep).
  destruct (scrape_channel fetch_cb limit channel (world st)).1;
    destruct Hstep as [-> _]; lia.
Qed.

Lemma scrape_loop_nonneg (channels : list string) (st : scrape_state) :
  (0 ≤ consecutive_errors st)%Z →
  (0 ≤ consecutive_errors (scrape_loop fetch_cb limit channels st))%Z.
Proof.
  revert st. induction channels as [|channel channels IH]; intros st Hst; [done|].
  cbn [scrape_loop]. destruct (_ <=? _)%Z; [done|].
  by apply IH, scrape_step_nonneg.
Qed.

Lemma failing_step (st : scrape_state) (channel : string) :
  always_fails channel →
  consecutive_errors (scrape_step fetch_cb limit st channel)
  = (consecutive_errors st + 1)%Z.
Proof.
  intros Hfail. destruct (scrape_step_spec st channel) as (_ & _ & Hstep).
  destruct (Hfail (world st)) as [e He]. rewrite He in Hstep. by destruct Hstep.
Qed.

Lemma three_failures_stop (c1 c2 c3 : string) (st : scrape_state) :
  (0 ≤ consecutive_errors st)%Z →
  always_fails c1 → always_fails c2 → always_fails c3 →
  (max_consecutive_errors
   ≤ consecutive_errors (scrape_loop fetch_cb limit [c1; c2; c3] st))%Z.
Proof.
  intros Hst H1 H2 H3. unfold max_consecutive_errors. cbn [scrape_loop].
  repeat match goal with
         | |- context [(?a <=? ?b)%Z] =>
             destruct (Z.leb_spec a b); [unfold max_consecutive_errors in *; lia|]
         end.
  rewrite !failing_step by done. lia.
Qed.

Lemma fetched_prefix (channels : list string) (st : scrape_state) :
  ∃ k, fetched (scrape_loop fetch_cb limit channels st) = fetched st ++ take k channels.
Proof.
  revert st. induction channels as [|channel channels IH]; intros st.
  - exists O. by rewrite app_nil_r.
  - cbn [scrape_loop]. destruct (_ <=? _)%Z.
    + exists O. by rewrite app_nil_r.
    + destruct (IH (scrape_step fetch_cb limit st channel)) as [k Hk].
      exists (S k). rewrite Hk.
      destruct (scrape_step_spec st channel) as (-> & _).
      by rewrite <- app_assoc.
Qed.

Lemma scrape_channel_kept (channel : string) (w : World) (kept : list string) :
  (limit ≤ INT_MAX)%Z →
  (scrape_channel fetch_cb limit channel w).1 = Returns kept →
  (Z.of_nat (length kept) ≤ Z.max 0 limit)%Z ∧ NoDup kept.
Proof.
  intros Hlim. unfold scrape_channel.
  destruct (fetch_cb channel _ w) as [[messages|e] w']; [|discriminate].
  cbn. intros Hkept.
  apply keep_messages_inv in Hkept as (_ & Hnd & Hlen); [|done|].
  - split; [lia|done].
  - split; [done|]. split; [constructor|]. cbn. lia.
Qed.

(** C8: once three consecutive channel-level errors are counted the loop
    over the channels stops, so after three channels in a row that fail no
    later channel is fetched; an error adds one to the count and a channel
    that succeeds resets it to zero; the channels fetched are an initial
    part of the list; for each channel at most [limit] URIs are kept, none
    twice, and they are the first [limit] distinct URIs of its messages in
    the order in which they are first seen. *)
Theorem scraper_stops_after_three_errors :
  (INT_MIN ≤ limit ≤ INT_MAX)%Z →
  (* once three consecutive errors are counted, no later channel is fetched *)
  (∀ st channels,
      (3 ≤ consecutive_errors st)%Z → scrape_loop fetch_cb limit channels st = st)
  ∧ (∀ st pre c1 c2 c3 post,
      (0 ≤ consecutive_errors st)%Z →
      always_fails c1 → always_fails c2 → always_fails c3 →
      scrape_loop fetch_cb limit (pre ++ [c1; c2; c3] ++ post) st
      = scrape_loop fetch_cb limit (pre ++ [c1; c2; c3]) st)
  (* an error adds one to the count, a success resets it *)
  ∧ (∀ st channel,
      let st' := scrape_step fetch_cb limit st channel in
      fetched st' = fetched st ++ [channel]
      ∧ match (scrape_channel fetch_cb limit channel (world st)).1 with
        | Returns kept =>
            consecutive_errors st' = 0%Z
            ∧ configs st' = list_to_set kept ∪ configs st
        | Throws _ =>
            consecutive_errors st' = (consecutive_errors st + 1)%Z
            ∧ configs st' = configs st
        end)
  (* the channels fetched are the first ones of the list, in order *)
  ∧ (∀ channels (w : World),
      ∃ k, fetched (scrape_configs (Some fetch_cb) channels limit w) = take k channels)
  ∧ (∀ channels (w : World), fetched (scrape_configs None channels limit w) = [])
  (* per channel: at most [limit] URIs, none twice, in first-seen order *)
  ∧ (∀ channel w kept,
      (scrape_channel fetch_cb limit channel w).1 = Returns kept →
      (Z.of_nat (length kept) ≤ Z.max 0 limit)%Z ∧ NoDup kept)
  ∧ (∀ messages founds,
      Forall2 (fun message found => extract_raw_uris_from_text message = Returns found)
              messages founds →
      keep_messages limit messages ∅ []
      = Returns (take (Z.to_nat limit) (first_seen ∅ (concat founds)))).
Proof.
  intros [_ Hlim]. split; [|split; [|split; [|split; [|split; [|split]]]]].
  - intros st channels Hst. by apply scrape_loop_stopped.
  - intros st pre c1 c2 c3 post Hst H1 H2 H3.
    rewrite app_assoc, scrape_loop_app. apply scrape_loop_stopped.
    rewrite scrape_loop_app. apply three_failures_stop; [|done..].
    by apply scrape_loop_nonneg.
  - intros st channel. by destruct (scrape_step_spec st channel) as (? & _ & ?).
  - intros channels w. apply (fetched_prefix channels (scrape_start w)).
  - done.
  - intros channel w kept. by apply scrape_channel_kept.
  - intros messages founds Hall.
    rewrite (keep_messages_spec messages founds ∅ []); [done|done| |done].
    split; [done|]. split; [constructor|]. cbn. lia.
Qed.

End ScraperProperties.

Lemma scraper_stops_after_three_errors_witness :
  Scraper.fetched
    (Scraper.scrape_configs (H := Sample.regexlib) (Some Sample.fetch_cb)
       ["up"; "down"; "down"; "down"; "late"] 5 tt)
  = ["up"; "down"; "down"; "down"]
  ∧ Scraper.keep_messages (H := Sample.regexlib) 1
      ["vless://a@h:1"; "vless://b@h:2"] ∅ []
    = Returns ["vless://a@h:1"].
Proof.
  destruct (scraper_stops_after_three_errors (H := Sample.regexlib) Sample.fetch_cb 5)
    as (_ & Hstop & _); [by vm_compute|].
  destruct (scraper_stops_after_three_errors (H := Sample.regexlib) Sample.fetch_cb 1)
    as (_ & _ & _ & _ & _ & _ & Hfirst); [by vm_compute|].
  split.
  - unfold Scraper.scrape_configs.
    change ["up"; "down"; "down"; "down"; "late"]
      with (["up"] ++ ["down"; "down"; "down"] ++ ["late"]).
    rewrite (Hstop (Scraper.scrape_start tt) ["up"] "down" "down" "down" ["late"]).
    + reflexivity.
    + by vm_compute.
    + intros w. eexists. reflexivity.
    + intros w. eexists. reflexivity.
    + intros w. eexists. reflexivity.
  - rewrite (Hfirst ["vless://a@h:1"; "vless://b@h:2"]
               [["vless://a@h:1"]; ["vless://b@h:2"]]).
    + reflexivity.
    + repeat constructor.
Defined.

(** ** The balancer and its engine handles *)

Section BalancerProperties.
Import Json UriParser Balancer.
Context {World : Type} (now_ts : World → Z) `{StdLib} `{JsonLib}.
Context (std_sort : list (string * double) → list (string * double)).

#[local] Existing Instances M_bind M_ret.
#[local] Abbreviation server_t := (MultiProxyServer World).
#[local] Abbreviation state_t := (state World).
#[local] Abbreviation test_backend := (Balancer.test_backend (World := World)).
#[local] Abbreviation probe_and_rebuild := (Balancer.probe_and_rebuild now_ts std_sort).

Lemma test_backend_run (uri_ : string) (timeout : Z) (st : state_t) :
  ∃ evs,
    server (test_backend uri_ timeout st).2 = server st
    ∧ trace (test_backend uri_ timeout st).2 = trace st ++ evs
    ∧ probe_run (server st) evs (test_backend uri_ timeout st).1.
Proof.
  unfold test_backend, Balancer.test_backend.
  unfold mbind, M_bind, mret, M_ret, lift, this, call_start, call_stop, call_test.
  destruct (UniversalParser_parse uri_) as [[parsed|]|e].
  2:{ exists []. cbn. rewrite app_nil_r. repeat split. constructor. by left. }
  2:{ exists []. cbn. rewrite app_nil_r. repeat split. constructor. right. by eexists. }
  cbn. destruct (start_proxy_cb_ (server st)) as [start_cb|].
  2:{ cbn. exists []. rewrite app_nil_r. repeat split. constructor. by left. }
  destruct (json_dump None _) as [config_str|e].
  2:{ cbn. exists []. rewrite app_nil_r. repeat split. constructor. right. by eexists. }
  destruct (start_cb _ _ _) as [handle w1] eqn:Hstart. cbn.
  destruct (handle <? 0)%Z eqn:Hneg.
  { cbn. eexists. repeat split. apply probe_start_failed. by apply Z.ltb_lt. }
  apply Z.ltb_ge in Hneg. pose proof Hneg as Hpos%Z.leb_le.
  destruct (test_url_cb_ (server st)) as [test_cb|] eqn:Htest.
  - destruct (test_cb _ _ _ _) as [[sc lat] w2] eqn:Hcall. cbn.
    destruct (stop_proxy_cb_ (server st)) as [stop_cb|] eqn:Hstop; rewrite ?Hpos; cbn.
    + eexists. split; [done|]. split; [by rewrite <- !app_assoc|].
      pose proof (probe_tested (server st) config_str (probe_port (port_ (server st)) uri_)
                    handle "https://cp.cloudflare.com/" timeout sc lat Hneg) as Hrun.
      by rewrite Hstop in Hrun.
    + eexists. split; [done|]. split; [by rewrite <- !app_assoc|].
      pose proof (probe_tested (server st) config_str (probe_port (port_ (server st)) uri_)
                    handle "https://cp.cloudflare.com/" timeout sc lat Hneg) as Hrun.
      by rewrite Hstop in Hrun.
  - cbn. destruct (stop_proxy_cb_ (server st)) as [stop_cb|] eqn:Hstop; rewrite ?Hpos; cbn.
    + eexists. split; [done|]. split; [by rewrite <- !app_assoc|].
      pose proof (probe_not_tested (server st) config_str
                    (probe_port (port_ (server st)) uri_) handle Hneg Htest) as Hrun.
      by rewrite Hstop in Hrun.
    + eexists. split; [done|]. split; [done|].
      pose proof (probe_not_tested (server st) config_str
                    (probe_port (port_ (server st)) uri_) handle Hneg Htest) as Hrun.
      by rewrite Hstop in Hrun.
Qed.

(** *** Live handles along a trace *)

Lemma live_after_snoc (tr : list event) (e : event) :
  live_after (tr ++ [e]) = step_live (live_after tr) e.
Proof. unfold live_after. by rewrite foldl_app. Qed.

Lemma live_after_app (tr evs : list event) :
  live_after (tr ++ evs) = foldl step_live (live_after tr) evs.
Proof. unfold live_after. by rewrite foldl_app. Qed.

Lemma prefix_snoc_cases (pre tr : list event) (e : event) :
  pre `prefix_of` tr ++ [e] → pre = tr ++ [e] ∨ pre `prefix_of` tr.
Proof.
  intros [k Hk]. destruct (decide (k = [])) as [->|Hne].
  - left. by rewrite app_nil_r in Hk.
  - right. destruct (exists_last Hne) as (k' & x & ->).
    rewrite app_assoc in Hk. apply app_inj_tail in Hk as [-> _]. by exists k'.
Qed.

Lemma at_most_one_live_snoc (tr : list event) (e : event) :
  at_most_one_live tr →
  (length (live_after (tr ++ [e])) ≤ 1)%nat →
  at_most_one_live (tr ++ [e]).
Proof.
  intros Htr He pre [->|Hpre]%prefix_snoc_cases; [done|]. by apply Htr.
Qed.

Lemma at_most_one_live_nil : at_most_one_live [].
Proof. intros pre Hpre%prefix_nil_inv. subst pre. cbn. lia. Qed.

Lemma remove_first_head (h : Z) (live : list Z) : remove_first h (h :: live) = live.
Proof. cbn. by rewrite Z.eqb_refl. Qed.

Lemma probe_keeps_engine (s : server_t) (tr evs : list event) r :
  stop_proxy_cb_ s ≠ None →
  at_most_one_live tr → live_after tr = [] →
  probe_run s evs r →
  at_most_one_live (tr ++ evs) ∧ live_after (tr ++ evs) = [].
Proof.
  intros Hstop Htr Hlive Hrun.
  destruct (stop_proxy_cb_ s) as [stop_cb|] eqn:Hcb; [clear Hstop|done].
  destruct Hrun as [r _|c p h Hh|c p h url t sc lat Hh|c p h Hh _].
  - by rewrite app_nil_r.
  - apply Z.leb_gt in Hh.
    assert (live_after (tr ++ [EvStart c p h]) = []) as Hl
      by (rewrite live_after_snoc, Hlive; cbn; by rewrite Hh).
    split; [|done]. apply at_most_one_live_snoc; [done|]. rewrite Hl. cbn. lia.
  - rewrite Hcb. apply Z.leb_le in Hh.
    assert (live_after (tr ++ [EvStart c p h]) = [h]) as H1
      by (rewrite live_after_snoc, Hlive; cbn; by rewrite Hh).
    assert (live_after ((tr ++ [EvStart c p h]) ++ [EvTest url p t sc lat]) = [h]) as H2
      by (by rewrite live_after_snoc, H1).
    assert (live_after (((tr ++ [EvStart c p h]) ++ [EvTest url p t sc lat])
                          ++ [EvStop h]) = []) as H3
      by (by rewrite live_after_snoc, H2; cbn; rewrite Z.eqb_refl).
    cbn [app].
    replace (tr ++ [EvStart c p h; EvTest url p t sc lat; EvStop h])
      with (((tr ++ [EvStart c p h]) ++ [EvTest url p t sc lat]) ++ [EvStop h])
      by (by rewrite <- !app_assoc).
    split; [|done].
    repeat (apply at_most_one_live_snoc;
            [|rewrite ?H1, ?H2, ?H3; cbn; lia]).
    done.
  - rewrite Hcb. apply Z.leb_le in Hh.
    assert (live_after (tr ++ [EvStart c p h]) = [h]) as H1
      by (rewrite live_after_snoc, Hlive; cbn; by rewrite Hh).
    assert (live_after ((tr ++ [EvStart c p h]) ++ [EvStop h]) = []) as H2
      by (by rewrite live_after_snoc, H1; cbn; rewrite Z.eqb_refl).
    cbn [app].
    replace (tr ++ [EvStart c p h; EvStop h])
      with ((tr ++ [EvStart c p h]) ++ [EvStop h])
      by (by rewrite <- !app_assoc).
    split; [|done].
    repeat (apply at_most_one_live_snoc;
            [|rewrite ?H1, ?H2; cbn; lia]).
    done.
Qed.


Lemma frame_refl (s : server_t) : frame s s.
Proof. by repeat split. Qed.

Lemma frame_trans (s1 s2 s3 : server_t) : frame s1 s2 → frame s2 s3 → frame s1 s3.
Proof. intros (? & ? & ? & ?) (? & ? & ? & ?). repeat split; congruence. Qed.

Lemma handle_list_negative h : (h < 0)%Z → handle_list h = [].
Proof. intros Hh%Z.leb_gt. unfold handle_list. by rewrite Hh. Qed.

Ltac munfold :=
  unfold mbind, M_bind, mret, M_ret, lift, this, assign, clock.

Lemma probe_in_turn_ok (count : Z) (configs : list (string * double))
    (working : list BackendInfo) (st : state_t) :
  stop_proxy_cb_ (server st) ≠ None →
  (current_proxy_handle_ (server st) < 0)%Z →
  engine_ok st →
  Forall (fun b => healthy b = true) working →
  let run := probe_in_turn now_ts count configs working st in
  engine_ok run.2
  ∧ frame (server st) (server run.2)
  ∧ current_proxy_handle_ (server run.2) = current_proxy_handle_ (server st)
  ∧ ∀ bs, run.1 = Returns bs → Forall (fun b => healthy b = true) bs.
Proof.
  revert working st. induction configs as [|[uri_ latency] configs IH];
    intros working st Hstop Hneg Hok Hworking; cbn [probe_in_turn].
  - munfold. cbn. split; [done|]. split; [apply frame_refl|]. split; [done|].
    by intros bs [= <-].
  - destruct (count <=? _)%Z.
    { munfold. cbn. split; [done|]. split; [apply frame_refl|]. split; [done|].
      by intros bs [= <-]. }
    munfold. cbn [fst snd].
    destruct (bool_decide (uri_ ∈ failed_uris_ (server st))); [by apply IH|].
    destruct (test_backend_run uri_ 8 st) as (evs & Hserver & Htrace & Hrun).
    destruct (Balancer.test_backend uri_ 8 st) as [r st1]. cbn [fst snd] in *.
    assert (engine_ok st1) as Hok1.
    { destruct Hok as [Hone Hlive]. rewrite handle_list_negative in Hlive by done.
      destruct (probe_keeps_engine (server st) (trace st) evs r Hstop Hone Hlive Hrun)
        as [Hone1 Hlive1].
      split; rewrite Htrace; [done|]. rewrite Hserver.
      by rewrite handle_list_negative. }
    assert (stop_proxy_cb_ (server st1) ≠ None) as Hs1 by (by rewrite Hserver).
    assert (current_proxy_handle_ (server st1) < 0)%Z as Hn1 by (by rewrite Hserver).
    destruct r as [[lat|]|e].
    + assert (Forall (fun b => healthy b = true)
                (working ++ [{| b_uri := uri_; b_latency := lat; healthy := true;
                                added_at := now_ts (world st1) |}])) as Hw'.
      { apply Forall_app. split; [done|]. by repeat constructor. }
      destruct (IH _ st1 Hs1 Hn1 Hok1 Hw') as (Ha & Hb & Hc & Hd).
      rewrite Hserver in Hb, Hc. done.
    + set (st2 := {| server := with_failed ({[uri_]} ∪ failed_uris_ (server st1)) (server st1);
                     world := world st1; trace := trace st1 |}).
      assert (engine_ok st2) as Hok2 by (by destruct Hok1).
      destruct (IH working st2 Hs1 Hn1 Hok2 Hworking) as (Ha & Hb & Hc & Hd).
      cbn in Hb, Hc. rewrite Hserver in Hb, Hc.
      split; [done|]. split; [|done]. destruct Hb as (? & ? & ? & ?). by repeat split.
    + cbn. split; [done|]. rewrite Hserver. split; [apply frame_refl|]. split; [done|].
      intros bs. discriminate.
Qed.


Lemma quiet_refl (st : state_t) : quiet st st.
Proof. split; [done|]. split; [apply frame_refl|done]. Qed.

Lemma quiet_trans (st1 st2 st3 : state_t) : quiet st1 st2 → quiet st2 st3 → quiet st1 st3.
Proof.
  intros (? & ? & ?) (? & ? & ?). split; [congruence|].
  split; [by eapply frame_trans|congruence].
Qed.

Lemma add_backend_quiet (backend : BackendInfo) acc (st : state_t) :
  quiet st (add_backend backend acc st).2.
Proof.
  unfold add_backend. destruct acc as [[outbounds selectors] idx].
  destruct (negb (healthy backend)); [apply quiet_refl|].
  munfold. cbn [fst snd].
  destruct (UniversalParser_parse (b_uri backend)) as [[parsed|]|e];
    [|apply quiet_refl..].
  destruct (set_member _ _ _) as [outbound1|e]; [|apply quiet_refl].
  cbn [server].
  destruct (obfuscation_engine_ (server st)) as [engine|].
  - destruct (Obfuscation.enabled engine).
    + destruct (Obfuscation.apply_obfuscation_to_config _ _) as [[outbound2 engine']|e];
        [|apply quiet_refl].
      cbn. destruct (iran_fragment_enabled_ (server st)); [|by repeat split].
      destruct (dial_through_fragment _); by repeat split.
    + destruct (iran_fragment_enabled_ (server st)); [|apply quiet_refl].
      destruct (dial_through_fragment _); apply quiet_refl.
  - destruct (iran_fragment_enabled_ (server st)); [|apply quiet_refl].
    destruct (dial_through_fragment _); apply quiet_refl.
Qed.

Lemma add_backends_quiet (backends : list BackendInfo) acc (st : state_t) :
  quiet st (add_backends backends acc st).2.
Proof.
  revert acc st. induction backends as [|backend backends IH]; intros acc st;
    cbn [add_backends]; [apply quiet_refl|].
  unfold mbind, M_bind.
  pose proof (add_backend_quiet backend acc st) as Hq.
  destruct (add_backend backend acc st) as [[acc'|e] st1]; [|done].
  eapply quiet_trans; [exact Hq|apply IH].
Qed.

Lemma create_balanced_config_quiet (backends : list BackendInfo) (st : state_t) :
  quiet st (create_balanced_config backends st).2.
Proof.
  unfold create_balanced_config. munfold. cbn [fst snd server].
  pose proof (add_backends_quiet backends
                (if iran_fragment_enabled_ (server st) then [fragment_outbound] else [],
                 [], O) st) as Hq.
  destruct (add_backends _ _ st) as [[[[outbounds selectors] idx]|e] st1]; [|done].
  by destruct selectors.
Qed.


Lemma M_bind_unfold {A B} (m : M A) (k : A → M B) (st : state_t) :
  (m ≫= k) st = match m st with
                | (Returns a, st') => k a st'
                | (Throws e, st') => (Throws e, st')
                end.
Proof. reflexivity. Qed.

Lemma stop_existing_run (st : state_t) :
  ∃ st2, stop_existing st = (Returns tt, st2)
         ∧ frame (server st) (server st2)
         ∧ trace st2 = trace st ++ stop_old (server st)
         ∧ current_proxy_handle_ (server st2)
           = match stop_old (server st) with
             | [] => current_proxy_handle_ (server st)
             | _ => (-1)%Z
             end.
Proof.
  unfold stop_existing, stop_old. munfold. unfold call_stop. cbn [fst snd server].
  destruct (stop_proxy_cb_ (server st)) as [stop_cb|].
  - destruct (0 <=? current_proxy_handle_ (server st))%Z.
    + eexists. split; [reflexivity|]. cbn. by repeat split.
    + eexists. split; [reflexivity|]. cbn. rewrite app_nil_r. by repeat split.
  - eexists. split; [reflexivity|]. cbn. rewrite app_nil_r. by repeat split.
Qed.

Lemma start_new_run (config_str : string) (st : state_t) :
  frame (server st) (server (start_new now_ts config_str st).2)
  ∧ ((start_proxy_cb_ (server st) = None
      ∧ trace (start_new now_ts config_str st).2 = trace st
      ∧ current_proxy_handle_ (server (start_new now_ts config_str st).2)
        = current_proxy_handle_ (server st))
     ∨ ∃ c p h,
         trace (start_new now_ts config_str st).2 = trace st ++ [EvStart c p h]
         ∧ current_proxy_handle_ (server (start_new now_ts config_str st).2) = h).
Proof.
  unfold start_new. munfold. unfold call_start. cbn [fst snd server].
  destruct (start_proxy_cb_ (server st)) as [start_cb|].
  - destruct (start_cb _ _ _) as [handle w2]. cbn [fst snd].
    destruct (handle <? 0)%Z; cbn; (split; [by repeat split|]); right; by eexists _, _, _.
  - cbn. split; [apply frame_refl|]. by left.
Qed.

Lemma write_and_start_run (backends : list BackendInfo) (st : state_t) :
  frame (server st) (server (write_and_start now_ts backends st).2)
  ∧ ∃ evs, trace (write_and_start now_ts backends st).2 = trace st ++ evs
           ∧ rebuild_run (server st) evs
               (current_proxy_handle_ (server (write_and_start now_ts backends st).2)).
Proof.
  unfold write_and_start. rewrite M_bind_unfold.
  pose proof (create_balanced_config_quiet backends st) as (Htr & Hfr & Hh).
  destruct (create_balanced_config backends st) as [[config|e] st1]; cbn [fst snd] in *.
  2:{ split; [done|]. exists []. rewrite app_nil_r. split; [done|].
      rewrite Hh. constructor. }
  rewrite M_bind_unfold. unfold lift.
  destruct (json_dump _ config) as [config_str|e]; cbn [fst snd].
  2:{ split; [done|]. exists []. rewrite app_nil_r. split; [done|].
      rewrite Hh. constructor. }
  assert (stop_old (server st1) = stop_old (server st)) as Hso
    by (destruct Hfr as (_ & _ & Hstop & _); unfold stop_old; by rewrite Hstop, Hh).
  rewrite M_bind_unfold.
  destruct (stop_existing_run st1) as (st2 & -> & Hfr2 & Htr2 & Hh2).
  destruct (start_new_run config_str st2) as (Hfr3 & Hstart).
  split; [eapply frame_trans; [|exact Hfr3]; by eapply frame_trans|].
  destruct Hstart as [(Hnone & Htr3 & Hh3)|(c & p & h & Htr3 & Hh3)].
  - exists (stop_old (server st)). rewrite Htr3, Htr2, Htr, Hso. split; [done|].
    rewrite Hh3, Hh2, Hso, Hh. apply rebuild_not_started.
    destruct Hfr as (_ & _ & _ & <-). destruct Hfr2 as (_ & _ & _ & <-). done.
  - exists (stop_old (server st) ++ [EvStart c p h]).
    rewrite Htr3, Htr2, Htr, Hso, <- app_assoc. split; [done|].
    rewrite Hh3. constructor.
Qed.

Lemma handle_list_length h : (length (handle_list h) ≤ 1)%nat.
Proof. unfold handle_list. destruct (0 <=? h)%Z; cbn; lia. Qed.

Lemma stop_old_keeps_engine (s : server_t) (tr : list event) :
  stop_proxy_cb_ s ≠ None →
  at_most_one_live tr → live_after tr = handle_list (current_proxy_handle_ s) →
  at_most_one_live (tr ++ stop_old s) ∧ live_after (tr ++ stop_old s) = [].
Proof.
  intros Hstop Htr Hlive. unfold stop_old, handle_list in *.
  destruct (stop_proxy_cb_ s) as [stop_cb|]; [clear Hstop|done].
  destruct (0 <=? current_proxy_handle_ s)%Z.
  - assert (live_after (tr ++ [EvStop (current_proxy_handle_ s)]) = []) as Hl
      by (rewrite live_after_snoc, Hlive; apply remove_first_head).
    split; [|done]. apply at_most_one_live_snoc; [done|]. rewrite Hl. cbn. lia.
  - by rewrite app_nil_r.
Qed.

Lemma rebuild_keeps_engine (s : server_t) (tr evs : list event) (h : Z) :
  stop_proxy_cb_ s ≠ None →
  at_most_one_live tr → live_after tr = handle_list (current_proxy_handle_ s) →
  rebuild_run s evs h →
  at_most_one_live (tr ++ evs) ∧ live_after (tr ++ evs) = handle_list h.
Proof.
  intros Hstop Htr Hlive Hrun.
  destruct (stop_old_keeps_engine s tr Hstop Htr Hlive) as [Hone Hnone].
  destruct Hrun as [|c p h|Hstart].
  - by rewrite app_nil_r.
  - rewrite app_assoc.
    assert (live_after ((tr ++ stop_old s) ++ [EvStart c p h]) = handle_list h) as Hl
      by (by rewrite live_after_snoc, Hnone).
    split; [|done]. apply at_most_one_live_snoc; [done|]. rewrite Hl.
    apply handle_list_length.
  - split; [done|]. rewrite Hnone. clear Hone Hnone Hlive. unfold stop_old, handle_list.
    destruct (stop_proxy_cb_ s); [|done].
    destruct (0 <=? current_proxy_handle_ s)%Z eqn:Hh; [done|]. by rewrite Hh.
Qed.

Lemma write_and_start_ok (backends : list BackendInfo) (st : state_t) :
  stop_proxy_cb_ (server st) ≠ None →
  engine_ok st →
  engine_ok (write_and_start now_ts backends st).2
  ∧ frame (server st) (server (write_and_start now_ts backends st).2).
Proof.
  intros Hstop [Hone Hlive].
  destruct (write_and_start_run backends st) as (Hframe & evs & Htrace & Hrun).
  split; [|done]. unfold engine_ok. rewrite Htrace.
  by apply (rebuild_keeps_engine (server st)).
Qed.

Lemma find_working_backends_ok (count : Z) (st : state_t) :
  stop_proxy_cb_ (server st) ≠ None →
  (current_proxy_handle_ (server st) < 0)%Z →
  engine_ok st →
  engine_ok (find_working_backends now_ts std_sort count st).2
  ∧ frame (server st) (server (find_working_backends now_ts std_sort count st).2)
  ∧ current_proxy_handle_ (server (find_working_backends now_ts std_sort count st).2)
    = current_proxy_handle_ (server st)
  ∧ ∀ bs, (find_working_backends now_ts std_sort count st).1 = Returns bs →
          Forall (fun b => healthy b = true) bs.
Proof.
  intros Hstop Hneg Hok. unfold find_working_backends. munfold. cbn [fst snd].
  by apply probe_in_turn_ok.
Qed.

Lemma probe_and_rebuild_inv (after : M unit) (st : state_t) :
  (∀ st', balancer_inv st' → balancer_inv (after st').2) →
  balancer_inv st →
  running_ (server st) = true →
  (current_proxy_handle_ (server st) < 0)%Z →
  balancer_inv (probe_and_rebuild after st).2.
Proof.
  intros Hafter (Hstop & Hok & Hheld & Hhealthy) Hrunning Hneg.
  unfold probe_and_rebuild. rewrite M_bind_unfold. unfold this at 1. cbn [fst snd].
  rewrite M_bind_unfold.
  destruct (find_working_backends_ok (num_backends_ (server st)) st Hstop Hneg Hok)
    as (Hok1 & Hfr1 & Hh1 & Hbs).
  destruct (find_working_backends now_ts std_sort _ st) as [[bs|e] st1];
    cbn [fst snd] in *.
  2:{ destruct Hfr1 as (Hr & Hb & Hs & _).
      split; [by rewrite Hs|]. split; [done|]. rewrite Hh1, Hb, Hr. by split. }
  assert (balancer_inv st1) as Hinv1.
  { destruct Hfr1 as (Hr & Hb & Hs & _).
    split; [by rewrite Hs|]. split; [done|]. rewrite Hh1, Hb, Hr. by split. }
  destruct bs as [|b bs]; [done|].
  specialize (Hbs _ eq_refl).
  rewrite M_bind_unfold. unfold assign at 1. cbn [fst snd].
  set (st2 := {| server := with_backends (b :: bs) (server st1);
                 world := world st1; trace := trace st1 |}).
  assert (stop_proxy_cb_ (server st2) ≠ None) as Hstop2 by (by destruct Hinv1).
  assert (engine_ok st2) as Hok2 by done.
  destruct (write_and_start_ok (b :: bs) st2 Hstop2 Hok2) as (Hok3 & Hfr3).
  rewrite M_bind_unfold.
  destruct (write_and_start now_ts (b :: bs) st2) as [[started|e] st3];
    cbn [fst snd] in *.
  - apply Hafter. destruct Hfr3 as (Hr & Hb & Hs & _).
    split; [by rewrite Hs|]. split; [done|]. rewrite Hb, Hr. cbn.
    split; [|done]. intros _. split; [done|].
    destruct Hfr1 as (-> & _). done.
  - destruct Hfr3 as (Hr & Hb & Hs & _).
    split; [by rewrite Hs|]. split; [done|]. rewrite Hb, Hr. cbn.
    split; [|done]. intros _. split; [done|].
    destruct Hfr1 as (-> & _). done.
Qed.

Lemma balancer_inv_frame (st st' : state_t) :
  trace st' = trace st →
  frame (server st) (server st') →
  current_proxy_handle_ (server st') = current_proxy_handle_ (server st) →
  balancer_inv st → balancer_inv st'.
Proof.
  intros Htrace (Hr & Hb & Hs & _) Hh (Hstop & Hok & Hheld & Hhealthy).
  unfold balancer_inv, engine_ok. by rewrite Htrace, Hr, Hb, Hs, Hh.
Qed.

Lemma start_unfold (initial_configs : option (list (string * double))) (st : state_t) :
  start now_ts std_sort initial_configs st
  = if running_ (server st) then (Returns tt, st)
    else probe_and_rebuild (mret tt)
           {| server :=
                match initial_configs with
                | Some configs => with_available configs (with_running true (server st))
                | None => with_running true (server st)
                end;
              world := world st; trace := trace st |}.
Proof.
  unfold start, probe_and_rebuild. munfold. cbn [fst snd server].
  destruct (running_ (server st)); [done|]. by destruct initial_configs.
Qed.

Lemma start_inv (initial_configs : option (list (string * double))) (st : state_t) :
  balancer_inv st → balancer_inv (start now_ts std_sort initial_configs st).2.
Proof.
  intros Hinv. pose proof Hinv as (Hstop & Hok & Hheld & Hhealthy).
  rewrite start_unfold.
  destruct (running_ (server st)) eqn:Hrunning; [done|].
  assert (current_proxy_handle_ (server st) < 0)%Z as Hneg.
  { destruct (Z.lt_ge_cases (current_proxy_handle_ (server st)) 0) as [|Hpos]; [done|].
    destruct (Hheld Hpos) as [_ ?]. congruence. }
  apply probe_and_rebuild_inv.
  - done.
  - destruct initial_configs; (split; [done|]); (split; [done|]); cbn; (split; [lia|done]).
  - by destruct initial_configs.
  - by destruct initial_configs.
Qed.

Lemma healthy_count_zero (backends : list BackendInfo) :
  Forall (fun b => healthy b = true) backends →
  length (filter (fun b => healthy b = true) backends) = O →
  backends = [].
Proof.
  intros Hall Hlen. destruct Hall as [|b bs Hb Hbs]; [done|].
  rewrite filter_cons_True in Hlen by done. discriminate.
Qed.

Lemma health_check_tick_unfold (st : state_t) :
  health_check_tick now_ts std_sort st
  = if negb (running_ (server st)) then (Returns tt, st)
    else
      let st1 := {| server := with_stats (bump_health_checks (stats_ (server st)))
                                (server st);
                    world := world st; trace := trace st |} in
      match length (filter (fun b => healthy b = true) (backends_ (server st))),
            available_configs_ (server st) with
      | O, _ :: _ =>
          probe_and_rebuild
            (s ← this; assign (with_stats (bump_backend_swaps (stats_ s)))) st1
      | _, _ => (Returns tt, st1)
      end.
Proof.
  unfold health_check_tick, probe_and_rebuild. munfold. cbn [fst snd server].
  destruct (negb (running_ (server st))); [done|].
  destruct (length _); [|done]. by destruct (available_configs_ (server st)).
Qed.

Lemma health_check_tick_inv (st : state_t) :
  balancer_inv st → balancer_inv (health_check_tick now_ts std_sort st).2.
Proof.
  intros Hinv. pose proof Hinv as (Hstop & Hok & Hheld & Hhealthy).
  rewrite health_check_tick_unfold.
  destruct (running_ (server st)) eqn:Hrunning; [|done]. cbn [negb].
  cbn zeta.
  set (st1 := {| server := with_stats (bump_health_checks (stats_ (server st))) (server st);
                 world := world st; trace := trace st |}).
  assert (balancer_inv st1) as Hinv1
    by (apply (balancer_inv_frame st); [done|by repeat split|done|done]).
  destruct (length _) eqn:Hcount; [|done].
  destruct (available_configs_ (server st)) as [|config configs]; [done|].
  pose proof (healthy_count_zero _ Hhealthy Hcount) as Hempty.
  apply probe_and_rebuild_inv.
  - intros st' Hinv'. munfold. cbn [fst snd].
    apply (balancer_inv_frame st'); [done|by repeat split|done|done].
  - done.
  - done.
  - cbn. destruct (Z.lt_ge_cases (current_proxy_handle_ (server st)) 0) as [|Hpos]; [done|].
    by destruct (Hheld Hpos).
Qed.

Lemma update_available_configs_unfold (configs : list (string * double)) (st : state_t) :
  update_available_configs now_ts std_sort configs st
  = let st1 := {| server := with_available configs (server st);
                  world := world st; trace := trace st |} in
    if negb (running_ (server st)) then (Returns tt, st1)
    else match backends_ (server st) with
         | [] => probe_and_rebuild (mret tt) st1
         | _ => (Returns tt, st1)
         end.
Proof.
  unfold update_available_configs, probe_and_rebuild. munfold.
  cbn [fst snd server running_ backends_ with_available].
  destruct (negb (running_ (server st))); [done|].
  by destruct (backends_ (server st)).
Qed.

Lemma update_available_configs_inv (configs : list (string * double)) (st : state_t) :
  balancer_inv st →
  balancer_inv (update_available_configs now_ts std_sort configs st).2.
Proof.
  intros Hinv. pose proof Hinv as (Hstop & Hok & Hheld & Hhealthy).
  rewrite update_available_configs_unfold.
  cbn zeta.
  set (st1 := {| server := with_available configs (server st);
                 world := world st; trace := trace st |}).
  assert (balancer_inv st1) as Hinv1
    by (apply (balancer_inv_frame st); [done|by repeat split|done|done]).
  destruct (running_ (server st)) eqn:Hrunning; [|done]. cbn [negb].
  destruct (backends_ (server st)) as [|b bs] eqn:Hbackends; [|done].
  apply probe_and_rebuild_inv.
  - done.
  - done.
  - done.
  - cbn. destruct (Z.lt_ge_cases (current_proxy_handle_ (server st)) 0) as [|Hpos]; [done|].
    by destruct (Hheld Hpos).
Qed.

Lemma stop_inv (st : state_t) : balancer_inv st → balancer_inv (stop st).2.
Proof.
  intros (Hstop & [Hone Hlive] & Hheld & Hhealthy). unfold stop.
  rewrite M_bind_unfold. unfold assign at 1. cbn [fst snd].
  set (st1 := {| server := with_running false (server st);
                 world := world st; trace := trace st |}).
  destruct (stop_existing_run st1) as (st2 & -> & (Hr & Hb & Hs & _) & Htrace & Hhandle).
  cbn [fst snd].
  assert (current_proxy_handle_ (server st2) < 0)%Z as Hneg.
  { rewrite Hhandle. unfold stop_old. cbn.
    destruct (stop_proxy_cb_ (server st)); [|done].
    destruct (0 <=? current_proxy_handle_ (server st))%Z eqn:Hh; [done|].
    by apply Z.leb_gt. }
  split; [by rewrite Hs|]. split.
  - destruct (stop_old_keeps_engine (server st1) (trace st1) Hstop Hone Hlive)
      as [Hone2 Hlive2].
    split; rewrite Htrace; [done|]. by rewrite handle_list_negative.
  - split; [lia|]. by rewrite Hb.
Qed.

Lemma run_operation_inv (op : operation) (st : state_t) :
  balancer_inv st → balancer_inv (run_operation now_ts std_sort op st).2.
Proof.
  destruct op; cbn [run_operation].
  - apply start_inv.
  - apply update_available_configs_inv.
  - apply health_check_tick_inv.
  - apply stop_inv.
Qed.

Lemma run_inv (ops : list operation) (st : state_t) :
  balancer_inv st → balancer_inv (run now_ts std_sort ops st).
Proof.
  revert st. induction ops as [|op ops IH]; intros st Hinv; [done|].
  cbn. apply IH. by apply run_operation_inv.
Qed.

Lemma new_inv port num_backends health_check_interval obfuscation_engine
    iran_fragment_enabled start_cb stop_cb test_cb (w : World) :
  balancer_inv
    {| server := new port num_backends health_check_interval obfuscation_engine
                   iran_fragment_enabled start_cb (Some stop_cb) test_cb;
       world := w; trace := [] |}.
Proof.
  split; [done|]. split; [split; [apply at_most_one_live_nil|done]|].
  cbn. split; [lia|constructor].
Qed.

Lemma status_accepted_spec (status_code : Z) :
  status_accepted status_code = true
  ↔ (0 < status_code ∧ (status_code < 400 ∨ status_code = 204))%Z.
Proof. unfold status_accepted. lia. Qed.

(** C5: the probe answers with the latency the test hook measured exactly
    when the status code of the hook satisfies
    [statusCode > 0 AND (statusCode < 400 OR statusCode == 204)]: a probe
    that called the hook returns that latency when the status is accepted
    and no latency for every other status, and a probe that returns a
    latency has called the hook and got an accepted status with it. *)
Theorem probe_accepts_by_status (uri_ : string) (timeout : Z) (st : state_t) :
  (∀ status_code,
      status_accepted status_code = true
      ↔ (0 < status_code ∧ (status_code < 400 ∨ status_code = 204))%Z)
  ∧ ∃ evs,
      trace (test_backend uri_ timeout st).2 = trace st ++ evs
      ∧ (∀ url p t status_code latency,
            EvTest url p t status_code latency ∈ evs →
            (test_backend uri_ timeout st).1
            = Returns (if status_accepted status_code then Some latency else None))
      ∧ (∀ latency,
            (test_backend uri_ timeout st).1 = Returns (Some latency) →
            ∃ url p t status_code,
              EvTest url p t status_code latency ∈ evs
              ∧ status_accepted status_code = true).
Proof.
  split; [apply status_accepted_spec|].
  destruct (test_backend_run uri_ timeout st) as (evs & _ & Htrace & Hrun).
  exists evs. split; [done|].
  destruct Hrun as [r Hr|c p h Hh|c p h url t sc lat Hh|c p h Hh Hnone].
  - split.
    + intros url p t sc lat Hin. by apply elem_of_nil in Hin.
    + intros lat Hlat. destruct Hr as [Hr|[e Hr]]; congruence.
  - split.
    + intros url p' t sc lat Hin. apply list_elem_of_singleton in Hin. discriminate.
    + intros lat Hlat. discriminate.
  - split.
    + intros url' p' t' sc' lat' Hin.
      apply elem_of_cons in Hin as [Hin|Hin]; [discriminate|].
      apply elem_of_cons in Hin as [Hin|Hin]; [by injection Hin as -> -> -> -> ->|].
      destruct (stop_proxy_cb_ (server st)); [|by apply elem_of_nil in Hin].
      apply list_elem_of_singleton in Hin. discriminate.
    + intros lat' Hlat. exists url, p, t, sc.
      destruct (status_accepted sc); [|discriminate]. injection Hlat as ->.
      split; [|done]. apply list_elem_of_further, list_elem_of_here.
  - split.
    + intros url p' t sc lat Hin.
      apply elem_of_cons in Hin as [Hin|Hin]; [discriminate|].
      destruct (stop_proxy_cb_ (server st)); [|by apply elem_of_nil in Hin].
      apply list_elem_of_singleton in Hin. discriminate.
    + intros lat Hlat. discriminate.
Qed.

(** C6 (amended): on a balancer whose stop hook is installed, a probe
    that started an engine stops that handle once, after the test and
    before it returns, and starts nothing else; a rebuild stops the handle
    in place before it starts the new one, which the object then holds; so
    along every run of the operations, one after another, at most one
    handle is live at any instant, and the live handles at the end are the
    handle the object holds.  Without a stop hook neither a probe nor a
    rebuild calls a stop. *)
Theorem one_live_engine_handle :
  (∀ uri_ timeout (st : state_t),
      ∃ evs,
        server (test_backend uri_ timeout st).2 = server st
        ∧ trace (test_backend uri_ timeout st).2 = trace st ++ evs
        ∧ probe_run (server st) evs (test_backend uri_ timeout st).1
        ∧ (stop_proxy_cb_ (server st) ≠ None →
           at_most_one_live evs ∧ live_after evs = []))
  ∧ (∀ backends (st : state_t),
      ∃ evs,
        trace (write_and_start now_ts backends st).2 = trace st ++ evs
        ∧ rebuild_run (server st) evs
            (current_proxy_handle_ (server (write_and_start now_ts backends st).2)))
  ∧ (∀ port num_backends health_check_interval obfuscation_engine
       iran_fragment_enabled start_cb stop_cb test_cb (w : World) ops,
      let st :=
        run now_ts std_sort ops
          {| server := new port num_backends health_check_interval obfuscation_engine
                         iran_fragment_enabled start_cb (Some stop_cb) test_cb;
             world := w; trace := [] |} in
      at_most_one_live (trace st)
      ∧ live_after (trace st) = handle_list (current_proxy_handle_ (server st))).
Proof.
  split; [|split].
  - intros uri_ timeout st.
    destruct (test_backend_run uri_ timeout st) as (evs & Hserver & Htrace & Hrun).
    exists evs. split; [done|]. split; [done|]. split; [done|].
    intros Hstop.
    apply (probe_keeps_engine (server st) [] evs _ Hstop at_most_one_live_nil eq_refl Hrun).
  - intros backends st.
    by destruct (write_and_start_run backends st) as (_ & evs & Htrace & Hrun); exists evs.
  - intros port num_backends health_check_interval obfuscation_engine
      iran_fragment_enabled start_cb stop_cb test_cb w ops st.
    assert (balancer_inv st) as (_ & Hok & _); [|done].
    apply run_inv, new_inv.
Qed.

(** the three steps of a probe, run in a row, are [test_backend] *)
Lemma probe_alone_test_backend (uri_ : string) (timeout : Z) (st : state_t) :
  probe_alone uri_ timeout st
  = (match (test_backend uri_ timeout st).1 with
     | Returns result => Returns (Done result)
     | Throws e => Throws e
     end,
     (test_backend uri_ timeout st).2).
Proof.
  unfold probe_alone, probe_step, test_backend, Balancer.test_backend.
  unfold mbind, M_bind, mret, M_ret, lift, this, call_start, call_stop, call_test.
  destruct (UniversalParser_parse uri_) as [[parsed|]|e]; [|done..].
  cbn. destruct (start_proxy_cb_ (server st)) as [start_cb|]; [|done].
  destruct (json_dump None _) as [config_str|e]; [|done].
  destruct (start_cb _ _ _) as [handle w1]. cbn.
  destruct (handle <? 0)%Z eqn:Hneg; [done|]. cbn.
  destruct (test_url_cb_ (server st)) as [test_cb|].
  - destruct (test_cb _ _ _ _) as [[sc lat] w2]. cbn.
    destruct (stop_proxy_cb_ (server st)) as [stop_cb|]; [|done].
    by destruct (0 <=? handle)%Z.
  - cbn. destruct (stop_proxy_cb_ (server st)) as [stop_cb|]; [|done].
    by destruct (0 <=? handle)%Z.
Qed.

End BalancerProperties.

Lemma probe_accepts_by_status_witness :
  (Balancer.test_backend (H := Sample.stdlib) (H0 := Sample.jsonlib)
     "vless://u@h:443" 8 (Sample.balancer 204)).1 = Returns (Some (dconst 123))
  ∧ (Balancer.test_backend (H := Sample.stdlib) (H0 := Sample.jsonlib)
       "vless://u@h:443" 8 (Sample.balancer 404)).1 = Returns None.
Proof.
  split.
  - destruct (probe_accepts_by_status (H := Sample.stdlib) (H0 := Sample.jsonlib)
                "vless://u@h:443" 8 (Sample.balancer 204))
      as (_ & evs & Htrace & Haccept & _).
    vm_compute in Htrace. subst evs.
    apply (Haccept "https://cp.cloudflare.com/" 10937%Z 8%Z 204%Z (dconst 123)).
    apply list_elem_of_further, list_elem_of_here.
  - destruct (probe_accepts_by_status (H := Sample.stdlib) (H0 := Sample.jsonlib)
                "vless://u@h:443" 8 (Sample.balancer 404))
      as (_ & evs & Htrace & Haccept & _).
    vm_compute in Htrace. subst evs.
    apply (Haccept "https://cp.cloudflare.com/" 10937%Z 8%Z 404%Z (dconst 123)).
    apply list_elem_of_further, list_elem_of_here.
Defined.

Lemma one_live_engine_handle_witness :
  let st :=
    Balancer.run (H := Sample.stdlib) (H0 := Sample.jsonlib) (fun _ => 0%Z) (fun l => l)
      [Balancer.OpStart (Some [("vless://u@h:443", dconst 1)]);
       Balancer.OpHealthTick;
       Balancer.OpStop;
       Balancer.OpStart None]
      (Sample.balancer 204) in
  Balancer.at_most_one_live (Balancer.trace st)
  ∧ Balancer.live_after (Balancer.trace st) = [3%Z]
  ∧ Balancer.current_proxy_handle_ (Balancer.server st) = 3%Z.
Proof.
  destruct (one_live_engine_handle (World := Z * Z) (H := Sample.stdlib)
              (H0 := Sample.jsonlib) (fun _ => 0%Z) (fun l => l))
    as (_ & _ & Hrun).
  intros st.
  destruct (Hrun 10808%Z 5%Z 60%Z None false (Some Sample.start_cb) Sample.stop_cb
              (Some Sample.test_cb) (204%Z, 0%Z)
              [Balancer.OpStart (Some [("vless://u@h:443", dconst 1)]);
               Balancer.OpHealthTick;
               Balancer.OpStop;
               Balancer.OpStart None]) as [Hone Hlive].
  split; [exact Hone|]. split; by vm_compute.
Defined.

(** C6, as stated, fails in two ways.  On a balancer that has a start hook
    and no stop hook the probe returns a latency with the handle it started
    still live, and after [start] two handles are live at once.  On a
    balancer with every hook installed, once a caller of
    [update_available_configs] has stored the configs, both that caller and
    the health thread go on to probe, outside the mutex: when the caller
    has probed the first URI and started the engine for the second, and the
    health thread then starts the engine for the first, two handles are
    live; each is stopped once in the end. *)
Lemma engine_handles_left_live :
  (let probed :=
     Balancer.test_backend (H := Sample.stdlib) (H0 := Sample.jsonlib)
       "vless://u@h:443" 8 Sample.balancer_without_stop_hook in
   probed.1 = Returns (Some (dconst 123))
   ∧ Balancer.trace probed.2
     = [Balancer.EvStart "" 10937 0;
        Balancer.EvTest "https://cp.cloudflare.com/" 10937 8 204 (dconst 123)]
   ∧ Balancer.live_after (Balancer.trace probed.2) = [0%Z]
   ∧ ¬ Balancer.at_most_one_live
         (Balancer.trace
            (Balancer.run (H := Sample.stdlib) (H0 := Sample.jsonlib)
               (fun _ => 0%Z) (fun l => l)
               [Balancer.OpStart (Some [("vless://u@h:443", dconst 1)])]
               Sample.balancer_without_stop_hook)))
  ∧ (let configs := [("vless://u@h:443", dconst 1); ("vless://v@h:443", dconst 2)] in
     let started :=
       Balancer.run (H := Sample.stdlib) (H0 := Sample.jsonlib)
         (fun _ => 0%Z) (fun l => l) [Balancer.OpStart None] (Sample.balancer 204) in
     let stored := (Balancer.assign (Balancer.with_available configs) started).2 in
     let caller_at_second :=
       (Balancer.test_backend (H := Sample.stdlib) (H0 := Sample.jsonlib)
          "vless://u@h:443" 8 stored).2 in
     let run := fun schedule =>
       Balancer.interleave (H := Sample.stdlib) (H0 := Sample.jsonlib) schedule
         (Returns (Balancer.AtStart "vless://v@h:443" 8))
         (Returns (Balancer.AtStart "vless://u@h:443" 8)) caller_at_second in
     Balancer.stop_proxy_cb_ (Balancer.server stored) ≠ None
     ∧ Balancer.trace stored = []
     ∧ take 1 (Balancer.trace
                 (Balancer.update_available_configs (H := Sample.stdlib)
                    (H0 := Sample.jsonlib) (fun _ => 0%Z) (fun l => l) configs started).2)
       = [Balancer.EvStart "" 10937 0]
     ∧ take 1 (Balancer.trace
                 (Balancer.health_check_tick (H := Sample.stdlib)
                    (H0 := Sample.jsonlib) (fun _ => 0%Z) (fun l => l) stored).2)
       = [Balancer.EvStart "" 10937 0]
     ∧ Balancer.trace (run [true; false]).2
       = [Balancer.EvStart "" 10937 0;
          Balancer.EvTest "https://cp.cloudflare.com/" 10937 8 204 (dconst 123);
          Balancer.EvStop 0;
          Balancer.EvStart "" 10872 1;
          Balancer.EvStart "" 10937 2]
     ∧ Balancer.live_after (Balancer.trace (run [true; false]).2) = [2%Z; 1%Z]
     ∧ ¬ Balancer.at_most_one_live (Balancer.trace (run [true; false]).2)
     ∧ (run [true; false; true; false; true; false]).1
       = (Returns (Balancer.Done (Some (dconst 123))),
          Returns (Balancer.Done (Some (dconst 123))))
     ∧ Balancer.live_after
         (Balancer.trace (run [true; false; true; false; true; false]).2) = []).
Proof.
  split.
  - intros probed. split; [by vm_compute|]. split; [by vm_compute|].
    split; [by vm_compute|].
    intros Hone. specialize (Hone _ (reflexivity _)). vm_compute in Hone. lia.
  - intros configs started stored caller_at_second run.
    split; [by vm_compute|]. split; [by vm_compute|]. split; [by vm_compute|].
    split; [by vm_compute|]. split; [by vm_compute|]. split; [by vm_compute|].
    split; [|split; by vm_compute].
    intros Hone. specialize (Hone _ (reflexivity _)). vm_compute in Hone. lia.
Qed.

(** * More of the code *)

(** ** core/utils.cpp: base64 *)

Section Base64.
Import Utils.


Lemma land_63 z : Z.land z 63 = (z mod 64)%Z.
Proof. change 63%Z with (Z.ones 6). by rewrite Z.land_ones. Qed.

Lemma land_255 z : Z.land z 255 = (z mod 256)%Z.
Proof. change 255%Z with (Z.ones 8). by rewrite Z.land_ones. Qed.

Lemma byte_of_range c : (0 ≤ byte_of c < 256)%Z.
Proof. unfold byte_of. pose proof (nat_ascii_bounded c). lia. Qed.

Lemma char_of_byte c : char_of_Z (byte_of c) = c.
Proof.
  unfold char_of_Z. pose proof (byte_of_range c).
  rewrite Z.mod_small by done. unfold byte_of. by rewrite Nat2Z.id, ascii_nat_embedding.
Qed.

Lemma b64_char_plain i : (0 ≤ i < 64)%Z → b64_plain i = true.
Proof.
  intros Hi.
  assert (forallb (fun n => b64_plain (Z.of_nat n)) (seq 0 64) = true) as Hall
    by (vm_compute; reflexivity).
  rewrite forallb_forall in Hall.
  specialize (Hall (Z.to_nat i)). rewrite Z2Nat.id in Hall by lia.
  apply Hall. apply in_seq. lia.
Qed.

Lemma b64_loop_char i rest val valb :
  (0 ≤ i < 64)%Z →
  b64_loop (String (b64_char i) rest) val valb
  = let val' := to_int (Z.shiftl val 6 + i) in
    if (0 <=? valb + 6)%Z
    then String (char_of_Z (Z.land (Z.shiftr val' (valb + 6)) 255))
                (b64_loop rest val' (valb + 6 - 8))
    else b64_loop rest val' (valb + 6).
Proof.
  intros Hi. pose proof (b64_char_plain i Hi) as Hp. unfold b64_plain in Hp.
  cbn zeta in Hp. apply andb_prop in Hp as [Hp _]. apply andb_prop in Hp as [Hp _].
  apply andb_prop in Hp as [HT Hstop]. apply Z.eqb_eq in HT. apply negb_true_iff in Hstop.
  cbn [b64_loop]. rewrite Hstop, HT.
  assert ((i =? -1)%Z = false) as -> by lia. done.
Qed.

Lemma to_int_congr z : ∃ q, to_int z = (z + q * 2 ^ 32)%Z.
Proof.
  exists (- ((z + 2 ^ 31) / 2 ^ 32))%Z. unfold to_int, wrap.
  change (2 ^ (32 - 1))%Z with (2 ^ 31)%Z.
  pose proof (Z.div_mod (z + 2 ^ 31) (2 ^ 32)). lia.
Qed.

(** the bits [b .. b+k-1] of an [int] are those of the value it wraps *)
Lemma low_bits_wrap z b k :
  (0 ≤ b)%Z → (0 ≤ k)%Z → (b + k ≤ 32)%Z →
  ((to_int z / 2 ^ b) mod 2 ^ k = (z / 2 ^ b) mod 2 ^ k)%Z.
Proof.
  intros Hb Hk Hbk. destruct (to_int_congr z) as [q ->].
  replace (q * 2 ^ 32)%Z with (q * 2 ^ (32 - b - k) * 2 ^ k * 2 ^ b)%Z.
  2:{ rewrite <- !Z.mul_assoc, <- !Z.pow_add_r by lia. do 2 f_equal. lia. }
  rewrite Z.div_add by lia. by rewrite Z.mod_add by lia.
Qed.

Lemma ext6 z b :
  (0 ≤ b ≤ 26)%Z → Z.land (Z.shiftr (to_int z) b) 63 = ((z / 2 ^ b) mod 64)%Z.
Proof.
  intros Hb. rewrite land_63, Z.shiftr_div_pow2 by lia.
  apply (low_bits_wrap z b 6); lia.
Qed.

Lemma ext8 z b :
  (0 ≤ b ≤ 24)%Z → Z.land (Z.shiftr (to_int z) b) 255 = ((z / 2 ^ b) mod 256)%Z.
Proof.
  intros Hb. rewrite land_255, Z.shiftr_div_pow2 by lia.
  apply (low_bits_wrap z b 8); lia.
Qed.

Lemma to_int_mod z k :
  (0 ≤ k ≤ 32)%Z → (to_int z mod 2 ^ k = z mod 2 ^ k)%Z.
Proof.
  intros Hk. pose proof (low_bits_wrap z 0 k) as Hlow.
  rewrite Z.pow_0_r, !Z.div_1_r in Hlow. apply Hlow; lia.
Qed.

Lemma to_int_mod4 z : (to_int z mod 4 = z mod 4)%Z.
Proof. apply (to_int_mod z 2). lia. Qed.

Lemma to_int_mod16 z : (to_int z mod 16 = z mod 16)%Z.
Proof. apply (to_int_mod z 4). lia. Qed.

Lemma to_int_mod64 z : (to_int z mod 64 = z mod 64)%Z.
Proof. apply (to_int_mod z 6). lia. Qed.

Ltac to_div_mod :=
  rewrite ?ext6, ?ext8, ?Z.shiftl_mul_pow2 by lia;
  change (2 ^ 8)%Z with 256%Z; change (2 ^ 6)%Z with 64%Z;
  change (2 ^ 4)%Z with 16%Z; change (2 ^ 2)%Z with 4%Z; change (2 ^ 0)%Z with 1%Z.

Lemma char_of_Z_eq z c : z = byte_of c → char_of_Z z = c.
Proof. intros ->. apply char_of_byte. Qed.

Lemma b64_loop_stop tail val valb :
  (tail = "" ∨ ∃ t, tail = String "=" t) → b64_loop tail val valb = "".
Proof. by intros [->|[t ->]]. Qed.

Lemma b64_round_trip_loop (data : string) :
  ∀ ve be vd bd partial tail,
    b64_rel ve be vd bd partial →
    (tail = "" ∨ ∃ t, tail = String "=" t) →
    b64_loop (b64_encode_loop data ve be +:+ tail) vd bd = partial +:+ data.
Proof.
  induction data as [|c' rest IH]; intros ve be vd bd partial tail Hrel Htail.
  - cbn [b64_encode_loop].
    destruct Hrel as [(-> & -> & ->)|[(c & -> & -> & -> & He & Hd)|(c & -> & -> & -> & He & Hd)]].
    + cbn. by apply b64_loop_stop.
    + pose proof (byte_of_range c).
      change (-6 <? -4)%Z with true. cbn iota. change (-4 + 8)%Z with 4%Z.
      rewrite !str_app_cons, !str_app_nil.
      rewrite b64_loop_char by (rewrite land_63; apply Z.mod_pos_bound; lia).
      cbn zeta. change (-2 + 6)%Z with 4%Z. change (0 <=? 4)%Z with true. cbn iota.
      rewrite b64_loop_stop by done. f_equal.
      apply char_of_Z_eq. to_div_mod. Z.div_mod_to_equations. lia.
    + pose proof (byte_of_range c).
      change (-6 <? -2)%Z with true. cbn iota. change (-2 + 8)%Z with 6%Z.
      rewrite !str_app_cons, !str_app_nil.
      rewrite b64_loop_char by (rewrite land_63; apply Z.mod_pos_bound; lia).
      cbn zeta. change (-4 + 6)%Z with 2%Z. change (0 <=? 2)%Z with true. cbn iota.
      rewrite b64_loop_stop by done. f_equal.
      apply char_of_Z_eq. to_div_mod. Z.div_mod_to_equations. lia.
  - cbn [b64_encode_loop]. cbn zeta. pose proof (byte_of_range c') as Hc'.
    destruct Hrel as [(-> & -> & ->)|[(c & -> & -> & -> & He & Hd)|(c & -> & -> & -> & He & Hd)]].
    + change (-6 + 8)%Z with 2%Z. change (Z.to_nat (2 / 6 + 1)) with 1%nat.
      cbn [b64_emit]. change (0 <=? 2)%Z with true. cbn iota.
      rewrite !str_app_cons, !str_app_nil.
      rewrite b64_loop_char by (rewrite land_63; apply Z.mod_pos_bound; lia).
      cbn zeta. change (-8 + 6)%Z with (-2)%Z. change (0 <=? -2)%Z with false. cbn iota.
      change (2 - 6)%Z with (-4)%Z.
      rewrite (IH _ _ _ _ (String c' "")); [by rewrite str_app_cons, str_app_nil| |done].
      right. left. exists c'. split; [done|]. split; [done|]. split; [done|].
      rewrite ?to_int_mod4, ?to_int_mod16, ?to_int_mod64. to_div_mod.
      split; Z.div_mod_to_equations; lia.
    + pose proof (byte_of_range c).
      change (-4 + 8)%Z with 4%Z. change (Z.to_nat (4 / 6 + 1)) with 1%nat.
      cbn [b64_emit]. change (0 <=? 4)%Z with true. cbn iota.
      rewrite !str_app_cons, !str_app_nil.
      rewrite b64_loop_char by (rewrite land_63; apply Z.mod_pos_bound; lia).
      cbn zeta. change (-2 + 6)%Z with 4%Z. change (0 <=? 4)%Z with true. cbn iota.
      change (4 - 6)%Z with (-2)%Z. change (4 - 8)%Z with (-4)%Z.
      rewrite (IH _ _ _ _ (String c' "")); [| |done].
      * rewrite !str_app_cons, !str_app_nil. f_equal.
        apply char_of_Z_eq. to_div_mod. Z.div_mod_to_equations. lia.
      * right. right. exists c'. split; [done|]. split; [done|]. split; [done|].
        rewrite ?to_int_mod4, ?to_int_mod16, ?to_int_mod64. to_div_mod.
        split; Z.div_mod_to_equations; lia.
    + pose proof (byte_of_range c).
      change (-2 + 8)%Z with 6%Z. change (Z.to_nat (6 / 6 + 1)) with 2%nat.
      cbn [b64_emit]. change (0 <=? 6)%Z with true. cbn iota.
      change (6 - 6)%Z with 0%Z. change (0 <=? 0)%Z with true. cbn iota.
      change (0 - 6)%Z with (-6)%Z.
      rewrite !str_app_cons, !str_app_nil.
      rewrite b64_loop_char by (rewrite land_63; apply Z.mod_pos_bound; lia).
      cbn zeta. change (-4 + 6)%Z with 2%Z. change (0 <=? 2)%Z with true. cbn iota.
      change (2 - 8)%Z with (-6)%Z.
      rewrite b64_loop_char by (rewrite land_63; apply Z.mod_pos_bound; lia).
      cbn zeta. change (-6 + 6)%Z with 0%Z. change (0 <=? 0)%Z with true. cbn iota.
      change (0 - 8)%Z with (-8)%Z.
      rewrite (IH _ _ _ _ ""); [| |done].
      * rewrite ?str_app_cons, ?str_app_nil. f_equal; [|f_equal].
        -- apply char_of_Z_eq. to_div_mod. Z.div_mod_to_equations. lia.
        -- apply char_of_Z_eq. to_div_mod.
           rewrite ?Z.shiftr_0_r, ?land_63, ?to_int_mod64, Z.div_1_r.
           destruct (to_int_congr (vd * 64 + (ve * 256 + byte_of c') / 64 mod 64))
             as [q ->].
           change (2 ^ 32)%Z with (16777216 * 256)%Z.
           Z.div_mod_to_equations. lia.
      * by left.
Qed.

Lemma str_all_app p a b : str_all p (a +:+ b) = str_all p a && str_all p b.
Proof.
  induction a as [|c a IH]; [done|]. rewrite str_app_cons. cbn [str_all].
  by rewrite IH, andb_assoc.
Qed.

Lemma b64_urlsafe_id s : str_all urlsafe_free s = true → b64_urlsafe s = s.
Proof.
  induction s as [|c s IH]; [done|]. cbn [str_all b64_urlsafe].
  intros [Hc Hs]%andb_prop. rewrite IH by done.
  apply andb_prop in Hc as [H1%negb_true_iff H2%negb_true_iff]. by rewrite H1, H2.
Qed.

Lemma b64_char_urlsafe_free i : (0 ≤ i < 64)%Z → urlsafe_free (b64_char i) = true.
Proof.
  intros Hi. pose proof (b64_char_plain i Hi) as Hp. unfold b64_plain in Hp.
  cbn zeta in Hp. apply andb_prop in Hp as [Hp H2]. apply andb_prop in Hp as [_ H1].
  unfold urlsafe_free. by rewrite H1, H2.
Qed.

Lemma b64_emit_urlsafe_free fuel val valb :
  str_all urlsafe_free (b64_emit fuel val valb).1 = true.
Proof.
  revert valb. induction fuel as [|fuel IH]; intros valb; cbn [b64_emit]; [done|].
  destruct (0 <=? valb)%Z; [|done].
  specialize (IH (valb - 6)%Z). destruct (b64_emit fuel val (valb - 6)) as [out valb'].
  cbn [fst str_all] in *. rewrite IH, andb_true_r.
  apply b64_char_urlsafe_free. rewrite land_63. apply Z.mod_pos_bound. lia.
Qed.

Lemma b64_encode_loop_urlsafe_free data val valb :
  str_all urlsafe_free (b64_encode_loop data val valb) = true.
Proof.
  revert val valb. induction data as [|c rest IH]; intros val valb; cbn [b64_encode_loop].
  - destruct (-6 <? valb)%Z; [|done]. cbn [str_all]. rewrite andb_true_r.
    apply b64_char_urlsafe_free. rewrite land_63. apply Z.mod_pos_bound. lia.
  - cbn zeta.
    pose proof (b64_emit_urlsafe_free (Z.to_nat ((valb + 8) / 6 + 1))
                  (to_int (Z.shiftl val 8 + byte_of c)) (valb + 8)) as Hemit.
    destruct (b64_emit _ _ _) as [out valb']. cbn [fst] in Hemit.
    by rewrite str_all_app, Hemit, IH.
Qed.

Lemma str_app_nil_r (s : string) : s +:+ "" = s.
Proof. induction s as [|c s IH]; [done|]. by rewrite str_app_cons, IH. Qed.

Lemma str_length_app (a b : string) :
  String.length (a +:+ b) = (String.length a + String.length b)%nat.
Proof. induction a as [|c a IH]; [done|]. rewrite str_app_cons. cbn. by rewrite IH. Qed.

(** the padding: [n] characters [=] *)
Lemma equals_signs n :
  let tail := String.concat "" (replicate n "=") in
  String.length tail = n
  ∧ str_all urlsafe_free tail = true
  ∧ (tail = "" ∨ ∃ t, tail = String "=" t).
Proof.
  induction n as [|n (Hlen & Hfree & Hstop)]; [by repeat split; left|].
  cbn [replicate]. cbn zeta in *.
  assert (String.concat "" ("=" :: replicate n "=")
          = String "=" (String.concat "" (replicate n "="))) as ->
    by (by destruct n).
  cbn [String.length str_all]. rewrite Hlen, Hfree.
  split; [done|]. split; [done|]. right. by eexists.
Qed.

Lemma b64_pad_padded s : (String.length s mod 4 = 0)%nat → b64_pad s = s.
Proof. intros Hlen. unfold b64_pad. rewrite Hlen. apply str_app_nil_r. Qed.

Lemma b64_pad_length s : (String.length (b64_pad s) mod 4 = 0)%nat.
Proof.
  unfold b64_pad. rewrite str_length_app.
  destruct (equals_signs ((4 - String.length s mod 4) mod 4)) as (-> & _).
  pose proof (Nat.mod_upper_bound (String.length s) 4).
  pose proof (Nat.div_mod_eq (String.length s) 4).
  destruct (String.length s mod 4) as [|[|[|[|k]]]] eqn:Hm; [| | | |lia].
  - change ((4 - 0) mod 4)%nat with 0%nat. by rewrite Nat.add_0_r.
  - change ((4 - 1) mod 4)%nat with 3%nat.
    replace (String.length s + 3)%nat with (0 + (String.length s `div` 4 + 1) * 4)%nat by lia.
    by rewrite Nat.Div0.mod_add.
  - change ((4 - 2) mod 4)%nat with 2%nat.
    replace (String.length s + 2)%nat with (0 + (String.length s `div` 4 + 1) * 4)%nat by lia.
    by rewrite Nat.Div0.mod_add.
  - change ((4 - 3) mod 4)%nat with 1%nat.
    replace (String.length s + 1)%nat with (0 + (String.length s `div` 4 + 1) * 4)%nat by lia.
    by rewrite Nat.Div0.mod_add.
Qed.

(** X1: decoding what [base64_encode] produced gives the data back, for
    every string of bytes. *)
Theorem base64_round_trip (data : string) :
  safe_b64decode (base64_encode data) = data.
Proof.
  unfold safe_b64decode, base64_encode.
  rewrite (b64_pad_padded (b64_pad _)) by apply b64_pad_length.
  unfold b64_pad.
  destruct (equals_signs ((4 - String.length (b64_encode_loop data 0 (-6)) mod 4) mod 4))
    as (_ & Hfree & Hstop).
  rewrite b64_urlsafe_id
    by (by rewrite str_all_app, b64_encode_loop_urlsafe_free, Hfree).
  rewrite (b64_round_trip_loop data 0 (-6) 0 (-8) ""); [done| |done]. by left.
Qed.

End Base64.

(** ** core/utils.cpp: strings *)

Section Strings.
Import Utils.

(** *** [trim] *)

Lemma str_take_0 s : str_take 0 s = "".
Proof. by destruct s. Qed.

Lemma find_last_rstrip s :
  match find_last_not_of_ws s with
  | Some last => str_take (S last) s = rstrip s ∧ rstrip s ≠ ""
  | None => rstrip s = ""
  end.
Proof.
  induction s as [|c s IH]; [done|]. cbn [find_last_not_of_ws rstrip].
  destruct (find_last_not_of_ws s) as [last|].
  - destruct IH as [IH Hne].
    change (str_take (S (S last)) (String c s)) with (String c (str_take (S last) s)).
    rewrite IH. by destruct (rstrip s).
  - rewrite IH. destruct (is_trim_ws c); [done|].
    change (str_take 1 (String c s)) with (String c (str_take 0 s)).
    by rewrite str_take_0.
Qed.

Lemma trim_ws_cons c s : is_trim_ws c = true → trim (String c s) = trim s.
Proof.
  intros Hc. unfold trim. cbn [find_first_not_of_ws find_last_not_of_ws]. rewrite Hc.
  destruct (find_first_not_of_ws s) as [start|]; [|done]. cbn [fmap option_fmap option_map].
  destruct (find_last_not_of_ws s) as [last|]; [|done]. by cbn.
Qed.

Lemma trim_eq s : trim s = rstrip (lstrip s).
Proof.
  induction s as [|c s IH]; [done|]. cbn [lstrip].
  destruct (is_trim_ws c) eqn:Hc; [by rewrite trim_ws_cons|].
  unfold trim. cbn [find_first_not_of_ws]. rewrite Hc.
  pose proof (find_last_rstrip (String c s)) as Hlast.
  destruct (find_last_not_of_ws (String c s)) as [last|].
  - destruct Hlast as [<- _]. unfold substr. cbn [str_drop]. by rewrite Nat.sub_0_r, Nat.add_1_r.
  - done.
Qed.

Lemma lstrip_split s :
  ∃ a, s = a +:+ lstrip s ∧ str_all is_trim_ws a = true.
Proof.
  induction s as [|c s (a & Hs & Ha)]; [by exists ""|]. cbn [lstrip].
  destruct (is_trim_ws c) eqn:Hc.
  - exists (String c a). rewrite str_app_cons, <- Hs. cbn [str_all]. by rewrite Hc, Ha.
  - by exists "".
Qed.

Lemma rstrip_split s :
  ∃ b, s = rstrip s +:+ b ∧ str_all is_trim_ws b = true.
Proof.
  induction s as [|c s (b & Hs & Hb)]; [by exists ""|]. cbn [rstrip].
  destruct (rstrip s) as [|d k] eqn:Hk.
  - destruct (is_trim_ws c) eqn:Hc.
    + exists (String c s). split; [done|]. cbn [str_all]. rewrite Hc. cbn.
      rewrite Hs, str_app_nil. done.
    + exists s. split; [done|]. by rewrite Hs, str_app_nil.
  - exists b. by rewrite str_app_cons, <- Hs.
Qed.

Lemma lstrip_head s c : str_head (lstrip s) = Some c → is_trim_ws c = false.
Proof.
  induction s as [|d s IH]; [done|]. cbn [lstrip].
  destruct (is_trim_ws d) eqn:Hd; [done|]. by intros [= <-].
Qed.

Lemma rstrip_last s c : str_last (rstrip s) = Some c → is_trim_ws c = false.
Proof.
  induction s as [|d s IH]; [done|]. cbn [rstrip].
  destruct (rstrip s) as [|e k] eqn:Hk.
  - destruct (is_trim_ws d) eqn:Hd; [done|]. by intros [= <-].
  - intros Hlast. apply IH. done.
Qed.

Lemma rstrip_head s c :
  str_head s = Some c → is_trim_ws c = false → str_head (rstrip s) = Some c.
Proof.
  destruct s as [|d s]; [done|]. intros [= ->] Hc. cbn [rstrip].
  destruct (rstrip s); [by rewrite Hc|done].
Qed.

Lemma lstrip_id s :
  (∀ c, str_head s = Some c → is_trim_ws c = false) → lstrip s = s.
Proof. destruct s as [|d s]; [done|]. intros Hd. cbn. by rewrite (Hd d). Qed.

Lemma rstrip_cons c s :
  rstrip (String c s)
  = match rstrip s with
    | EmptyString => if is_trim_ws c then EmptyString else String c EmptyString
    | kept => String c kept
    end.
Proof. reflexivity. Qed.

Lemma rstrip_idemp s : rstrip (rstrip s) = rstrip s.
Proof.
  induction s as [|c s IH]; [done|]. rewrite rstrip_cons.
  destruct (rstrip s) as [|d k] eqn:Hk.
  - destruct (is_trim_ws c) eqn:Hc; [done|]. cbn. by rewrite Hc.
  - rewrite rstrip_cons, IH. done.
Qed.

Lemma lstrip_all_ws s : str_all is_trim_ws s = true → lstrip s = "".
Proof.
  induction s as [|c s IH]; [done|]. cbn [str_all lstrip].
  intros [-> Hall]%andb_prop. by apply IH.
Qed.

Lemma trim_head s c : str_head (trim s) = Some c → is_trim_ws c = false.
Proof.
  rewrite trim_eq. intros Hc. destruct (lstrip s) as [|d t] eqn:Ht; [done|].
  assert (is_trim_ws d = false) as Hd by (apply (lstrip_head s); by rewrite Ht).
  rewrite (rstrip_head (String d t) d) in Hc by done. by injection Hc as <-.
Qed.

Lemma trim_split s :
  ∃ a b, s = a +:+ trim s +:+ b
         ∧ str_all is_trim_ws a = true ∧ str_all is_trim_ws b = true.
Proof.
  rewrite trim_eq. destruct (lstrip_split s) as (a & Hs & Ha).
  destruct (rstrip_split (lstrip s)) as (b & Ht & Hb).
  exists a, b. by rewrite <- Ht, <- Hs.
Qed.

Lemma trim_idemp s : trim (trim s) = trim s.
Proof.
  pose proof (trim_head s) as Hhead. rewrite !trim_eq in *.
  by rewrite (lstrip_id _ Hhead), rstrip_idemp.
Qed.

Lemma str_all_trim p s : str_all p s = true → str_all p (trim s) = true.
Proof.
  destruct (trim_split s) as (a & b & Hs & _). rewrite Hs at 1.
  rewrite !str_all_app. intros [_ [? _]%andb_prop]%andb_prop. done.
Qed.

(** X2: [trim] removes exactly the blanks at both ends: the string is the
    result between two runs of blanks, the result neither starts nor ends
    with a blank, trimming twice is trimming once, and a string of blanks
    trims to the empty string. *)
Theorem trim_spec (s : string) :
  (∃ a b, s = a +:+ trim s +:+ b
          ∧ str_all is_trim_ws a = true ∧ str_all is_trim_ws b = true)
  ∧ (∀ c, str_head (trim s) = Some c → is_trim_ws c = false)
  ∧ (∀ c, str_last (trim s) = Some c → is_trim_ws c = false)
  ∧ trim (trim s) = trim s
  ∧ (str_all is_trim_ws s = true → trim s = "").
Proof.
  split; [apply trim_split|]. split; [apply trim_head|].
  split; [rewrite trim_eq; apply rstrip_last|]. split; [apply trim_idemp|].
  intros Hall. by rewrite trim_eq, lstrip_all_ws.
Qed.

(** *** [clean_ps_string] *)

Lemma str_filter_all p s : str_all p (str_filter p s) = true.
Proof.
  induction s as [|c s IH]; [done|]. cbn [str_filter].
  destruct (p c) eqn:Hc; [|done]. cbn [str_all]. by rewrite Hc, IH.
Qed.

Lemma str_filter_id p s : str_all p s = true → str_filter p s = s.
Proof.
  induction s as [|c s IH]; [done|]. cbn [str_all str_filter].
  intros [-> Hs]%andb_prop. by rewrite IH.
Qed.

(** X3: the name [clean_ps_string] returns is never empty, holds only
    characters from 0x20 to 0x7F, has no blank at either end, and cleaning
    it again changes nothing; a name without such a character, or of
    blanks only, becomes [Unknown]. *)
Theorem clean_ps_string_spec (ps : string) :
  clean_ps_string ps ≠ ""
  ∧ str_all printable (clean_ps_string ps) = true
  ∧ trim (clean_ps_string ps) = clean_ps_string ps
  ∧ clean_ps_string (clean_ps_string ps) = clean_ps_string ps
  ∧ (str_all is_trim_ws (str_filter printable ps) = true →
     clean_ps_string ps = "Unknown").
Proof.
  unfold clean_ps_string. fold printable.
  set (kept := trim (str_filter printable ps)).
  assert (str_all printable kept = true) as Hall
    by apply str_all_trim, str_filter_all.
  assert (trim kept = kept) as Htrim by apply trim_idemp.
  split; [|split; [|split; [|split]]].
  - by destruct kept.
  - by destruct kept.
  - by destruct kept.
  - destruct kept as [|c k] eqn:Hk; [done|]. cbn [str_empty].
    rewrite (str_filter_id printable (String c k)) by done. by rewrite Htrim.
  - intros Hblank. subst kept. by rewrite trim_eq, lstrip_all_ws.
Qed.

(** *** [url_decode] *)

Context `{StdLib}.

Lemma str_drop_length n s : String.length (str_drop n s) = (String.length s - n)%nat.
Proof. revert s. induction n as [|n IH]; intros [|c s]; cbn; try done; lia. Qed.

Lemma url_decode_loop_length fuel encoded :
  (String.length encoded ≤ fuel)%nat →
  (String.length (url_decode_loop fuel encoded) ≤ String.length encoded)%nat.
Proof.
  revert encoded. induction fuel as [|fuel IH]; intros encoded Hfuel; [cbn; lia|].
  destruct encoded as [|c rest]; [done|]. cbn [url_decode_loop String.length] in *.
  assert (String.length (url_decode_loop fuel rest) ≤ String.length rest)%nat
    by (apply IH; lia).
  destruct (ascii_eqb c "%" && (2 <=? String.length rest)%nat) eqn:Hpct.
  - destruct (istream_hex _); cbn [String.length]; [|lia].
    assert (String.length (url_decode_loop fuel (str_drop 2 rest))
            ≤ String.length (str_drop 2 rest))%nat
      by (apply IH; rewrite str_drop_length; lia).
    rewrite str_drop_length in *. lia.
  - destruct (ascii_eqb c "+"); cbn [String.length]; lia.
Qed.

Lemma url_decode_loop_plain fuel encoded :
  (String.length encoded ≤ fuel)%nat →
  contains_char "%" encoded = false →
  url_decode_loop fuel encoded = plus_to_space encoded.
Proof.
  revert encoded. induction fuel as [|fuel IH]; intros encoded Hfuel Hplain.
  - destruct encoded; [done|cbn in Hfuel; lia].
  - destruct encoded as [|c rest]; [done|].
    cbn [url_decode_loop String.length plus_to_space] in *.
    unfold contains_char in Hplain. cbn [find_char] in Hplain.
    destruct (ascii_eqb "%" c) eqn:Hc; [done|].
    rewrite ascii_eqb_sym, Hc. cbn [andb].
    rewrite IH; [by destruct (ascii_eqb c "+")|lia|].
    unfold contains_char. by destruct (find_char "%" rest).
Qed.

Lemma plus_to_space_id s : contains_char "+" s = false → plus_to_space s = s.
Proof.
  induction s as [|c s IH]; [done|]. unfold contains_char. cbn [find_char plus_to_space].
  destruct (ascii_eqb "+" c) eqn:Hc; [done|]. rewrite ascii_eqb_sym, Hc.
  intros Hs. rewrite IH; [done|]. unfold contains_char. by destruct (find_char "+" s).
Qed.

(** X4: [url_decode] never returns more bytes than it was given; on a
    string without [%] it only replaces each [+] by a space, so a string
    with neither comes back unchanged. *)
Theorem url_decode_spec (encoded : string) :
  (String.length (url_decode encoded) ≤ String.length encoded)%nat
  ∧ (contains_char "%" encoded = false →
     url_decode encoded = plus_to_space encoded)
  ∧ (contains_char "%" encoded = false → contains_char "+" encoded = false →
     url_decode encoded = encoded).
Proof.
  unfold url_decode. split; [by apply url_decode_loop_length|]. split.
  - intros Hpct. by apply url_decode_loop_plain.
  - intros Hpct Hplus. rewrite url_decode_loop_plain by done. by apply plus_to_space_id.
Qed.

(** *** Substrings and case *)

Lemma prefix_app p b : String.prefix p (p +:+ b) = true.
Proof.
  induction p as [|c p IH]; [by destruct b|]. rewrite str_app_cons. cbn.
  destruct (Ascii.ascii_dec c c); [done|congruence].
Qed.

Lemma prefix_inv p s : String.prefix p s = true → ∃ b, s = p +:+ b.
Proof.
  revert s. induction p as [|c p IH]; intros s Hp; [by exists s|].
  destruct s as [|d s]; [done|]. cbn in Hp.
  destruct (Ascii.ascii_dec c d) as [->|]; [|done].
  destruct (IH s Hp) as [b ->]. by exists b.
Qed.

Lemma contains_intro a pat b : contains pat (a +:+ pat +:+ b) = true.
Proof.
  unfold contains. induction a as [|c a IH].
  - rewrite str_app_nil.
    destruct (pat +:+ b) eqn:Hs; cbn [find]; rewrite <- Hs, prefix_app; done.
  - rewrite str_app_cons. cbn [find].
    destruct (String.prefix pat (String c (a +:+ pat +:+ b))); [done|].
    by destruct (find pat (a +:+ pat +:+ b)).
Qed.

Lemma contains_elim pat s : contains pat s = true → ∃ a b, s = a +:+ pat +:+ b.
Proof.
  unfold contains. induction s as [|c s IH]; cbn [find].
  - destruct (String.prefix pat "") eqn:Hp; [|done].
    intros _. apply prefix_inv in Hp as [b ->]. by exists "", b.
  - destruct (String.prefix pat (String c s)) eqn:Hp.
    + intros _. apply prefix_inv in Hp as [b ->]. by exists "", b.
    + destruct (find pat s); [|done]. intros _.
      destruct (IH eq_refl) as (a & b & ->). by exists (String c a), b.
Qed.

Lemma contains_trans p d s :
  contains p d = true → contains d s = true → contains p s = true.
Proof.
  intros (a & b & ->)%contains_elim (a' & b' & ->)%contains_elim.
  replace (a' +:+ (a +:+ p +:+ b) +:+ b') with ((a' +:+ a) +:+ p +:+ (b +:+ b'))
    by (by rewrite !str_app_assoc).
  apply contains_intro.
Qed.

Lemma tolower_idemp c : tolower (tolower c) = tolower c.
Proof. by destruct c as [[] [] [] [] [] [] [] []]. Qed.

Lemma to_lower_idemp s : to_lower (to_lower s) = to_lower s.
Proof. induction s as [|c s IH]; [done|]. cbn. by rewrite tolower_idemp, IH. Qed.

Lemma prioritize_perm (g : rng) (uris : list string) :
  (prioritize_configs g uris).1 ≡ₚ filter unblocked uris.
Proof.
  unfold prioritize_configs.
  pose proof (shuffle_tiers_perm g (sort_into_tiers uris) all_tiers) as Hsh.
  destruct (shuffle_tiers g (sort_into_tiers uris) all_tiers) as [shuffled g'].
  cbn [fst] in *.
  transitivity (concat ((fun t => filter (in_tier t) uris) <$> all_tiers)).
  - apply concat_perm. apply Forall2_fmap_r. apply Forall2_flip.
    eapply Forall2_impl; [exact Hsh|]. intros t l Hl. cbn beta in Hl.
    by rewrite <- sort_into_tiers_filter.
  - rewrite (tiers_partition uris all_tiers all_tiers_NoDup).
    apply reflexive_eq. apply list_filter_iff. intros u.
    pose proof (all_tiers_complete (tier_of_uri u)). tauto.
Qed.

(** X5: the blocklist and the CDN whitelist are matched anywhere in the
    URI and without regard to case; every whitelisted CDN domain that holds
    [.ir] (the four Arvan domains under [.ir]) makes a URI both CDN-based
    and likely blocked, so the prioritizer drops it. *)
Theorem blocklist_matching (uri : string) :
  is_likely_blocked (to_lower uri) = is_likely_blocked uri
  ∧ is_cdn_based (to_lower uri) = is_cdn_based uri
  ∧ (∀ a pattern b, pattern ∈ IRAN_BLOCKED_PATTERNS →
        to_lower uri = a +:+ pattern +:+ b → is_likely_blocked uri = true)
  ∧ iranian_cdn_domains
    = ["arvancloud.ir"; "arvanstorage.ir"; "arvancdn.ir"; "cdn.arvancloud.ir"]
  ∧ (∀ domain, domain ∈ iranian_cdn_domains →
        contains domain (to_lower uri) = true →
        is_cdn_based uri = true ∧ is_likely_blocked uri = true
        ∧ ∀ g uris, uri ∉ (prioritize_configs g uris).1).
Proof.
  split; [by unfold is_likely_blocked; rewrite to_lower_idemp|].
  split; [by unfold is_cdn_based; rewrite to_lower_idemp|].
  assert (∀ pattern, pattern ∈ IRAN_BLOCKED_PATTERNS →
            contains pattern (to_lower uri) = true → is_likely_blocked uri = true)
    as Hblocked.
  { intros pattern Hin Hc. unfold is_likely_blocked. apply existsb_exists.
    exists pattern. split; [by apply list_elem_of_In|done]. }
  split; [|split; [by vm_compute|]].
  - intros a pattern b Hin Hs. apply (Hblocked pattern Hin). rewrite Hs.
    apply contains_intro.
  - intros domain Hin Hc.
    apply list_elem_of_filter in Hin as [Hir Hin].
    assert (is_likely_blocked uri = true) as Hb.
    { apply (Hblocked ".ir"); [set_solver|]. by apply (contains_trans _ domain). }
    split; [|split; [done|]].
    + unfold is_cdn_based. apply existsb_exists. exists domain.
      split; [by apply list_elem_of_In|].
      assert (to_lower domain = domain) as ->; [|done].
      clear -Hin. unfold CDN_WHITELIST_DOMAINS in Hin.
      repeat (apply elem_of_cons in Hin as [->|Hin]; [done|]).
      by apply elem_of_nil in Hin.
    + intros g uris Hout.
      pose proof (prioritize_perm g uris) as Hperm. rewrite Hperm in Hout.
      apply list_elem_of_filter in Hout as [Hu _]. unfold unblocked in Hu. congruence.
Qed.

End Strings.

(** ** core/utils.cpp: files and regions *)

Section Files.
Import Utils.

(** X6: [write_lines] replaces the file by the non-empty lines, one per
    line, and leaves every other file alone; lines without a line feed or a
    blank at either end are read back by [read_lines] as written, and
    [append_unique_lines] of the same lines then appends nothing.  On a
    path that cannot be opened nothing is written and the count is 0. *)
Theorem write_lines_read_back (fs : filesystem) (filepath : string) (lines : list string) :
  (fs_appendable fs filepath = false → write_lines fs filepath lines = (0%Z, fs))
  ∧ (fs_appendable fs filepath = true →
     let written := filter nonempty lines in
     let fs' := (write_lines fs filepath lines).2 in
     fs_files fs' !! filepath = Some (write_out written)
     ∧ (∀ other, other ≠ filepath → fs_files fs' !! other = fs_files fs !! other)
     ∧ ((Z.of_nat (length lines) ≤ INT_MAX)%Z →
        (write_lines fs filepath lines).1 = Z.of_nat (length written))
     ∧ (Forall (fun line => clean_line line = true) lines →
        read_lines fs' filepath = written
        ∧ append_unique_lines fs' filepath lines = (0%Z, fs'))).
Proof.
  unfold write_lines. split; [by intros ->|]. intros ->. cbn zeta. cbn [fst snd fs_files].
  split; [by rewrite lookup_insert_eq|]. split; [by intros; rewrite lookup_insert_ne|].
  split.
  - intros Hlen. apply to_int_small.
    pose proof (length_filter nonempty lines). unfold INT_MIN, INT_MAX in *. lia.
  - intros Hclean.
    assert (Forall (fun line => clean_line line = true) (filter nonempty lines)) as Hclean'
      by (rewrite Forall_forall in Hclean; apply Forall_forall;
          intros x [_ ?]%list_elem_of_filter; by apply Hclean).
    assert (Forall nonempty (filter nonempty lines)) as Hne
      by (apply Forall_forall; by intros x [? _]%list_elem_of_filter).
    assert (read_lines
              {| fs_files := <[filepath := write_out (filter nonempty lines)]> (fs_files fs);
                 fs_appendable := fs_appendable fs |} filepath
            = filter nonempty lines) as Hread.
    { unfold read_lines. cbn [fs_files]. rewrite lookup_insert_eq.
      rewrite getlines_write_out
        by (eapply Forall_impl; [exact Hclean' | apply clean_line_no_lf]).
      by apply read_back. }
    split; [done|]. unfold append_unique_lines. rewrite collect_new_spec, Hread.
    rewrite first_seen_all_seen; [done|]. intros x Hx. by apply elem_of_list_to_set.
Qed.

(** *** [get_region] *)

Lemma count_forallb (P : string → bool) (set : list string) (code : string) :
  forallb P set = true → count set code = true → P code = true.
Proof.
  unfold count. rewrite forallb_forall, existsb_exists.
  intros Hall (x & Hin & ->%String.eqb_eq). by apply Hall.
Qed.

(** X7: [get_region] answers one of six regions; the lookup is exact, so
    only a code of two upper-case letters gets a region other than [Other];
    no code is in two of the tables or is [US] or [CA], so a code in a
    table gets the region of that table whatever the order of the tests. *)
Theorem get_region_spec (country_code : string) :
  In (get_region country_code) regions
  ∧ (get_region country_code ≠ "Other" → two_upper country_code = true)
  ∧ (count european country_code = true → get_region country_code = "Europe")
  ∧ (count asian country_code = true → get_region country_code = "Asia")
  ∧ (count african country_code = true → get_region country_code = "Africa")
  ∧ (get_region country_code = "USA" ↔ country_code = "US")
  ∧ (get_region country_code = "Canada" ↔ country_code = "CA").
Proof.
  assert (forallb two_upper (european ++ asian ++ african) = true) as Hshape
    by (vm_compute; reflexivity).
  assert (forallb (fun c => negb (String.eqb c "US") && negb (String.eqb c "CA"))
            (european ++ asian ++ african) = true) as Hnot_us
    by (vm_compute; reflexivity).
  assert (forallb (fun c => negb (count european c)) (asian ++ african) = true) as Hnot_eu
    by (vm_compute; reflexivity).
  assert (forallb (fun c => negb (count asian c)) african = true) as Hnot_as
    by (vm_compute; reflexivity).
  rewrite !forallb_app in Hshape, Hnot_us. rewrite forallb_app in Hnot_eu.
  apply andb_prop in Hshape as [Hs1 [Hs2 Hs3]%andb_prop].
  apply andb_prop in Hnot_us as [Hu1 [Hu2 Hu3]%andb_prop].
  apply andb_prop in Hnot_eu as [He2 He3].
  unfold get_region.
  destruct (String.eqb country_code "US") eqn:E1.
  { apply String.eqb_eq in E1 as ->. vm_compute. repeat split; intros; try discriminate; try reflexivity; tauto. }
  destruct (String.eqb country_code "CA") eqn:E2.
  { apply String.eqb_eq in E2 as ->. vm_compute. repeat split; intros; try discriminate; try reflexivity; tauto. }
  assert (country_code ≠ "US") as N1 by (by apply String.eqb_neq).
  assert (country_code ≠ "CA") as N2 by (by apply String.eqb_neq).
  destruct (count european country_code) eqn:E3.
  { split; [cbn; tauto|]. split; [intros _; by apply (count_forallb _ european)|].
    split; [reflexivity|]. split.
    { intros Has. pose proof (count_forallb _ _ _ He2 Has) as Hn. cbn beta in Hn.
      by rewrite E3 in Hn. }
    split.
    { intros Haf. pose proof (count_forallb _ _ _ He3 Haf) as Hn. cbn beta in Hn.
      by rewrite E3 in Hn. }
    clear -N1 N2. repeat split; intros; try discriminate; congruence. }
  destruct (count asian country_code) eqn:E4.
  { split; [cbn; tauto|]. split; [intros _; by apply (count_forallb _ asian)|].
    split; [discriminate|]. split; [reflexivity|]. split.
    { intros Haf. pose proof (count_forallb _ _ _ Hnot_as Haf) as Hn. cbn beta in Hn.
      by rewrite E4 in Hn. }
    clear -N1 N2. repeat split; intros; try discriminate; congruence. }
  destruct (count african country_code) eqn:E5.
  { split; [cbn; tauto|]. split; [intros _; by apply (count_forallb _ african)|].
    clear -N1 N2. repeat split; intros; try discriminate; congruence. }
  split; [cbn; tauto|]. clear -N1 N2. repeat split; intros; try discriminate; congruence.
Qed.

End Files.

(** ** core/utils.cpp: URI extraction *)

Section ExtractProperties.
Import Utils Extract.
Context `{RegexLib}.

Lemma strip_trailing_cons c rest :
  strip_trailing (String c rest)
  = match strip_trailing rest with
    | EmptyString => if is_trailing_punct c then EmptyString else String c EmptyString
    | kept => String c kept
    end.
Proof. reflexivity. Qed.

Lemma strip_trailing_last uri c :
  str_last (strip_trailing uri) = Some c → is_trailing_punct c = false.
Proof.
  induction uri as [|d uri IH]; [done|]. rewrite strip_trailing_cons.
  destruct (strip_trailing uri) as [|e k] eqn:Hk.
  - destruct (is_trailing_punct d) eqn:Hd; [done|]. by intros [= <-].
  - intros Hlast. by apply IH.
Qed.

Lemma strip_trailing_prefix uri :
  ∃ tail, uri = strip_trailing uri +:+ tail ∧ str_all is_trailing_punct tail = true.
Proof.
  induction uri as [|c uri (tail & Hu & Ht)]; [by exists ""|]. rewrite strip_trailing_cons.
  destruct (strip_trailing uri) as [|d k] eqn:Hk.
  - destruct (is_trailing_punct c) eqn:Hc.
    + exists (String c uri). split; [done|]. cbn [str_all]. rewrite Hc. cbn.
      by rewrite Hu, str_app_nil.
    + exists uri. split; [done|]. by rewrite Hu, str_app_nil.
  - exists tail. by rewrite str_app_cons, <- Hu.
Qed.

Lemma sset_insert_elem x y s : x ∈ sset_insert y s ↔ x = y ∨ x ∈ s.
Proof.
  induction s as [|z s IH]; cbn [sset_insert]; [set_solver|].
  destruct (String.eqb y z) eqn:Hyz.
  - apply String.eqb_eq in Hyz as ->. set_solver.
  - destruct (String.ltb y z); [set_solver|]. rewrite !elem_of_cons, IH. tauto.
Qed.

Lemma sset_insert_all_elem x xs s : x ∈ sset_insert_all xs s ↔ x ∈ xs ∨ x ∈ s.
Proof.
  unfold sset_insert_all. revert s. induction xs as [|y xs IH]; intros s; cbn [foldl].
  - set_solver.
  - rewrite IH, sset_insert_elem, elem_of_cons. tauto.
Qed.

Lemma matches_kept (found acc : list string) :
  Forall kept_uri acc →
  Forall kept_uri
    (foldl (fun uris m =>
              let uri := strip_trailing m in
              if (10 <? String.length uri)%nat then sset_insert uri uris else uris)
           acc found)
  ∧ ∀ x, x ∈ foldl (fun uris m =>
              let uri := strip_trailing m in
              if (10 <? String.length uri)%nat then sset_insert uri uris else uris)
           acc found →
         x ∈ acc ∨ ∃ m, m ∈ found ∧ x = strip_trailing m.
Proof.
  revert acc. induction found as [|m found IH]; intros acc Hacc; cbn [foldl].
  - split; [done|]. by left.
  - cbn zeta. destruct (10 <? String.length (strip_trailing m))%nat eqn:Hlen.
    + destruct (IH (sset_insert (strip_trailing m) acc)) as [IH1 IH2].
      { apply Forall_forall. intros x [->|Hx]%sset_insert_elem.
        - split; [by apply Nat.ltb_lt|apply strip_trailing_last].
        - rewrite Forall_forall in Hacc. by apply Hacc. }
      split; [done|]. intros x Hx. destruct (IH2 x Hx) as [Hin|(m' & Hm' & ->)].
      * apply sset_insert_elem in Hin as [->|Hin]; [|by left].
        right. exists m. split; [left|done].
      * right. exists m'. split; [by right|done].
    + destruct (IH acc Hacc) as [IH1 IH2]. split; [done|].
      intros x Hx. destruct (IH2 x Hx) as [Hin|(m' & Hm' & ->)]; [by left|].
      right. exists m'. split; [by right|done].
Qed.

Lemma extract_fuel_kept fuel text :
  match extract_fuel fuel text with
  | Returns uris => Forall kept_uri uris
  | Throws _ => True
  end.
Proof.
  revert text. induction fuel as [|fuel IH]; intros text; cbn [extract_fuel]; [done|].
  destruct (str_empty text); [done|].
  destruct (uri_re_matches text) as [found|e]; [|done]. cbn.
  destruct (matches_kept found [] (Forall_nil_2 _)) as [Hkept _].
  destruct (foldl _ [] found) as [|u uris] eqn:Huris; [|done].
  destruct (b64_re_matches text) as [blocks|e]; [|done]. cbn.
  generalize (take 20 blocks). intros bs.
  assert (Forall kept_uri ([] : list string)) as Hacc by done.
  revert Hacc. generalize ([] : list string) at 1 3. induction bs as [|b bs IHb]; intros acc Hacc.
  - done.
  - cbn [foldl]. apply IHb.
    destruct (contains "://" (safe_b64decode b)); [|done].
    specialize (IH (safe_b64decode b)).
    destruct (extract_fuel fuel (safe_b64decode b)) as [sub|e]; [|done]. cbn.
    apply Forall_forall. intros x [Hx|Hx]%sset_insert_all_elem.
    + rewrite Forall_forall in IH. by apply IH.
    + rewrite Forall_forall in Hacc. by apply Hacc.
Qed.

(** X8: whatever the regex matcher finds, every URI that
    [extract_raw_uris_from_text] returns is longer than ten characters and
    does not end in one of [) ] , . ; : ! ?]; what is cut from a match is
    trailing punctuation only; and the empty text gives no URI. *)
Theorem extracted_uris_kept (text : string) :
  match extract_raw_uris_from_text text with
  | Returns uris => Forall kept_uri uris
  | Throws _ => True
  end
  ∧ extract_raw_uris_from_text "" = Returns []
  ∧ (∀ m, ∃ tail, m = strip_trailing m +:+ tail
                  ∧ str_all is_trailing_punct tail = true).
Proof.
  split; [apply extract_fuel_kept|]. split; [done|]. apply strip_trailing_prefix.
Qed.

End ExtractProperties.

(** ** cache/cache.cpp *)

Section CacheMore.
Import Utils Cache.

Lemma should_attempt_reconnect_spec (h : ResilientHeartbeat) :
  max_reconnect_attempts_ h = 5%Z →
  (0 ≤ reconnect_attempts_ h ≤ 5)%Z →
  (should_attempt_reconnect h).1 = bool_decide (reconnect_attempts_ h < 5)%Z
  ∧ max_reconnect_attempts_ (should_attempt_reconnect h).2 = 5%Z
  ∧ reconnect_attempts_ (should_attempt_reconnect h).2
    = Z.min 5 (reconnect_attempts_ h + 1).
Proof.
  intros Hmax Hrange. unfold should_attempt_reconnect. rewrite Hmax.
  destruct (5 <=? reconnect_attempts_ h)%Z eqn:Hfull; cbn [fst snd].
  - apply Z.leb_le in Hfull. rewrite bool_decide_eq_false_2 by lia.
    split; [done|]. split; [done|]. lia.
  - apply Z.leb_gt in Hfull. rewrite bool_decide_eq_true_2 by lia.
    split; [done|]. split; [done|]. cbn.
    rewrite to_int_small by (unfold INT_MIN, INT_MAX; lia). lia.
Qed.

Lemma counted_step_inv r call : heartbeat_inv r → heartbeat_inv (counted_step r call).
Proof.
  destruct r as [h granted]. intros (Hmax & Hrange & Hg). cbn [fst snd] in *. subst granted.
  destruct call as [now| | |now]; cbn [counted_step heartbeat_step].
  - split; [done|]. cbn. lia.
  - split; [done|]. cbn. split; [lia|done].
  - destruct (should_attempt_reconnect_spec h Hmax Hrange) as (Hgrant & Hmax' & Hatt).
    destruct (should_attempt_reconnect h) as [g h']. unfold heartbeat_inv.
    cbn [fst snd] in *.
    split; [done|]. split; [lia|]. rewrite Hatt, Hgrant. case_bool_decide; lia.
  - split; [done|]. cbn. lia.
Qed.

Lemma heartbeat_fold_inv calls r :
  heartbeat_inv r → heartbeat_inv (foldl counted_step r calls).
Proof.
  revert r. induction calls as [|call calls IH]; intros r Hr; [done|].
  cbn [foldl]. by apply IH, counted_step_inv.
Qed.

Lemma attempts_after_asking n r :
  heartbeat_inv r →
  reconnect_attempts_ (foldl counted_step r (replicate n ShouldAttemptReconnect)).1
  = Z.min 5 (reconnect_attempts_ r.1 + Z.of_nat n).
Proof.
  revert r. induction n as [|n IH]; intros r Hr; cbn [replicate foldl].
  - destruct Hr as (_ & ? & _). lia.
  - rewrite IH by (by apply counted_step_inv).
    destruct r as [h granted]. destruct Hr as (Hmax & Hrange & _). cbn [fst snd] in *.
    cbn [counted_step heartbeat_step].
    destruct (should_attempt_reconnect_spec h Hmax Hrange) as (_ & _ & Hatt).
    destruct (should_attempt_reconnect h) as [g h']. cbn [fst snd] in *. lia.
Qed.

(** X9: a heartbeat grants at most five reconnects between two calls of
    [mark_connected] or [reset]: along every sequence of calls on a new
    heartbeat the attempt counter stays between 0 and 5 and counts the
    reconnects granted since the last such call, a reconnect is granted
    exactly when the counter is below 5, and after five requests in a row
    the next one is refused. *)
Theorem reconnect_budget (calls : list heartbeat_call) (now : Z) :
  let h := (heartbeat_run calls (heartbeat_new now)).1 in
  let granted := (heartbeat_run calls (heartbeat_new now)).2 in
  (0 ≤ granted ≤ 5)%Z
  ∧ granted = reconnect_attempts_ h
  ∧ (should_attempt_reconnect h).1 = bool_decide (granted < 5)%Z
  ∧ (should_attempt_reconnect
       (heartbeat_run (calls ++ replicate 5 ShouldAttemptReconnect)
                      (heartbeat_new now)).1).1 = false.
Proof.
  cbn zeta. unfold heartbeat_run.
  assert (heartbeat_inv (heartbeat_new now, reconnect_attempts_ (heartbeat_new now)))
    as Hnew by (split; [done|]; cbn; lia).
  pose proof (heartbeat_fold_inv calls _ Hnew) as Hinv.
  pose proof Hinv as (Hmax & Hrange & Hg).
  split; [lia|]. split; [done|].
  split.
  { destruct (should_attempt_reconnect_spec _ Hmax Hrange) as (-> & _). by rewrite Hg. }
  rewrite foldl_app.
  pose proof (heartbeat_fold_inv (replicate 5 ShouldAttemptReconnect) _ Hinv)
    as (Hmax5 & Hrange5 & _).
  destruct (should_attempt_reconnect_spec _ Hmax5 Hrange5) as (-> & _).
  rewrite attempts_after_asking by done. apply bool_decide_eq_false_2. lia.
Qed.

(** *** [load_cached_configs] *)

Lemma load_inner (lines : list string) (configs : gset string) :
  foldl (fun configs line =>
           if negb (str_empty line) && Utils.contains "://" line
           then {[ line ]} ∪ configs else configs) configs lines
  = list_to_set (filter (fun line => Utils.contains "://" line = true) lines) ∪ configs.
Proof.
  revert configs. induction lines as [|line lines IH]; intros configs; cbn [foldl].
  - set_solver.
  - rewrite IH, filter_cons. destruct (Utils.contains "://" line) eqn:Hc.
    + destruct line as [|c line]; [done|]. cbn [str_empty negb andb].
      rewrite decide_True by done. set_solver.
    + rewrite andb_false_r. rewrite decide_False by done. done.
Qed.

Lemma load_closed_form (c : SmartCache) (fs : filesystem) (max_count : Z)
    (working_only : bool) :
  load_cached_configs c fs max_count working_only
  = ⋃ ((fun path => list_to_set (taken_lines fs max_count path))
         <$> cache_sources c working_only).
Proof.
  unfold load_cached_configs, cache_sources, taken_lines.
  destruct working_only; cbn [foldl fmap list_fmap union_list]; rewrite !load_inner;
    set_solver.
Qed.

Lemma load_elem c fs max_count working_only uri :
  uri ∈ load_cached_configs c fs max_count working_only
  ↔ ∃ path, path ∈ cache_sources c working_only ∧ uri ∈ taken_lines fs max_count path.
Proof.
  rewrite load_closed_form, elem_of_union_list. split.
  - intros (X & HX & Huri). apply list_elem_of_fmap in HX as (path & -> & Hpath).
    exists path. by rewrite elem_of_list_to_set in Huri.
  - intros (path & Hpath & Huri). eexists. split.
    + apply list_elem_of_fmap. by exists path.
    + by apply elem_of_list_to_set.
Qed.

(** X10: [load_cached_configs] returns the lines holding [://] among the
    last [max_count] lines of each cache file it reads (the working file
    alone when [working_only]): all the lines of a file with no more than
    [max_count] lines, none when [max_count = 0]; a negative [max_count],
    cast to [size_t], is a cap of at least 2^63 lines. *)
Theorem load_cached_configs_spec (c : SmartCache) (fs : filesystem) (max_count : Z)
    (working_only : bool) :
  let cap := Z.to_nat (max_count mod 2 ^ 64) in
  let has_scheme := fun line => Utils.contains "://" line = true in
  (∀ uri, uri ∈ load_cached_configs c fs max_count working_only
          ↔ ∃ path, path ∈ cache_sources c working_only
                    ∧ uri ∈ taken_lines fs max_count path)
  ∧ (∀ path before kept,
        read_lines fs path = before ++ kept → length kept = cap →
        taken_lines fs max_count path = filter has_scheme kept)
  ∧ (∀ path, (length (read_lines fs path) ≤ cap)%nat →
        taken_lines fs max_count path = filter has_scheme (read_lines fs path))
  ∧ (max_count = 0%Z → load_cached_configs c fs max_count working_only = ∅)
  ∧ ((INT_MIN ≤ max_count < 0)%Z → (2 ^ 63 ≤ max_count mod 2 ^ 64)%Z)
  ∧ cache_sources c true = [resolve_path c (working_cache_file_ c)].
Proof.
  cbn zeta. split; [|split; [|split; [|split; [|split]]]].
  - intros uri. apply load_elem.
  - intros path before kept Hlines Hkept. unfold taken_lines. cbn zeta.
    rewrite Hlines, length_app, <- Hkept.
    destruct (_ <? _)%nat eqn:Hlt.
    + replace (length before + length kept - length kept)%nat with (length before) by lia.
      by rewrite drop_app_length.
    + apply Nat.ltb_ge in Hlt.
      assert (before = []) as -> by (destruct before; [done|cbn in Hlt; lia]). done.
  - intros path Hlen. unfold taken_lines. cbn zeta.
    destruct (_ <? _)%nat eqn:Hlt; [apply Nat.ltb_lt in Hlt; lia|]. done.
  - intros ->. rewrite load_closed_form. apply empty_union_list_L, Forall_forall.
    intros X (path & -> & _)%list_elem_of_fmap. unfold taken_lines. cbn zeta.
    change (Z.to_nat (0 mod 2 ^ 64)) with O.
    destruct (0 <? length (read_lines fs path))%nat eqn:Hlt.
    + rewrite Nat.sub_0_r, drop_all. done.
    + apply Nat.ltb_ge in Hlt. by destruct (read_lines fs path); [|cbn in Hlt; lia].
  - unfold INT_MIN. intros Hneg.
    replace (max_count mod 2 ^ 64)%Z with (max_count + 2 ^ 64)%Z; [lia|].
    symmetry. rewrite <- (Z.mod_add max_count 1) by lia. apply Z.mod_small. lia.
  - done.
Qed.

Lemma lf_terminated_line (x : string) : lf_terminated (x +:+ String LF "") = true.
Proof.
  induction x as [|c x IH]; [done|].
  rewrite str_app_cons. destruct x as [|d x]; [done|].
  rewrite str_app_cons in *. exact IH.
Qed.

(** a line without line feed is a line of what [write_out] writes,
    whatever the other lines are *)
Lemma getlines_write_out_elem (lines : list string) (x : string) :
  x ∈ lines → contains_char LF x = false → x ∈ getlines (write_out lines).
Proof.
  induction lines as [|y lines IH]; intros Hin Hx; [by apply elem_of_nil in Hin|].
  cbn [write_out].
  replace (y +:+ String LF (write_out lines))
    with ((y +:+ String LF "") +:+ write_out lines)
    by (by rewrite str_app_assoc, str_app_cons, str_app_nil).
  rewrite getlines_app by apply lf_terminated_line.
  apply elem_of_app. apply elem_of_cons in Hin as [<-|Hin].
  - left. rewrite getlines_line by done. apply list_elem_of_here.
  - right. by apply IH.
Qed.

Lemma append_unique_lines_files (fs : filesystem) (path : string) (lines : list string) :
  fs_appendable fs path = true →
  (append_unique_lines fs path lines).2
  = match first_seen (list_to_set (read_lines fs path)) (filter nonempty lines) with
    | [] => fs
    | new_lines => append_to fs path (write_out new_lines)
    end.
Proof.
  intros Happ. unfold append_unique_lines. rewrite collect_new_spec.
  destruct (first_seen _ _); [done|]. by rewrite Happ.
Qed.

(** X11: what a Save appended a Load finds again: after [save_configs] of
    any list on a file that can be appended to and is empty or ends with a
    line feed, every URI of the list that is clean and holds [://] is among
    the configs [load_cached_configs] returns, whatever the other URIs of
    the list are, as long as the file has no more than [max_count] lines. *)
Theorem saved_configs_load_back (c : SmartCache) (fs : filesystem) (now : Z)
    (configs : list string) (working : bool) (max_count : Z) :
  let target := target_path c working in
  let saved := save_configs c fs now configs working in
  fs_appendable fs target = true →
  lf_terminated (default "" (fs_files fs !! target)) = true →
  (length (read_lines saved.2 target) ≤ Z.to_nat (max_count mod 2 ^ 64))%nat →
  ∀ uri, uri ∈ configs → clean_line uri = true → Utils.contains "://" uri = true →
         uri ∈ load_cached_configs saved.1.2 saved.2 max_count working.
Proof.
  intros target saved Happ Hterm Hcap uri Huri Hclean Hscheme.
  assert (uri ≠ "") as Hne by (intros ->; done).
  assert (target_path saved.1.2 working = target) as Htarget
    by apply target_path_save.
  assert (saved.2 = (append_unique_lines fs target configs).2) as Hfs.
  { subst saved. unfold save_configs. fold target.
    by destruct (append_unique_lines fs target configs) as [appended fs']. }
  apply load_elem. exists target. split.
  { rewrite <- Htarget. unfold cache_sources, target_path.
    destruct working; set_solver. }
  unfold taken_lines. cbn zeta. apply list_elem_of_filter. split; [done|].
  destruct (_ <? _)%nat eqn:Hlt; [apply Nat.ltb_lt in Hlt; lia|]. cbn [drop].
  rewrite Hfs, append_unique_lines_files by done.
  destruct (decide (uri ∈ read_lines fs target)) as [Hin|Hnin].
  - (* already a line of the file, which the save leaves in place *)
    destruct (first_seen _ _) as [|x new_lines]; [done|].
    unfold read_lines, append_to in *. cbn [fs_files].
    rewrite lookup_insert_eq.
    destruct (fs_files fs !! target) as [data|]; [|by apply elem_of_nil in Hin].
    cbn [default] in *. rewrite getlines_app, fmap_app, filter_app by done.
    apply elem_of_app. by left.
  - (* appended by the save *)
    assert (uri ∈ first_seen (list_to_set (read_lines fs target)) (filter nonempty configs))
      as Hnew.
    { apply first_seen_spec. split.
      - apply list_elem_of_filter. split; [by apply str_empty_false|done].
      - by rewrite elem_of_list_to_set. }
    destruct (first_seen _ _) as [|x new_lines] eqn:Hfirst; [by apply elem_of_nil in Hnew|].
    unfold read_lines, append_to. cbn [fs_files]. rewrite lookup_insert_eq.
    rewrite getlines_app, fmap_app, filter_app by done.
    apply elem_of_app. right. apply list_elem_of_filter.
    split; [by apply str_empty_false|].
    rewrite <- (clean_line_trim uri Hclean). apply list_elem_of_fmap_2.
    apply getlines_write_out_elem; [done|by apply clean_line_no_lf].
Qed.

End CacheMore.

Lemma saved_configs_load_back_witness :
  let saved := Cache.save_configs Cache.default_cache Utils.empty_fs 7
                 [" pad ://x"; "vless://u@h:443"; "two" +:+ String Utils.LF "lines://y"] true in
  "vless://u@h:443" ∈ Cache.load_cached_configs saved.1.2 saved.2 1000 true.
Proof.
  apply (saved_configs_load_back Cache.default_cache Utils.empty_fs 7
           [" pad ://x"; "vless://u@h:443"; "two" +:+ String Utils.LF "lines://y"] true 1000).
  - reflexivity.
  - reflexivity.
  - apply Nat.leb_le. vm_compute. reflexivity.
  - apply list_elem_of_further, list_elem_of_here.
  - reflexivity.
  - reflexivity.
Defined.


(** ** parsers/uri_parser.cpp and security/obfuscation.cpp *)

Section ShapeProperties.
Import Utils Json UriParser Pipeline.
Context `{StdLib} `{JsonLib}.

Ltac bind_step H :=
  let a := fresh "a" in
  let E := fresh "E" in
  apply bind_returns in H as (a & E & H).

Ltac lookup_simpl :=
  repeat first [ rewrite lookup_insert_eq
               | rewrite lookup_insert_ne by done
               | rewrite lookup_empty ].

Import Obfuscation.

Lemma set_member_object (v v' x : json) (key : string) :
  set_member v key x = Returns v' →
  is_object v' = true
  ∧ at_path [key] v' = Some x
  ∧ ∀ k p, k ≠ key → at_path (k :: p) v' = at_path (k :: p) v.
Proof.
  destruct v as [| | | | | |m]; try discriminate; cbn; intros [= <-]; cbn.
  - rewrite lookup_singleton_eq. split; [done|]. split; [done|].
    intros k p Hk. by rewrite lookup_singleton_ne.
  - rewrite lookup_insert_eq. split; [done|]. split; [done|].
    intros k p Hk. by rewrite lookup_insert_ne.
Qed.

Lemma is_object_settable (v : json) : is_object v = true → settable v = true.
Proof. by destruct v. Qed.

Lemma update_member_other (v v' : json) (key : string) (f : json → outcome json) :
  update_member v key f = Returns v' →
  ∀ k p, k ≠ key → at_path (k :: p) v' = at_path (k :: p) v.
Proof.
  destruct v as [| | | | | |m]; try discriminate; cbn.
  - destruct (f JNull); [|discriminate]. intros [= <-] k p Hk. cbn.
    by rewrite lookup_singleton_ne.
  - destruct (f _); [|discriminate]. intros [= <-] k p Hk. cbn.
    by rewrite lookup_insert_ne.
Qed.

Lemma at_path_cons_some key path (j : json) :
  at_path (key :: path) j = (at_path [key] j) ≫= at_path path.
Proof. destruct j; try done. cbn. by destruct (_ !! key). Qed.

Lemma stream_step (o o' v : json) (key : string) :
  update_member o "streamSettings" (fun s => set_member s key v) = Returns o' →
  key ≠ "sockopt" →
  settable v = true →
  (∀ h, at_path ["headers"] v = Some h → settable h = true) →
  stream_ok o →
  stream_ok o'
  ∧ ∀ k p, k ≠ "streamSettings" → at_path (k :: p) o' = at_path (k :: p) o.
Proof.
  intros Hupd Hkey Hv Hheaders Hok. split; [|by eapply update_member_other].
  apply update_member_value in Hupd as (new & Hnew & Hat).
  intros settings Hs. rewrite (Hat []) in Hs. cbn in Hs. injection Hs as <-.
  apply set_member_object in Hnew as (Hobj & Hkeyv & Hother).
  assert (indexable (default JNull (at_path ["streamSettings"] o))
          ∧ at_path ["sockopt"] (default JNull (at_path ["streamSettings"] o)) = None)
    as [Hold Hsock].
  { destruct (at_path ["streamSettings"] o) as [s|] eqn:Hs;
      [by destruct (Hok s Hs) as (_ & ? & ?)|]. by repeat split. }
  split; [done|]. split; [|by rewrite Hother].
  destruct Hold as (H1 & H2 & H3 & H4).
  assert (∀ k, (∀ x, at_path [k] (default JNull (at_path ["streamSettings"] o)) = Some x →
                     settable x = true) →
               ∀ x, at_path [k] new = Some x → settable x = true) as Hone.
  { intros k Hk x Hx. destruct (decide (k = key)) as [->|Hne].
    - rewrite Hkeyv in Hx. by injection Hx as <-.
    - rewrite Hother in Hx by done. by apply Hk. }
  split; [by apply Hone|]. split; [by apply Hone|]. split; [by apply Hone|].
  intros x Hx. destruct (decide ("wsSettings" = key)) as [<-|Hne].
  - rewrite at_path_cons_some, Hkeyv in Hx. cbn [mbind option_bind] in Hx. by apply Hheaders.
  - rewrite Hother in Hx by done. by apply H4.
Qed.

Lemma update_member_object (v v' : json) (key : string) (f : json → outcome json) :
  update_member v key f = Returns v' → is_object v' = true.
Proof.
  destruct v as [| | | | | |m]; try discriminate; cbn.
  - destruct (f JNull); [|discriminate]. by intros [= <-].
  - destruct (f _); [|discriminate]. by intros [= <-].
Qed.

Lemma shape_step (o o' v : json) (key host_ : string) (port_ : Z) :
  update_member o "streamSettings" (fun s => set_member s key v) = Returns o' →
  key ≠ "sockopt" →
  settable v = true →
  (∀ h, at_path ["headers"] v = Some h → settable h = true) →
  outbound_shape o host_ port_ → outbound_shape o' host_ port_.
Proof.
  intros Hupd Hkey Hv Hheaders (Hobj & Hproto & Hsrv & Hstream).
  destruct (stream_step _ _ _ _ Hupd Hkey Hv Hheaders Hstream) as [Hstream' Hother].
  split; [by eapply update_member_object|].
  split; [by rewrite Hother|].
  split; [|done]. unfold first_server in *. by rewrite Hother.
Qed.

Lemma obj_lookup_here key (v : json) members path :
  at_path (key :: path) (obj ((key, v) :: members)) = at_path path v.
Proof. cbn. by rewrite lookup_insert_eq. Qed.

Lemma obj_lookup_further key k (v : json) members path :
  k ≠ key →
  at_path (key :: path) (obj ((k, v) :: members)) = at_path (key :: path) (obj members).
Proof. intros. cbn. by rewrite lookup_insert_ne. Qed.

Lemma obj_lookup_nil key path : at_path (key :: path) (obj []) = None.
Proof. done. Qed.

Ltac obj_simpl :=
  repeat first [ rewrite obj_lookup_here
               | rewrite obj_lookup_further by done
               | rewrite obj_lookup_nil ].

Ltac obj_simpl_in H :=
  repeat first [ rewrite obj_lookup_here in H
               | rewrite obj_lookup_further in H by done
               | rewrite obj_lookup_nil in H ].

Lemma plain_stream_ok (o : json) members :
  at_path ["streamSettings"] o = Some (obj members) →
  Forall (fun kv => kv.1 ∉ ["tlsSettings"; "grpcSettings"; "wsSettings"; "sockopt"])
         members →
  stream_ok o.
Proof.
  intros Ho Hm settings Hs. rewrite Ho in Hs. injection Hs as <-.
  assert (∀ k path, k ∈ ["tlsSettings"; "grpcSettings"; "wsSettings"; "sockopt"] →
                    at_path (k :: path) (obj members) = None) as Hnone.
  { clear Ho. intros k path Hk. induction Hm as [|[k' v] members Hk' _ IH]; [done|].
    rewrite obj_lookup_further; [done|]. intros ->. by apply Hk'. }
  split; [done|]. split; [|apply Hnone; set_solver].
  repeat split; intros v; rewrite Hnone; try done; set_solver.
Qed.

Lemma first_server_vnext o srv servers members :
  at_path ["settings"] o = Some (obj (("vnext", JArray (srv :: servers)) :: members)) →
  first_server o = Some srv.
Proof. unfold first_server. intros ->. cbn. by rewrite lookup_insert_eq. Qed.

Lemma first_server_servers o srv servers :
  at_path ["settings"] o = Some (obj [("servers", JArray (srv :: servers))]) →
  first_server o = Some srv.
Proof.
  unfold first_server. intros ->. cbn.
  rewrite lookup_insert_ne, lookup_empty by done. by rewrite lookup_insert_eq.
Qed.

Lemma VLESS_shape (uri_ : string) (cfg : HunterParsedConfig) :
  VLESSParser_parse uri_ = Returns (Some cfg) →
  outbound_shape (outbound cfg) (host cfg) (port cfg).
Proof.
  intros Hp%try_catch_some. unfold VLESS_body in Hp. cbn zeta in Hp.
  destruct (_ || _) eqn:Hguard; [discriminate|].
  bind_step Hp. rename a into o1. rename E into E1.
  bind_step Hp. rename a into o2. rename E into E2.
  injection Hp as <-. cbn [outbound host port].
  set (host_ := hostname (parse_url uri_)) in *.
  set (port_ := if (0 <? _)%Z then _ else _) in *.
  set (params := parse_query_string _) in *.
  match type of E1 with context [update_member ?o _ _] => set (o0 := o) in * end.
  assert (outbound_shape o0 host_ port_) as Hinit.
  { subst o0. split; [done|]. split.
    { exists "vless". obj_simpl. split; [done|]. set_solver. }
    split.
    { eexists. split; [eapply first_server_vnext; obj_simpl; reflexivity|]. by obj_simpl. }
    eapply plain_stream_ok; [by obj_simpl|]. repeat constructor; cbn; set_solver. }
  assert (outbound_shape o1 host_ port_) as H1.
  { clearbody o0. destruct (_ || _) in E1; [|by injection E1 as <-].
    destruct (_ =? "reality") in E1.
    - bind_step E1. apply set_member_object in E as (_ & _ & F1).
      bind_step E1. apply set_member_object in E as (_ & _ & F2).
      bind_step E1. apply set_member_object in E as (S3 & _ & F3).
      eapply shape_step; [exact E1|done|by apply is_object_settable| |done].
      intros h. rewrite F3, F2, F1 by done. by obj_simpl.
    - eapply shape_step; [exact E1|done|done| |done]. intros h. by obj_simpl. }
  clear E1 Hinit. destruct (_ =? "ws") in E2.
  - eapply shape_step; [exact E2|done|done| |done]. intros h. obj_simpl. cbn [at_path]. by intros [= <-].
  - destruct (_ =? "grpc") in E2; [|by injection E2 as <-].
    eapply shape_step; [exact E2|done|done| |done]. intros h. by obj_simpl.
Qed.

Lemma VMess_shape (uri_ : string) (cfg : HunterParsedConfig) :
  VMessParser_parse uri_ = Returns (Some cfg) →
  outbound_shape (outbound cfg) (host cfg) (port cfg).
Proof.
  intros Hp%try_catch_some. unfold VMess_body in Hp.
  destruct (_ <? _)%nat; [discriminate|].
  apply bind_returns in Hp as (payload & _ & Hp).
  apply bind_returns in Hp as (j & _ & Hp).
  apply bind_returns in Hp as (host_ & _ & Hp).
  apply bind_returns in Hp as (port_ & _ & Hp).
  apply bind_returns in Hp as (uuid & _ & Hp).
  apply bind_returns in Hp as (ps_raw & _ & Hp). cbn zeta in Hp.
  destruct (_ || _) eqn:Hguard; [discriminate|].
  apply bind_returns in Hp as (alter_id & _ & Hp).
  apply bind_returns in Hp as (scy & _ & Hp).
  apply bind_returns in Hp as (net & _ & Hp).
  apply bind_returns in Hp as (tls & _ & Hp).
  apply bind_returns in Hp as (net' & _ & Hp).
  apply bind_returns in Hp as (o1 & E1 & Hp).
  apply bind_returns in Hp as (tls' & _ & Hp).
  apply bind_returns in Hp as (o2 & E2 & Hp).
  injection Hp as <-. cbn [outbound host port].
  match type of E1 with context [update_member ?o _ _] => set (o0 := o) in * end.
  assert (outbound_shape o0 host_ port_) as Hinit.
  { subst o0. split; [done|]. split.
    { exists "vmess". obj_simpl. split; [done|]. set_solver. }
    split.
    { eexists. split; [eapply first_server_vnext; obj_simpl; reflexivity|]. by obj_simpl. }
    eapply plain_stream_ok; [by obj_simpl|]. repeat constructor; cbn; set_solver. }
  assert (outbound_shape o1 host_ port_) as H1.
  { clearbody o0. destruct (_ =? "ws") in E1; [|by injection E1 as <-].
    do 2 bind_step E1.
    eapply shape_step; [exact E1|done|done| |done]. intros h. obj_simpl. cbn [at_path]. by intros [= <-]. }
  destruct (_ =? "tls") in E2; [|by injection E2 as <-].
  bind_step E2. eapply shape_step; [exact E2|done|done| |done]. intros h. by obj_simpl.
Qed.

Lemma Trojan_shape (uri_ : string) (cfg : HunterParsedConfig) :
  TrojanParser_parse uri_ = Returns (Some cfg) →
  outbound_shape (outbound cfg) (host cfg) (port cfg).
Proof.
  intros Hp%try_catch_some. unfold Trojan_body in Hp. cbn zeta in Hp.
  destruct (_ || _) eqn:Hguard; [discriminate|].
  injection Hp as <-. cbn [outbound host port].
  split; [done|]. split.
  { exists "trojan". obj_simpl. split; [done|]. set_solver. }
  split.
  { eexists. split; [eapply first_server_servers; obj_simpl; reflexivity|]. by obj_simpl. }
  intros s Hs. obj_simpl_in Hs. injection Hs as <-.
  split; [done|]. split; [|by obj_simpl].
  repeat split; intros v; obj_simpl; cbn [at_path]; try done. by intros [= <-].
Qed.

Lemma servers_shape (proto host_ : string) (port_ : Z) (rest : list (string * json)) :
  proto ∈ protocols →
  outbound_shape
    (obj [("protocol", JString proto);
          ("settings", obj [
             ("servers", JArray [obj (("address", JString host_)
                                      :: ("port", JInt port_) :: rest)])])])
    host_ port_.
Proof.
  intros Hproto. split; [done|]. split.
  { exists proto. by obj_simpl. }
  split.
  { eexists. split; [eapply first_server_servers; obj_simpl; reflexivity|]. by obj_simpl. }
  intros s Hs. by obj_simpl_in Hs.
Qed.

Lemma Shadowsocks_shape (uri_ : string) (cfg : HunterParsedConfig) :
  ShadowsocksParser_parse uri_ = Returns (Some cfg) →
  outbound_shape (outbound cfg) (host cfg) (port cfg).
Proof.
  intros Hp%try_catch_some. unfold Shadowsocks_body in Hp.
  destruct (find_char "#" uri_) as [hash_pos|];
    (apply bind_returns in Hp as (core & _ & Hp); cbn zeta in Hp;
     destruct (find_char "@" _) as [?|]; [|discriminate];
     destruct (negb _); [discriminate|];
     destruct (catch_with _ _) as [? ?];
     (destruct (str_empty _ || str_empty _);
        [destruct (split_at_colon _) as [[? ?]|]; [|discriminate]|]);
     destruct (rfind_char ":" _) as [?|];
     (destruct (stoi _) as [?|]; [|discriminate]);
     (destruct (_ || _); [discriminate|]);
     injection Hp as <-; cbn [outbound host port];
     apply servers_shape; set_solver).
Qed.

Lemma Universal_shape (uri_ : string) (cfg : HunterParsedConfig) :
  UniversalParser_parse uri_ = Returns (Some cfg) →
  outbound_shape (outbound cfg) (host cfg) (port cfg).
Proof.
  unfold UniversalParser_parse. destruct (str_empty uri_); [discriminate|].
  destruct (find "://" uri_); [|discriminate]. cbn zeta.
  destruct (_ =? "vmess"); [apply VMess_shape|].
  destruct (_ =? "vless"); [apply VLESS_shape|].
  destruct (_ =? "trojan"); [apply Trojan_shape|].
  destruct (_ || _); [apply Shadowsocks_shape|discriminate].
Qed.

Lemma obfuscation_returns (e : StealthObfuscationEngine) (o : json) :
  is_object o = true → stream_ok o →
  ∃ conf e', apply_obfuscation_to_config e o = Returns (conf, e').
Proof.
  intros Hobj Hstream. unfold apply_obfuscation_to_config.
  destruct (_ || _) eqn:Hoff; [by eexists _, _|].
  apply orb_false_iff in Hoff as [_ Hc%negb_false_iff].
  apply contains_at_path in Hc. destruct (at_path ["streamSettings"] o) as [s|] eqn:Hs; [|done].
  destruct (Hstream s Hs) as (_ & Hidx & _).
  destruct (rewrite_settings_returns (get_current_sni e) s Hidx) as [s' Hs'].
  destruct o as [| | | | | |m]; try discriminate. cbn in Hs.
  destruct (m !! "streamSettings") as [s0|] eqn:Hm; [|done]. cbn in Hs. injection Hs as ->.
  cbn. rewrite Hm. cbn. rewrite Hs'. cbn. by eexists _, _.
Qed.

(** X12: the outbound of a config that the universal parser returns is an
    object naming one of the four protocols whose first server carries the
    host and port of the config; its stream settings, if any, are an object
    without [sockopt] whose TLS, gRPC and WebSocket members are objects; and
    the SNI rewrite of the obfuscation engine returns on that outbound, for
    every engine. *)
Theorem parsed_outbound_shape (uri_ : string) (e : StealthObfuscationEngine) :
  match UniversalParser_parse uri_ with
  | Returns (Some cfg) =>
      outbound_shape (outbound cfg) (host cfg) (port cfg)
      ∧ ∃ conf e', apply_obfuscation_to_config e (outbound cfg) = Returns (conf, e')
  | _ => True
  end.
Proof.
  destruct (UniversalParser_parse uri_) as [[cfg|]|] eqn:Hp; [|done..].
  pose proof (Universal_shape _ _ Hp) as Hshape.
  split; [done|]. destruct Hshape as (Hobj & _ & _ & Hstream). by apply obfuscation_returns.
Qed.

End ShapeProperties.

(** ** proxy/load_balancer.cpp *)

Section BalancerMore.
Import Utils Json UriParser Balancer.
Context {World : Type} (now_ts : World → Z) `{StdLib} `{JsonLib}.
Context (std_sort : list (string * double) → list (string * double)).

#[local] Existing Instances M_bind M_ret.
#[local] Abbreviation state_t := (state World).

Ltac munfold' :=
  unfold mbind, M_bind, mret, M_ret, lift, this, assign, clock.

Lemma probe_in_turn_picks (count : Z) (configs : list (string * double))
    (working : list BackendInfo) (st : state_t) :
  let r := probe_in_turn now_ts count configs working st in
  failed_uris_ (server st) ⊆ failed_uris_ (server r.2)
  ∧ ∀ bs, r.1 = Returns bs →
      ∃ picked, bs = working ++ picked
        ∧ Forall (fun b => healthy b = true) picked
        ∧ (b_uri <$> picked) `sublist_of` configs.*1
        ∧ Forall (fun b => b_uri b ∉ failed_uris_ (server st)) picked
        ∧ ((Z.of_nat (length working + length configs) ≤ INT_MAX)%Z →
           (Z.of_nat (length bs) ≤ Z.max count (Z.of_nat (length working)))%Z).
Proof.
  revert working st. induction configs as [|[uri_ latency] configs IH];
    intros working st; cbn [probe_in_turn].
  - munfold'. cbn. split; [done|]. intros bs [= <-]. exists [].
    rewrite app_nil_r. repeat split; try done; try constructor. lia.
  - destruct (count <=? _)%Z eqn:Hfull.
    { munfold'. cbn. split; [done|]. intros bs [= <-]. exists [].
      rewrite app_nil_r. repeat split; try done; try constructor.
      - apply sublist_nil_l.
      - lia. }
    munfold'. cbn [fst snd].
    destruct (bool_decide (uri_ ∈ failed_uris_ (server st))) eqn:Hfailed.
    { destruct (IH working st) as [Hgrow Hbs]. split; [done|].
      intros bs Hr. destruct (Hbs bs Hr) as (picked & -> & Hh & Hsub & Hnf & Hlen).
      exists picked. split; [done|]. split; [done|].
      split; [by apply sublist_cons|]. split; [done|].
      intros Hsmall. apply Hlen. cbn [length] in Hsmall. lia. }
    apply bool_decide_eq_false in Hfailed.
    destruct (test_backend_run uri_ 8 st) as (evs & Hserver & _ & _).
    destruct (Balancer.test_backend uri_ 8 st) as [r st1]. cbn [fst snd] in *.
    destruct r as [[lat|]|e].
    + destruct (IH (working ++ [{| b_uri := uri_; b_latency := lat; healthy := true;
                                   added_at := now_ts (world st1) |}]) st1)
        as [Hgrow Hbs].
      rewrite Hserver in Hgrow. split; [done|].
      intros bs Hr. destruct (Hbs bs Hr) as (picked & -> & Hh & Hsub & Hnf & Hlen).
      eexists (_ :: picked). rewrite <- app_assoc. split; [reflexivity|].
      split; [by constructor|]. split; [by apply sublist_skip|].
      split; [constructor; [done|by rewrite <- Hserver]|].
      intros Hsmall. rewrite length_app in Hlen. cbn [length] in *.
      apply Z.leb_gt in Hfull.
      rewrite to_int_small in Hfull by (unfold INT_MIN, INT_MAX in *; lia).
      rewrite !length_app in *. cbn [length] in *. lia.
    + set (st2 := {| server := with_failed ({[uri_]} ∪ failed_uris_ (server st1)) (server st1);
                     world := world st1; trace := trace st1 |}).
      destruct (IH working st2) as [Hgrow Hbs]. cbn in Hgrow. rewrite Hserver in Hgrow.
      split; [set_solver|].
      intros bs Hr. destruct (Hbs bs Hr) as (picked & -> & Hh & Hsub & Hnf & Hlen).
      exists picked. split; [done|]. split; [done|].
      split; [by apply sublist_cons|]. split.
      * eapply Forall_impl; [exact Hnf|]. cbn. rewrite Hserver. set_solver.
      * intros Hsmall. apply Hlen. cbn [length] in Hsmall. lia.
    + cbn. rewrite Hserver. split; [done|]. intros bs. discriminate.
Qed.

(** X13: [find_working_backends] answers backends that are healthy, whose URIs
    are taken in order from the sorted available configs and had not failed
    before, no more than [count] of them; the set of failed URIs only
    grows; and when [count] is not positive or every available URI has
    failed before, it answers no backend and probes nothing. *)
Theorem find_working_backends_picks (count : Z) (st : state_t) :
  let sorted := std_sort (available_configs_ (server st)) in
  let r := find_working_backends now_ts std_sort count st in
  failed_uris_ (server st) ⊆ failed_uris_ (server r.2)
  ∧ (∀ bs, r.1 = Returns bs →
       Forall (fun b => healthy b = true) bs
       ∧ (b_uri <$> bs) `sublist_of` sorted.*1
       ∧ Forall (fun b => b_uri b ∉ failed_uris_ (server st)) bs
       ∧ ((Z.of_nat (length sorted) ≤ INT_MAX)%Z →
          (Z.of_nat (length bs) ≤ Z.max count 0)%Z))
  ∧ ((count ≤ 0)%Z ∨ (∀ uri_, uri_ ∈ sorted.*1 → uri_ ∈ failed_uris_ (server st)) →
     r = (Returns [], st)).
Proof.
  cbn zeta. unfold find_working_backends. munfold'. cbn [fst snd].
  set (sorted := std_sort _).
  destruct (probe_in_turn_picks count sorted [] st) as [Hgrow Hbs].
  split; [done|]. split.
  - intros bs Hr. destruct (Hbs bs Hr) as (picked & -> & Hh & Hsub & Hnf & Hlen).
    cbn [app length] in *. repeat split; try done.
  - clear Hgrow Hbs. intros Hnone. induction sorted as [|[uri_ latency] sorted IH]; [done|].
    cbn [probe_in_turn length]. change (to_int (Z.of_nat 0)) with 0%Z.
    destruct (count <=? 0)%Z eqn:Hcount; [done|]. apply Z.leb_gt in Hcount.
    destruct Hnone as [?|Hall]; [lia|]. munfold'. cbn [fst snd].
    rewrite bool_decide_eq_true_2 by (apply Hall; cbn; apply list_elem_of_here).
    apply IH. right. intros u Hu. apply Hall. cbn. by apply list_elem_of_further.
Qed.

Lemma steady_refl (st : state_t) : steady st st.
Proof. by repeat split. Qed.

Lemma steady_trans (a b c : state_t) : steady a b → steady b c → steady a c.
Proof.
  intros (? & ? & ? & ? & ? & ?) (? & ? & ? & ? & ? & ?).
  repeat split; congruence.
Qed.

Lemma steady_operation (op : operation) (st : state_t) :
  op ≠ OpStop →
  running_ (server st) = true →
  backends_ (server st) ≠ [] →
  Forall (fun b => healthy b = true) (backends_ (server st)) →
  steady st (run_operation now_ts std_sort op st).2.
Proof.
  intros Hop Hrun Hne Hhealthy. destruct op as [initial|configs| |]; [| | |done];
    cbn [run_operation].
  - unfold start. munfold'. cbn [fst snd]. rewrite Hrun. apply steady_refl.
  - unfold update_available_configs. munfold'.
    cbn [fst snd server running_ backends_ with_available]. rewrite Hrun. cbn [negb].
    destruct (backends_ (server st)) as [|b bs] eqn:Hb; [done|]. cbn [fst snd].
    repeat split; cbn; done.
  - unfold health_check_tick. munfold'. cbn [fst snd]. rewrite Hrun. cbn [negb].
    destruct (backends_ (server st)) as [|b bs] eqn:Hb; [done|].
    apply Forall_cons in Hhealthy as [Hb1 _]. rewrite filter_cons, decide_True by done.
    cbn [length fst snd]. repeat split; cbn; done.
Qed.

(** X14: once a running balancer has backends it keeps them: whatever is
    started, updated or ticked afterwards, before the next [stop], the
    backends, the engine handle, the failed URIs and the host stay as they
    are and no engine call is made. *)
Theorem chosen_backends_kept port num_backends health_check_interval
    obfuscation_engine iran_fragment_enabled start_cb stop_cb test_cb (w : World)
    (before after : list operation) :
  let st :=
    run now_ts std_sort before
      {| server := new port num_backends health_check_interval obfuscation_engine
                     iran_fragment_enabled start_cb (Some stop_cb) test_cb;
         world := w; trace := [] |} in
  running_ (server st) = true →
  backends_ (server st) ≠ [] →
  Forall (fun op => op ≠ OpStop) after →
  steady st (run now_ts std_sort after st).
Proof.
  intros st Hrun Hne Hafter.
  assert (balancer_inv st) as Hinv by apply run_inv, new_inv.
  destruct Hinv as (_ & _ & _ & Hhealthy). clearbody st.
  assert (∀ st', steady st st' → steady st (run now_ts std_sort after st')) as Hgen.
  { induction Hafter as [|op after Hop Hafter IH]; intros st' Hst'; [done|].
    cbn [run foldl]. apply IH. eapply steady_trans; [exact Hst'|].
    destruct Hst' as (_ & _ & Hb & _ & Hr & _).
    apply steady_operation; [done|congruence|congruence|by rewrite Hb]. }
  apply Hgen, steady_refl.
Qed.

(** X15: [stop] releases the engine: after any operations that end with a
    [stop], on a balancer with a stop hook, the balancer is not running, holds
    no handle (its handle is negative) and no engine handle is live; and at any time a handle is held
    only by a running balancer with backends, all of them healthy. *)
Theorem stop_releases_engine port num_backends health_check_interval
    obfuscation_engine iran_fragment_enabled start_cb stop_cb test_cb (w : World)
    (ops : list operation) :
  let fresh :=
    {| server := new port num_backends health_check_interval obfuscation_engine
                   iran_fragment_enabled start_cb (Some stop_cb) test_cb;
       world := w; trace := [] |} in
  let st := run now_ts std_sort ops fresh in
  let stopped := run now_ts std_sort (ops ++ [OpStop]) fresh in
  running_ (server stopped) = false
  ∧ (current_proxy_handle_ (server stopped) < 0)%Z
  ∧ live_after (trace stopped) = []
  ∧ ((0 ≤ current_proxy_handle_ (server st))%Z →
     running_ (server st) = true ∧ backends_ (server st) ≠ []
     ∧ Forall (fun b => healthy b = true) (backends_ (server st))).
Proof.
  intros fresh st stopped.
  assert (balancer_inv st) as Hinv by apply run_inv, new_inv.
  assert (balancer_inv stopped) as Hinv' by apply run_inv, new_inv.
  assert (stopped = (stop st).2) as Hstopped
    by (subst stopped st; unfold run; by rewrite foldl_app).
  destruct Hinv as (Hhook & _ & Hheld & Hhealthy).
  destruct Hinv' as (_ & [_ Hlive] & _ & _).
  assert (running_ (server stopped) = false
          ∧ (current_proxy_handle_ (server stopped) < 0)%Z) as [Hr Hh].
  { rewrite Hstopped. clearbody st. clear -Hhook. unfold stop, stop_existing. munfold'.
    cbn [fst snd server stop_proxy_cb_ current_proxy_handle_ with_running].
    destruct (stop_proxy_cb_ (server st)) as [cb|] eqn:Hcb; [|done].
    destruct (0 <=? current_proxy_handle_ (server st))%Z eqn:Hpos.
    - by unfold call_stop.
    - cbn. split; [done|]. by apply Z.leb_gt. }
  split; [done|]. split; [done|]. split; [by rewrite Hlive, handle_list_negative|].
  intros Hpos. destruct (Hheld Hpos) as [? ?]. done.
Qed.

(** X16: a probe engine listens between 51 and 149 ports above the port of
    the balancer, so never on the port of the balancer itself. *)
Theorem probe_port_range (port : Z) (uri_ : string) :
  (0 ≤ port ≤ 65535)%Z →
  (port + 51 ≤ probe_port port uri_ ≤ port + 149)%Z.
Proof.
  intros Hport. unfold probe_port.
  pose proof (Z.rem_bound_abs (to_int (std_hash uri_)) 50) as Hrem.
  assert (-50 < Z.rem (to_int (std_hash uri_)) 50 < 50)%Z as Hr by lia.
  rewrite (to_int_small (port + 100 + _)) by (unfold INT_MIN, INT_MAX; lia).
  destruct (_ <? 0)%Z eqn:Hneg; [apply Z.ltb_lt in Hneg; lia|]. lia.
Qed.

End BalancerMore.

Lemma chosen_backends_kept_witness :
  let st :=
    Balancer.run (H := Sample.stdlib) (H0 := Sample.jsonlib) (fun _ => 0%Z) (fun l => l)
      [Balancer.OpStart (Some [("vless://u@h:443", dconst 1)])]
      (Sample.balancer 204) in
  Balancer.steady st
    (Balancer.run (H := Sample.stdlib) (H0 := Sample.jsonlib) (fun _ => 0%Z) (fun l => l)
       [Balancer.OpHealthTick;
        Balancer.OpUpdateAvailable [("vless://x@y:443", dconst 2)];
        Balancer.OpStart None]
       st).
Proof.
  apply (chosen_backends_kept (World := Z * Z) (H := Sample.stdlib) (H0 := Sample.jsonlib)
           (fun _ => 0%Z) (fun l => l) 10808%Z 5%Z 60%Z None false
           (Some Sample.start_cb) Sample.stop_cb (Some Sample.test_cb) (204%Z, 0%Z)
           [Balancer.OpStart (Some [("vless://u@h:443", dconst 1)])]
           [Balancer.OpHealthTick;
            Balancer.OpUpdateAvailable [("vless://x@y:443", dconst 2)];
            Balancer.OpStart None]).
  - by vm_compute.
  - by vm_compute.
  - repeat constructor; discriminate.
Defined.

Lemma probe_port_range_witness :
  (10808 + 51
   ≤ Balancer.probe_port (H := Sample.stdlib) 10808 "vless://u@h:443"
   ≤ 10808 + 149)%Z.
Proof. apply (probe_port_range (H := Sample.stdlib) 10808 "vless://u@h:443"). lia. Defined.

(** ** The config of the balancer *)

Section BalancedConfigProperties.
Import Utils Json UriParser Obfuscation Pipeline Balancer.
Context {World : Type} `{StdLib} `{JsonLib}.

#[local] Existing Instances M_bind M_ret.
#[local] Abbreviation state_t := (state World).

Ltac munfold' :=
  unfold mbind, M_bind, mret, M_ret, lift, this, assign, clock.

Lemma universal_returns (uri_ : string) : ∃ r, UniversalParser_parse uri_ = Returns r.
Proof.
  unfold UniversalParser_parse.
  destruct (str_empty uri_); [by eexists|].
  destruct (find "://" uri_); [|by eexists].
  repeat (destruct (_ : bool); [apply try_catch_total|]).
  by eexists.
Qed.

Lemma step_object (s s1 : json) (key : string) (f : json → outcome json) :
  (if Json.contains s key then update_member s key f else Returns s) = Returns s1 →
  is_object s = true → is_object s1 = true.
Proof.
  destruct (Json.contains s key); [intros Hu _; by eapply update_member_object|].
  by intros [= <-].
Qed.

Lemma rewrite_settings_object (sni : string) (s s' : json) :
  rewrite_settings sni s = Returns s' → is_object s = true → is_object s' = true.
Proof.
  unfold rewrite_settings. intros Hr Hs.
  apply bind_returns_inv in Hr as (s1 & H1 & Hr).
  apply bind_returns_inv in Hr as (s2 & H2 & H3).
  eapply step_object; [exact H3|]. eapply step_object; [exact H2|].
  by eapply step_object.
Qed.

(** what the fragment mode needs of an outbound *)
Lemma obfuscation_keeps (e : StealthObfuscationEngine) (o : json) :
  is_object o = true → stream_ok o →
  ∃ conf e', apply_obfuscation_to_config e o = Returns (conf, e')
    ∧ is_object conf = true
    ∧ (∀ s, at_path ["streamSettings"] conf = Some s →
            is_object s = true ∧ at_path ["sockopt"] s = None)
    ∧ ∀ k p, k ≠ "streamSettings" → at_path (k :: p) conf = at_path (k :: p) o.
Proof.
  intros Hobj Hstream.
  destruct (obfuscation_returns e o Hobj Hstream) as (conf & e' & Hr).
  exists conf, e'. split; [done|]. unfold apply_obfuscation_to_config in Hr.
  destruct (_ || _) eqn:Hoff.
  { injection Hr as <- <-. split; [done|]. split; [|done].
    intros s Hs. by destruct (Hstream s Hs) as (? & _ & ?). }
  apply orb_false_iff in Hoff as [_ Hc%negb_false_iff]. apply contains_at_path in Hc.
  apply bind_returns_inv in Hr as (conf' & Hupd & [= <- <-]).
  split; [by eapply update_member_object|].
  split; [|by eapply update_member_other].
  apply update_member_value in Hupd as (new & Hnew & Hat).
  intros s Hs. rewrite (Hat []) in Hs. cbn in Hs. injection Hs as <-.
  destruct (at_path ["streamSettings"] o) as [s|] eqn:Hs; cbn [default] in Hnew.
  - destruct (Hstream s Hs) as (Hso & _ & Hsock).
    split; [by eapply rewrite_settings_object|].
    apply rewrite_settings_spec in Hnew as (Hagree & _).
    rewrite Hagree; [done|]. by repeat constructor.
  - done.
Qed.

Lemma dial_returns (o : json) :
  is_object o = true →
  (∀ s, at_path ["streamSettings"] o = Some s →
        is_object s = true ∧ at_path ["sockopt"] s = None) →
  ∃ o', dial_through_fragment o = Returns o'
    ∧ at_path ["streamSettings"; "sockopt"; "dialerProxy"] o' = Some (JString "fragment")
    ∧ ∀ k p, k ≠ "streamSettings" → at_path (k :: p) o' = at_path (k :: p) o.
Proof.
  intros Hobj Hstream. unfold dial_through_fragment.
  (* the stream settings are there, or put there *)
  assert (∃ o1 s1,
            (if negb (Json.contains o "streamSettings")
             then set_member o "streamSettings" (obj [])
             else Returns o) = Returns o1
            ∧ is_object o1 = true
            ∧ at_path ["streamSettings"] o1 = Some s1
            ∧ is_object s1 = true ∧ at_path ["sockopt"] s1 = None
            ∧ ∀ k p, k ≠ "streamSettings" → at_path (k :: p) o1 = at_path (k :: p) o)
    as (o1 & s1 & -> & Hobj1 & Hs1 & Hso1 & Hsock1 & Hother1).
  { destruct (Json.contains o "streamSettings") eqn:Hc; cbn [negb].
    - apply contains_at_path in Hc.
      destruct (at_path ["streamSettings"] o) as [s|] eqn:Hs; [|done].
      destruct (Hstream s eq_refl). by exists o, s.
    - destruct (set_member_returns o (obj []) "streamSettings") as [o1 Ho1];
        [by apply is_object_settable|].
      exists o1, (obj []). split; [done|].
      by apply set_member_object in Ho1 as (? & ? & ?). }
  cbn [mbind outcome_bind obind].
  assert (Json.contains s1 "sockopt" = false) as Hc by (by apply contains_false_at_path).
  destruct (set_member_returns s1 (obj []) "sockopt") as [s2 Hs2];
    [by apply is_object_settable|].
  pose proof Hs2 as (Hso2 & Hsock2 & _)%set_member_object.
  destruct (update_member_returns s2 "sockopt"
              (fun sockopt => set_member sockopt "dialerProxy" (JString "fragment")))
    as [s3 Hs3]; [by apply is_object_settable| |].
  { rewrite Hsock2. cbn [default from_option id]. by eexists. }
  destruct (update_member_returns o1 "streamSettings"
              (fun settings =>
                 settings ←
                   (if negb (Json.contains settings "sockopt")
                    then set_member settings "sockopt" (obj [])
                    else Returns settings);
                 update_member settings "sockopt" (fun sockopt =>
                   set_member sockopt "dialerProxy" (JString "fragment"))))
    as [o' Ho']; [by apply is_object_settable| |].
  { rewrite Hs1. cbn [default from_option id]. rewrite Hc. cbn [negb]. rewrite Hs2.
    cbn [mbind outcome_bind obind]. by eexists. }
  exists o'. split; [done|]. split.
  - apply update_member_value in Ho' as (new & Hnew & Hat).
    rewrite Hat. rewrite Hs1 in Hnew. cbn [default from_option id] in Hnew.
    rewrite Hc in Hnew. cbn [negb] in Hnew. rewrite Hs2 in Hnew.
    cbn [mbind outcome_bind obind] in Hnew. rewrite Hs3 in Hnew.
    injection Hnew as <-.
    apply update_member_value in Hs3 as (new & Hnew & Hat3). rewrite Hat3.
    by eapply set_member_value.
  - intros k p Hk. rewrite <- Hother1 by done. by eapply update_member_other.
Qed.

Lemma add_backend_built (backend : BackendInfo) outs sels idx (st : state_t) :
  ∃ st',
    iran_fragment_enabled_ (server st') = iran_fragment_enabled_ (server st)
    ∧ port_ (server st') = port_ (server st)
    ∧ if routable backend
      then ∃ o, add_backend backend (outs, sels, idx) st
                = (Returns (outs ++ [o], sels ++ [JString (proxy_tag idx)], S idx), st')
                ∧ proxy_for (iran_fragment_enabled_ (server st)) idx backend o
      else add_backend backend (outs, sels, idx) st = (Returns (outs, sels, idx), st').
Proof.
  unfold add_backend, routable.
  destruct (healthy backend); cbn [negb andb]; [|by exists st].
  destruct (universal_returns (b_uri backend)) as [[cfg|] Hparse]; munfold';
    rewrite Hparse; cbn [fst snd]; [|by exists st].
  destruct (Universal_shape _ _ Hparse) as (Hobj & _ & _ & Hstream).
  destruct (set_member_returns (outbound cfg) (JString ("proxy-" +:+ to_string idx)) "tag")
    as [o1 Ho1]; [by apply is_object_settable|].
  rewrite Ho1. cbn [fst snd].
  apply set_member_object in Ho1 as (Hobj1 & Htag1 & Hother1).
  assert (stream_ok o1) as Hstream1.
  { intros s Hs. rewrite Hother1 in Hs by done. by apply Hstream. }
  (* the outbound after the obfuscation engine, whatever the engine *)
  assert (∀ o2,
            is_object o2 = true →
            (∀ s, at_path ["streamSettings"] o2 = Some s →
                  is_object s = true ∧ at_path ["sockopt"] s = None) →
            (∀ k p, k ≠ "streamSettings" → at_path (k :: p) o2 = at_path (k :: p) o1) →
            (∃ o3, dial_through_fragment o2 = Returns o3 ∧ proxy_for true idx backend o3)
            ∧ proxy_for false idx backend o2) as Hfin.
  { intros o2 Hobj2 Hstream2 Hother2. split.
    - destruct (dial_returns o2 Hobj2 Hstream2) as (o3 & Hd & Hdial & Hother3).
      exists o3. split; [done|]. split; [by rewrite Hother3, Hother2|].
      split; [|done]. exists cfg. split; [done|].
      by rewrite !Hother3, !Hother2, !Hother1.
    - split; [by rewrite Hother2|]. split; [|done]. exists cfg. split; [done|].
      by rewrite !Hother2, !Hother1. }
  assert (∀ s, at_path ["streamSettings"] o1 = Some s →
               is_object s = true ∧ at_path ["sockopt"] s = None) as Hweak1
    by (intros s Hs; by destruct (Hstream1 s Hs) as (? & _ & ?)).
  destruct (obfuscation_engine_ (server st)) as [e|] eqn:He.
  - destruct (enabled e) eqn:Hen.
    + destruct (obfuscation_keeps e o1 Hobj1 Hstream1)
        as (conf & e' & -> & Hobj2 & Hstream2 & Hother2).
      cbn [fst snd].
      exists {| server := with_engine (Some e') (server st);
                world := world st; trace := trace st |}.
      split; [done|]. split; [done|].
      destruct (Hfin conf Hobj2 Hstream2 Hother2) as [(o3 & Hd & Hp) Hq].
      destruct (iran_fragment_enabled_ (server st)); [rewrite Hd; by exists o3|by exists conf].
    + exists st. split; [done|]. split; [done|].
      destruct (Hfin o1 Hobj1 Hweak1) as [(o3 & Hd & Hp) Hq]; [done|].
      destruct (iran_fragment_enabled_ (server st)); [rewrite Hd; by exists o3|by exists o1].
  - exists st. split; [done|]. split; [done|].
    destruct (Hfin o1 Hobj1 Hweak1) as [(o3 & Hd & Hp) Hq]; [done|].
    destruct (iran_fragment_enabled_ (server st)); [rewrite Hd; by exists o3|by exists o1].
Qed.

Lemma add_backends_built (backends : list BackendInfo) outs sels idx (st : state_t) :
  let chosen := filter (fun b => routable b = true) backends in
  ∃ st' proxies,
    add_backends backends (outs, sels, idx) st
    = (Returns (outs ++ proxies,
                sels ++ ((fun i => JString (proxy_tag i)) <$> seq idx (length chosen)),
                (idx + length chosen)%nat), st')
    ∧ iran_fragment_enabled_ (server st') = iran_fragment_enabled_ (server st)
    ∧ port_ (server st') = port_ (server st)
    ∧ Forall2 (fun ib o => proxy_for (iran_fragment_enabled_ (server st)) ib.1 ib.2 o)
              (zip (seq idx (length chosen)) chosen) proxies.
Proof.
  revert outs sels idx st. induction backends as [|backend backends IH];
    intros outs sels idx st; cbn [add_backends].
  - exists st, []. cbn. rewrite !app_nil_r, Nat.add_0_r. by repeat split.
  - rewrite filter_cons. munfold'.
    destruct (add_backend_built backend outs sels idx st) as (st1 & Hiran & Hport & Hstep).
    destruct (routable backend) eqn:Hr.
    + destruct Hstep as (o & -> & Hproxy). rewrite decide_True by done.
      destruct (IH (outs ++ [o]) (sels ++ [JString (proxy_tag idx)]) (S idx) st1)
        as (st' & proxies & -> & Hiran' & Hport' & Hall).
      exists st', (o :: proxies). cbn [length seq fmap list_fmap zip zip_with].
      rewrite <- !app_assoc. cbn [app]. rewrite Nat.add_succ_r.
      split; [done|]. split; [congruence|]. split; [congruence|].
      constructor; [done|]. by rewrite <- Hiran.
    + rewrite Hstep. rewrite decide_False by done.
      destruct (IH outs sels idx st1) as (st' & proxies & -> & Hiran' & Hport' & Hall).
      exists st', proxies. split; [done|]. split; [congruence|]. split; [congruence|].
      by rewrite <- Hiran.
Qed.

Ltac obj_simpl' :=
  repeat first [ rewrite obj_lookup_here
               | rewrite obj_lookup_further by done
               | rewrite obj_lookup_nil ].

(** X17: [create_balanced_config] never throws.  The config it answers
    listens on the port of the balancer; after the fragment outbound (in
    fragment mode) it has one outbound per healthy backend whose URI parses,
    in order, tagged [proxy-0], [proxy-1], ..., with the protocol and the
    settings parsed from the URI and, in fragment mode, dialing through the
    fragment outbound; then [direct] when there is no such backend, and
    [block].  The balancer selects among exactly these tags, or [direct]. *)
Theorem balanced_config_built (backends : list BackendInfo) (st : state_t) :
  let chosen := filter (fun b => routable b = true) backends in
  let n := length chosen in
  let fragment := iran_fragment_enabled_ (server st) in
  ∃ config st' inbound proxies rest,
    create_balanced_config backends st = (Returns config, st')
    ∧ at_path ["inbounds"] config = Some (JArray [inbound])
    ∧ at_path ["port"] inbound = Some (JInt (port_ (server st)))
    ∧ config_outbounds config
      = (if fragment then [fragment_outbound] else []) ++ proxies ++ rest
    ∧ Forall2 (fun ib o => proxy_for fragment ib.1 ib.2 o) (zip (seq 0 n) chosen) proxies
    ∧ at_path ["tag"] <$> rest
      = (fun t => Some (JString t))
          <$> ((match n with O => ["direct"] | _ => [] end) ++ ["block"])
    ∧ config_selectors config
      = JString <$> (match n with O => ["direct"] | _ => proxy_tag <$> seq 0 n end).
Proof.
  cbn zeta. unfold create_balanced_config. munfold'. cbn [fst snd].
  destruct (add_backends_built backends
              (if iran_fragment_enabled_ (server st) then [fragment_outbound] else [])
              [] 0 st) as (st' & proxies & -> & _ & _ & Hall).
  cbn zeta in Hall. cbn [app fst snd Nat.add].
  destruct (filter (fun b => routable b = true) backends) as [|b chosen] eqn:Hchosen.
  - cbn [length seq fmap list_fmap]. eexists _, st', _, proxies, _.
    split; [reflexivity|]. unfold config_outbounds, config_selectors.
    obj_simpl'. cbn [at_path]. split; [reflexivity|]. obj_simpl'.
    split; [reflexivity|]. split; [by rewrite <- !app_assoc|]. split; [done|].
    split; [by obj_simpl'|done].
  - cbn [length seq fmap list_fmap]. eexists _, st', _, proxies, _.
    split; [reflexivity|]. unfold config_outbounds, config_selectors.
    obj_simpl'. cbn [at_path]. split; [reflexivity|]. obj_simpl'.
    split; [reflexivity|]. split; [by rewrite <- !app_assoc|]. split; [done|].
    split; [by obj_simpl'|]. by rewrite <- list_fmap_compose.
Qed.

End BalancedConfigProperties.

(** ** security/obfuscation.cpp: SNI rotation *)

Section RotationProperties.
Import Json Obfuscation.

Lemma rotate_n_new (enabled_ : bool) (n : nat) :
  ∃ last e,
    rotate_n n (new enabled_) = Some (last, e)
    ∧ enabled e = enabled_
    ∧ cdn_whitelist_ e = take 8 OBF_CDN_WHITELIST_DOMAINS
    ∧ current_sni_index_ e = n mod 8
    ∧ stats_ e !! "sni_rotations" = Some (wrap 64 (Z.of_nat n))
    ∧ stats_ e !! "configs_obfuscated" = Some 0%Z
    ∧ (n ≠ 0%nat → last = Some (get_current_sni e)).
Proof.
  induction n as [|n (last & e & Hrun & Hen & Hlist & Hidx & Hrot & Hobf & Hlast)].
  - exists None, (new enabled_). by repeat split.
  - cbn [rotate_n]. rewrite Hrun. unfold rotate_sni. rewrite Hlist.
    change (take 8 OBF_CDN_WHITELIST_DOMAINS) with
      ("cloudflare.com" :: drop 1 (take 8 OBF_CDN_WHITELIST_DOMAINS)) at 1.
    cbn iota. eexists _, _. split; [reflexivity|].
    cbn [enabled cdn_whitelist_ current_sni_index_ stats_].
    split; [done|]. split; [done|]. split.
    { rewrite Hidx. change (length (take 8 OBF_CDN_WHITELIST_DOMAINS)) with 8%nat.
      rewrite Nat.Div0.add_mod_idemp_l. f_equal. lia. }
    split.
    { unfold bump. rewrite lookup_insert_eq, Hrot. cbn [default from_option id]. f_equal.
      unfold wrap. rewrite Nat2Z.inj_succ.
      change (2 ^ 64)%Z with 18446744073709551616%Z.
      change (2 ^ (64 - 1))%Z with 9223372036854775808%Z.
      replace ((Z.of_nat n + 9223372036854775808) mod 18446744073709551616
               - 9223372036854775808 + 1 + 9223372036854775808)%Z
        with ((Z.of_nat n + 9223372036854775808) mod 18446744073709551616 + 1)%Z by lia.
      rewrite Z.add_mod_idemp_l by lia. do 2 f_equal. lia. }
    split.
    { unfold bump. by rewrite lookup_insert_ne. }
    done.
Qed.

(** X18: a new engine rotates through the first eight CDN domains: any
    number of rotations succeeds, after [n] of them the SNI is the domain at
    place [n mod 8], the one the last rotation returned, eight more rotations
    lead to the same SNI again, and the counter of rotations is [n]; the
    rotations leave the engine enabled or disabled as it was.  An engine with
    an empty whitelist cannot rotate. *)
Theorem sni_rotation_cycle (enabled_ : bool) (n : nat) :
  ∃ last e,
    rotate_n n (new enabled_) = Some (last, e)
    ∧ take 8 OBF_CDN_WHITELIST_DOMAINS !! (n mod 8) = Some (get_current_sni e)
    ∧ get_current_sni e ∈ OBF_CDN_WHITELIST_DOMAINS
    ∧ (n ≠ 0%nat → last = Some (get_current_sni e))
    ∧ enabled e = enabled_
    ∧ stats_ e !! "sni_rotations" = Some (wrap 64 (Z.of_nat n))
    ∧ (∃ last8 e8, rotate_n (n + 8) (new enabled_) = Some (last8, e8)
                   ∧ get_current_sni e8 = get_current_sni e)
    ∧ (∀ e0, cdn_whitelist_ e0 = [] → rotate_sni e0 = None).
Proof.
  destruct (rotate_n_new enabled_ n)
    as (last & e & Hrun & Hen & Hlist & Hidx & Hrot & _ & Hlast).
  assert (∀ e1 k, cdn_whitelist_ e1 = take 8 OBF_CDN_WHITELIST_DOMAINS →
                  current_sni_index_ e1 = k mod 8 →
                  take 8 OBF_CDN_WHITELIST_DOMAINS !! (k mod 8)
                  = Some (get_current_sni e1)) as Hsni.
  { intros e1 k Hl Hi. unfold get_current_sni. rewrite Hl, Hi.
    change (length (take 8 OBF_CDN_WHITELIST_DOMAINS)) with 8%nat.
    rewrite Nat.Div0.mod_mod.
    destruct (lookup_lt_is_Some_2 (take 8 OBF_CDN_WHITELIST_DOMAINS) (k mod 8))
      as [d Hd];
      [change (length (take 8 OBF_CDN_WHITELIST_DOMAINS)) with 8%nat;
       apply Nat.mod_upper_bound; lia|].
    rewrite Hd.
    change (take 8 OBF_CDN_WHITELIST_DOMAINS) with
      ("cloudflare.com" :: drop 1 (take 8 OBF_CDN_WHITELIST_DOMAINS)) at 1.
    done. }
  exists last, e. split; [done|]. split; [by apply Hsni|]. split.
  { eapply elem_of_sublist; [eapply list_elem_of_lookup_2; by apply Hsni|].
    apply sublist_take. }
  split; [done|]. split; [done|]. split; [done|]. split.
  - destruct (rotate_n_new enabled_ (n + 8))
      as (last8 & e8 & Hrun8 & _ & Hlist8 & Hidx8 & _).
    exists last8, e8. split; [done|].
    pose proof (Hsni e n Hlist Hidx) as H1. pose proof (Hsni e8 (n + 8)%nat Hlist8 Hidx8) as H2.
    replace ((n + 8) mod 8)%nat with (n mod 8)%nat in H2; [congruence|].
    replace (n + 8)%nat with (n + 1 * 8)%nat by lia. by rewrite Nat.Div0.mod_add.
  - intros e0 He0. unfold rotate_sni. by rewrite He0.
Qed.

End RotationProperties.

(** ** core/config.cpp *)

Section ConfigValidation.
Import Utils Config.

Lemma validate_checks (c : HunterConfig) (table : list (string * Z * Z)) (errors : list string) :
  foldl (fun errors '(field, min_val, max_val) =>
           let val := get_int c field 0 in
           if ((val <? min_val) || (max_val <? val))%Z
           then errors ++ [field +:+ " must be between "
                           +:+ Balancer.to_string (Z.to_nat min_val) +:+ " and "
                           +:+ Balancer.to_string (Z.to_nat max_val)]
           else errors)
        errors table = []
  ↔ errors = []
    ∧ Forall (fun '(field, min_val, max_val) =>
                (min_val ≤ get_int c field 0 ≤ max_val)%Z) table.
Proof.
  revert errors. induction table as [|[[field lo] hi] table IH]; intros errors; cbn [foldl].
  - split; [by intros ->|by intros [-> _]].
  - rewrite IH. cbn zeta. destruct (_ || _) eqn:Hbad.
    + split; [intros [Herr _]; by destruct errors|].
      intros [-> Hall]. apply Forall_cons in Hall as [Hin _]. lia.
    + split; intros [-> Hall]; (split; [done|]).
      * constructor; [lia|done].
      * by apply Forall_cons in Hall as [_ ?].
Qed.

Lemma assign_all_lookup (values : list (string * ConfigValue))
    (m : gmap string ConfigValue) (key : string) :
  assign_all values m !! key
  = foldl (fun found kv => if String.eqb kv.1 key then Some kv.2 else found)
          (m !! key) values.
Proof.
  unfold assign_all. revert m. induction values as [|[k v] values IH]; intros m; [done|].
  cbn [foldl fst snd]. rewrite IH. f_equal.
  destruct (String.eqb k key) eqn:Hk.
  - apply String.eqb_eq in Hk as ->. by rewrite lookup_insert_eq.
  - apply String.eqb_neq in Hk. by rewrite lookup_insert_ne.
Qed.

(** the value of a numeric default, under the three credentials *)
Lemma default_int (c : HunterConfig) (api_id : Z) (api_hash phone field : string) :
  field ≠ "api_id" → field ≠ "api_hash" → field ≠ "phone" →
  get_int (set_string (set_string (set_int (load_default_config c) "api_id" api_id)
                         "api_hash" api_hash) "phone" phone) field 0
  = match foldl (fun found kv => if String.eqb kv.1 field then Some kv.2 else found)
                (config_ c !! field)
                (config_defaults (files_dir_ c)) with
    | Some (CInt p) => p
    | _ => 0%Z
    end.
Proof.
  intros H1 H2 H3. unfold get_int, set_string, set_int, load_default_config.
  cbn [config_ with_config]. rewrite !lookup_insert_ne by done.
  by rewrite assign_all_lookup.
Qed.

Lemma validate_iff (c : HunterConfig) :
  validate c = []
  ↔ get_int c "api_id" 0 ≠ 0%Z
    ∧ get_string c "api_hash" "" ≠ ""
    ∧ get_string c "phone" "" ≠ ""
    ∧ in_range c.
Proof.
  unfold validate, in_range. cbn zeta. rewrite validate_checks.
  destruct (get_int c "api_id" 0 =? 0)%Z eqn:Hid.
  - apply Z.eqb_eq in Hid. split; [|tauto].
    intros [Herr _]. exfalso. revert Herr.
    destruct (str_empty _); destruct (str_empty _); discriminate.
  - apply Z.eqb_neq in Hid.
    destruct (get_string c "api_hash" "") as [|a h] eqn:Hhash; cbn [str_empty app].
    + split; [|tauto]. intros [Herr _]. exfalso. revert Herr.
      destruct (str_empty _); discriminate.
    + destruct (get_string c "phone" "") as [|p ph] eqn:Hphone; cbn [str_empty app].
      * split; [by intros [? _]|tauto].
      * split; [intros [_ ?]; by repeat split|by intros (_ & _ & _ & ?)].
Qed.

(** X19: [validate] reports nothing exactly when the API id is a non-zero
    integer, the API hash and the phone are non-empty strings and each of
    the six numeric fields holds an integer in its range.  The defaults pass
    once the three credentials are set; an entry overwritten with a string
    reads as the default of [get_int], so that a numeric field set to a
    string fails the check. *)
Theorem validate_spec (c : HunterConfig) :
  (validate c = []
   ↔ get_int c "api_id" 0 ≠ 0%Z
     ∧ get_string c "api_hash" "" ≠ ""
     ∧ get_string c "phone" "" ≠ ""
     ∧ in_range c)
  ∧ (∀ api_id api_hash phone,
        api_id ≠ 0%Z → api_hash ≠ "" → phone ≠ "" →
        validate (set_string (set_string (set_int (load_default_config c)
                                            "api_id" api_id)
                                "api_hash" api_hash)
                    "phone" phone) = [])
  ∧ (∀ key text default_val,
        get_int (set_string c key text) key default_val = default_val)
  ∧ (∀ text, validate (set_string c "max_total" text) ≠ []).
Proof.
  split; [apply validate_iff|]. split; [|split].
  - intros api_id api_hash phone Hid Hhash Hphone.
    apply validate_iff. split; [|split; [|split]].
    + unfold get_int, set_string, set_int. cbn [config_ with_config].
      rewrite !lookup_insert_ne by done. by rewrite lookup_insert_eq.
    + unfold get_string, set_string, set_int. cbn [config_ with_config].
      rewrite lookup_insert_ne by done. by rewrite lookup_insert_eq.
    + unfold get_string, set_string, set_int. cbn [config_ with_config].
      by rewrite lookup_insert_eq.
    + unfold in_range, checks.
      repeat (constructor;
              [rewrite default_int by done; vm_compute; split; discriminate|]).
      constructor.
  - intros key text default_val. unfold get_int, set_string. cbn.
    by rewrite lookup_insert_eq.
  - intros text Hvalid. apply validate_iff in Hvalid as (_ & _ & _ & Hrange).
    unfold in_range, checks in Hrange.
    apply Forall_cons in Hrange as [_ Hrange]. apply Forall_cons in Hrange as [Hmax _].
    unfold get_int, set_string in Hmax. cbn [config_ with_config] in Hmax.
    rewrite lookup_insert_eq in Hmax. lia.
Qed.

End ConfigValidation.

(** ** orchestrator.cpp *)

Section OrchestratorProperties.
Import Utils Config Orchestrator.
Context `{StdLib}.

Lemma dedupe_loop_closed (max_total : Z) (configs : list string) :
  ∀ seen deduped,
    let cap := Z.to_nat (Z.max 1 max_total) in
    (length deduped < cap)%nat →
    (Z.of_nat (length deduped + length configs) ≤ INT_MAX)%Z →
    dedupe_loop max_total configs seen deduped
    = deduped ++ take (cap - length deduped) (first_seen seen configs).
Proof.
  induction configs as [|c configs IH]; intros seen deduped cap Hlt Hsmall;
    cbn [dedupe_loop first_seen].
  - by rewrite take_nil, app_nil_r.
  - cbn [length] in Hsmall. destruct (bool_decide (c ∈ seen)); [apply IH; [done|lia]|].
    cbn zeta. rewrite length_app. cbn [length].
    rewrite to_int_small by (unfold INT_MIN, INT_MAX in *; lia).
    destruct (cap - length deduped)%nat as [|room] eqn:Hroom; [lia|].
    cbn [take]. destruct (max_total <=? _)%Z eqn:Hfull.
    + apply Z.leb_le in Hfull. replace room with 0%nat by lia. done.
    + apply Z.leb_gt in Hfull. rewrite IH; [|rewrite length_app; cbn; lia
                                             |rewrite length_app; cbn [length]; lia].
      rewrite length_app. cbn [length]. rewrite <- app_assoc. cbn [app].
      do 3 f_equal. lia.
Qed.

(** X20: the URIs [validate_configs] goes on to benchmark are the unblocked
    ones among the first [max_total] distinct input URIs, in the order of the
    prioritizer: they are distinct, come from the input, are not blocked and
    are no more than [max_total]; with [max_total] of 0 or less one URI still
    gets through; when [max_total] is at least the number of inputs no
    unblocked input is lost. *)
Theorem validation_candidates_spec (cfg : HunterConfig) (g : rng) (configs : list string) :
  (Z.of_nat (length configs) ≤ INT_MAX)%Z →
  let max_total := to_int (get_int cfg "max_total" 3000) in
  let cap := Z.to_nat (Z.max 1 max_total) in
  let out := (validation_candidates cfg g configs).1 in
  out ≡ₚ filter unblocked (take cap (first_seen ∅ configs))
  ∧ NoDup out
  ∧ (∀ uri, uri ∈ out → uri ∈ configs ∧ is_likely_blocked uri = false)
  ∧ (length out ≤ cap)%nat
  ∧ ((Z.of_nat (length configs) ≤ max_total)%Z →
     ∀ uri, uri ∈ configs → is_likely_blocked uri = false → uri ∈ out).
Proof.
  intros Hsmall max_total cap out.
  assert (out ≡ₚ filter unblocked (take cap (first_seen ∅ configs))) as Hperm.
  { subst out. unfold validation_candidates. cbn zeta. fold max_total.
    rewrite (dedupe_loop_closed max_total configs ∅ []);
      [|cbn [length]; subst cap; lia|done].
    cbn [app length]. rewrite Nat.sub_0_r. apply prioritize_perm. }
  split; [done|]. split; [|split; [|split]].
  - rewrite Hperm. apply NoDup_filter.
    apply (sublist_NoDup _ (first_seen ∅ configs)); [apply first_seen_NoDup|apply sublist_take].
  - intros uri. rewrite Hperm. intros [Hu Hin]%list_elem_of_filter.
    split; [|done].
    assert (uri ∈ first_seen ∅ configs) as Hfirst
      by (eapply elem_of_sublist; [exact Hin|apply sublist_take]).
    by apply first_seen_spec in Hfirst as [? _].
  - rewrite Hperm. etrans; [apply length_filter|]. rewrite length_take. lia.
  - intros Hall uri Hin Hu. rewrite Hperm. apply list_elem_of_filter. split; [done|].
    rewrite take_ge.
    + apply first_seen_spec. split; [done|set_solver].
    + etrans; [apply length_first_seen|]. subst cap. lia.
Qed.

Lemma tier_fold (results : list HunterBenchResult) (gold silver : list HunterBenchResult) :
  foldl (fun '(gold, silver) r =>
           if String.eqb (br_tier r) "gold" then (gold ++ [r], silver)
           else if String.eqb (br_tier r) "silver" then (gold, silver ++ [r])
           else (gold, silver))
        (gold, silver) results
  = (gold ++ filter (fun r => br_tier r = "gold") results,
     silver ++ filter (fun r => br_tier r = "silver") results).
Proof.
  revert gold silver. induction results as [|r results IH]; intros gold silver;
    cbn [foldl]; [by rewrite !app_nil_r|].
  rewrite !filter_cons.
  destruct (String.eqb (br_tier r) "gold") eqn:Hg.
  - apply String.eqb_eq in Hg. rewrite IH, decide_True by done.
    rewrite decide_False by (rewrite Hg; done). by rewrite <- app_assoc.
  - apply String.eqb_neq in Hg. rewrite decide_False by done.
    destruct (String.eqb (br_tier r) "silver") eqn:Hs.
    + apply String.eqb_eq in Hs. rewrite IH, decide_True by done. by rewrite <- app_assoc.
    + apply String.eqb_neq in Hs. by rewrite IH, decide_False.
Qed.

Lemma resize_take {A} (n : nat) (l : list A) :
  (if (n <? length l)%nat then take n l else l) = take n l.
Proof.
  destruct (n <? length l)%nat eqn:Hn; [done|].
  apply Nat.ltb_ge in Hn. by rewrite take_ge.
Qed.

(** X21: [tier_configs] keeps, in their order, the first 100 results of
    tier [gold] and the first 200 of tier [silver] and drops every other
    result; so the balancer is handed at most 300 configs, gold before
    silver, each with the URI and latency of a gold or silver result, and
    [save_to_files] leaves in the gold file, when it can be written and is
    not the silver file, the non-empty URIs of the gold results, one per
    line. *)
Theorem tier_configs_spec (results : list HunterBenchResult) :
  let tiered := tier_configs results in
  let gold := tiered_at tiered "gold" in
  let silver := tiered_at tiered "silver" in
  gold = take 100 (filter (fun r => br_tier r = "gold") results)
  ∧ silver = take 200 (filter (fun r => br_tier r = "silver") results)
  ∧ (∀ key, key ≠ "gold" → key ≠ "silver" → tiered_at tiered key = [])
  ∧ balancer_feed results
    = ((fun r => (br_uri r, br_latency_ms r)) <$> gold)
      ++ ((fun r => (br_uri r, br_latency_ms r)) <$> silver)
  ∧ (length (balancer_feed results) ≤ 300)%nat
  ∧ (∀ cfg fs gold_file,
        get_string cfg "gold_file" "" = gold_file → gold_file ≠ "" →
        get_string cfg "silver_file" "" ≠ gold_file →
        fs_appendable fs gold_file = true →
        fs_files (save_to_files cfg fs gold silver) !! gold_file
        = Some (write_out (filter nonempty (br_uri <$> gold)))).
Proof.
  cbn zeta. unfold balancer_feed, tier_configs. rewrite tier_fold. cbn [app].
  rewrite !resize_take. unfold tiered_at.
  repeat first [rewrite lookup_insert_eq | rewrite lookup_insert_ne by done].
  cbn [default from_option id].
  split; [done|]. split; [done|]. split.
  { intros key Hg Hs. by rewrite !lookup_insert_ne, lookup_empty by done. }
  split; [done|]. split.
  { rewrite length_app, !length_fmap, !length_take. lia. }
  intros cfg fs gold_file Hgold Hne Hsilver Happ.
  unfold save_to_files. rewrite Hgold.
  destruct gold_file as [|c rest]; [done|]. cbn [str_empty negb].
  match goal with
  | |- context [write_lines fs (String c rest) ?lines] =>
      set (fs1 := (write_lines fs (String c rest) lines).2);
      assert (fs_files fs1 !! String c rest = Some (write_out (filter nonempty lines)))
        as Hfs1
        by (subst fs1; unfold write_lines; rewrite Happ; cbn [snd fs_files];
            by rewrite lookup_insert_eq)
  end.
  clearbody fs1. destruct (negb _); [|done].
  unfold write_lines. destruct (fs_appendable fs1 _); cbn [snd fs_files]; [|done].
  by rewrite lookup_insert_ne.
Qed.

End OrchestratorProperties.

Lemma validation_candidates_spec_witness :
  let out :=
    (Orchestrator.validation_candidates (H := Sample.stdlib)
       (Config.set_int (Config.blank "") "max_total" 2) 0%nat
       ["vless://a@h:443"; "vless://a@h:443"; "vless://b@h:443"; "vless://c@h:443"]).1 in
  NoDup out ∧ (length out ≤ 2)%nat.
Proof.
  destruct (validation_candidates_spec (H := Sample.stdlib)
              (Config.set_int (Config.blank "") "max_total" 2) 0%nat
              ["vless://a@h:443"; "vless://a@h:443"; "vless://b@h:443"; "vless://c@h:443"])
    as (_ & Hnodup & _ & Hlen & _).
  - by vm_compute.
  - split; [exact Hnodup|exact Hlen].
Defined.

(** ** network/http_client.cpp *)

Section FetchProperties.
Import Utils Extract Http.
Context {World : Type} `{RegexLib}.
Context (random_user_agent : World → string * World).

#[local] Abbreviation fetch_state_t := (fetch_state (World := World)).

Lemma fetch_url_call (cb : option HttpCallback) url timeout proxy (st : fetch_state_t) :
  let r := fetch_url random_user_agent cb url timeout proxy st in
  match cb with
  | None => r = ("", st)
  | Some _ => ∃ c, calls r.2 = calls st ++ [c]
                   ∧ request c = (url, timeout, proxy) ∧ r.1 = body_of c
  end.
Proof.
  unfold fetch_url. destruct cb as [cb|]; [|done].
  destruct (random_user_agent _) as [ua w]. destruct (cb _ _ _ _ _) as [response w'].
  cbn. by eexists.
Qed.

Lemma try_response_kept (response : string) (found : list string) :
  try_response response = Returns (Some found) →
  found ≠ [] ∧ Forall kept_uri found
  ∧ extract_raw_uris_from_text (decode_response response) = Returns found.
Proof.
  unfold try_response. destruct (str_empty response); [discriminate|].
  pose proof (extract_fuel_kept (S (String.length (decode_response response)))
                (decode_response response)) as Hkept.
  unfold extract_raw_uris_from_text.
  destruct (extract_fuel _ _) as [uris|e]; [|discriminate]. cbn.
  destruct uris as [|u uris]; [discriminate|]. by intros [= <-].
Qed.

(** what a run of requests answers: the URIs of the last response, if it
    gave some; nothing when every planned request was made in vain *)
Lemma via_proxies_spec (cb : option HttpCallback) url timeout ports (st : fetch_state_t) :
  let r := via_proxies random_user_agent cb url timeout ports st in
  let plan := (fun port => (url, timeout, "socks5://127.0.0.1:" +:+ int_to_string port))
                <$> ports in
  ∃ new,
    calls r.2 = calls st ++ new
    ∧ request <$> new `prefix_of` plan
    ∧ (cb = None → new = [] ∧ r.1 = Returns [])
    ∧ (∀ uris, r.1 = Returns uris →
         Forall kept_uri uris
         ∧ (uris ≠ [] →
            ∃ c, last new = Some c
                 ∧ extract_raw_uris_from_text (decode_response (body_of c))
                   = Returns uris)
         ∧ (uris = [] → cb ≠ None → request <$> new = plan)).
Proof.
  revert st. induction ports as [|port ports IH]; intros st; cbn [via_proxies fmap list_fmap].
  - exists []. rewrite app_nil_r. split; [done|]. split; [done|]. split; [done|].
    intros uris [= <-]. by repeat split.
  - pose proof (fetch_url_call cb url timeout
                  ("socks5://127.0.0.1:" +:+ int_to_string port) st) as Hcall.
    cbn zeta in Hcall.
    destruct (fetch_url _ cb url timeout _ st) as [response st1]. cbn [fst snd] in Hcall.
    destruct cb as [cb|].
    + destruct Hcall as (c & Hcalls & Hreq & ->).
      destruct (try_response (body_of c)) as [[found|]|e] eqn:Htry; cbn [fst snd].
      * exists [c]. split; [done|]. split.
        { cbn. rewrite Hreq. by apply prefix_cons, prefix_nil. }
        split; [done|]. intros uris [= <-].
        apply try_response_kept in Htry as (Hne & Hkept & Hfound).
        split; [done|]. split; [intros _; by exists c|done].
      * destruct (IH st1) as (new & Hnew & Hprefix & _ & Hret).
        exists (c :: new). rewrite Hnew, Hcalls, <- app_assoc. split; [done|].
        split; [cbn; rewrite Hreq; by apply prefix_cons|].
        split; [done|]. intros uris Huris.
        destruct (Hret uris Huris) as (Hkept & Hsome & Hnone).
        split; [done|]. split.
        -- intros Hne. destruct (Hsome Hne) as (c' & Hlast & Hfound).
           exists c'. split; [|done]. destruct new; [done|]. done.
        -- intros Hnil _. cbn. rewrite Hreq. f_equal. by apply Hnone.
      * exists [c]. split; [done|]. split.
        { cbn. rewrite Hreq. by apply prefix_cons, prefix_nil. }
        split; [done|]. intros uris. discriminate.
    + injection Hcall as -> ->. cbn [try_response str_empty].
      destruct (IH st) as (new & Hnew & Hprefix & Hnone & Hret).
      destruct (Hnone eq_refl) as [-> Hr]. exists []. split; [done|].
      split; [apply prefix_nil|]. split; [done|].
      intros uris Huris. destruct (Hret uris Huris) as (Hkept & Hsome & _).
      by repeat split.
Qed.

Lemma try_response_nothing (response : string) :
  try_response response = Returns None
  ↔ response = ""
    ∨ extract_raw_uris_from_text (decode_response response) = Returns [].
Proof.
  unfold try_response. destruct response as [|c response]; cbn [str_empty].
  - split; [by left|done].
  - destruct (extract_raw_uris_from_text _) as [[|u found]|e]; cbn.
    + split; [by right|done].
    + split; [done|]. by intros [|].
    + split; [done|]. by intros [|].
Qed.

(** the requests of the proxy loop: every response but the last gave
    nothing, and the last one decides the answer *)
Lemma via_proxies_first (cb : HttpCallback) url timeout ports (st : fetch_state_t) :
  let r := via_proxies random_user_agent (Some cb) url timeout ports st in
  let plan := (fun port => (url, timeout, "socks5://127.0.0.1:" +:+ int_to_string port))
                <$> ports in
  ∃ new,
    calls r.2 = calls st ++ new
    ∧ request <$> new `prefix_of` plan
    ∧ (∀ i c, new !! i = Some c → (S i < length new)%nat →
              try_response (body_of c) = Returns None)
    ∧ match last new with
      | None => ports = [] ∧ r.1 = Returns []
      | Some c =>
          match try_response (body_of c) with
          | Returns (Some found) => r.1 = Returns found
          | Returns None => r.1 = Returns [] ∧ request <$> new = plan
          | Throws e => r.1 = Throws e
          end
      end.
Proof.
  revert st. induction ports as [|port ports IH]; intros st; cbn [via_proxies fmap list_fmap].
  - exists []. rewrite app_nil_r. split; [done|]. split; [done|]. split; [|done].
    intros i c Hi. by rewrite lookup_nil in Hi.
  - pose proof (fetch_url_call (Some cb) url timeout
                  ("socks5://127.0.0.1:" +:+ int_to_string port) st) as Hcall.
    cbn zeta in Hcall.
    destruct (fetch_url _ (Some cb) url timeout _ st) as [response st1].
    cbn [fst snd] in Hcall. destruct Hcall as (c & Hcalls & Hreq & ->).
    destruct (try_response (body_of c)) as [[found|]|e] eqn:Htry; cbn [fst snd].
    + exists [c]. split; [done|]. split.
      { cbn. rewrite Hreq. by apply prefix_cons, prefix_nil. }
      split.
      * intros i c' Hi Hlt. cbn in Hlt. lia.
      * cbn [last]. by rewrite Htry.
    + destruct (IH st1) as (new & Hnew & Hprefix & Hbefore & Hlast).
      exists (c :: new). rewrite Hnew, Hcalls, <- app_assoc. split; [done|].
      split; [cbn; rewrite Hreq; by apply prefix_cons|]. split.
      * intros [|i] c' Hi Hlt; cbn in Hi, Hlt.
        -- by injection Hi as <-.
        -- apply (Hbefore i c' Hi). lia.
      * destruct new as [|c' new'].
        -- cbn [last]. rewrite Htry. destruct Hlast as [-> Hr]. split; [done|].
           cbn. by rewrite Hreq.
        -- change (last (c :: c' :: new')) with (last (c' :: new')).
           destruct (last (c' :: new')) as [cl|] eqn:Hcl; [|by apply last_None in Hcl].
           destruct (try_response (body_of cl)) as [[found|]|e]; [done| |done].
           destruct Hlast as [Hr Hall]. split; [done|]. cbn. rewrite Hreq.
           f_equal. exact Hall.
    + exists [c]. split; [done|]. split.
      { cbn. rewrite Hreq. by apply prefix_cons, prefix_nil. }
      split.
      * intros i c' Hi Hlt. cbn in Hlt. lia.
      * cbn [last]. by rewrite Htry.
Qed.

(** X22: for one URL [fetch_single_url] makes at most four requests: the
    direct one first, with a timeout of at most 8 seconds, then one through
    each of the first three SOCKS ports, in order; with an HTTP hook it
    makes at least the direct one, without one it makes none and answers
    nothing.  Every response but the last held no URI (it was empty, or
    nothing was found in it), and the last one decides the answer: the URIs
    found in it (decoded from base64 when it holds no [://]), each longer
    than ten characters and without trailing punctuation, if there are
    some; otherwise nothing, and then every planned request was made. *)
Theorem fetch_single_url_spec (cb : option HttpCallback) url ports timeout
    (st : fetch_state_t) :
  let r := fetch_single_url random_user_agent cb url ports timeout st in
  (∀ response,
      try_response response = Returns None
      ↔ response = ""
        ∨ extract_raw_uris_from_text (decode_response response) = Returns [])
  ∧ ∃ new,
    calls r.2 = calls st ++ new
    ∧ request <$> new `prefix_of` planned url ports timeout
    ∧ (length new ≤ 4)%nat
    ∧ (cb = None → new = [] ∧ r.1 = Returns [])
    ∧ (cb ≠ None → new ≠ [])
    ∧ (∀ i c, new !! i = Some c → (S i < length new)%nat →
              try_response (body_of c) = Returns None)
    ∧ (∀ c, last new = Some c →
            match try_response (body_of c) with
            | Returns (Some found) =>
                r.1 = Returns found ∧ found ≠ [] ∧ Forall kept_uri found
                ∧ extract_raw_uris_from_text (decode_response (body_of c))
                  = Returns found
            | Returns None =>
                r.1 = Returns [] ∧ request <$> new = planned url ports timeout
            | Throws e => r.1 = Throws e
            end)
    ∧ (∀ uris, r.1 = Returns uris →
         Forall kept_uri uris
         ∧ (uris ≠ [] →
            ∃ c, last new = Some c
                 ∧ extract_raw_uris_from_text (decode_response (body_of c))
                   = Returns uris)
         ∧ (uris = [] → cb ≠ None → request <$> new = planned url ports timeout)).
Proof.
  cbn zeta. split; [apply try_response_nothing|].
  assert (∀ new, request <$> new `prefix_of` planned url ports timeout →
                 (length new ≤ 4)%nat) as Hlen.
  { intros new Hp%prefix_length. rewrite length_fmap in Hp. unfold planned in Hp.
    cbn [length] in Hp. rewrite length_fmap, length_take in Hp. lia. }
  (* the last response decides the answer *)
  assert (∀ (r : outcome (list string)) new,
            (∀ c, last new = Some c →
                  match try_response (body_of c) with
                  | Returns (Some found) =>
                      r = Returns found ∧ found ≠ [] ∧ Forall kept_uri found
                      ∧ extract_raw_uris_from_text (decode_response (body_of c))
                        = Returns found
                  | Returns None =>
                      r = Returns [] ∧ request <$> new = planned url ports timeout
                  | Throws e => r = Throws e
                  end) →
            new ≠ [] →
            ∀ uris, r = Returns uris →
              Forall kept_uri uris
              ∧ (uris ≠ [] →
                 ∃ c, last new = Some c
                      ∧ extract_raw_uris_from_text (decode_response (body_of c))
                        = Returns uris)
              ∧ (uris = [] → request <$> new = planned url ports timeout)) as Hold.
  { intros r new Hlast Hne uris ->.
    destruct (last new) as [c|] eqn:Hc; [|by apply last_None in Hc].
    specialize (Hlast c eq_refl).
    destruct (try_response (body_of c)) as [[found|]|e].
    - destruct Hlast as ([= ->] & Hfound & Hkept & Hex).
      split; [done|]. split; [intros _; by exists c|done].
    - destruct Hlast as ([= ->] & Hall). by repeat split.
    - discriminate. }
  unfold fetch_single_url.
  pose proof (fetch_url_call cb url (Z.min timeout 8) "" st) as Hcall.
  cbn zeta in Hcall.
  destruct (fetch_url _ cb url (Z.min timeout 8) "" st) as [response st1].
  cbn [fst snd] in Hcall. destruct cb as [cb|].
  - destruct Hcall as (c & Hcalls & Hreq & ->).
    assert (∃ new,
      let r := match try_response (body_of c) with
               | Returns (Some found) => (Returns found, st1)
               | Returns None =>
                   via_proxies random_user_agent (Some cb) url timeout (take 3 ports) st1
               | Throws e => (Throws e, st1)
               end in
      calls r.2 = calls st ++ new
      ∧ request <$> new `prefix_of` planned url ports timeout
      ∧ new ≠ []
      ∧ (∀ i c, new !! i = Some c → (S i < length new)%nat →
                try_response (body_of c) = Returns None)
      ∧ (∀ c, last new = Some c →
              match try_response (body_of c) with
              | Returns (Some found) =>
                  r.1 = Returns found ∧ found ≠ [] ∧ Forall kept_uri found
                  ∧ extract_raw_uris_from_text (decode_response (body_of c))
                    = Returns found
              | Returns None =>
                  r.1 = Returns [] ∧ request <$> new = planned url ports timeout
              | Throws e => r.1 = Throws e
              end)) as (new & Hcalls' & Hprefix & Hne & Hbefore & Hlast).
    { unfold planned.
      destruct (try_response (body_of c)) as [[found|]|e] eqn:Htry; cbn [fst snd].
      - exists [c]. split; [done|]. split.
        { cbn. rewrite Hreq. by apply prefix_cons, prefix_nil. }
        split; [done|]. split; [intros i c' Hi Hlt; cbn in Hlt; lia|].
        intros c' [= <-]. rewrite Htry.
        apply try_response_kept in Htry as (Hfound & Hkept & Hex). done.
      - destruct (via_proxies_first cb url timeout (take 3 ports) st1)
          as (new & Hnew & Hprefix & Hbefore & Hlast).
        exists (c :: new). rewrite Hnew, Hcalls, <- app_assoc. split; [done|].
        split; [cbn; rewrite Hreq; by apply prefix_cons|]. split; [done|]. split.
        + intros [|i] c' Hi Hlt; cbn in Hi, Hlt.
          * by injection Hi as <-.
          * apply (Hbefore i c' Hi). lia.
        + intros cl Hcl. destruct new as [|c' new'].
          * injection Hcl as <-. rewrite Htry. destruct Hlast as [Hports Hr].
            split; [done|]. cbn. rewrite Hreq, Hports. done.
          * change (last (c :: c' :: new')) with (last (c' :: new')) in Hcl.
            rewrite Hcl in Hlast.
            destruct (try_response (body_of cl)) as [[found|]|e] eqn:Htry'; [| |done].
            -- apply try_response_kept in Htry' as (Hfound & Hkept & Hex). done.
            -- destruct Hlast as [Hr Hall]. split; [done|]. cbn. rewrite Hreq.
               f_equal. exact Hall.
      - exists [c]. split; [done|]. split.
        { cbn. rewrite Hreq. by apply prefix_cons, prefix_nil. }
        split; [done|]. split; [intros i c' Hi Hlt; cbn in Hlt; lia|].
        intros c' [= <-]. by rewrite Htry. }
    cbn zeta in *.
    destruct (try_response (body_of c)) as [[found|]|e]; cbn [fst snd] in *;
      (exists new; split; [done|]; split; [done|]; split; [by apply Hlen|];
       split; [done|]; split; [done|]; split; [done|]; split; [done|];
       intros uris Huris;
       destruct (Hold _ new Hlast Hne uris Huris) as (H1 & H2 & H3);
       split; [done|]; split; [done|]; intros Hnil _; by apply H3).
  - injection Hcall as -> ->. cbn [try_response str_empty].
    destruct (via_proxies_spec None url timeout (take 3 ports) st)
      as (new & Hnew & Hprefix & Hnone & Hret).
    destruct (Hnone eq_refl) as [-> Hr]. exists []. split; [done|].
    split; [apply prefix_nil|]. split; [cbn; lia|]. split; [done|].
    split; [done|]. split; [intros i c Hi; by rewrite lookup_nil in Hi|].
    split; [done|].
    intros uris Huris. rewrite Hr in Huris. injection Huris as <-. by repeat split.
Qed.

End FetchProperties.

(** ** parsers/uri_parser.cpp: query strings *)

Section QueryProperties.
Import Utils UriParser.
Context `{StdLib}.

Lemma pieces_one (delim : ascii) (x : string) :
  x ≠ "" → contains_char delim x = false → getline_pieces delim x = [x].
Proof.
  unfold contains_char. induction x as [|c x IH]; [done|]. intros _ Hno.
  cbn [find_char] in Hno. rewrite ascii_eqb_sym in Hno. cbn [getline_pieces].
  destruct (ascii_eqb c delim) eqn:Hc; [done|].
  destruct x as [|d x]; [done|]. rewrite IH; [done|done|].
  by destruct (find_char delim (String d x)).
Qed.

Lemma pieces_cons (delim : ascii) (x tail : string) :
  contains_char delim x = false →
  getline_pieces delim (x +:+ String delim tail) = x :: getline_pieces delim tail.
Proof.
  unfold contains_char. induction x as [|c x IH]; intros Hno.
  - rewrite str_app_nil. cbn [getline_pieces]. assert (ascii_eqb delim delim = true) as ->; [|done].
    by destruct delim as [[] [] [] [] [] [] [] []].
  - rewrite str_app_cons. cbn [find_char] in Hno. rewrite ascii_eqb_sym in Hno.
    cbn [getline_pieces]. destruct (ascii_eqb c delim) eqn:Hc; [done|].
    rewrite IH; [done|]. by destruct (find_char delim x).
Qed.

Lemma pieces_concat (items : list string) :
  Forall (fun x => x ≠ "" ∧ contains_char "&" x = false) items →
  getline_pieces "&" (String.concat "&" items) = items.
Proof.
  induction 1 as [|x items [Hne Hno] Hall IH]; [done|].
  destruct items as [|y items]; [by apply pieces_one|].
  change (String.concat "&" (x :: y :: items))
    with (x +:+ String "&" (String.concat "&" (y :: items))).
  by rewrite pieces_cons, IH.
Qed.

Lemma contains_char_app c a b :
  contains_char c (a +:+ b) = contains_char c a || contains_char c b.
Proof.
  unfold contains_char. induction a as [|d a IH]; [by rewrite str_app_nil|].
  rewrite str_app_cons. cbn [find_char]. destruct (ascii_eqb c d); [done|].
  destruct (find_char c (a +:+ b)), (find_char c a); cbn in *; try done.
Qed.

Lemma find_char_split c k v :
  contains_char c k = false →
  find_char c (k +:+ String c v) = Some (String.length k)
  ∧ substr (k +:+ String c v) 0 (String.length k) = k
  ∧ str_drop (String.length k + 1) (k +:+ String c v) = v.
Proof.
  unfold contains_char, substr. induction k as [|d k IH]; intros Hno.
  - rewrite str_app_nil. cbn.
    assert (ascii_eqb c c = true) as -> by (by destruct c as [[] [] [] [] [] [] [] []]).
    by destruct v.
  - rewrite str_app_cons. cbn [find_char] in *.
    destruct (ascii_eqb c d); [done|].
    destruct IH as (-> & Htake & Hdrop); [by destruct (find_char c k)|].
    cbn [String.length str_drop str_take Nat.add] in *. cbn. by rewrite Htake, Hdrop.
Qed.

Lemma url_decode_plain (s : string) :
  contains_char "%" s = false → contains_char "+" s = false → url_decode s = s.
Proof.
  intros Hp Hplus. unfold url_decode. rewrite url_decode_loop_plain by done.
  by apply plus_to_space_id.
Qed.

Lemma query_value_ok_spec v :
  query_value_ok v = true
  ↔ contains_char "&" v = false ∧ contains_char "%" v = false
    ∧ contains_char "+" v = false.
Proof.
  unfold query_value_ok. rewrite !andb_true_iff, !negb_true_iff. tauto.
Qed.

Lemma parse_pairs (pairs : list (string * string)) (params : gmap string string) :
  Forall (fun kv => query_key_ok kv.1 = true ∧ query_value_ok kv.2 = true) pairs →
  foldl (fun params pair =>
           match find_char "=" pair with
           | Some eq =>
               let key := url_decode (substr pair 0 eq) in
               let value := url_decode (str_drop (eq + 1) pair) in
               <[key := value]> params
           | None => params
           end)
        params ((fun kv => kv.1 +:+ "=" +:+ kv.2) <$> pairs)
  = foldl (fun params kv => <[kv.1 := kv.2]> params) params pairs.
Proof.
  intros Hall. revert params.
  induction Hall as [|[k v] pairs [Hk Hv] _ IH]; intros params; [done|].
  cbn [fmap list_fmap foldl fst snd] in *.
  apply andb_true_iff in Hk as [Hk Heq%negb_true_iff].
  apply query_value_ok_spec in Hk as (_ & Hkp & Hkplus).
  apply query_value_ok_spec in Hv as (_ & Hvp & Hvplus).
  rewrite (str_app_cons "=" "" v), str_app_nil.
  destruct (find_char_split "=" k v Heq) as (-> & -> & ->). cbn zeta.
  by rewrite !url_decode_plain, IH.
Qed.

Lemma insert_all_other (pairs : list (string * string)) (params : gmap string string) key :
  key ∉ pairs.*1 →
  foldl (fun params kv => <[kv.1 := kv.2]> params) params pairs !! key = params !! key.
Proof.
  revert params. induction pairs as [|[k v] pairs IH]; intros params Hkey; [done|].
  cbn [foldl fst snd fmap list_fmap] in *. apply not_elem_of_cons in Hkey as [Hne Hkey].
  rewrite IH by done. by rewrite lookup_insert_ne.
Qed.

(** X23: parsing the query string [k1=v1&k2=v2&...] gives each key its
    value, the last one when a key comes twice, provided keys and values hold
    no [&], [%] or [+] and keys no [=]; a value may hold [=].  [get_param]
    answers that value, and the default for a key that is not there. *)
Theorem query_round_trip (pairs : list (string * string)) :
  Forall (fun kv => query_key_ok kv.1 = true ∧ query_value_ok kv.2 = true) pairs →
  parse_query_string (query_of pairs)
  = foldl (fun params kv => <[kv.1 := kv.2]> params) ∅ pairs
  ∧ (∀ key default_val,
        key ∉ pairs.*1 →
        get_param (parse_query_string (query_of pairs)) key default_val = default_val)
  ∧ (∀ before key value after default_val,
        pairs = before ++ (key, value) :: after →
        key ∉ after.*1 →
        get_param (parse_query_string (query_of pairs)) key default_val = value).
Proof.
  intros Hall.
  assert (parse_query_string (query_of pairs)
          = foldl (fun params kv => <[kv.1 := kv.2]> params) ∅ pairs) as Hparse.
  { unfold parse_query_string, query_of. rewrite pieces_concat; [by apply parse_pairs|].
    apply Forall_fmap. eapply Forall_impl; [exact Hall|]. intros [k v] [Hk Hv].
    cbn [fst snd] in *. split; [by destruct k|].
    apply andb_true_iff in Hk as [Hk _].
    apply query_value_ok_spec in Hk as (Hk & _). apply query_value_ok_spec in Hv as (Hv & _).
    cbn [fst snd]. rewrite !contains_char_app, Hk, Hv. done. }
  split; [done|]. rewrite Hparse. unfold get_param. split.
  - intros key default_val Hkey. by rewrite insert_all_other, lookup_empty.
  - intros before key value after default_val -> Hkey.
    rewrite foldl_app. cbn [foldl fst snd].
    by rewrite insert_all_other, lookup_insert_eq.
Qed.

End QueryProperties.

Lemma query_round_trip_witness :
  UriParser.get_param
    (UriParser.parse_query_string (H := Sample.stdlib)
       (UriParser.query_of [("security", "tls"); ("pbk", "abc="); ("security", "reality")]))
    "security" "none"
  = "reality".
Proof.
  destruct (query_round_trip (H := Sample.stdlib)
              [("security", "tls"); ("pbk", "abc="); ("security", "reality")])
    as (_ & _ & Hlast).
  - repeat constructor.
  - apply (Hlast [("security", "tls"); ("pbk", "abc=")] "security" "reality" []
             "none" eq_refl).
    apply not_elem_of_nil.
Defined.

(** ** [scheme://user@host:port?query#name] URIs *)

Section FormatProperties.
Import Utils Json UriParser Pipeline Format.
Context `{StdLib}.

Lemma digit_char (n : nat) :
  (n < 10)%nat →
  let c := ascii_of_nat (48 + n) in
  isdigit c = true ∧ (byte_of c - 48 = Z.of_nat n)%Z.
Proof.
  intros Hn. do 10 (destruct n as [|n]; [by vm_compute|]). lia.
Qed.

Lemma to_string_fuel_digits (fuel n : nat) (acc : string) :
  (n < fuel)%nat →
  str_all isdigit acc = true →
  str_all isdigit (Balancer.to_string_fuel fuel n acc) = true
  ∧ Balancer.to_string_fuel fuel n acc ≠ ""
  ∧ ∃ k, (0 ≤ k)%Z
         ∧ ∀ a, read_digits (Balancer.to_string_fuel fuel n acc) a
                = read_digits acc (a * 10 ^ k + Z.of_nat n)%Z.
Proof.
  revert n acc. induction fuel as [|fuel IH]; intros n acc Hfuel Hacc; [lia|].
  cbn [Balancer.to_string_fuel].
  destruct (digit_char (n mod 10)) as [Hd Hv]; [apply Nat.mod_upper_bound; lia|].
  cbn zeta in Hd, Hv.
  destruct (n <? 10)%nat eqn:Hsmall.
  - apply Nat.ltb_lt in Hsmall. rewrite Nat.mod_small in * by done.
    cbn [str_all]. rewrite Hd, Hacc. split; [done|]. split; [done|].
    exists 1%Z. split; [lia|]. intros a. cbn [read_digits]. rewrite Hd, Hv. f_equal; lia.
  - apply Nat.ltb_ge in Hsmall.
    assert (n / 10 < fuel)%nat as Hdiv.
    { pose proof (Nat.div_lt n 10). lia. }
    destruct (IH (n / 10)%nat (String (ascii_of_nat (48 + n mod 10)) acc) Hdiv)
      as (Hall & Hne & k & Hk & Hread).
    { cbn [str_all]. by rewrite Hd, Hacc. }
    split; [done|]. split; [done|]. exists (k + 1)%Z. split; [lia|]. intros a.
    rewrite Hread. cbn [read_digits]. rewrite Hd, Hv. f_equal.
    rewrite Z.pow_add_r by lia. rewrite Nat2Z.inj_div, Nat2Z.inj_mod.
    change (Z.of_nat 10) with 10%Z. change (10 ^ 1)%Z with 10%Z.
    pose proof (Z.div_mod (Z.of_nat n) 10). lia.
Qed.

Lemma stoi_to_string (n : nat) :
  (Z.of_nat n ≤ INT_MAX)%Z →
  stoi (Balancer.to_string n) = Returns (Z.of_nat n)
  ∧ str_all isdigit (Balancer.to_string n) = true.
Proof.
  intros Hn. unfold Balancer.to_string.
  destruct (to_string_fuel_digits (S n) n "") as (Hall & Hne & k & Hk & Hread);
    [lia|done|].
  split; [|done]. unfold stoi.
  destruct (Balancer.to_string_fuel (S n) n "") as [|c digits] eqn:Hs; [done|].
  cbn [str_all] in Hall. apply andb_prop in Hall as [Hc Hall].
  cbn [skip_spaces]. rewrite (isdigit_not_space c Hc).
  destruct (isdigit_not_sign c Hc) as [-> ->]. cbn [starts_with_digit]. rewrite Hc.
  rewrite Hread. cbn [read_digits]. rewrite Z.mul_0_l, Z.add_0_l.
  assert ((INT_MIN <=? Z.of_nat n)%Z && (Z.of_nat n <=? INT_MAX)%Z = true) as ->; [|done].
  unfold INT_MIN, INT_MAX in *. lia.
Qed.

Lemma ascii_eqb_refl (c : ascii) : ascii_eqb c c = true.
Proof. by destruct c as [[] [] [] [] [] [] [] []]. Qed.

Lemma free_of_elem (chars : list ascii) (s : string) (c : ascii) :
  free_of chars s = true → c ∈ chars → contains_char c s = false.
Proof.
  unfold free_of. rewrite forallb_forall. intros Hall Hc.
  apply negb_true_iff, Hall. by apply list_elem_of_In.
Qed.

Lemma digits_free (c : ascii) (s : string) :
  isdigit c = false → str_all isdigit s = true → contains_char c s = false.
Proof.
  intros Hc. unfold contains_char. induction s as [|d s IH]; [done|].
  cbn [str_all find_char]. intros [Hd Hs]%andb_prop.
  destruct (ascii_eqb c d) eqn:Hcd.
  - apply Ascii.eqb_eq in Hcd as ->. congruence.
  - specialize (IH Hs). by destruct (find_char c s).
Qed.

Lemma contains_char_cons c d s :
  contains_char c (String d s) = ascii_eqb c d || contains_char c s.
Proof.
  unfold contains_char. cbn [find_char]. destruct (ascii_eqb c d); [done|].
  by destruct (find_char c s).
Qed.

Lemma concat_free (c : ascii) (items : list string) :
  ascii_eqb c "&" = false →
  Forall (fun x => contains_char c x = false) items →
  contains_char c (String.concat "&" items) = false.
Proof.
  intros Hamp. induction 1 as [|x items Hx _ IH]; [done|].
  destruct items as [|y items]; [done|].
  change (String.concat "&" (x :: y :: items))
    with (x +:+ String "&" (String.concat "&" (y :: items))).
  by rewrite contains_char_app, Hx, contains_char_cons, Hamp, IH.
Qed.

Lemma query_of_free (c : ascii) (pairs : list (string * string)) :
  ascii_eqb c "&" = false → ascii_eqb c "=" = false →
  Forall (fun kv => contains_char c kv.1 = false ∧ contains_char c kv.2 = false) pairs →
  contains_char c (query_of pairs) = false.
Proof.
  intros Hamp Heq Hall. unfold query_of. apply concat_free; [done|].
  apply Forall_fmap. eapply Forall_impl; [exact Hall|]. intros [k v] [Hk Hv].
  unfold compose. cbn [fst snd] in *.
  rewrite !contains_char_app, Hk, Hv. by rewrite contains_char_cons, Heq.
Qed.

Lemma find_char_none c s : contains_char c s = false → find_char c s = None.
Proof. unfold contains_char. by destruct (find_char c s). Qed.

Lemma rfind_char_none c s : contains_char c s = false → rfind_char c s = None.
Proof.
  induction s as [|d s IH]; [done|]. rewrite contains_char_cons.
  intros [Hcd Hs]%orb_false_iff. cbn [rfind_char]. by rewrite IH, Hcd.
Qed.

Lemma rfind_char_split c a b :
  contains_char c b = false →
  rfind_char c (a +:+ String c b) = Some (String.length a)
  ∧ substr (a +:+ String c b) 0 (String.length a) = a
  ∧ str_drop (String.length a + 1) (a +:+ String c b) = b.
Proof.
  intros Hb. unfold substr. induction a as [|d a (Hfind & Htake & Hdrop)].
  - rewrite str_app_nil. cbn [rfind_char]. rewrite rfind_char_none, ascii_eqb_refl by done.
    split; [done|]. split; [done|]. by destruct b.
  - rewrite str_app_cons. cbn [rfind_char String.length]. rewrite Hfind.
    split; [done|]. cbn [str_drop str_take Nat.add] in *. by rewrite Htake, Hdrop.
Qed.

(** [parse_url] on a URI with every part *)
Lemma parse_url_authority (uri scheme_ user host name : string) (port n : nat)
    (pairs : list (string * string)) :
  Utils.find "://" uri = Some n →
  substr uri 0 n = scheme_ →
  str_drop (n + 3) uri
  = ((user +:+ String "@" (host +:+ String ":" (Balancer.to_string port)))
     +:+ String "?" (query_of pairs)) +:+ String "#" name →
  uri_parts_ok user host port pairs →
  parse_url uri
  = {| scheme := scheme_; username := user; hostname := host;
       url_port := Z.of_nat port; path := ""; query := query_of pairs;
       fragment := url_decode name |}.
Proof.
  intros Hfind Hscheme Hrem (Huser & Hhost & Hbracket & Hport & Hpairs).
  destruct (stoi_to_string port Hport) as [Hstoi Hdigits].
  set (digits := Balancer.to_string port) in *.
  assert (∀ c, c ∈ ["#"; "?"; "/"; "@"]%char →
               contains_char c (user +:+ String "@" (host +:+ String ":" digits))
               = ascii_eqb c "@") as Hauth.
  { intros c Hc.
    rewrite contains_char_app, contains_char_cons, contains_char_app, contains_char_cons.
    rewrite (free_of_elem _ user c Huser) by set_solver.
    rewrite (free_of_elem _ host c Hhost) by done.
    rewrite (digits_free c digits); [|by set_solver by vm_compute|done].
    assert (ascii_eqb c ":" = false) as ->; [|by rewrite !orb_false_r].
    set_solver by vm_compute. }
  set (auth := user +:+ String "@" (host +:+ String ":" digits)) in *.
  assert (contains_char "#" (auth +:+ String "?" (query_of pairs)) = false) as Hhash.
  { rewrite contains_char_app, contains_char_cons, Hauth by set_solver.
    rewrite query_of_free; [done|done|done|].
    eapply Forall_impl; [exact Hpairs|]. by intros kv (_ & _ & ? & ?). }
  destruct (find_char_split "#" _ name Hhash) as (F1 & T1 & D1).
  destruct (find_char_split "?" auth (query_of pairs)) as (F2 & T2 & D2);
    [by rewrite Hauth by set_solver|].
  assert (find_char "/" auth = None) as F3
    by (apply find_char_none; by rewrite Hauth by set_solver).
  destruct (find_char_split "@" user (host +:+ String ":" digits)) as (F4 & T4 & D4);
    [apply (free_of_elem _ user _ Huser); set_solver|].
  destruct (rfind_char_split ":" host digits) as (F5 & T5 & D5);
    [by apply digits_free|].
  assert (url_decode user = user) as Hdecode.
  { apply url_decode_plain; apply (free_of_elem _ user _ Huser); set_solver. }
  assert (nonempty_first "[" (host +:+ String ":" digits) = false) as Hfirst.
  { destruct host as [|c host]; [done|]. by rewrite str_app_cons. }
  unfold parse_url. rewrite Hfind, Hscheme, Hrem. cbn iota.
  rewrite F1. cbn iota. rewrite D1, T1, F2. cbn iota. rewrite D2, T2, F3. cbn iota.
  unfold auth. rewrite F4. cbn iota. rewrite T4, D4, Hfirst, F5, D5, Hstoi, T5, Hdecode.
  done.
Qed.

Import Obfuscation.

Lemma stream_update_ready (o v : json) (key : string) :
  is_object o = true → stream_ok o →
  key ≠ "sockopt" → settable v = true →
  (∀ h, at_path ["headers"] v = Some h → settable h = true) →
  ∃ o', update_member o "streamSettings" (fun s => set_member s key v) = Returns o'
        ∧ is_object o' = true ∧ stream_ok o'
        ∧ at_path ["protocol"] o' = at_path ["protocol"] o.
Proof.
  intros Hobj Hstream Hkey Hv Hheaders.
  destruct (update_member_returns o "streamSettings" (fun s => set_member s key v))
    as [o' Ho']; [by apply is_object_settable| |].
  { apply set_member_returns.
    destruct (at_path ["streamSettings"] o) as [s|] eqn:Hs; [|done].
    apply is_object_settable. by destruct (Hstream s Hs). }
  exists o'. split; [done|]. split; [by eapply update_member_object|].
  destruct (stream_step o o' v key Ho' Hkey Hv Hheaders Hstream) as [? Hframe].
  split; [done|]. by apply Hframe.
Qed.

Lemma VLESS_returns (uri_ : string) :
  let parsed := parse_url uri_ in
  str_empty (hostname parsed) || str_empty (username parsed)
  || String.eqb (hostname parsed) "0.0.0.0" = false →
  ∃ cfg, VLESSParser_parse uri_ = Returns (Some cfg)
    ∧ uri cfg = uri_ ∧ host cfg = hostname parsed
    ∧ port cfg = (if (0 <? url_port parsed)%Z then url_port parsed else 443%Z)
    ∧ identity cfg = username parsed
    ∧ ps cfg = clean_ps_string (if str_empty (fragment parsed) then "Unknown"
                                else fragment parsed)
    ∧ at_path ["protocol"] (outbound cfg) = Some (JString "vless").
Proof.
  intros parsed Hguard. unfold VLESSParser_parse, VLESS_body. cbn zeta.
  fold parsed. rewrite Hguard. clear Hguard.
  set (params := parse_query_string (query parsed)).
  match goal with |- context [update_member ?o "streamSettings" _] => set (o0 := o) end.
  assert (is_object o0 = true ∧ stream_ok o0
          ∧ at_path ["protocol"] o0 = Some (JString "vless")) as Hready.
  { split; [done|]. split; [|by subst o0; rewrite obj_lookup_here].
    eapply plain_stream_ok.
    - subst o0. rewrite !obj_lookup_further by done. by rewrite obj_lookup_here.
    - repeat constructor; cbn; set_solver. }
  clearbody o0.
  assert (∀ (o : json) key v,
            (is_object o = true ∧ stream_ok o
             ∧ at_path ["protocol"] o = Some (JString "vless")) →
            key ≠ "sockopt" → settable v = true →
            (∀ h, at_path ["headers"] v = Some h → settable h = true) →
            ∃ o', update_member o "streamSettings" (fun s => set_member s key v)
                  = Returns o'
                  ∧ is_object o' = true ∧ stream_ok o'
                  ∧ at_path ["protocol"] o' = Some (JString "vless")) as Hstep.
  { intros o key v (Hobj & Hstream & Hproto) Hkey Hv Hh.
    destruct (stream_update_ready o v key Hobj Hstream Hkey Hv Hh)
      as (o' & Ho' & ? & ? & Hp).
    exists o'. by rewrite Hp. }
  match goal with |- context [try_catch (?m ≫= _)] =>
    assert (∃ o1, m = Returns o1
                  ∧ is_object o1 = true ∧ stream_ok o1
                  ∧ at_path ["protocol"] o1 = Some (JString "vless"))
      as (o1 & -> & Hready1) end.
  { destruct (_ || _); [|exists o0; split; [reflexivity|exact Hready]].
    destruct (_ =? "reality")%string.
    - cbn [set_member update_member obj mbind outcome_bind obind mret].
      apply Hstep; [done|done|done|].
      intros h Hh. cbn [at_path] in Hh.
      rewrite !lookup_insert_ne in Hh by done. done.
    - apply Hstep; [done|done|done|].
      intros h Hh. by rewrite !obj_lookup_further, obj_lookup_nil in Hh. }
  cbn [mbind outcome_bind obind].
  match goal with |- context [try_catch (?m ≫= _)] =>
    assert (∃ o2, m = Returns o2
                  ∧ is_object o2 = true ∧ stream_ok o2
                  ∧ at_path ["protocol"] o2 = Some (JString "vless"))
      as (o2 & -> & Hready2) end.
  { destruct (_ =? "ws")%string.
    - apply Hstep; [done|done|done|].
      intros h Hh. rewrite obj_lookup_further, obj_lookup_here in Hh by done.
      by injection Hh as <-.
    - destruct (_ =? "grpc")%string; [|exists o1; split; [reflexivity|exact Hready1]].
      apply Hstep; [done|done|done|].
      intros h Hh. by rewrite !obj_lookup_further, obj_lookup_nil in Hh. }
  cbn [mbind outcome_bind obind try_catch].
  eexists. split; [reflexivity|]. cbn. by destruct Hready2 as (_ & _ & ?).
Qed.

Lemma Trojan_returns (uri_ : string) :
  let parsed := parse_url uri_ in
  str_empty (hostname parsed) || str_empty (username parsed)
  || String.eqb (hostname parsed) "0.0.0.0" = false →
  ∃ cfg, TrojanParser_parse uri_ = Returns (Some cfg)
    ∧ uri cfg = uri_ ∧ host cfg = hostname parsed
    ∧ port cfg = (if (0 <? url_port parsed)%Z then url_port parsed else 443%Z)
    ∧ identity cfg = username parsed
    ∧ ps cfg = clean_ps_string (if str_empty (fragment parsed) then "Unknown"
                                else fragment parsed)
    ∧ at_path ["protocol"] (outbound cfg) = Some (JString "trojan").
Proof.
  intros parsed Hguard. unfold TrojanParser_parse, Trojan_body. cbn zeta.
  fold parsed. rewrite Hguard. cbn [try_catch].
  eexists. split; [reflexivity|]. cbn [uri host port identity ps outbound].
  by rewrite obj_lookup_here.
Qed.

Context `{JsonLib}.

(** X24: a [vless://] or [trojan://] URI assembled as
    [scheme://user@host:port?k1=v1&...#name] from a user and a host that are
    not empty, a host other than [0.0.0.0], and parts that hold none of the
    characters that delimit them is parsed back by [UniversalParser::parse]
    into a config with that very URI, host, user and port (443 for port 0),
    the cleaned decoded name as its remark ("Unknown" for an empty one) and an
    outbound of that protocol that dials the host and port. *)
Theorem authority_uri_round_trip (scheme_ user host_ name : string) (port_ : nat)
    (pairs : list (string * string)) :
  scheme_ ∈ ["vless"; "trojan"] →
  uri_parts_ok user host_ port_ pairs →
  user ≠ "" → host_ ≠ "" → host_ ≠ "0.0.0.0" →
  let uri_ := authority_uri scheme_ user host_ port_ pairs name in
  ∃ cfg, UniversalParser_parse uri_ = Returns (Some cfg)
    ∧ uri cfg = uri_
    ∧ host cfg = host_
    ∧ port cfg = (if (port_ =? 0)%nat then 443%Z else Z.of_nat port_)
    ∧ identity cfg = user
    ∧ ps cfg = clean_ps_string (if str_empty (url_decode name) then "Unknown"
                                else url_decode name)
    ∧ at_path ["protocol"] (outbound cfg) = Some (JString scheme_)
    ∧ outbound_shape (outbound cfg) host_
        (if (port_ =? 0)%nat then 443%Z else Z.of_nat port_).
Proof.
  intros Hscheme Hparts Huser Hhost Hzero uri_.
  assert (str_empty host_ || str_empty user || String.eqb host_ "0.0.0.0" = false)
    as Hguard.
  { destruct host_; [done|]. destruct user; [done|]. cbn [str_empty orb].
    by apply String.eqb_neq. }
  assert ((if (0 <? Z.of_nat port_)%Z then Z.of_nat port_ else 443%Z)
          = (if (port_ =? 0)%nat then 443%Z else Z.of_nat port_)) as Hport.
  { destruct port_; [done|]. cbn [Nat.eqb]. by destruct (Z.ltb_spec 0 (Z.of_nat (S port_))); [|lia]. }
  assert (∃ n, Utils.find "://" uri_ = Some n ∧ substr uri_ 0 n = scheme_
               ∧ to_lower scheme_ = scheme_
               ∧ str_drop (n + 3) uri_
                 = ((user +:+ String "@" (host_ +:+ String ":" (Balancer.to_string port_)))
                    +:+ String "?" (query_of pairs)) +:+ String "#" name)
    as (n & Hfind & Hsub & Hlower & Hrest).
  { subst uri_. unfold authority_uri.
    apply list_elem_of_In in Hscheme.
    destruct Hscheme as [<-|[<-|[]]].
    - exists 5%nat. rewrite !str_app_cons, !str_app_nil.
      generalize (((user +:+ String "@" (host_ +:+ String ":" (Balancer.to_string port_)))
                   +:+ String "?" (query_of pairs)) +:+ String "#" name).
      intros rest. destruct rest; repeat split; reflexivity.
    - exists 6%nat. rewrite !str_app_cons, !str_app_nil.
      generalize (((user +:+ String "@" (host_ +:+ String ":" (Balancer.to_string port_)))
                   +:+ String "?" (query_of pairs)) +:+ String "#" name).
      intros rest. destruct rest; repeat split; reflexivity. }
  pose proof (parse_url_authority uri_ scheme_ user host_ name port_ n pairs
                Hfind Hsub Hrest Hparts) as Hparse.
  assert (str_empty uri_ = false) as Hne.
  { subst uri_. unfold authority_uri.
    apply list_elem_of_In in Hscheme.
    destruct Hscheme as [<-|[<-|[]]]; by rewrite !str_app_cons. }
  unfold UniversalParser_parse. rewrite Hne, Hfind. cbn zeta. rewrite Hsub, Hlower.
  apply list_elem_of_In in Hscheme.
  destruct Hscheme as [<-|[<-|[]]]; cbn [String.eqb Ascii.eqb Bool.eqb].
  - destruct (VLESS_returns uri_) as (cfg & Hcfg & Huri & Hh & Hp & Hi & Hps & Hproto).
    { cbn zeta. by rewrite Hparse. }
    rewrite Hparse in Hh, Hp, Hi, Hps. cbn [hostname url_port username fragment] in *.
    rewrite Hport in Hp.
    exists cfg. repeat (split; [done|]).
    rewrite <- Hh, <- Hp. by eapply VLESS_shape.
  - destruct (Trojan_returns uri_) as (cfg & Hcfg & Huri & Hh & Hp & Hi & Hps & Hproto).
    { cbn zeta. by rewrite Hparse. }
    rewrite Hparse in Hh, Hp, Hi, Hps. cbn [hostname url_port username fragment] in *.
    rewrite Hport in Hp.
    exists cfg. repeat (split; [done|]).
    rewrite <- Hh, <- Hp. by eapply Trojan_shape.
Qed.

End FormatProperties.

Lemma authority_uri_round_trip_witness :
  ∃ cfg,
    UriParser.UniversalParser_parse (H := Sample.stdlib) (H0 := Sample.jsonlib)
      "vless://id-1@example.org:2053?security=tls&type=ws#my%20node"
    = Returns (Some cfg)
    ∧ UriParser.host cfg = "example.org" ∧ UriParser.port cfg = 2053%Z
    ∧ UriParser.identity cfg = "id-1".
Proof.
  destruct (authority_uri_round_trip (H := Sample.stdlib) (H0 := Sample.jsonlib)
              "vless" "id-1" "example.org" "my%20node" 2053
              [("security", "tls"); ("type", "ws")])
    as (cfg & Hcfg & _ & Hh & Hp & Hi & _).
  - apply list_elem_of_here.
  - repeat split; try reflexivity.
    + vm_compute. discriminate.
    + repeat constructor.
  - discriminate.
  - discriminate.
  - discriminate.
  - exists cfg. split; [exact Hcfg|]. split; [exact Hh|]. split; [exact Hp|exact Hi].
Defined.
